(* ===== verification/_CoqProject ===== *)
-Q . S2P
Prelude.v
JsValues.v
JsHeap.v
Web4Compiler.v
Nicknames.v
WalletEngine.v
AliasService.v
Serialize.v
Script.v
DerSignature.v
Base58.v
Money.v
Arith.v
Merkle.v
Header.v
BlockIndex.v
Pow.v
NicknameOp.v
Transaction.v
TxSerialize.v
Interpreter.v
ScriptRules.v
SpendRules.v
SigHash.v
Compressor.v
Coins.v
CoinsSerialize.v
CoinsCache.v
TxVerify.v
ConnectCoins.v
CoinsRules.v
CoinsSupply.v
CoinsVersions.v
AuxPow.v
HeaderChain.v
VersionBits.v
Block.v
NicknameDB.v
NicknameBatch.v
NicknameState.v
NicknameRules.v
NicknameBlock.v
NicknameChain.v
ConnectBlock.v
TipRules.v
OwnerAuth.v
