(* ===== verification/Prelude.v ===== *)
(** * Kubu Core: a verification development

    Kubu Core is a full node of a cryptocurrency (C++, under [src/src]) with a
    consensus-level registry of nicknames, a small JavaScript front end (a page
    compiler and a wallet page) and a Go service with a table of handles.  This
    library models the node from the bytes of transactions and blocks to the
    coins and nicknames it keeps at the tip of its chain, the chain of block
    headers from 256-bit arithmetic to the handler of a headers message, the
    script interpreter, the front end and the service, and proves what makes
    them correct.

    ** How the parts interact

    A wallet builds a nickname operation into an [OP_RETURN] script
    ([nicknameop.cpp]); the script carries a normalised name ([nicknames.cpp]),
    public keys and a payout destination written with the stream formats
    ([serialize.h], [streams.h]) and pushed with the script encoding
    ([script/script.h]).  Addresses are Base58Check texts ([base58.cpp]).
    [validation.cpp] extracts the operation of every transaction, checks fee,
    authorization and bond in the mempool and, when a block is connected, over
    working copies of the records; the result is written in one batch to the
    nickname database ([nicknamedb.cpp]) with undo records that disconnecting
    the block applies.

    Blocks form a tree of headers ([chain.h], [chain.cpp]).  A header arrives
    in a message, proves its work itself or by a parent chain's block
    ([auxpow.cpp], [kubu.cpp]), must have the target that the blocks before it
    demand ([pow.cpp], over [arith_uint256.cpp]) and is added to the index
    ([validation.cpp]); the tree decides which soft forks are active
    ([versionbits.cpp]), and merkle roots tie headers to transactions
    ([consensus/merkle.cpp]).

    Connecting a block ([ConnectTip], [ConnectBlock]) checks its form, its
    deployments, the amounts and lock times of its transactions, runs their
    scripts ([script/interpreter.cpp]) over the signed digests
    ([SignatureHash]), spends and creates coins through a cache over a database
    ([coins.cpp], [txdb.cpp], stored compressed by [compressor.cpp]), writes an
    undo record ([undo.h]) and applies the nickname rules.  The signature that
    a nickname operation needs is the one that the scripts of its inputs check.

    The page compiler ([compiler.cjs]) turns a YAML document of formats, data
    sources and a tree of nodes into a page that loads the wallet script
    ([wallet-engine.js], [ether.js]), which sends payments by name.  The Go
    service ([state/alias.go], [rpc/api.go], [kubu-tx/core/tx_processor.go])
    has its own table of handles, apart from the node's.

    ** Files

    Foundations and the programs beside the node:

    - [Prelude]: results of fallible code ([result], [reject]), machine
      integers at their width, bytes, tactics, hints, shared lemmas.
    - [JsValues]: the part of JavaScript the programs share: strings, lists of
      properties, values of JSON texts.
    - [JsHeap]: objects as locations of a store, with what they inherit.
    - [Web4Compiler]: [src/www/kubucoin.org/default/compiler.cjs]: the whole
      compilation over a store that may share objects and go in circles
      ([resolveNode]), next to what a page denotes ([render]).
    - [WalletEngine]: [src/Client-Side/assets/js/wallet-engine.js] and
      [src/vendors/ether.js]: page events as a step relation over the state of
      the page and the provider.
    - [AliasService]: the Go service: the table, the request handler, the
      transaction processor, and goroutines under the lock as a step relation
      ([go_step]).

    Formats and arithmetic:

    - [Serialize]: [src/src/serialize.h] and [streams.h]: compact sizes,
      variable-length integers, strings, vectors, [CDataStream]; the class
      [Serializable] with its contract [SerializeOk].
    - [Base58]: [src/src/base58.cpp]: Base58, Base58Check and addresses; it
      implements the interface [AddressCodec] that [NicknameOp] uses.
    - [Money]: [src/src/utilmoneystr.cpp] and [amount.cpp].
    - [Arith]: [src/src/arith_uint256.cpp]: eight limbs, every operation as its
      loop, the compact form of targets; [val] is the number of the limbs.
    - [Merkle]: [src/src/consensus/merkle.cpp]: the constant-space computation
      with its array of subtree hashes, next to the tree ([merkle_root]).
    - [Transaction], [TxSerialize]: [src/src/primitives/transaction.h]: the
      data of transactions, blocks and undo records; the format with and
      without witnesses, and identifiers.
    - [Compressor]: [src/src/compressor.cpp]: compressed amounts and scripts.

    Scripts:

    - [Script]: [src/src/script/script.h], [standard.cpp], [pubkey.h]: pushes,
      opcodes, [CScriptNum], the standard scripts and [Solver].  Hashes and the
      curve are the parameters [CryptoOps].
    - [DerSignature]: the strict encoding of signatures and the lenient parser
      of [src/src/pubkey.cpp].
    - [Interpreter]: [src/src/script/interpreter.cpp]: [EvalScript] with every
      opcode, [VerifyScript], [VerifyWitnessProgram]; an [outcome] carries the
      [ScriptError].
    - [ScriptRules], [SpendRules]: flags, limits, and what the standard outputs
      demand of their spenders.
    - [SigHash]: [SignatureHash] and [TransactionSignatureChecker].

    Headers:

    - [Header]: [src/src/primitives/pureheader.h]: headers and their version
      field.
    - [BlockIndex]: [src/src/chain.cpp], [chain.h], [AddToBlockIndex]: the
      index as a finite map from hashes, pointers as hashes; skip list, work,
      median time, active chain, locators, forks.
    - [Pow]: [src/src/pow.cpp], [kubu.cpp], [chainparams.cpp]: parameters by
      height, the next target, the check of work, the subsidy.
    - [AuxPow]: [src/src/auxpow.cpp]: merge-mining proofs.
    - [HeaderChain]: the header handlers of [src/src/validation.cpp], over the
      index and the set of failed blocks; the transition system [chain_step]
      and its invariant [header_inv].
    - [VersionBits]: [src/src/versionbits.cpp]: deployment states with their
      cache, next to BIP 9 as a relation over the periods ([bip9]).

    Coins:

    - [Coins], [CoinsSerialize]: [CCoins] of [src/src/coins.h] and its stored
      form, the undo records of [src/src/undo.h].
    - [CoinsCache]: [src/src/coins.cpp] and [CCoinsViewDB]: the class
      [CCoinsView] with its laws; the cache implements it over any view; code
      that uses a cache is a program ([coins_prog]), run on a cache or on a
      plain map ([coins_run]).
    - [TxVerify]: the checks of a transaction, [CheckTxInputs], [CheckInputs].
    - [ConnectCoins]: [UpdateCoins], [ApplyTxInUndo] and the coins part of
      [ConnectBlock] and [DisconnectBlock].
    - [CoinsRules], [CoinsSupply]: undoing a block, and the value it creates.
    - [CoinsVersions]: coins up to the versions that the stored form does not
      keep, and that connecting and disconnecting do not depend on them.

    Nicknames:

    - [Nicknames]: [src/src/nicknames.cpp]: normalisation, validity, prices,
      the pricing controller, status.
    - [NicknameOp]: [src/src/nicknameop.cpp].
    - [NicknameDB]: [src/src/nicknamedb.cpp]: the store as one finite map per
      table, batches as lists of writes, all operations.
    - [NicknameBatch]: what a batch does to each table, the consistency of the
      indexes ([db_inv]), and that undoing a batch restores the store.
    - [NicknameState]: the nickname part of [src/src/validation.cpp]: one
      definition per function, lambda and case of the [switch].
    - [NicknameRules]: the rules as a relation between records ([legal]) and
      that the [switch] is exactly that relation.
    - [NicknameBlock]: the invariant of the working state of a block
      ([work_inv]) and that a block is a run of the rules ([block_steps]).
    - [NicknameChain]: the properties of connecting and disconnecting blocks,
      of bonds, ownership, mempool and pricing; an example chain.

    The node:

    - [Block]: the format of blocks with merge-mining proofs; [CheckBlock],
      [ContextualCheckBlock].
    - [ConnectBlock]: [ConnectBlock], [DisconnectBlock], [ConnectTip] and
      [DisconnectTip] over the state [Chainstate].
    - [TipRules]: the transition system [node_step] of connecting,
      disconnecting, flushing and evicting, and what holds in every [reachable]
      state.
    - [OwnerAuth]: nickname rules and script rules together.

    ** What is shown

    - Node: the state is a function of the tip, whatever reorganisations led
      there, with the coins written to the database and the undo records to
      their files as bytes and read back; every tip can be disconnected; the
      coins in existence are bounded by the subsidies; stored coins are read
      back but for a negative version; a name in use changes only by a
      transaction with an input that its owner's key unlocks, with a signature
      where the output pays to the key or its hash, and without one where it
      pays to a witness program.
    - Coins: any stack of caches shows what plain maps show; disconnecting a
      block restores the coins it was connected to.
    - Scripts: more flags accept fewer spends; evaluation stays within its
      limits; an output that pays to a key hash is spent only with a signature
      of that key; what a signature commits to, for each hash type; strict
      signatures are canonical and parse.
    - Nicknames: connecting a block refines the per-name rules; disconnecting
      it restores the database; indexes stay exact; bonds of recorded names
      stay unspent; the mempool accepts what a block accepts; the incremental
      registration count is the count over the window.
    - Headers: in every state that header messages and failed blocks can
      produce, each block of the index has work behind it, the required target,
      a time after the median and an allowed version, and the best header has
      the most work; the handler fails no assertion, until a failed block is
      reconsidered; one parent coinbase proves one block, and a proof made as
      the protocol says is accepted; deployment states computed with the cache
      are those of BIP 9.
    - Trees: the skip list finds ancestors, both fork finders agree, locators
      find a common block; merkle roots are those of the tree, branches verify,
      and a root binds its list when no mutation is reported.
    - Arithmetic: limb operations are operations modulo [2 ^ 256]; the compact
      form rounds down; the next target is the filtered one within its limits;
      the supply in closed form.
    - Formats: building and extracting an operation are inverse, and what is
      extracted is canonical; compact sizes, variable-length integers, script
      numbers, standard scripts, Base58, addresses, amounts, transactions,
      blocks and compressed outputs round-trip, coins and undo records up to a
      negative version; the decoders accept only what the encoders write where
      the code is canonical.
    - Rules: validity is exactly the documented form; prices are exact and
      valid amounts; the pricing controller is bounded, monotone and settles.
    - JavaScript and Go: compiling a page writes what it denotes; resolving a
      node terminates unless it leads into a circle; payments leave the page
      only for confirmed, resolved names; both front ends normalise names
      alike; concurrent calls of the alias service are linearizable and do not
      deadlock; an alias keeps its owner.

    ** Hypotheses

    Hash functions, the curve and the signature algorithm are arbitrary
    functions ([CryptoOps], [PowOps], [PubKeyOps], [SignatureOps],
    [ScriptHashOps]), as are the accounts of the Go service ([AccountOps]), the
    numbers and built-in objects of JavaScript ([JsNumbers], [JsRealm]), the
    YAML parser, the scripts of a page and the lower case of text that is not
    ASCII; where a theorem needs it, digests are 256-bit numbers, the hashed
    pairs at hand do not collide ([no_collision]), and a point of the curve is
    determined by its compressed form ([PubKeyLaws]).  Theorems about headers
    start from a genesis block whose target is within the limit and parameters
    whose retargeting cannot overflow ([network_ok]), as those of the main
    network are.

    Theorems about the node are about a tree of blocks ([files_ok]) stored
    under the hashes of their headers, up to a height of 900 million, in which
    no transaction identifier occurs twice on a branch: BIP 30 keeps one with
    unspent outputs from being repeated, and BIP 34 makes coinbases differ.
    The nickname theorems need it for the transactions of one block ([txs_ok])
    and a database that is consistent ([chain_inv]), which the empty one is and
    which they preserve.  Versions of transactions are 32-bit numbers
    ([fo_versions]).  The theorem on owners' signatures is about blocks whose
    scripts are checked ([fScriptChecks]), as all are but those below a block
    assumed to be valid.  A page's scripts print their data and change
    nothing else ([prints]).

    ** Fuel and bounds

    Recursion over lists and numbers is structural or has fuel equal to a size
    of its input (decimal digits: 20 for 64-bit numbers; Base58: the size the
    code allocates; nodes of a page: the number of objects; scripts: their
    length; bit masks: the bytes of the mask; walks in the block index: the
    height of the block; merkle levels: 32), and the theorems show that the
    fuel does not run out, but for nodes of a page that lead into a circle,
    where the program does not return either.  Integers carry their width where
    a value can leave it ([i32], [i64], [u32], [u64]).

    ** What is not modelled

    Networking, the wallet, the RPC and Qt layers and the portal server
    ([server.go]), which are input and output around the modelled functions;
    the data structure of the mempool, fee estimation and the miner that draws
    on it; block files, the positions of undo records in their files, pruning,
    and the choice of the branch to activate ([ActivateBestChain]), of which
    the steps are modelled; the signature cache and the threads of script
    checks, which the code treats as the checks themselves; LevelDB and its
    failures; the node without a nickname database.  The Solidity contract
    [KubuNameRegistry.sol] assigns a string to an address and has no meaning to
    model.  The manifest lists every part.  *)

From stdpp Require Export base tactics numbers list gmap strings sorting.
From Stdlib Require Export ZArith Lia.
From Stdlib Require Ascii String.
From Stdlib.Strings Require Export Byte.

(** ** Scopes *)

Declare Scope kubu_scope.
Delimit Scope kubu_scope with kubu.

(** ** Results of fallible code

    The C++ functions return [bool] and write an explanation to a
    [std::string& reason] out-parameter, or throw.  Both are a value of
    [result]: [Ok] carries the out-parameters of a successful call, [Err] the
    text of the reason or of the exception. *)

Inductive result (A : Type) : Type :=
| Ok (a : A)
| Err (reason : string).
Arguments Ok {A} a.
Arguments Err {A} reason.

#[export] Instance result_ret : MRet result := fun A a => Ok a.
#[export] Instance result_bind : MBind result := fun A B f r =>
  match r with Ok a => f a | Err e => Err e end.

Definition is_ok {A} (r : result A) : bool :=
  match r with Ok _ => true | Err _ => false end.

(** [whenever b msg k] is the early return [if (b) { reason = msg; return false; }] in front of [k]. *)
Definition whenever {A} (b : bool) (msg : string) (k : result A) : result A :=
  if b then Err msg else k.

Notation "'reject' b 'with' msg ; k" := (whenever b msg k)
  (at level 200, b at level 199, msg at level 199, k at level 200,
   format "'[v' 'reject'  b  'with'  msg ; '/' k ']'") : kubu_scope.

(** ** Machine integers

    A [w]-bit integer is a [Z]; the wrap-around of the type is written where a
    conversion or an operation can leave the range. *)

Definition wrap_u (w z : Z) : Z := z mod 2 ^ w.
Definition wrap_s (w z : Z) : Z := (z + 2 ^ (w - 1)) mod 2 ^ w - 2 ^ (w - 1).

Definition u32 (z : Z) : Z := wrap_u 32 z.
Definition u64 (z : Z) : Z := wrap_u 64 z.
Definition i32 (z : Z) : Z := wrap_s 32 z.
Definition i64 (z : Z) : Z := wrap_s 64 z.

Definition in_i32 (z : Z) : Prop := (- 2 ^ 31 <= z < 2 ^ 31)%Z.
Definition in_i64 (z : Z) : Prop := (- 2 ^ 63 <= z < 2 ^ 63)%Z.
Definition in_u32 (z : Z) : Prop := (0 <= z < 2 ^ 32)%Z.
Definition in_u64 (z : Z) : Prop := (0 <= z < 2 ^ 64)%Z.
Definition UINT32_MAX : Z := 4294967295.

(** ** Bytes *)

Notation bytes := (list byte).

Definition u8 (z : Z) : byte :=
  match Byte.of_N (Z.to_N (z mod 256)) with Some b => b | None => x00 end.
Definition ub (b : byte) : Z := Z.of_N (Byte.to_N b).

#[export] Instance byte_eq_dec : EqDecision byte := Byte.byte_eq_dec.

Definition bytes_of_string (s : string) : bytes := String.list_byte_of_string s.
Definition string_of_bytes (bs : bytes) : string := String.string_of_list_byte bs.

(** Little-endian fixed-width fields ([htole16/32/64] and [WriteLE16/32/64]). *)
Fixpoint le_bytes (n : nat) (z : Z) : bytes :=
  match n with
  | O => []
  | S n' => u8 z :: le_bytes n' (z / 256)
  end.
Fixpoint le_value (bs : bytes) : Z :=
  match bs with
  | [] => 0
  | b :: bs' => ub b + 256 * le_value bs'
  end.

(** ** Tactics *)

(** Boolean comparisons on [Z] and [nat] as propositions. *)
Ltac zbool :=
  repeat match goal with
  | H : (_ && _)%bool = true |- _ => apply andb_prop in H as [? ?]
  | H : (_ || _)%bool = true |- _ => apply orb_prop in H as [?|?]
  | H : (_ && _)%bool = false |- _ => apply andb_false_iff in H as [?|?]
  | H : (_ || _)%bool = false |- _ => apply orb_false_elim in H as [? ?]
  | H : negb _ = true |- _ => apply negb_true_iff in H
  | H : negb _ = false |- _ => apply negb_false_iff in H
  | H : (_ <? _)%Z = true |- _ => apply Z.ltb_lt in H
  | H : (_ <? _)%Z = false |- _ => apply Z.ltb_ge in H
  | H : (_ <=? _)%Z = true |- _ => apply Z.leb_le in H
  | H : (_ <=? _)%Z = false |- _ => apply Z.leb_gt in H
  | H : (_ =? _)%Z = true |- _ => apply Z.eqb_eq in H
  | H : (_ =? _)%Z = false |- _ => apply Z.eqb_neq in H
  | H : (_ <? _)%nat = true |- _ => apply Nat.ltb_lt in H
  | H : (_ <? _)%nat = false |- _ => apply Nat.ltb_ge in H
  | H : (_ <=? _)%nat = true |- _ => apply Nat.leb_le in H
  | H : (_ <=? _)%nat = false |- _ => apply Nat.leb_gt in H
  | H : (_ =? _)%nat = true |- _ => apply Nat.eqb_eq in H
  | H : (_ =? _)%nat = false |- _ => apply Nat.eqb_neq in H
  | H : bool_decide _ = true |- _ => apply bool_decide_eq_true in H
  | H : bool_decide _ = false |- _ => apply bool_decide_eq_false in H
  end.

(** Split every [if] of the goal or of the hypotheses, with its equation. *)
Ltac split_ifs :=
  repeat match goal with
  | |- context [if ?b then _ else _] => let E := fresh "E" in destruct b eqn:E
  | H : context [if ?b then _ else _] |- _ => let E := fresh "E" in destruct b eqn:E
  end; zbool.

(** Walk through a [result] computation that returned [Ok]. *)
Ltac inv_ok :=
  repeat match goal with
  | H : whenever ?b _ _ = Ok _ |- _ =>
      let E := fresh "E" in unfold whenever in H at 1; destruct b eqn:E; [discriminate H|]
  | H : Ok _ = Ok _ |- _ => injection H as H; subst
  | H : Err _ = Ok _ |- _ => discriminate H
  | H : Ok _ = Err _ |- _ => discriminate H
  | H : mbind _ ?r = Ok _ |- _ =>
      let E := fresh "E" in destruct r eqn:E; cbn [mbind result_bind] in H; [|discriminate H]
  end.

Create HintDb kubu.

(** ** Lemmas on results *)

Lemma reject_ok {A} b msg (k : result A) a : whenever b msg k = Ok a <-> b = false /\ k = Ok a.
Proof. unfold whenever. destruct b; naive_solver. Qed.
Lemma reject_false {A} b msg (k : result A) : b = false -> whenever b msg k = k.
Proof. unfold whenever. by intros ->. Qed.
Lemma bind_ok {A B} (f : A -> result B) m b : m ≫= f = Ok b <-> exists a, m = Ok a /\ f a = Ok b.
Proof. destruct m; cbn; naive_solver. Qed.

Lemma and_iff_under (P Q R : Prop) : (P -> Q <-> R) -> (P /\ Q <-> P /\ R).
Proof. tauto. Qed.

(** ** Lemmas on lists *)

Lemma filter_all {A} (P : A -> Prop) `{!forall x, Decision (P x)} (l : list A) : Forall P l -> filter P l = l.
Proof. induction 1; [done|]. rewrite filter_cons_True by done. by f_equal. Qed.
Lemma filter_none {A} (P : A -> Prop) `{!forall x, Decision (P x)} (l : list A) :
  Forall (fun x => ~ P x) l -> filter P l = [].
Proof. induction 1; [done|]. by rewrite filter_cons_False. Qed.

(** ** Lemmas on machine integers *)

Section MachineIntegers.
Open Scope Z_scope.

Lemma wrap_u_id w z : 0 <= z < 2 ^ w -> wrap_u w z = z.
Proof. intros H. unfold wrap_u. by apply Z.mod_small. Qed.

Lemma wrap_s_id w z : 0 < w -> - 2 ^ (w - 1) <= z < 2 ^ (w - 1) -> wrap_s w z = z.
Proof.
  intros Hw H. unfold wrap_s.
  assert (2 ^ w = 2 * 2 ^ (w - 1)) as E.
  { rewrite <- Z.pow_succ_r by lia. f_equal. lia. }
  rewrite Z.mod_small; lia.
Qed.

Lemma wrap_s_range w z : 0 < w -> - 2 ^ (w - 1) <= wrap_s w z < 2 ^ (w - 1).
Proof.
  intros Hw. unfold wrap_s.
  assert (2 ^ w = 2 * 2 ^ (w - 1)) as E.
  { rewrite <- Z.pow_succ_r by lia. f_equal. lia. }
  pose proof (Z.pow_pos_nonneg 2 (w - 1) ltac:(lia) ltac:(lia)).
  pose proof (Z.mod_pos_bound (z + 2 ^ (w - 1)) (2 ^ w) ltac:(lia)). lia.
Qed.

Lemma i32_id z : in_i32 z -> i32 z = z.
Proof. apply (wrap_s_id 32). lia. Qed.
Lemma i64_id z : in_i64 z -> i64 z = z.
Proof. apply (wrap_s_id 64). lia. Qed.
Lemma u32_id z : in_u32 z -> u32 z = z.
Proof. apply (wrap_u_id 32). Qed.
Lemma u32_range z : in_u32 (u32 z).
Proof. apply Z.mod_pos_bound. lia. Qed.
Lemma u64_id z : in_u64 z -> u64 z = z.
Proof. apply (wrap_u_id 64). Qed.

Lemma testbit_small a k i : 0 <= a < 2 ^ k -> 0 <= k <= i -> Z.testbit a i = false.
Proof. intros Ha Hi. rewrite <- (Z.mod_small a (2 ^ k)) by done. apply Z.mod_pow2_bits_high. lia. Qed.

(** Disjoint bit ranges: [lor] is [+]. *)
Lemma lor_add_low a b k : 0 <= k -> 0 <= b < 2 ^ k -> Z.lor (a * 2 ^ k) b = a * 2 ^ k + b.
Proof.
  intros Hk Hb. rewrite <- Z.add_lor_land. replace (Z.land _ _) with 0; [lia|].
  symmetry. apply Z.bits_inj'. intros i Hi. rewrite Z.land_spec, Z.bits_0.
  destruct (Z.ltb_spec i k).
  - by rewrite Z.mul_pow2_bits_low by lia.
  - rewrite (testbit_small b k i) by lia. apply andb_false_r.
Qed.

(** The bit 7 and the seven low bits of a byte value. *)
Lemma digit_high z : 0 <= z < 256 -> Z.land z 128 = if z <? 128 then 0 else 128.
Proof.
  intros Hz. change 128 with (2 ^ 7) at 1. destruct (Z.ltb_spec z 128) as [Hl|Hl].
  - apply Z.bits_inj'. intros i Hi. rewrite Z.land_spec, Z.pow2_bits_eqb, Z.bits_0 by lia.
    destruct (Z.eqb_spec 7 i) as [<-|]; [|apply andb_false_r]. by rewrite (testbit_small z 7 7) by lia.
  - replace z with (1 * 2 ^ 7 + (z - 128)) by lia. rewrite <- lor_add_low by lia.
    rewrite Z.land_lor_distr_l. replace (Z.land (z - 128) (2 ^ 7)) with 0; [done|]. symmetry.
    apply Z.bits_inj'. intros i Hi. rewrite Z.land_spec, Z.pow2_bits_eqb, Z.bits_0 by lia.
    destruct (Z.eqb_spec 7 i) as [<-|]; [|apply andb_false_r]. by rewrite (testbit_small (z - 128) 7 7) by lia.
Qed.

Lemma digit_low z : 0 <= z < 256 -> Z.land z 127 = if z <? 128 then z else z - 128.
Proof.
  intros Hz. change 127 with (Z.ones 7). rewrite Z.land_ones by lia. change (2 ^ 7) with 128.
  destruct (Z.ltb_spec z 128); [apply Z.mod_small; lia|].
  replace z with (z - 128 + 1 * 128) at 1 by lia. rewrite Z_mod_plus_full. apply Z.mod_small. lia.
Qed.

Lemma lor_high z : 0 <= z < 128 -> Z.lor z 128 = z + 128.
Proof.
  intros Hz. rewrite Z.lor_comm. pose proof (lor_add_low 1 z 7 ltac:(lia) ltac:(lia)) as E.
  change (1 * 2 ^ 7) with 128 in E. lia.
Qed.

(** Clearing a bit that is set. *)
Lemma land_clear_bit r k : 0 <= k -> Z.testbit r k = true -> Z.land r (Z.lnot (2 ^ k)) = r - 2 ^ k.
Proof.
  intros Hk Ht. rewrite <- Z.ldiff_land. symmetry. apply Z.sub_nocarry_ldiff.
  apply Z.bits_inj'. intros i Hi. rewrite Z.ldiff_spec, Z.pow2_bits_eqb, Z.bits_0 by lia.
  destruct (Z.eqb_spec k i) as [<-|]; [by rewrite Ht|done].
Qed.

End MachineIntegers.

#[export] Hint Resolve i32_id i64_id u32_id u64_id : kubu.

(** ** Lemmas on bytes *)

Section Bytes.
Open Scope Z_scope.

Lemma ub_range b : 0 <= ub b < 256.
Proof.
  unfold ub. pose proof (Byte.to_N_bounded b). lia.
Qed.

Lemma ub_u8 z : ub (u8 z) = z mod 256.
Proof.
  unfold ub, u8.
  pose proof (Z.mod_pos_bound z 256 ltac:(lia)) as Hz.
  destruct (Byte.of_N (Z.to_N (z mod 256))) as [b|] eqn:E.
  - apply Byte.to_of_N in E. lia.
  - apply Byte.of_N_None_iff in E. lia.
Qed.

Lemma ub_inj a b : ub a = ub b -> a = b.
Proof.
  unfold ub. intros H. apply N2Z.inj in H.
  pose proof (Byte.of_to_N a) as Ha. pose proof (Byte.of_to_N b) as Hb. congruence.
Qed.

Lemma u8_ub b : u8 (ub b) = b.
Proof. apply ub_inj. rewrite ub_u8. apply Z.mod_small, ub_range. Qed.

Lemma u8_inj a b : 0 <= a < 256 -> 0 <= b < 256 -> u8 a = u8 b -> a = b.
Proof.
  intros Ha Hb H. apply (f_equal ub) in H. rewrite !ub_u8 in H.
  by rewrite !Z.mod_small in H by lia.
Qed.

Lemma length_le_bytes n z : length (le_bytes n z) = n.
Proof. revert z. induction n; intros; simpl; auto. Qed.

Lemma le_value_range bs : 0 <= le_value bs < 256 ^ Z.of_nat (length bs).
Proof.
  induction bs as [|b bs IH]; simpl; [lia|].
  pose proof (ub_range b). rewrite Nat2Z.inj_succ, Z.pow_succ_r by lia. lia.
Qed.

Lemma le_value_bytes n z : le_value (le_bytes n z) = z mod 256 ^ Z.of_nat n.
Proof.
  revert z. induction n as [|n IH]; intros z; [by rewrite Z.mod_1_r|].
  cbn [le_bytes le_value]. rewrite IH, ub_u8, Nat2Z.inj_succ, Z.pow_succ_r by lia.
  rewrite Z.rem_mul_r by lia. lia.
Qed.

Lemma le_bytes_value bs : le_bytes (length bs) (le_value bs) = bs.
Proof.
  induction bs as [|b bs IH]; [done|]. cbn [length le_value le_bytes].
  pose proof (ub_range b) as Hb. f_equal.
  - apply ub_inj. rewrite ub_u8.
    rewrite Z.mul_comm, Z_mod_plus_full. by apply Z.mod_small.
  - rewrite Z.mul_comm, Z.div_add by lia. rewrite Z.div_small by lia. apply IH.
Qed.

Lemma le_value_bytes_id n z : 0 <= z < 256 ^ Z.of_nat n -> le_value (le_bytes n z) = z.
Proof. intros H. rewrite le_value_bytes. by apply Z.mod_small. Qed.

Lemma string_of_bytes_of_string s : string_of_bytes (bytes_of_string s) = s.
Proof. apply String.string_of_list_byte_of_string. Qed.

Lemma bytes_of_string_of_bytes bs : bytes_of_string (string_of_bytes bs) = bs.
Proof. apply String.list_byte_of_string_of_list_byte. Qed.

Lemma length_bytes_of_string s : length (bytes_of_string s) = String.length s.
Proof.
  unfold bytes_of_string, String.list_byte_of_string. rewrite length_map.
  induction s; simpl; auto.
Qed.

Lemma bytes_of_string_inj s t : bytes_of_string s = bytes_of_string t -> s = t.
Proof.
  intros H. rewrite <- (string_of_bytes_of_string s), H. apply string_of_bytes_of_string.
Qed.

End Bytes.

#[export] Hint Resolve ub_range : kubu.
#[export] Hint Rewrite ub_u8 u8_ub length_le_bytes le_bytes_value
  string_of_bytes_of_string bytes_of_string_of_bytes length_bytes_of_string : kubu.
