(* ===== verification/JsValues.v ===== *)
(** * The JavaScript the web front end is written in

    Strings (sequences of UTF-16 code units), the string methods that
    [wallet-engine.js], [ether.js] and [compiler.cjs] call, lists of properties
    in property order, and the values a JSON text parses to, after the language
    definition.  A [throw] is [Err] with the message of the error.  Numbers are
    opaque: the operations on them that the sources use are fields of
    [JsNumbers].  Objects that are shared, and what they inherit, are in
    [JsHeap]. *)

From stdpp Require Import pretty.
From S2P Require Import Prelude.
Open Scope Z_scope.

(** ** Strings *)

Notation jsstr := (list Z).

Definition code_unit (c : Ascii.ascii) : Z := Z.of_N (Ascii.N_of_ascii c).

(** A literal of ASCII characters. *)
Fixpoint js (s : string) : jsstr :=
  match s with
  | EmptyString => []
  | String.String c s' => code_unit c :: js s'
  end.

(** WhiteSpace and LineTerminator, what [trim] removes. *)
Definition is_js_space (c : Z) : bool :=
  ((9 <=? c) && (c <=? 13)) || (c =? 32) || (c =? 160) || (c =? 5760) ||
  ((8192 <=? c) && (c <=? 8202)) || (c =? 8232) || (c =? 8233) || (c =? 8239) ||
  (c =? 8287) || (c =? 12288) || (c =? 65279).

Fixpoint trim_start (s : jsstr) : jsstr :=
  match s with
  | c :: s' => if is_js_space c then trim_start s' else s
  | [] => []
  end.
Definition trim_end (s : jsstr) : jsstr := reverse (trim_start (reverse s)).
Definition trim (s : jsstr) : jsstr := trim_end (trim_start s).

(** [s.replace(/^@/, '')] *)
Definition strip_at (s : jsstr) : jsstr :=
  match s with
  | c :: s' => if c =? 64 then s' else s
  | [] => []
  end.

Fixpoint starts_with (p s : jsstr) : bool :=
  match p, s with
  | [], _ => true
  | a :: p', b :: s' => (a =? b) && starts_with p' s'
  | _ :: _, [] => false
  end.

Definition is_ascii_unit (c : Z) : bool := (0 <=? c) && (c <? 128).
Definition ascii_lower (c : Z) : Z := if (65 <=? c) && (c <=? 90) then c + 32 else c.

(** [s.split('.')] *)
Fixpoint split_dot_from (cur s : jsstr) : list jsstr :=
  match s with
  | [] => [cur]
  | c :: s' => if c =? 46 then cur :: split_dot_from [] s' else split_dot_from (cur ++ [c]) s'
  end.
Definition split_dot (s : jsstr) : list jsstr := split_dot_from [] s.

(** [a.join(sep)] on an array of strings. *)
Fixpoint join (sep : jsstr) (a : list jsstr) : jsstr :=
  match a with
  | [] => []
  | [s] => s
  | s :: a' => s ++ sep ++ join sep a'
  end.

(** [GetSubstitution] for a string pattern: the [$]-sequences of a replacement
    text, given the text before the match, the match and the text after it. *)
Fixpoint get_substitution (before matched after template : jsstr) : jsstr :=
  match template with
  | 36 :: ((c :: t') as t) =>
      if c =? 36 then 36 :: get_substitution before matched after t'
      else if c =? 38 then matched ++ get_substitution before matched after t'
      else if c =? 96 then before ++ get_substitution before matched after t'
      else if c =? 39 then after ++ get_substitution before matched after t'
      else 36 :: get_substitution before matched after t
  | c :: t => c :: get_substitution before matched after t
  | [] => []
  end.

(** [s.replaceAll(pat, repl)] with [pat] not empty; [seen] is the text already
    passed over, [skip] the units left of the current match. *)
Fixpoint replace_all_from (pat repl seen : jsstr) (skip : nat) (s : jsstr) : jsstr :=
  match s with
  | [] => []
  | c :: s' =>
      match skip with
      | S k => replace_all_from pat repl (seen ++ [c]) k s'
      | O =>
          if starts_with pat s
          then get_substitution seen pat (drop (length pat) s) repl ++
               replace_all_from pat repl (seen ++ [c]) (length pat - 1) s'
          else c :: replace_all_from pat repl (seen ++ [c]) O s'
      end
  end.
Definition replaceAll (s pat repl : jsstr) : jsstr := replace_all_from pat repl [] O s.

(** ** Numbers *)

Class JsNumbers := {
  number : Type;
  number_truthy : number -> bool;   (* not 0, -0 or NaN *)
  number_to_string : number -> jsstr;
  round64 : bool -> Z -> Z -> number; (* sign, digits, power of ten: the nearest double *)
  infinity : bool -> number;
  nan : number;
}.

(** ** Properties *)

Fixpoint assoc {A} (k : jsstr) (l : list (jsstr * A)) : option A :=
  match l with
  | [] => None
  | (k', v) :: l' => if bool_decide (k = k') then Some v else assoc k l'
  end.

(** Array indices are the canonical decimals below [2^32 - 1]; an object lists
    them first, in ascending order, then the other keys as they were added. *)
Definition is_digit (c : Z) : bool := (48 <=? c) && (c <=? 57).
Definition decimal_value (s : jsstr) : Z := foldl (fun acc c => 10 * acc + (c - 48)) 0 s.
Definition array_index (k : jsstr) : option Z :=
  match k with
  | [] => None
  | c :: k' =>
      if forallb is_digit k && (negb (c =? 48) || bool_decide (k' = [])) &&
         (decimal_value k <? 4294967295)
      then Some (decimal_value k) else None
  end.
Definition index_key (i : nat) : jsstr := js (pretty i).

Fixpoint update_prop {A} (k : jsstr) (v : A) (l : list (jsstr * A)) : list (jsstr * A) :=
  match l with
  | [] => []
  | (k', v') :: l' => if bool_decide (k = k') then (k', v) :: l' else (k', v') :: update_prop k v l'
  end.
Fixpoint insert_index {A} (i : Z) (k : jsstr) (v : A) (l : list (jsstr * A)) : list (jsstr * A) :=
  match l with
  | [] => [(k, v)]
  | (k', v') :: l' =>
      match array_index k' with
      | Some j => if i <? j then (k, v) :: l else (k', v') :: insert_index i k v l'
      | None => (k, v) :: l
      end
  end.
(** [o[k] = v] on an own property, or a new one. *)
Definition set_prop {A} (k : jsstr) (v : A) (l : list (jsstr * A)) : list (jsstr * A) :=
  match assoc k l with
  | Some _ => update_prop k v l
  | None => match array_index k with
            | Some i => insert_index i k v l
            | None => l ++ [(k, v)]
            end
  end.
Definition set_props {A} (l ps : list (jsstr * A)) : list (jsstr * A) :=
  foldl (fun acc '(k, v) => set_prop k v acc) l ps.

Definition type_error (what : string) : string := ("TypeError: " +:+ what)%string.

(** [a.map(f)] on the elements of an array. *)
Fixpoint map_list {A B} (f : A -> result B) (a : list A) : result (list B) :=
  match a with
  | [] => Ok []
  | x :: a' => y ← f x; ys ← map_list f a'; Ok (y :: ys)
  end.

(** ** Values of JSON texts

    An object has the members of its text, and inherits those of
    [Object.prototype], among which the names the sources read are not. *)

Section Values.
Context `{JsNumbers}.

Inductive jsval :=
| Undefined
| Null
| Bool (b : bool)
| Num (n : number)
| Str (s : jsstr)
| Arr (a : list jsval)
| Obj (props : list (jsstr * jsval)).  (* in property order *)

Definition truthy (v : jsval) : bool :=
  match v with
  | Undefined | Null => false
  | Bool b => b
  | Num n => number_truthy n
  | Str s => negb (bool_decide (s = []))
  | Arr _ | Obj _ => true
  end.

(** [v.key] for [error], [message], [result] and [address], none of which a
    built-in prototype has. *)
Definition get_prop (v : jsval) (key : string) : result jsval :=
  match v with
  | Undefined | Null => Err (type_error "Cannot read properties of undefined or null")
  | Obj props => Ok (default Undefined (assoc (js key) props))
  | _ => Ok Undefined
  end.

(** Conversion to a string, as in a template literal.  A JSON value has no
    function for a member, so that an own [toString] makes it throw. *)
Fixpoint to_string (v : jsval) : result jsstr :=
  match v with
  | Undefined => Ok (js "undefined")
  | Null => Ok (js "null")
  | Bool b => Ok (js (if b then "true" else "false"))
  | Num n => Ok (number_to_string n)
  | Str s => Ok s
  | Arr a =>
      parts ← (fix strings (l : list jsval) : result (list jsstr) :=
                 match l with
                 | [] => Ok []
                 | v :: l' =>
                     s ← (match v with Undefined | Null => Ok [] | _ => to_string v end);
                     rest ← strings l';
                     Ok (s :: rest)
                 end) a;
      Ok (join (js ",") parts)
  | Obj props =>
      match assoc (js "toString") props with
      | Some _ => Err (type_error "Cannot convert object to primitive value")
      | None => Ok (js "[object Object]")
      end
  end.

End Values.

(** A choice of the number operations, for evaluating examples without numbers. *)
Definition no_numbers : JsNumbers := {|
  number := unit; number_truthy := fun _ => false; number_to_string := fun _ => js "NaN";
  round64 := fun _ _ _ => tt; infinity := fun _ => tt; nan := tt |}.

(** ** Lemmas *)

Section Lemmas.
Context {V : Type}.
Implicit Types (l ps : list (jsstr * V)) (s t pat repl : jsstr).

Lemma assoc_app {A} k (l1 l2 : list (jsstr * A)) :
  assoc k (l1 ++ l2) = match assoc k l1 with Some v => Some v | None => assoc k l2 end.
Proof. induction l1 as [|[k' v] l1 IH]; [done|]. cbn. by case_bool_decide. Qed.

Lemma assoc_None {A} k (l : list (jsstr * A)) : assoc k l = None <-> k ∉ l.*1.
Proof.
  induction l as [|[k' v] l IH]; cbn; [split; [intros _; apply not_elem_of_nil|done]|].
  rewrite not_elem_of_cons. case_bool_decide; [subst; naive_solver|]. rewrite IH. naive_solver.
Qed.

Lemma assoc_fmap {A B} (f : A -> B) k (l : list (jsstr * A)) :
  assoc k (prod_map id f <$> l) = f <$> assoc k l.
Proof. induction l as [|[k' v] l IH]; [done|]. cbn. by case_bool_decide. Qed.

Lemma assoc_update k k' v l :
  is_Some (assoc k' l) -> assoc k (update_prop k' v l) = if bool_decide (k = k') then Some v else assoc k l.
Proof.
  induction l as [|[k0 v0] l IH]; cbn; [intros [? [=]]|].
  destruct (decide (k' = k0)) as [->|E0]; [rewrite bool_decide_true by done|rewrite bool_decide_false by done];
    intros Hs; cbn.
  - by repeat case_bool_decide.
  - rewrite IH by done. repeat case_bool_decide; congruence.
Qed.

Lemma assoc_insert_index i k k' v l :
  k' ∉ l.*1 -> assoc k (insert_index i k' v l) = if bool_decide (k = k') then Some v else assoc k l.
Proof.
  induction l as [|[k0 v0] l IH]; cbn; [done|]. rewrite not_elem_of_cons. intros [Hne Hni].
  destruct (array_index k0) as [j|]; [|by cbn]. destruct (i <? j); [by cbn|]. cbn.
  rewrite IH by done. repeat case_bool_decide; congruence.
Qed.

Lemma assoc_set_prop k k' v l :
  assoc k (set_prop k' v l) = if bool_decide (k = k') then Some v else assoc k l.
Proof.
  unfold set_prop. destruct (assoc k' l) eqn:E; [apply assoc_update; eauto|].
  pose proof (proj1 (assoc_None _ _) E).
  destruct (array_index k') as [i|]; [by apply assoc_insert_index|].
  rewrite assoc_app. cbn. case_bool_decide; [subst; by rewrite E|]. by destruct (assoc k l).
Qed.

Lemma update_prop_keys k v l : (update_prop k v l).*1 = l.*1.
Proof. induction l as [|[k' v'] l IH]; [done|]. cbn. case_bool_decide; cbn; congruence. Qed.

Lemma insert_index_keys i k v l : (insert_index i k v l).*1 ≡ₚ k :: l.*1.
Proof.
  induction l as [|[k' v'] l IH]; [done|]. cbn. destruct (array_index k') as [j|]; [|done].
  destruct (i <? j); [done|]. cbn. rewrite IH. constructor.
Qed.

Lemma NoDup_set_prop k v l : NoDup l.*1 -> NoDup (set_prop k v l).*1.
Proof.
  intros Hnd. unfold set_prop. destruct (assoc k l) eqn:E; [by rewrite update_prop_keys|].
  pose proof (proj1 (assoc_None _ _) E).
  destruct (array_index k) as [i|]; [rewrite insert_index_keys; by constructor|].
  rewrite fmap_app, NoDup_app. cbn. split_and!; [done| |apply NoDup_singleton].
  intros x Hx ->%list_elem_of_singleton. done.
Qed.

Lemma NoDup_set_props ps l : NoDup l.*1 -> NoDup (set_props l ps).*1.
Proof.
  revert l. induction ps as [|[k v] ps IH]; intros l Hl; [done|]. cbn. apply IH. by apply NoDup_set_prop.
Qed.

Lemma assoc_set_props k ps l :
  NoDup ps.*1 ->
  assoc k (set_props l ps) = match assoc k ps with Some v => Some v | None => assoc k l end.
Proof.
  revert l. induction ps as [|[k' v] ps IH]; intros l; [done|].
  change (set_props l ((k', v) :: ps)) with (set_props (set_prop k' v l) ps). cbn [assoc fmap list_fmap fst].
  intros [Hni Hnd]%NoDup_cons. rewrite IH by done. rewrite assoc_set_prop. case_bool_decide; [|done].
  subst. by rewrite (proj2 (assoc_None _ _) Hni).
Qed.

Lemma assoc_elem k v l : assoc k l = Some v -> (k, v) ∈ l.
Proof.
  induction l as [|[k' v'] l IH]; cbn; [done|]. case_bool_decide; [intros [= ->]; subst; by left|].
  intros ?. right. auto.
Qed.

Lemma elem_assoc k v l : NoDup l.*1 -> (k, v) ∈ l -> assoc k l = Some v.
Proof.
  induction l as [|[k' v'] l IH]; cbn; intros Hnd Hin; [by apply not_elem_of_nil in Hin|].
  apply NoDup_cons in Hnd as [Hni Hnd]. apply elem_of_cons in Hin as [[= -> ->]|Hin].
  - by rewrite bool_decide_true.
  - rewrite bool_decide_false; [auto|]. intros ->. apply Hni. apply list_elem_of_fmap. by exists (k', v).
Qed.

(** Strings *)

Lemma starts_with_app p s : starts_with p (p ++ s) = true.
Proof. induction p as [|c p IH]; [done|]. cbn. by rewrite Z.eqb_refl. Qed.

Lemma starts_with_spec p s : starts_with p s = true <-> exists t, s = p ++ t.
Proof.
  split; [|intros [t ->]; apply starts_with_app].
  revert s. induction p as [|c p IH]; intros s; [by exists s|]. destruct s as [|d s]; [done|]. cbn.
  intros [->%Z.eqb_eq [t ->]%IH]%andb_prop. by exists t.
Qed.

Lemma js_app a b : js (a +:+ b) = js a ++ js b.
Proof. induction a as [|c a IH]; [done|]. cbn. by rewrite <- IH. Qed.

Lemma map_list_ext_Ok {A B} (f : A -> result B) (g : A -> B) (l : list A) :
  (forall x, x ∈ l -> f x = Ok (g x)) -> map_list f l = Ok (g <$> l).
Proof.
  induction l as [|x l IH]; intros Hf; [done|]. cbn. rewrite Hf by left. cbn.
  rewrite IH; [done|]. intros y Hy. apply Hf. by right.
Qed.

Lemma map_list_ext {A B} (f g : A -> result B) (l : list A) :
  (forall x, x ∈ l -> f x = g x) -> map_list f l = map_list g l.
Proof.
  induction l as [|x l IH]; intros Hf; [done|]. cbn. rewrite Hf by left. rewrite IH; [done|].
  intros y Hy. apply Hf. by right.
Qed.

Lemma map_list_Err {A B} (f : A -> result B) (l : list A) e :
  map_list f l = Err e -> exists x, x ∈ l /\ f x = Err e.
Proof.
  induction l as [|x l IH]; cbn; [done|]. destruct (f x) eqn:E; cbn.
  - destruct (map_list f l); cbn; [done|]. intros [= ->].
    destruct (IH eq_refl) as (y & ? & ?). exists y. split; [by right|done].
  - intros [= ->]. exists x. split; [left|done].
Qed.

Lemma join_nil a : join [] a = concat a.
Proof.
  induction a as [|s a IH]; [done|]. cbn. destruct a; [by rewrite app_nil_r|]. by rewrite IH.
Qed.

End Lemmas.
