(* ===== verification/JsHeap.v ===== *)
(** * JavaScript objects

    The values the page compiler works on: objects are locations of a store, so
    that a document can share them and go in circles, as YAML anchors let it;
    property access finds inherited members too.  [Object.prototype] is written
    out.  Which further members the other prototypes have, and what its
    built-in functions do, depends on the engine: [JsRealm].  No object of a
    document has a function among its own members. *)

From S2P Require Import Prelude JsValues.
Open Scope Z_scope.

Notation loc := nat.

Inductive proto := ObjectProto | FunctionProto | ArrayProto | StringProto | NumberProto | BooleanProto | DateProto | BytesProto.

Section Store.
Context `{JsNumbers}.

Inductive value :=
| VUndefined
| VNull
| VBool (b : bool)
| VNum (n : number)
| VStr (s : jsstr)
| VRef (l : loc)
| VProto (p : proto)                    (* a prototype object *)
| VMember (p : proto) (name : jsstr).   (* a function found on one *)

(** A date and a byte array come with the text they convert to. *)
Inductive object :=
| Plain (props : list (jsstr * value))  (* in property order *)
| Array (elems : list value)
| Date (text : jsstr)
| Bytes (elems : list value) (text : jsstr).

Class JsRealm := {
  proto_members : proto -> list jsstr;
  intrinsic_own : value -> jsstr -> option value;
  intrinsic_string : value -> option jsstr;   (* or it throws *)
  (* what a function gives as the replacement of a match at a position of a text, unless it throws *)
  replacer : value -> option (jsstr -> nat -> jsstr -> option jsstr);
}.
End Store.
Notation store := (gmap loc object).

(** ** Property access *)

Definition object_members : list jsstr :=
  js <$> ["constructor"; "__defineGetter__"; "__defineSetter__"; "hasOwnProperty"; "__lookupGetter__"; "__lookupSetter__";
          "isPrototypeOf"; "propertyIsEnumerable"; "toString"; "valueOf"; "toLocaleString"]%string.
Definition proto_key : jsstr := js "__proto__".
Definition dangling : string := "dangling reference".

Section Access.
Context `{JsRealm}.

Definition truthy (v : value) : bool :=
  match v with
  | VUndefined | VNull => false
  | VBool b => b
  | VNum n => number_truthy n
  | VStr s => negb (bool_decide (s = []))
  | VRef _ | VProto _ | VMember _ _ => true
  end.

Definition int (n : nat) : value := VNum (round64 false (Z.of_nat n) 0).
Definition indexed (a : list value) : list (jsstr * value) := imap (fun i v => (index_key i, v)) a.
Definition units (s : jsstr) : list value := (fun c => VStr [c]) <$> s.
Definition item (k : jsstr) (a : list value) : option value :=
  if bool_decide (k = js "length") then Some (int (length a)) else assoc k (indexed a).

Definition own_prop (st : store) (v : value) (k : jsstr) : option value :=
  match v with
  | VStr s => item k (units s)
  | VRef l =>
      match st !! l with
      | Some (Plain props) => assoc k props
      | Some (Array a) | Some (Bytes a _) => item k a
      | Some (Date _) | None => None
      end
  | VProto _ | VMember _ _ => intrinsic_own v k
  | _ => None
  end.

Definition proto_of (st : store) (v : value) : result value :=
  match v with
  | VUndefined | VNull => Err (type_error "Cannot read properties of undefined or null")
  | VBool _ => Ok (VProto BooleanProto)
  | VNum _ => Ok (VProto NumberProto)
  | VStr _ => Ok (VProto StringProto)
  | VRef l =>
      match st !! l with
      | Some (Plain _) => Ok (VProto ObjectProto)
      | Some (Array _) => Ok (VProto ArrayProto)
      | Some (Date _) => Ok (VProto DateProto)
      | Some (Bytes _ _) => Ok (VProto BytesProto)
      | None => Err dangling
      end
  | VProto ObjectProto => Ok VNull
  | VProto _ => Ok (VProto ObjectProto)
  | VMember _ _ => Ok (VProto FunctionProto)
  end.

(** What is found from a prototype upwards. *)
Definition member (p : value) (k : jsstr) : value :=
  match p with
  | VProto ObjectProto => if bool_decide (k ∈ object_members) then VMember ObjectProto k else VUndefined
  | VProto p =>
      if bool_decide (k ∈ proto_members p) then VMember p k
      else if bool_decide (k ∈ object_members) then VMember ObjectProto k else VUndefined
  | _ => VUndefined
  end.

(** [v[k]], and [v.k]; [__proto__] is an accessor of [Object.prototype]. *)
Definition get_key (st : store) (v : value) (k : jsstr) : result value :=
  p ← proto_of st v;
  Ok (match own_prop st v k with
      | Some x => x
      | None => if bool_decide (k = proto_key) then p else member p k
      end).
Definition get (st : store) (v : value) (name : string) : result value := get_key st v (js name).

(** [Object.entries(v)], and what [...v] copies into an object literal. *)
Definition entries (st : store) (v : value) : result (list (jsstr * value)) :=
  match v with
  | VUndefined | VNull => Err (type_error "Cannot convert undefined or null to object")
  | VStr s => Ok (indexed (units s))
  | VRef l =>
      match st !! l with
      | Some (Plain props) => Ok props
      | Some (Array a) | Some (Bytes a _) => Ok (indexed a)
      | Some (Date _) => Ok []
      | None => Err dangling
      end
  | _ => Ok []
  end.
Definition spread (st : store) (v : value) : result (list (jsstr * value)) :=
  match v with VUndefined | VNull => Ok [] | _ => entries st v end.

(** The elements [v.map] goes over. *)
Definition map_target (st : store) (v : value) : result (list value) :=
  match v with
  | VUndefined | VNull => Err (type_error "Cannot read properties of undefined or null")
  | VRef l =>
      match st !! l with
      | Some (Array a) | Some (Bytes a _) => Ok a
      | Some (Plain _) | Some (Date _) => Err (type_error "map is not a function")
      | None => Err dangling
      end
  | _ => Err (type_error "map is not a function")
  end.

(** ** Conversion to a string, as in a template literal

    An array that contains itself converts to the empty string where it recurs;
    [seen] are the arrays being converted, [n] bounds those still to come. *)
Definition out_of_fuel : string := "RangeError: Maximum call stack size exceeded".

Definition native {A} (r : option A) : result A := match r with Some a => Ok a | None => Err (type_error "thrown by a built-in function") end.

Fixpoint string_of (n : nat) (st : store) (seen : list loc) (v : value) : result jsstr :=
  match v with
  | VUndefined => Ok (js "undefined")
  | VNull => Ok (js "null")
  | VBool b => Ok (js (if b then "true" else "false"))
  | VNum x => Ok (number_to_string x)
  | VStr s => Ok s
  | VProto _ | VMember _ _ => native (intrinsic_string v)
  | VRef l =>
      match st !! l with
      | None => Err dangling
      | Some (Date text) | Some (Bytes _ text) => Ok text
      | Some (Plain props) =>
          match assoc (js "toString") props with
          | Some _ => Err (type_error "Cannot convert object to primitive value")
          | None => Ok (js "[object Object]")
          end
      | Some (Array a) =>
          if bool_decide (l ∈ seen) then Ok []
          else
            match n with
            | O => Err out_of_fuel
            | S n' =>
                parts ← map_list (fun x => match x with VUndefined | VNull => Ok [] | _ => string_of n' st (l :: seen) x end) a;
                Ok (join (js ",") parts)
            end
      end
  end.
Definition to_string (st : store) (v : value) : result jsstr := string_of (size st) st [] v.

(** ** Objects that are filled by key

    An object literal of the program and what was assigned to it; assigning to
    [__proto__] replaces its prototype, unless that is hidden. *)
Record Table := mkTable { own : list (jsstr * value); prototype : value }.
Definition empty_table : Table := mkTable [] (VProto ObjectProto).

Definition can_be_proto (v : value) : bool := match v with VRef _ | VProto _ | VMember _ _ | VNull => true | _ => false end.
Definition has_setter (st : store) (t : Table) : bool :=
  bool_decide (assoc proto_key (own t) = None) &&
  match prototype t with VNull => false | p => bool_decide (own_prop st p proto_key = None) end.

Definition set_key (st : store) (t : Table) (k : jsstr) (v : value) : Table :=
  if bool_decide (k = proto_key) && has_setter st t then
    if can_be_proto v then mkTable (own t) v else t
  else mkTable (set_prop k v (own t)) (prototype t).

Definition table_key (st : store) (t : Table) (k : jsstr) : result value :=
  match assoc k (own t) with
  | Some v => Ok v
  | None =>
      match prototype t with
      | VNull => Ok VUndefined
      | VProto ObjectProto => Ok (if bool_decide (k = proto_key) then VProto ObjectProto else member (VProto ObjectProto) k)
      | p =>
          match own_prop st p k with
          | Some v => Ok v
          | None => if bool_decide (k = proto_key) then Ok p else q ← proto_of st p; Ok (member q k)
          end
      end
  end.

(** ** [replaceAll] with a function *)

Fixpoint replace_fun_from (pat : jsstr) (f : nat -> result jsstr) (pos skip : nat) (s : jsstr) : result jsstr :=
  match s with
  | [] => Ok []
  | c :: s' =>
      match skip with
      | S k => replace_fun_from pat f (S pos) k s'
      | O =>
          if starts_with pat s then
            r ← f pos; rest ← replace_fun_from pat f (S pos) (length pat - 1) s'; Ok (r ++ rest)
          else rest ← replace_fun_from pat f (S pos) O s'; Ok (c :: rest)
      end
  end.

Definition as_function (v : value) : option (jsstr -> nat -> jsstr -> option jsstr) :=
  match v with VProto _ | VMember _ _ => replacer v | _ => None end.

(** [template.replaceAll(pattern, value)] on values that need not be strings. *)
Definition replace_in (st : store) (template : value) (pattern : jsstr) (val : value) : result value :=
  match template with
  | VStr s =>
      match as_function val with
      | Some f => r ← replace_fun_from pattern (fun pos => native (f pattern pos s)) 0 0 s; Ok (VStr r)
      | None => repl ← to_string st val; Ok (VStr (replaceAll s pattern repl))
      end
  | VUndefined | VNull => Err (type_error "Cannot read properties of undefined or null")
  | _ => Err (type_error "template.replaceAll is not a function")
  end.

End Access.

Create HintDb ran discriminated.

(** ** Lemmas *)

(** Errors other than running out of fuel. *)
Definition ran {A} (r : result A) : Prop := r <> Err out_of_fuel.

Lemma ran_or {A} (r : result A) : r = Err out_of_fuel \/ ran r.
Proof. destruct r as [a|e]; [by right|]. destruct (decide (e = out_of_fuel)) as [->|He]; [by left|right; congruence]. Qed.
Lemma ran_Ok {A} (a : A) : ran (Ok a).
Proof. done. Qed.
Lemma ran_bind {A B} (r : result A) (f : A -> result B) : ran r -> (forall a, r = Ok a -> ran (f a)) -> ran (r ≫= f).
Proof. destruct r; cbn; [auto|]. intros Hr _ [= ->]. done. Qed.
Lemma ran_if {A} (b : bool) (r1 r2 : result A) : ran r1 -> ran r2 -> ran (if b then r1 else r2).
Proof. by destruct b. Qed.
Lemma ran_map_list {A B} (f : A -> result B) l : (forall x, x ∈ l -> ran (f x)) -> ran (map_list f l).
Proof. intros Hf E. apply map_list_Err in E as (x & Hx & E). by apply (Hf x Hx). Qed.
Lemma ran_native {A} (r : option A) : ran (native r).
Proof. by destruct r. Qed.

Lemma map_list_mono {A B} (f g : A -> result B) l r : map_list f l = Ok r -> (forall x y, x ∈ l -> f x = Ok y -> g x = Ok y) -> map_list g l = Ok r.
Proof.
  revert r. induction l as [|x l IH]; intros r; cbn; [done|]. intros (y & Hy & Hr)%bind_ok Hg. apply bind_ok in Hr as (ys & Hys & [= <-]).
  rewrite (Hg x y ltac:(left) Hy). cbn. rewrite (IH ys Hys); [done|]. intros z w Hz. apply Hg. by right.
Qed.

Section HeapLemmas.
Context `{JsRealm}.
Implicit Types (st : store) (v : value) (t : Table).

Lemma ran_proto_of st v : ran (proto_of st v).
Proof. destruct v as [| | | | |l|[]|]; try done. cbn. by destruct (st !! l) as [[]|]. Qed.
Lemma ran_get_key st v k : ran (get_key st v k).
Proof. apply ran_bind; [apply ran_proto_of|done]. Qed.
Lemma ran_get st v name : ran (get st v name).
Proof. apply ran_get_key. Qed.
Lemma ran_entries st v : ran (entries st v).
Proof. destruct v as [| | | | |l| |]; try done. cbn. by destruct (st !! l) as [[]|]. Qed.
Lemma ran_spread st v : ran (spread st v).
Proof. destruct v; try done; apply ran_entries. Qed.
Lemma ran_map_target st v : ran (map_target st v).
Proof. destruct v as [| | | | |l| |]; try done. cbn. by destruct (st !! l) as [[]|]. Qed.
Lemma ran_table_key st t k : ran (table_key st t k).
Proof.
  unfold table_key. destruct (assoc k (own t)); [done|]. destruct (prototype t) as [| | | | | |[]|]; try done;
    (destruct (own_prop _ _ _); [done|]; destruct (bool_decide _); [done|]; apply ran_bind; [apply ran_proto_of|done]).
Qed.

(** The arrays being converted are distinct locations of the store, so that
    their number bounds the conversion. *)
Lemma locs_bound st (seen : list loc) l : NoDup seen -> (forall x, x ∈ seen -> is_Some (st !! x)) -> is_Some (st !! l) -> l ∉ seen -> (length seen < size st)%nat.
Proof.
  intros Hnd Hin Hl Hn. assert (list_to_set (l :: seen) ⊆ dom st) as Hsub.
  { intros x Hx. apply elem_of_dom. apply elem_of_list_to_set, elem_of_cons in Hx as [->|Hx]; auto. }
  apply subseteq_size in Hsub. rewrite size_list_to_set, size_dom in Hsub by by constructor. cbn in Hsub. lia.
Qed.
Lemma ran_string_of n st seen v : NoDup seen -> (forall x, x ∈ seen -> is_Some (st !! x)) -> (size st <= n + length seen)%nat -> ran (string_of n st seen v).
Proof.
  revert seen v. induction n as [|n IH]; intros seen v Hnd Hin Hs; destruct v as [| | | | |l|p|p k]; try done; try apply ran_native;
    cbn [string_of]; (destruct (st !! l) as [[ps|a|text|a text]|] eqn:E; try done; [by destruct (assoc _ ps)|]); case_bool_decide as Hl; try done;
    pose proof (locs_bound st seen l Hnd Hin ltac:(by eexists) Hl); [lia|].
  apply ran_bind; [|done]. apply ran_map_list. intros x _. destruct x; try done; apply IH; try (by constructor); try (cbn; lia);
    intros y [->|Hy]%elem_of_cons; eauto.
Qed.
Lemma ran_to_string st v : ran (to_string st v).
Proof. apply ran_string_of; [constructor|by intros x Hx%not_elem_of_nil|cbn; lia]. Qed.

Lemma to_string_str st s : to_string st (VStr s) = Ok s.
Proof. unfold to_string. by destruct (size st). Qed.

Lemma ran_replace_fun pat f pos skip s : (forall p, ran (f p)) -> ran (replace_fun_from pat f pos skip s).
Proof.
  intros Hf. revert pos skip. induction s as [|c s IH]; intros pos skip; [done|]. cbn [replace_fun_from].
  destruct skip; [|apply IH]. apply ran_if; [|by apply ran_bind; [apply IH|]]. apply ran_bind; [apply Hf|intros r _]. by apply ran_bind; [apply IH|].
Qed.
Lemma ran_replace_in st template pat v : ran (replace_in st template pat v).
Proof.
  destruct template; try done. cbn [replace_in]. destruct (as_function v) as [f|]; [|apply ran_bind; [apply ran_to_string|done]].
  apply ran_bind; [|done]. apply ran_replace_fun. intros p. apply ran_native.
Qed.

(** A store that has grown. *)
Section Growth.
Context (st st' : store) (Hsub : st ⊆ st').
Lemma lookup_grown l o : st !! l = Some o -> st' !! l = Some o.
Proof. intros E. by eapply lookup_weaken. Qed.
Lemma proto_of_grown v p : proto_of st v = Ok p -> proto_of st' v = Ok p.
Proof. destruct v as [| | | | |l| |]; try done. cbn. destruct (st !! l) eqn:E; [|done]. by rewrite (lookup_grown _ _ E). Qed.
Lemma own_prop_grown v k p : proto_of st v = Ok p -> own_prop st' v k = own_prop st v k.
Proof. destruct v as [| | | | |l| |]; try done. cbn. destruct (st !! l) eqn:E; [|done]. by rewrite (lookup_grown _ _ E). Qed.
Lemma get_key_grown v k x : get_key st v k = Ok x -> get_key st' v k = Ok x.
Proof. unfold get_key. intros (p & Hp & E)%bind_ok. rewrite (proto_of_grown _ _ Hp). cbn. by rewrite (own_prop_grown _ _ _ Hp). Qed.
Lemma get_grown v name x : get st v name = Ok x -> get st' v name = Ok x.
Proof. apply get_key_grown. Qed.
Lemma entries_grown v es : entries st v = Ok es -> entries st' v = Ok es.
Proof. destruct v as [| | | | |l| |]; try done. cbn. destruct (st !! l) eqn:E; [|done]. by rewrite (lookup_grown _ _ E). Qed.
Lemma spread_grown v es : spread st v = Ok es -> spread st' v = Ok es.
Proof. destruct v; try done; apply entries_grown. Qed.
Lemma string_of_grown n n' seen v s : (n <= n')%nat -> string_of n st seen v = Ok s -> string_of n' st' seen v = Ok s.
Proof.
  revert n' seen v s. induction n as [|n IH]; intros n' seen v s Hn; destruct v as [| | | | |l| |]; destruct n' as [|n']; try done; try lia; cbn [string_of];
    (destruct (st !! l) as [o|] eqn:E; [|done]); rewrite (lookup_grown _ _ E); destruct o; try done; destruct (bool_decide _); try done.
  intros (parts & Hp & [= <-])%bind_ok. rewrite (map_list_mono _ _ _ _ Hp); [done|]. intros x y _. destruct x; try done; apply IH; lia.
Qed.
Lemma to_string_grown v s : to_string st v = Ok s -> to_string st' v = Ok s.
Proof. apply string_of_grown. by apply map_subseteq_size. Qed.
End Growth.

(** A table without a changed prototype. *)
Lemma table_key_own st t k : prototype t = VProto ObjectProto -> k ∉ object_members -> k <> proto_key ->
  table_key st t k = Ok (default VUndefined (assoc k (own t))).
Proof.
  intros Hp Hm Hk. unfold table_key. rewrite Hp. destruct (assoc k (own t)); [done|]. rewrite (bool_decide_eq_false_2 (k = proto_key)) by done.
  cbn [member]. by rewrite bool_decide_eq_false_2.
Qed.
Lemma set_key_own st t k v : k <> proto_key -> set_key st t k v = mkTable (set_prop k v (own t)) (prototype t).
Proof. intros Hk. unfold set_key. by rewrite bool_decide_eq_false_2. Qed.
Lemma get_plain st l ps name : st !! l = Some (Plain ps) -> js name ∉ object_members -> js name <> proto_key ->
  get st (VRef l) name = Ok (default VUndefined (assoc (js name) ps)).
Proof.
  intros E Hm Hk. unfold get, get_key. cbn. rewrite E. cbn. destruct (assoc (js name) ps); [done|].
  by rewrite (bool_decide_eq_false_2 (js name = proto_key)), (bool_decide_eq_false_2 (js name ∈ object_members)) by done.
Qed.

End HeapLemmas.
#[export] Hint Resolve ran_Ok ran_if ran_native ran_get ran_get_key ran_entries ran_spread ran_map_target ran_table_key ran_to_string ran_replace_in : ran.
