(* ===== verification/Web4Compiler.v ===== *)
(** * The page compiler ([src/www/kubucoin.org/default/compiler.cjs])

    [compileWeb4YamlToHtml] reads a YAML document, collects its formats
    ([^name]), data sources ([$name]) and extensions ([+name]), resolves the
    nodes under [main] and writes one HTML file.  The YAML parser, the
    evaluation of a data source's script in the scope of the loop and the file
    system's refusal to write are parameters; everything else is the source's.
    The document is an object of the store, so that it may share nodes and go
    in circles. *)

From S2P Require Import Prelude JsValues JsHeap.
Open Scope Z_scope.

Section Compiler.
Context `{JsRealm}.

(** The variables a script sees and can change; it is taken to leave the
    built-in objects as they are. *)
Record Scope := mkScope {
  heap : store;
  formats : Table;
  dataSources : Table;
  extensions : Table;
  output : value;
}.

Variable yaml_load : jsstr -> result (store * value).
Variable eval_code : jsstr -> Scope -> result Scope.

(** An object literal makes a new object. *)
Definition alloc (st : store) (o : object) : store * value := let l := fresh (dom st) in (<[l := o]> st, VRef l).

Definition initial_scope (st : store) : Scope :=
  let '(st, links) := alloc st (Array []) in
  mkScope st empty_table empty_table (mkTable [(js "headlink", links)] (VProto ObjectProto)) VUndefined.

Definition is_str (v : value) (s : jsstr) : bool :=
  match v with VStr t => bool_decide (t = s) | _ => false end.

(** One round of the loop over the document's entries. *)
Definition process_entry (sc : Scope) (entry : jsstr * value) : result Scope :=
  let '(key, val) := entry in
  if starts_with (js "^") key then
    Ok (mkScope (heap sc) (set_key (heap sc) (formats sc) (drop 1 key) val) (dataSources sc) (extensions sc) (output sc))
  else if starts_with (js "$") key then
    script ← get (heap sc) val "script";
    if is_str script (js "javascript") then
      code ← get (heap sc) val "code";
      if truthy code then
        let '(st, empty) := alloc (heap sc) (Plain []) in
        let sc := mkScope st (formats sc) (dataSources sc) (extensions sc) empty in
        sc ← (match code with VStr c => eval_code c sc | _ => Ok sc end);
        Ok (mkScope (heap sc) (formats sc) (set_key (heap sc) (dataSources sc) (drop 1 key) (output sc)) (extensions sc) (output sc))
      else Ok sc
    else Ok sc
  else if starts_with (js "+") key then
    Ok (mkScope (heap sc) (formats sc) (dataSources sc) (set_key (heap sc) (extensions sc) (drop 1 key) val) (output sc))
  else Ok sc.

Fixpoint process_entries (sc : Scope) (es : list (jsstr * value)) : result Scope :=
  match es with
  | [] => Ok sc
  | e :: es' => sc' ← process_entry sc e; process_entries sc' es'
  end.

(** The value of a parameter written [$source] or [$source.field]; [s] is the
    text after the [$]. *)
Definition source_value (st : store) (sources : Table) (s : jsstr) : result value :=
  let pathParts := split_dot s in
  src ← table_key st sources (default [] (pathParts !! 0%nat));
  match pathParts !! 1%nat with
  | Some field => get_key st src field
  | None => Ok src
  end.

(** The loop that replaces the [$] parameters. *)
Fixpoint resolve_params (st : store) (sources : Table) (es params : list (jsstr * value)) : result (list (jsstr * value)) :=
  match es with
  | [] => Ok params
  | (pKey, pVal) :: es' =>
      match pVal with
      | VStr s =>
          if starts_with (js "$") s then
            v ← source_value st sources (drop 1 s);
            resolve_params st sources es' (set_prop pKey v params)
          else resolve_params st sources es' params
      | _ => resolve_params st sources es' params
      end
  end.

(** The pattern [${key}]. *)
Definition hole (key : jsstr) : jsstr := js "${" ++ key ++ js "}".

Fixpoint fill_params (st : store) (template : value) (params : list (jsstr * value)) : result value :=
  match params with
  | [] => Ok template
  | (pKey, pVal) :: ps => template' ← replace_in st template (hole pKey) pVal; fill_params st template' ps
  end.

(** [compBody.params && compBody.params.name ? ` name="..."` : ''] *)
Definition attribute (st : store) (compBody : value) (name : string) : result jsstr :=
  params ← get st compBody "params";
  if truthy params then
    v ← get st params name;
    if truthy v then s ← to_string st v; Ok (js " " ++ js name ++ [61; 34] ++ s ++ [34])
    else Ok []
  else Ok [].

Definition str_of (v : value) : jsstr := match v with VStr t => t | _ => [] end.
Definition array_of (st : store) (v : value) : option (list value) :=
  match v with VRef l => match st !! l with Some (Array a) => Some a | _ => None end | _ => None end.

(** [resolveNode], with the calls to itself as a function. *)
Section Node.
Context (sc : Scope) (rec : value -> result jsstr).
#[local] Notation st := (heap sc).

Definition children_html (compBody : value) : result jsstr :=
  children ← get st compBody "children";
  if truthy children then
    els ← map_target st children;
    parts ← map_list rec els;
    Ok (join [] parts)
  else Ok [].

Definition anchor_html (attrs : value) : result jsstr :=
  href ← get st attrs "href";
  href_s ← to_string st href;
  class ← get st attrs "class";
  class_s ← (if truthy class then to_string st class else Ok []);
  children ← get st attrs "children";
  children_s ← to_string st children;
  Ok (js "<a href=" ++ [34] ++ href_s ++ [34] ++ js " class=" ++ [34] ++ class_s ++
      [34] ++ js ">" ++ children_s ++ js "</a>").

Definition format_html (fmt compBody : value) : result jsstr :=
  fparams ← get st fmt "params";
  fparams ← spread st fparams;
  cparams ← get st compBody "params";
  cparams ← (if truthy cparams then spread st cparams else Ok []);
  let params := set_props (set_props [] fparams) cparams in
  params ← resolve_params st (dataSources sc) params params;
  childrenHtml ← children_html compBody;
  template ← get st fmt "template";
  template ← fill_params st template params;
  template ← replace_in st template (hole (js "children")) (VStr childrenHtml);
  Ok (str_of template).

Definition element_html (tag : jsstr) (compBody : value) : result jsstr :=
  classAttr ← attribute st compBody "class";
  idAttr ← attribute st compBody "id";
  childrenHtml ← children_html compBody;
  Ok (js "<" ++ tag ++ idAttr ++ classAttr ++ js ">" ++ childrenHtml ++ js "</" ++ tag ++ js ">").

Definition component_html (node : value) : result jsstr :=
  es ← entries st node;
  match es with
  | [] => Err (type_error "undefined is not iterable")
  | (compName, compBody) :: _ =>
      if bool_decide (compName = js "a") then anchor_html compBody
      else
        fmt ← table_key st (formats sc) compName;
        if truthy fmt then format_html fmt compBody else element_html compName compBody
  end.

Definition node_html (node : value) : result jsstr :=
  match node with
  | VStr s => Ok s
  | _ =>
      match array_of st node with
      | Some a => parts ← map_list rec a; Ok (join [] parts)
      | None => component_html node
      end
  end.
End Node.

(** The fuel bounds the depth of the calls. *)
Fixpoint resolve (fuel : nat) (sc : Scope) (node : value) : result jsstr :=
  match fuel with
  | O => Err out_of_fuel
  | S fuel' => node_html sc (resolve fuel' sc) node
  end.
(** Calls that go deeper than there are objects go in a circle, and overflow the
    stack. *)
Definition resolveNode (sc : Scope) (node : value) : result jsstr := resolve (S (size (heap sc))) sc node.

Definition head_link (st : store) (link : value) : result jsstr :=
  rel ← get st link "rel";
  rel_s ← to_string st rel;
  href ← get st link "href";
  href_s ← to_string st href;
  Ok (js "<link rel=" ++ [34] ++ rel_s ++ [34] ++ js " href=" ++ [34] ++ href_s ++ [34] ++ js ">").

Definition nl : jsstr := [10].
Definition quoted (s : string) : jsstr := [34] ++ js s ++ [34].

Definition document (headLinks mainHtml : jsstr) : jsstr :=
  js "<!DOCTYPE html>" ++ nl ++
  js "<html lang=" ++ quoted "en" ++ js ">" ++ nl ++
  js "<head>" ++ nl ++
  js "  <meta charset=" ++ quoted "UTF-8" ++ js ">" ++ nl ++
  js "  <meta name=" ++ quoted "viewport" ++ js " content=" ++
    quoted "width=device-width, initial-scale=1.0" ++ js ">" ++ nl ++
  js "  <title>Kubucoin (KUBU) - Native @Username Layer 1 Blockchain</title>" ++ nl ++
  js "  " ++ headLinks ++ nl ++
  js "</head>" ++ nl ++
  js "<body>" ++ nl ++
  mainHtml ++ nl ++
  js "  <script src=" ++ quoted "/assets/js/wallet-engine.js" ++ js "></script>" ++ nl ++
  js "</body>" ++ nl ++
  js "</html>".

(** What an array of strings joins: a byte array's [map] makes bytes of them,
    0 for a text that is no number. *)
Definition mapped (st : store) (v : value) (parts : list jsstr) : list jsstr :=
  match v with
  | VRef l => match st !! l with Some (Bytes _ _) => (fun _ => js "0") <$> parts | _ => parts end
  | _ => parts
  end.

(** The whole document from the parsed YAML. *)
Definition compile_doc (st : store) (doc : value) : result jsstr :=
  es ← entries st doc;
  sc ← process_entries (initial_scope st) es;
  main ← get (heap sc) doc "main";
  els ← map_target (heap sc) main;
  mainParts ← map_list (resolveNode sc) els;
  headlink ← table_key (heap sc) (extensions sc) (js "headlink");
  links ← (if truthy headlink then
             els ← map_target (heap sc) headlink;
             parts ← map_list (head_link (heap sc)) els;
             Ok (mapped (heap sc) headlink parts)
           else Ok []);
  Ok (document (join (nl ++ js "  ") links) (join nl mainParts)).

Record FileSystem := mkFS {
  files : gmap jsstr jsstr;
  write_refused : jsstr -> option string;
}.

(** [compileWeb4YamlToHtml]: the outcome (what is logged, or the error that
    ends the program) and the file system after it. *)
Definition compileWeb4YamlToHtml (fs : FileSystem) (yamlFilePath outputPath : jsstr)
    : result jsstr * FileSystem :=
  match files fs !! yamlFilePath with
  | None => (Err "ENOENT: no such file or directory", fs)
  | Some fileContent =>
      match ('(st, doc) ← yaml_load fileContent; compile_doc st doc) with
      | Err e => (Err e, fs)
      | Ok fullHtml =>
          match write_refused fs outputPath with
          | Some e => (Err e, fs)
          | None => (Ok (js "[Web4 Compiler] Successfully built " ++ outputPath),
                     mkFS (<[outputPath := fullHtml]> (files fs)) (write_refused fs))
          end
      end
  end.

(** ** Reference semantics

    A page as a tree of elements and uses of formats, a template as a list of
    pieces, data sources as the texts they have to offer, and the HTML they
    denote by substituting all holes at once. *)

Inductive piece := Lit (s : jsstr) | Hole (key : jsstr).

Definition flatten (ps : list piece) : jsstr :=
  concat ((fun p => match p with Lit s => s | Hole k => hole k end) <$> ps).

(** A parameter: a text, a data source or a field of one. *)
Inductive param := Const (s : jsstr) | Source (name : jsstr) (field : option jsstr).
(** The text of a data source as a whole, and of its fields. *)
Record SourceData := mkSource { whole : option jsstr; fields : list (jsstr * jsstr) }.
Record Format := mkFormat { f_params : list (jsstr * param); f_template : list piece }.

Inductive html :=
| Text (s : jsstr)
| Group (hs : list html)
| Anchor (href class children : jsstr)
| Elem (tag : jsstr) (id class : option jsstr) (hs : list html)
| Use (name : jsstr) (params : list (jsstr * param)) (hs : list html).

Definition param_text (sources : list (jsstr * SourceData)) (p : param) : option jsstr :=
  match p with
  | Const s => Some s
  | Source name None => d ← assoc name sources; whole d
  | Source name (Some field) => d ← assoc name sources; assoc field (fields d)
  end.

(** What a hole of a template stands for in a use of the format. *)
Definition hole_value (sources : list (jsstr * SourceData)) (defaults params : list (jsstr * param)) (childrenHtml k : jsstr) : option jsstr :=
  match assoc k params with
  | Some p => param_text sources p
  | None => match assoc k defaults with
            | Some p => param_text sources p
            | None => if bool_decide (k = js "children") then Some childrenHtml else None
            end
  end.

Definition expand (val : jsstr -> option jsstr) (ps : list piece) : list piece :=
  (fun p => match p with
            | Hole k => match val k with Some v => Lit v | None => p end
            | Lit _ => p
            end) <$> ps.

Definition attr (name : string) (v : option jsstr) : jsstr :=
  match v with Some v => js " " ++ js name ++ [61; 34] ++ v ++ [34] | None => [] end.

Fixpoint render (sources : list (jsstr * SourceData)) (fmts : list (jsstr * Format)) (h : html) : jsstr :=
  match h with
  | Text s => s
  | Group hs => concat (render sources fmts <$> hs)
  | Anchor href class children =>
      js "<a href=" ++ [34] ++ href ++ [34] ++ js " class=" ++ [34] ++ class ++ [34] ++ js ">" ++
      children ++ js "</a>"
  | Elem tag id class hs =>
      js "<" ++ tag ++ attr "id" id ++ attr "class" class ++ js ">" ++
      concat (render sources fmts <$> hs) ++ js "</" ++ tag ++ js ">"
  | Use name params hs =>
      match assoc name fmts with
      | Some f => flatten (expand (hole_value sources (f_params f) params (concat (render sources fmts <$> hs))) (f_template f))
      | None => []
      end
  end.

Definition link_html (link : jsstr * jsstr) : jsstr :=
  js "<link rel=" ++ [34] ++ link.1 ++ [34] ++ js " href=" ++ [34] ++ link.2 ++ [34] ++ js ">".

(** Hygiene inside formats.  A replacement text is taken literally when no [$]
    of it starts a replacement pattern; one that the next [replaceAll] goes over
    again must not start a hole either.  A key has no [$] and no brace that
    closes a hole. *)
Fixpoint dollars (ok : option Z -> bool) (s : jsstr) : bool :=
  match s with
  | [] => true
  | c :: s' => (if c =? 36 then ok (head s') else true) && dollars ok s'
  end.
Definition in_pattern (c : Z) : bool := (c =? 36) || (c =? 38) || (c =? 96) || (c =? 39).
Definition literal : jsstr -> bool := dollars (fun next => match next with Some c => negb (in_pattern c) | None => true end).
Definition inert : jsstr -> bool := dollars (fun next => match next with Some c => negb (in_pattern c || (c =? 123)) | None => false end).
Definition plain_key (s : jsstr) : bool := forallb (fun c => negb (c =? 36) && negb (c =? 125)) s.
Definition text_ok (sources : list (jsstr * SourceData)) (p : param) : bool :=
  match param_text sources p with Some s => inert s | None => false end.
Definition params_ok (sources : list (jsstr * SourceData)) (defaults params : list (jsstr * param)) : bool :=
  forallb (fun '(k, p) => plain_key k && text_ok sources p) params &&
  forallb (fun '(k, p) => plain_key k && (bool_decide (k ∈ params.*1) || text_ok sources p)) defaults &&
  bool_decide (NoDup params.*1) && bool_decide (NoDup defaults.*1).
Definition inert_piece (p : piece) : bool :=
  match p with Lit s => inert s | Hole k => plain_key k end.

(** Every use is of a format, with parameters that have a text, and an
    element's tag is neither a format nor something every object inherits. *)
Fixpoint well_formed (sources : list (jsstr * SourceData)) (fmts : list (jsstr * Format)) (h : html) : bool :=
  match h with
  | Text _ | Anchor _ _ _ => true
  | Group hs => forallb (well_formed sources fmts) hs
  | Elem tag _ _ hs =>
      negb (bool_decide (tag = js "a")) && negb (bool_decide (is_Some (assoc tag fmts))) &&
      negb (bool_decide (tag ∈ object_members)) && negb (bool_decide (tag = proto_key)) && forallb (well_formed sources fmts) hs
  | Use name params hs =>
      negb (bool_decide (name = js "a")) && forallb (well_formed sources fmts) hs && literal (concat (render sources fmts <$> hs)) &&
      match assoc name fmts with
      | Some f => params_ok sources (f_params f) params && forallb inert_piece (f_template f)
      | None => false
      end
  end.

(** ** Documents that represent a page

    Objects may have further properties, in any order; texts may be any value
    that converts to them, and absent ones are those the code takes as such. *)

Definition all2 {A B} (P : A -> B -> Prop) : list A -> list B -> Prop :=
  fix go l k := match l, k with [], [] => True | a :: l', b :: k' => P a b /\ go l' k' | _, _ => False end.

Definition shows (st : store) (v : value) (name : string) (s : jsstr) : Prop := exists x, get st v name = Ok x /\ to_string st x = Ok s.
Definition shows_some (st : store) (v : value) (name : string) (s : option jsstr) : Prop :=
  exists x, get st v name = Ok x /\ if truthy x then exists t, s = Some t /\ to_string st x = Ok t else s = None.

Definition no_dot (s : jsstr) : Prop := 46 ∉ s.
Definition represents_param (st : store) (p : param) (v : value) : Prop :=
  match p with
  | Const s => to_string st v = Ok s /\ as_function v = None /\ forall t, v = VStr t -> starts_with (js "$") t = false
  | Source name None => v = VStr (js "$" ++ name) /\ no_dot name
  | Source name (Some field) => no_dot name /\ no_dot field /\ exists rest, v = VStr (js "$" ++ name ++ js "." ++ field ++ rest) /\ head rest ∈ [None; Some 46]
  end.
Definition represents_params (st : store) (ps : list (jsstr * param)) (vs : list (jsstr * value)) : Prop :=
  all2 (fun p v => p.1 = v.1 /\ represents_param st p.2 v.2) ps vs.

Definition represents_format (st : store) (f : Format) (v : value) : Prop :=
  truthy v = true /\ get st v "template" = Ok (VStr (flatten (f_template f))) /\
  exists ps vs, get st v "params" = Ok ps /\ spread st ps = Ok vs /\ represents_params st (f_params f) vs.

Fixpoint represents (st : store) (h : html) (v : value) : Prop :=
  match h with
  | Text s => v = VStr s
  | Group hs => exists l els, v = VRef l /\ st !! l = Some (Array els) /\ all2 (represents st) hs els
  | Anchor href class children =>
      exists l body rest c, v = VRef l /\ st !! l = Some (Plain ((js "a", body) :: rest)) /\
        shows st body "href" href /\ shows_some st body "class" c /\ class = default [] c /\ shows st body "children" children
  | Elem tag id class hs =>
      exists l body rest ps children, v = VRef l /\ st !! l = Some (Plain ((tag, body) :: rest)) /\ get st body "params" = Ok ps /\
        (if truthy ps then shows_some st ps "id" id /\ shows_some st ps "class" class else id = None /\ class = None) /\
        get st body "children" = Ok children /\
        if truthy children then exists els, map_target st children = Ok els /\ all2 (represents st) hs els else hs = []
  | Use name params hs =>
      exists l body rest ps vs children, v = VRef l /\ st !! l = Some (Plain ((name, body) :: rest)) /\ get st body "params" = Ok ps /\
        (if truthy ps then spread st ps = Ok vs else vs = []) /\ represents_params st params vs /\
        get st body "children" = Ok children /\
        if truthy children then exists els, map_target st children = Ok els /\ all2 (represents st) hs els else hs = []
  end.

(** A value with the texts of a data source. *)
Definition represents_source (st : store) (d : SourceData) (v : value) : Prop :=
  (forall s, whole d = Some s -> to_string st v = Ok s /\ as_function v = None) /\
  forall field s, assoc field (fields d) = Some s -> exists x, get_key st v field = Ok x /\ to_string st x = Ok s /\ as_function x = None.

(** A script that prints the data and does nothing else, whatever the scope. *)
Definition prints (c : jsstr) (d : SourceData) : Prop :=
  forall sc, exists st x, eval_code c sc = Ok (mkScope st (formats sc) (dataSources sc) (extensions sc) x) /\
    heap sc ⊆ st /\ represents_source st d x.
Definition is_script (st : store) (v : value) (d : SourceData) : Prop :=
  get st v "script" = Ok (VStr (js "javascript")) /\ exists c, get st v "code" = Ok (VStr c) /\ c <> [] /\ prints c d.
Definition no_script (st : store) (v : value) : Prop :=
  exists script, get st v "script" = Ok script /\
    (is_str script (js "javascript") = false \/ exists code, get st v "code" = Ok code /\ truthy code = false).

Definition represents_link (st : store) (link : jsstr * jsstr) (v : value) : Prop := shows st v "rel" link.1 /\ shows st v "href" link.2.

Definition represents_page (st : store) (doc : value) (fmts : list (jsstr * Format)) (sources : list (jsstr * SourceData))
    (links : list (jsstr * jsstr)) (mains : list html) : Prop :=
  exists l es, doc = VRef l /\ st !! l = Some (Plain es) /\ NoDup es.*1 /\
    js "^" ++ proto_key ∉ es.*1 /\ js "$" ++ proto_key ∉ es.*1 /\
    (forall name, match assoc (js "^" ++ name) es, assoc name fmts with
                  | Some v, Some f => represents_format st f v
                  | None, None => True
                  | _, _ => False
                  end) /\
    (forall name, match assoc (js "$" ++ name) es, assoc name sources with
                  | Some v, Some d => is_script st v d
                  | Some v, None => no_script st v
                  | None, Some _ => False
                  | None, None => True
                  end) /\
    match assoc (js "+headlink") es with
    | Some v => if truthy v then exists els, array_of st v = Some els /\ all2 (represents_link st) links els else links = []
    | None => links = []
    end /\
    exists main els, assoc (js "main") es = Some main /\ map_target st main = Ok els /\ all2 (represents st) mains els.

(** The nodes [resolveNode] goes to from a node. *)
Inductive child (st : store) : value -> value -> Prop :=
| child_of_array v a x : array_of st v = Some a -> x ∈ a -> child st x v
| child_of_body l name body rest children els x :
    array_of st (VRef l) = None -> entries st (VRef l) = Ok ((name, body) :: rest) -> name <> js "a" ->
    get st body "children" = Ok children -> truthy children = true -> map_target st children = Ok els -> x ∈ els -> child st x (VRef l).

End Compiler.

(** ** Templates *)

Section Templates.
Implicit Types (s t k v repl : jsstr) (ps : list piece).

Lemma dollars_cons ok c s : dollars ok (c :: s) = true <-> (c = 36 -> ok (head s) = true) /\ dollars ok s = true.
Proof. cbn. rewrite andb_true_iff. destruct (Z.eqb_spec c 36); naive_solver. Qed.
Lemma dollars_mono (ok ok' : option Z -> bool) s : (forall n, ok n = true -> ok' n = true) -> dollars ok s = true -> dollars ok' s = true.
Proof. intros Hok. induction s as [|c s IH]; [done|]. rewrite !dollars_cons. naive_solver. Qed.
Lemma inert_literal s : inert s = true -> literal s = true.
Proof. apply dollars_mono. intros [c|]; [|done]. by destruct (in_pattern c). Qed.
Lemma dollars_none ok s : 36 ∉ s -> dollars ok s = true.
Proof. induction s as [|c s IH]; [done|]. rewrite not_elem_of_cons, dollars_cons. naive_solver. Qed.

Lemma plain_key_elem k : plain_key k = true -> 36 ∉ k /\ 125 ∉ k.
Proof.
  unfold plain_key. induction k as [|c k IH]; [split; apply not_elem_of_nil|]. cbn.
  intros [[H1 H2]%andb_prop Hk]%andb_prop. rewrite !not_elem_of_cons. destruct (IH Hk).
  apply negb_true_iff, Z.eqb_neq in H1, H2. auto.
Qed.

Lemma get_substitution_cons before m after c t :
  c <> 36 -> get_substitution before m after (c :: t) = c :: get_substitution before m after t.
Proof. intros Hc. destruct c as [|p|p]; try done. do 6 (destruct p as [p|p|]; try done). Qed.
Lemma get_substitution_literal before m after repl : literal repl = true -> get_substitution before m after repl = repl.
Proof.
  induction repl as [|c repl IH]; [done|]. intros [Hc Hr]%dollars_cons. destruct (Z.eq_dec c 36) as [->|Hne].
  - destruct repl as [|d repl]; [done|]. specialize (Hc eq_refl). cbn [head] in Hc. unfold in_pattern in Hc. rewrite !negb_orb, !andb_true_iff, !negb_true_iff in Hc.
    destruct Hc as [[[H1 H2] H3] H4]. rewrite <- (IH Hr) at 2. cbn. by rewrite H1, H2, H3, H4.
  - rewrite get_substitution_cons by done. by rewrite IH.
Qed.

Lemma replace_seen pat repl seen seen' n s :
  literal repl = true -> replace_all_from pat repl seen n s = replace_all_from pat repl seen' n s.
Proof.
  intros Hr. revert seen seen' n. induction s as [|c s IH]; intros seen seen' n; [done|].
  cbn [replace_all_from]. destruct n; [|by apply IH].
  rewrite !get_substitution_literal by done. by rewrite (IH _ (seen' ++ [c]) O), (IH _ (seen' ++ [c]) (length pat - 1)%nat).
Qed.
Lemma replace_skip pat repl seen a s :
  literal repl = true -> replace_all_from pat repl seen (length a) (a ++ s) = replace_all_from pat repl [] O s.
Proof. intros Hr. revert seen. induction a as [|c a IH]; intros seen; [by apply replace_seen|]. cbn. apply IH. Qed.
Lemma replace_inert k repl t s :
  literal repl = true -> inert t = true ->
  replace_all_from (hole k) repl [] O (t ++ s) = t ++ replace_all_from (hole k) repl [] O s.
Proof.
  intros Hr. induction t as [|c t IH]; [done|]. intros [Hc Ht]%dollars_cons. cbn [app replace_all_from].
  replace (starts_with (hole k) (c :: t ++ s)) with false.
  - f_equal. rewrite <- IH by done. by apply replace_seen.
  - symmetry. change (starts_with (hole k) (c :: t ++ s)) with ((36 =? c) && starts_with (123 :: k ++ [125]) (t ++ s)).
    destruct (Z.eqb_spec 36 c) as [<-|]; [|done]. specialize (Hc eq_refl). destruct t as [|d t]; [done|].
    cbn [head] in Hc. rewrite negb_true_iff, orb_false_iff in Hc. destruct Hc as [_ Hc].
    cbn [app starts_with andb]. by rewrite Z.eqb_sym, Hc.
Qed.
Lemma replace_hole_same k repl s :
  literal repl = true -> replace_all_from (hole k) repl [] O (hole k ++ s) = repl ++ replace_all_from (hole k) repl [] O s.
Proof.
  intros Hr. pose proof (starts_with_app (hole k) s) as Hs. change (hole k ++ s) with (36 :: ([123] ++ k ++ [125]) ++ s) in *.
  cbn [replace_all_from]. rewrite Hs, get_substitution_literal by done. f_equal.
  replace (length (hole k) - 1)%nat with (length ([123] ++ k ++ [125])); [by apply replace_skip|].
  unfold hole. rewrite !length_app. cbn. lia.
Qed.

Lemma key_prefix k k' t s : 125 ∉ k -> 125 ∉ k' -> k ++ [125] ++ t = k' ++ [125] ++ s -> k = k'.
Proof.
  revert k'. induction k as [|c k IH]; intros [|c' k'] Hk Hk' [= E]; [done|subst; set_solver..|].
  subst. f_equal. apply IH; [set_solver..|done].
Qed.
Lemma replace_hole_other k k' repl s :
  literal repl = true -> plain_key k = true -> plain_key k' = true -> k <> k' ->
  replace_all_from (hole k) repl [] O (hole k' ++ s) = hole k' ++ replace_all_from (hole k) repl [] O s.
Proof.
  intros Hr [_ Hk]%plain_key_elem [Hp Hk']%plain_key_elem Hne.
  change (hole k' ++ s) with (36 :: (123 :: k' ++ [125]) ++ s). cbn [replace_all_from].
  destruct (starts_with (hole k) _) eqn:E.
  - exfalso. apply Hne. apply starts_with_spec in E as [t E]. unfold hole in E. cbn in E.
    injection E as E. rewrite <- !app_assoc in E. symmetry in E. by eapply key_prefix.
  - change (hole k' ++ ?x) with (36 :: (123 :: k' ++ [125]) ++ x). f_equal.
    rewrite <- replace_inert; [by apply replace_seen|done|]. apply dollars_none. set_solver.
Qed.

Lemma expand_expand f g ps :
  expand f (expand g ps) = expand (fun k => match g k with Some v => Some v | None => f k end) ps.
Proof.
  unfold expand. rewrite <- list_fmap_compose. apply list_fmap_ext. intros _ [s|k] _; [done|]. cbn. by destruct (g k).
Qed.
Lemma expand_ext f g ps : (forall k, Hole k ∈ ps -> f k = g k) -> expand f ps = expand g ps.
Proof. intros Hfg. apply list_fmap_ext. intros i [s|k] Hi; [done|]. by rewrite (Hfg k) by (by eapply list_elem_of_lookup_2). Qed.
Lemma expand_nothing ps : expand (fun _ => None) ps = ps.
Proof. unfold expand. rewrite <- (list_fmap_id ps) at 2. by apply list_fmap_ext; intros ? [] _. Qed.

(** One [replaceAll] fills one hole everywhere and nothing else. *)
Lemma replaceAll_flatten k repl ps :
  literal repl = true -> plain_key k = true -> forallb inert_piece ps = true ->
  replaceAll (flatten ps) (hole k) repl = flatten (expand (fun k' => if bool_decide (k' = k) then Some repl else None) ps).
Proof.
  intros Hr Hk. unfold replaceAll. induction ps as [|p ps IH]; [done|].
  intros [Hp Hps]%andb_prop. unfold flatten in *. cbn [fmap list_fmap concat expand]. destruct p as [s|k']; cbn in Hp.
  - rewrite replace_inert by done. by rewrite IH.
  - case_bool_decide; [subst; rewrite replace_hole_same by done; by rewrite IH|].
    rewrite replace_hole_other by done. by rewrite IH.
Qed.
Lemma expand_inert f ps :
  (forall k v, f k = Some v -> inert v = true) -> forallb inert_piece ps = true -> forallb inert_piece (expand f ps) = true.
Proof.
  intros Hf. induction ps as [|[s|k] ps IH]; [done|..]; intros [Hp Hps]%andb_prop; cbn;
    apply andb_true_intro; (split; [|by apply IH]); [done|]. destruct (f k) eqn:E; [by eapply Hf|done].
Qed.

End Templates.

(** ** Termination *)

Section Termination.
Context `{JsRealm}.
Implicit Types (sc : Scope) (node v : value).

Lemma ran_source_value st sources s : ran (source_value st sources s).
Proof. apply ran_bind; [auto with ran|]. intros src _. destruct (split_dot s !! 1%nat); auto with ran. Qed.
Lemma ran_resolve_params st sources es params : ran (resolve_params st sources es params).
Proof.
  revert params. induction es as [|[k v] es IH]; intros params; [done|]. cbn. destruct v; auto. apply ran_if; [|done].
  apply ran_bind; [apply ran_source_value|auto].
Qed.
Lemma ran_fill_params st template ps : ran (fill_params st template ps).
Proof. revert template. induction ps as [|[k v] ps IH]; intros template; [done|]. cbn. apply ran_bind; auto with ran. Qed.
Lemma ran_attribute st body name : ran (attribute st body name).
Proof. repeat (apply ran_bind; [auto with ran|intros; try apply ran_if; auto with ran]). Qed.
#[local] Hint Resolve ran_resolve_params ran_fill_params ran_attribute : ran.

(** What the node's own code does with the results of the calls for its
    children. *)
Definition goes_to sc (body x : value) : Prop :=
  exists children els, get (heap sc) body "children" = Ok children /\ truthy children = true /\ map_target (heap sc) children = Ok els /\ x ∈ els.
Lemma children_ran sc rec body : (forall x, goes_to sc body x -> ran (rec x)) -> ran (children_html sc rec body).
Proof.
  intros Hr. apply ran_bind; [auto with ran|]. intros children Hc. destruct (truthy children) eqn:Ht; [|done].
  apply ran_bind; [auto with ran|]. intros els He. apply ran_bind; [|done]. apply ran_map_list. intros x Hx. apply Hr. by exists children, els.
Qed.
Lemma children_ext sc rec rec' body : (forall x, goes_to sc body x -> rec x = rec' x) -> children_html sc rec body = children_html sc rec' body.
Proof.
  intros Hr. unfold children_html. destruct (get _ _ _) as [children|] eqn:Hc; [|done]. cbn. destruct (truthy children) eqn:Ht; [|done].
  destruct (map_target _ _) as [els|] eqn:He; [|done]. cbn. rewrite (map_list_ext rec rec'); [done|]. intros x Hx. apply Hr. by exists children, els.
Qed.
Lemma map_list_Ok_elem {A B} (f : A -> result B) l r x : map_list f l = Ok r -> x ∈ l -> exists y, f x = Ok y.
Proof.
  revert r. induction l as [|a l IH]; intros r E Hx; [by apply not_elem_of_nil in Hx|]. cbn in E. apply bind_ok in E as (y & Hy & E).
  apply bind_ok in E as (ys & Hys & _). apply elem_of_cons in Hx as [->|Hx]; eauto.
Qed.
Lemma children_Ok sc rec body s x : children_html sc rec body = Ok s -> goes_to sc body x -> exists s', rec x = Ok s'.
Proof.
  intros E (children & els & Hc & Ht & He & Hx). unfold children_html in E. rewrite Hc in E. cbn in E. rewrite Ht, He in E. cbn in E.
  apply bind_ok in E as (parts & Hp & _). by eapply map_list_Ok_elem.
Qed.

(** A node is a text, an array or something whose first entry counts. *)
Lemma node_cases sc node :
  (exists s, node = VStr s /\ forall rec, node_html sc rec node = Ok s) \/
  (exists a, array_of (heap sc) node = Some a /\ forall rec, node_html sc rec node = (parts ← map_list rec a; Ok (join [] parts))) \/
  (array_of (heap sc) node = None /\ (forall e es, entries (heap sc) node = Ok (e :: es) -> exists l, node = VRef l) /\
   forall rec, node_html sc rec node = component_html sc rec node).
Proof.
  destruct node as [| | | |s|l| |]; try (right; right; done); [left; by exists s|right].
  unfold node_html. destruct (array_of (heap sc) (VRef l)) as [a|] eqn:E; [left; by exists a|right]. split; [done|]. split; [by exists l|done].
Qed.

Lemma node_html_ran sc rec node : (forall x, child (heap sc) x node -> ran (rec x)) -> ran (node_html sc rec node).
Proof.
  intros Hr. destruct (node_cases sc node) as [(s & _ & ->)|[(a & Ea & ->)|(Ea & Hl & ->)]]; [done| |].
  { apply ran_bind; [|done]. apply ran_map_list. intros x Hx. apply Hr. by eapply child_of_array. }
  apply ran_bind; [auto with ran|]. intros [|[name body] rest] He; [done|]. destruct (Hl _ _ He) as [l ->]. case_bool_decide as Ha.
  - repeat (apply ran_bind; [auto with ran|intros; try apply ran_if; auto with ran]).
  - assert (ran (children_html sc rec body)).
    { apply children_ran. intros x (children & els & ? & ? & ? & ?). apply Hr. by eapply child_of_body. }
    apply ran_bind; [auto with ran|]. intros fmt _. apply ran_if; repeat (apply ran_bind; [auto with ran|intros; try apply ran_if; auto with ran]).
Qed.
Lemma node_html_ext sc rec rec' node : (forall x, child (heap sc) x node -> rec x = rec' x) -> node_html sc rec node = node_html sc rec' node.
Proof.
  intros Hr. destruct (node_cases sc node) as [(s & _ & E)|[(a & Ea & E)|(Ea & Hl & E)]]; rewrite !E; [done| |].
  { f_equal. apply map_list_ext. intros x Hx. apply Hr. by eapply child_of_array. }
  unfold component_html. destruct (entries _ _) as [[|[name body] rest]|] eqn:He; [done| |done]. destruct (Hl _ _ eq_refl) as [l ->]. cbn [mbind result_bind].
  case_bool_decide as Ha; [done|]. unfold format_html, element_html. rewrite (children_ext sc rec rec' body); [done|].
  intros x (children & els & ? & ? & ? & ?). apply Hr. by eapply child_of_body.
Qed.
Lemma node_html_Ok sc rec node s x : node_html sc rec node = Ok s -> child (heap sc) x node -> exists s', rec x = Ok s'.
Proof.
  intros E Hc. destruct (node_cases sc node) as [(t & -> & _)|[(a & Ea & Hn)|(Ea & Hl & Hn)]]; [by inversion Hc| |]; rewrite Hn in E.
  { apply bind_ok in E as (parts & Hp & _). inversion Hc; [|congruence]. eapply map_list_Ok_elem; [done|congruence]. }
  apply bind_ok in E as (es & He & E). inversion Hc as [|l name body rest children els ? Hna He' Ha Hch Ht Hels Hx]; subst; [congruence|].
  rewrite He in He'. injection He' as ->. cbn in E. rewrite (bool_decide_eq_false_2 (name = js "a")) in E by done. apply bind_ok in E as (fmt & _ & E).
  assert (exists c, children_html sc rec body = Ok c) as [c Hkids]; [|eapply children_Ok; [done|]; by exists children, els].
  destruct (children_html sc rec body) as [c|e] eqn:Hk; [by exists c|]. exfalso. destruct (truthy fmt); [unfold format_html in E|unfold element_html in E];
    rewrite Hk in E; repeat (apply bind_ok in E as (? & ? & E)); done.
Qed.

(** Calls for objects that are all different, and each reached from the one
    before, are not deeper than the store is large. *)
Lemma tc_last {A} (R : relation A) x y : tc R x y -> exists z, rtc R x z /\ R z y.
Proof. induction 1 as [x y Hxy|x y z Hxy _ (w & Hw & Hwz)]; [by exists x|exists w; split; [by eapply rtc_l|done]]. Qed.
Lemma Acc_no_cycle {A} (R : relation A) x : Acc R x -> ~ tc R x x.
Proof.
  induction 1 as [x _ IH]. intros (z & Hz & Hzx)%tc_last. apply (IH z Hzx). eapply tc_rtc_r; [by apply tc_once|done].
Qed.
Lemma resolve_bound sc n seen node :
  Acc (child (heap sc)) node -> NoDup seen -> (forall l, l ∈ seen -> is_Some (heap sc !! l) /\ tc (child (heap sc)) node (VRef l)) ->
  (size (heap sc) < n + length seen)%nat -> ran (resolve n sc node) /\ forall m, (n <= m)%nat -> resolve m sc node = resolve n sc node.
Proof.
  revert seen node. induction n as [|n IH]; intros seen node Hacc Hnd Hseen Hn.
  { destruct seen as [|l seen]; [cbn in Hn; lia|]. apply NoDup_cons in Hnd as [Hl Hnd].
    pose proof (locs_bound (heap sc) seen l Hnd (fun x Hx => proj1 (Hseen x ltac:(by right))) (proj1 (Hseen l ltac:(left))) Hl). cbn in Hn. lia. }
  assert (Hrec : forall x, child (heap sc) x node -> ran (resolve n sc x) /\ forall m, (n <= m)%nat -> resolve m sc x = resolve n sc x).
  { intros x Hx. assert (exists l, node = VRef l /\ is_Some (heap sc !! l)) as (l & -> & Hl).
    { inversion Hx as [v a ? Ha _|l ? ? ? ? ? ? ? He]; subst; [destruct node as [| | | | |l| |]; try done; cbn in Ha|cbn in He];
        (exists l; split; [done|]; by destruct (heap sc !! l)). }
    assert (l ∉ seen) as Hnot by (intros Hin; by apply (Acc_no_cycle _ _ Hacc), Hseen).
    apply (IH (l :: seen)); [by eapply Acc_inv|by constructor| |cbn; lia].
    intros y [->|Hy]%elem_of_cons; [split; [done|by apply tc_once]|]. destruct (Hseen y Hy). split; [done|]. by eapply tc_l. }
  split; [apply node_html_ran; intros x Hx; by apply Hrec|]. intros [|m] Hm; [lia|]. cbn. apply node_html_ext. intros x Hx. apply Hrec; [done|lia].
Qed.

(** More fuel changes nothing but calls that ran out of it. *)
Lemma map_list_more {A B} (f g : A -> result B) l :
  (forall x, ran (f x) -> g x = f x) -> map_list g l = map_list f l \/ (map_list f l = Err out_of_fuel /\ exists x, x ∈ l /\ f x = Err out_of_fuel /\ ran (g x)).
Proof.
  intros Hfg. induction l as [|x l IH]; [by left|]. cbn. destruct (f x) as [y|e] eqn:E.
  - rewrite (Hfg x) by (by rewrite E). rewrite E. cbn. destruct IH as [->|(-> & z & Hz & ?)]; [by left|]. right. split; [done|]. exists z. split; [by right|done].
  - destruct (decide (e = out_of_fuel)) as [->|He]; [|left; rewrite (Hfg x); rewrite E; [done|congruence]].
    destruct (ran_or (g x)) as [->|Hg]; [by left|right]. split; [done|]. exists x. split; [left|done].
Qed.
Lemma children_more sc f g body :
  (forall x, ran (f x) -> g x = f x) ->
  children_html sc g body = children_html sc f body \/ (children_html sc f body = Err out_of_fuel /\ exists x, goes_to sc body x /\ f x = Err out_of_fuel /\ ran (g x)).
Proof.
  intros Hfg. unfold children_html. destruct (get _ _ _) as [children|] eqn:Hc; [|by left]. cbn. destruct (truthy children) eqn:Ht; [|by left].
  destruct (map_target _ _) as [els|] eqn:He; [|by left]. cbn. destruct (map_list_more f g els Hfg) as [->|(-> & x & Hx & ?)]; [by left|right].
  split; [done|]. exists x. split; [by exists children, els|done].
Qed.
Lemma node_more sc f g node :
  (forall x, ran (f x) -> g x = f x) ->
  node_html sc g node = node_html sc f node \/ (node_html sc f node = Err out_of_fuel /\ exists x, child (heap sc) x node /\ f x = Err out_of_fuel /\ ran (g x)).
Proof.
  intros Hfg. destruct (node_cases sc node) as [(s & _ & E)|[(a & Ea & E)|(Ea & Hl & E)]]; rewrite !E; [by left| |].
  { destruct (map_list_more f g a Hfg) as [->|(-> & x & Hx & ?)]; [by left|right]. split; [done|]. exists x. split; [by eapply child_of_array|done]. }
  unfold component_html. destruct (entries _ _) as [[|[name body] rest]|] eqn:He; [by left| |by left]. destruct (Hl _ _ eq_refl) as [l ->]. cbn [mbind result_bind].
  case_bool_decide as Ha; [by left|]. destruct (table_key _ _ _) as [fmt|]; [|by left]. cbn [mbind result_bind].
  destruct (children_more sc f g body Hfg) as [Hk|(Hk & x & (children & els & ? & ? & ? & ?) & Hx)];
    [left; unfold format_html, element_html; by rewrite Hk|].
  assert (exists y, child (heap sc) y (VRef l) /\ f y = Err out_of_fuel /\ ran (g y)) as Hy by (exists x; split; [by eapply child_of_body|done]).
  unfold format_html, element_html. rewrite Hk.
  destruct (truthy fmt); repeat (first [right; split; [reflexivity|exact Hy]
    | match goal with |- (?m ≫= _) = _ \/ _ => destruct m; cbn [mbind result_bind]; [|by left] end]).
Qed.
Lemma resolve_more sc n m node : (n <= m)%nat -> ran (resolve n sc node) -> resolve m sc node = resolve n sc node.
Proof.
  revert m node. induction n as [|n IH]; intros [|m] node Hle Hr; [done..|lia|]. cbn in *.
  destruct (node_more sc (resolve n sc) (resolve m sc) node) as [->|[E _]]; [intros x Hx; apply IH; [lia|done]|done|]. by rewrite E in Hr.
Qed.

(** [n] is the depth of the calls that a node needs, less one. *)
Definition needs sc (n : nat) node : Prop := resolve n sc node = Err out_of_fuel /\ ran (resolve (S n) sc node).
Lemma needs_unique sc n m node : needs sc n node -> needs sc m node -> n = m.
Proof.
  intros [Hn Hn'] [Hm Hm']. destruct (Nat.lt_trichotomy n m) as [Hlt|[?|Hlt]]; [|done|]; exfalso.
  - rewrite (resolve_more sc (S n) m) in Hm by (done || lia). by rewrite Hm in Hn'.
  - rewrite (resolve_more sc (S m) n) in Hn by (done || lia). by rewrite Hn in Hm'.
Qed.
Lemma child_ref st x node : child st x node -> exists l, node = VRef l /\ is_Some (st !! l).
Proof.
  intros Hx. inversion Hx as [v a ? Ha _|l ? ? ? ? ? ? ? He]; subst; [destruct node as [| | | | |l| |]; try done; cbn in Ha|cbn in He];
    (exists l; split; [done|]; by destruct (st !! l)).
Qed.
Lemma needs_path sc n node :
  needs sc n node -> exists ls, length ls = n /\ NoDup ls /\ forall l, l ∈ ls -> is_Some (heap sc !! l) /\ exists k, (0 < k <= n)%nat /\ needs sc k (VRef l).
Proof.
  revert node. induction n as [|n IH]; intros node Hn; [exists []; split_and!; [done|constructor|by intros l Hl%not_elem_of_nil]|].
  destruct (node_more sc (resolve n sc) (resolve (S n) sc) node) as [E|(_ & x & Hc & Hx)]; [intros; apply resolve_more; [lia|done]| |].
  { destruct Hn as [Hn Hr]. change (resolve (S (S n)) sc node = resolve (S n) sc node) in E. by rewrite E, Hn in Hr. }
  destruct (child_ref _ _ _ Hc) as (l & -> & Hl). destruct (IH x Hx) as (ls & Hlen & Hnd & Hls). exists (l :: ls). split_and!; [cbn; lia| |].
  - constructor; [|done]. intros Hin. destruct (Hls l Hin) as (_ & k & Hk & Hk'). pose proof (needs_unique _ _ _ _ Hn Hk'). lia.
  - intros l' [->|Hl']%elem_of_cons; [split; [done|]; exists (S n); split; [lia|done]|].
    destruct (Hls l' Hl') as (? & k & ? & ?). split; [done|]. exists k. split; [lia|done].
Qed.
Lemma needs_size sc n node : needs sc n node -> (n <= size (heap sc))%nat.
Proof.
  intros (ls & <- & Hnd & Hls)%needs_path. destruct ls as [|l ls]; [cbn; lia|]. apply NoDup_cons in Hnd as [Hl Hnd].
  pose proof (locs_bound (heap sc) ls l Hnd (fun x Hx => proj1 (Hls x ltac:(by right))) (proj1 (Hls l ltac:(left))) Hl). cbn. lia.
Qed.
Lemma ran_needs sc m node : ran (resolve m sc node) -> exists n, needs sc n node.
Proof.
  induction m as [|m IH]; [done|]. intros Hr. destruct (ran_or (resolve m sc node)) as [E|E]; [by exists m|by apply IH].
Qed.
Lemma resolveNode_fuel sc node n : (size (heap sc) < n)%nat -> resolve n sc node = resolveNode sc node.
Proof.
  intros Hn. destruct (ran_or (resolve n sc node)) as [E|E].
  - destruct (ran_or (resolveNode sc node)) as [E'|E']; [congruence|]. apply (resolve_more sc (S (size (heap sc)))); [lia|exact E'].
  - destruct (ran_needs _ _ _ E) as (k & Hk). pose proof (needs_size _ _ _ Hk). destruct Hk as [_ Hk].
    unfold resolveNode. by rewrite (resolve_more sc (S k) n), (resolve_more sc (S k) (S (size (heap sc)))) by (exact Hk || lia).
Qed.
Lemma resolveNode_acyclic sc node : Acc (child (heap sc)) node -> ran (resolveNode sc node).
Proof. intros Ha. apply (resolve_bound sc _ []); [done|constructor|intros l Hl; by apply not_elem_of_nil in Hl|cbn; lia]. Qed.

(** A node on a circle, or leading to one, never returns. *)
Lemma resolve_Acc sc n node s : resolve n sc node = Ok s -> Acc (child (heap sc)) node.
Proof.
  revert node s. induction n as [|n IH]; [done|]. intros node s E. constructor. intros x Hx.
  destruct (node_html_Ok _ _ _ _ _ E Hx) as [s' Hs]. by eapply IH.
Qed.
Lemma resolve_resolveNode sc n node s : resolve n sc node = Ok s -> resolveNode sc node = Ok s.
Proof.
  intros E. rewrite <- (resolveNode_fuel sc node (max n (S (size (heap sc))))) by lia. rewrite (resolve_more sc n); [done|lia|by rewrite E].
Qed.
End Termination.

(** ** Pages *)

Lemma all2_Forall2 {A B} (P : A -> B -> Prop) l k : all2 P l k <-> Forall2 P l k.
Proof.
  split.
  - revert k. induction l as [|a l IH]; intros [|b k]; cbn; try done. intros [? ?]. constructor; auto.
  - induction 1; cbn; auto.
Qed.

Section Parameters.
Context `{JsRealm}.
Implicit Types (st : store) (sources : list (jsstr * SourceData)).

Lemma params_keys st ps vs : represents_params st ps vs -> vs.*1 = ps.*1.
Proof. intros Hp%all2_Forall2. induction Hp as [|? ? ? ? [E _] _ IH]; [done|]. cbn. by rewrite E, IH. Qed.
Lemma params_assoc st ps vs k :
  represents_params st ps vs ->
  match assoc k ps, assoc k vs with Some p, Some v => represents_param st p v | None, None => True | _, _ => False end.
Proof. intros Hp%all2_Forall2. induction Hp as [|[k1 p] [k2 v] ? ? [E Hr] _ IH]; [done|]. cbn in *. subst. by case_bool_decide. Qed.

Lemma split_dot_end cur s : 46 ∉ s -> split_dot_from cur s = [cur ++ s].
Proof.
  revert cur. induction s as [|c s IH]; intros cur; cbn; [by rewrite app_nil_r|]. rewrite not_elem_of_cons. intros [Hc Hs].
  rewrite (proj2 (Z.eqb_neq c 46)) by done. rewrite IH by done. by rewrite <- app_assoc.
Qed.
Lemma split_dot_dot cur s t : 46 ∉ s -> split_dot_from cur (s ++ 46 :: t) = (cur ++ s) :: split_dot t.
Proof.
  revert cur. induction s as [|c s IH]; intros cur; cbn; [by rewrite app_nil_r|]. rewrite not_elem_of_cons. intros [Hc Hs].
  rewrite (proj2 (Z.eqb_neq c 46)) by done. rewrite IH by done. by rewrite <- app_assoc.
Qed.

Definition sources_ok st (ds : Table) sources : Prop :=
  forall name d, assoc name sources = Some d -> exists x, assoc name (own ds) = Some x /\ represents_source st d x.
(** What the loop over the parameters makes of a value. *)
Definition resolves st (ds : Table) (v x : value) : Prop :=
  match v with VStr t => if starts_with (js "$") t then source_value st ds (drop 1 t) = Ok x else x = v | _ => x = v end.

Lemma param_resolves st ds sources p v s :
  sources_ok st ds sources -> represents_param st p v -> param_text sources p = Some s ->
  exists x, resolves st ds v x /\ to_string st x = Ok s /\ as_function x = None.
Proof.
  intros Hs. destruct p as [t|name [field|]]; cbn [represents_param param_text].
  - intros (Ht & Hf & Hd) [= <-]. exists v. split; [|done]. destruct v; try done. unfold resolves. by rewrite Hd.
  - intros (Hn & Hf & rest & -> & Hrest) E. destruct (assoc name sources) as [d|] eqn:Ed; [|done]. cbn in E.
    destruct (Hs name d Ed) as (src & Hsrc & _ & Hd). destruct (Hd field s E) as (x & Hx & Hx'). exists x. split; [|done].
    unfold resolves. rewrite starts_with_app. change (drop 1 (js "$" ++ name ++ js "." ++ field ++ rest)) with (name ++ 46 :: (field ++ rest)).
    unfold source_value, split_dot at 1 2. rewrite split_dot_dot by done.
    assert (exists more, split_dot (field ++ rest) = field :: more) as [more ->].
    { destruct rest as [|c rest]; [rewrite app_nil_r; exists []; by apply split_dot_end|]. cbn in Hrest.
      assert (c = 46) as -> by set_solver. eexists. by apply split_dot_dot. }
    cbn. unfold table_key. by rewrite Hsrc.
  - intros (-> & Hn) E. destruct (assoc name sources) as [d|] eqn:Ed; [|done]. cbn in E.
    destruct (Hs name d Ed) as (src & Hsrc & Hd & _). exists src. split; [|by apply Hd].
    unfold resolves. rewrite starts_with_app. change (drop 1 (js "$" ++ name)) with name. unfold source_value, split_dot. rewrite split_dot_end by done.
    cbn. unfold table_key. by rewrite Hsrc.
Qed.

Lemma resolve_params_spec st ds es params :
  NoDup es.*1 -> (forall k v, (k, v) ∈ es -> exists x, resolves st ds v x) -> (forall k v, assoc k es = Some v -> assoc k params = Some v) ->
  exists params', resolve_params st ds es params = Ok params' /\ (NoDup params.*1 -> NoDup params'.*1) /\
    forall k, match assoc k es with Some v => exists x, resolves st ds v x /\ assoc k params' = Some x | None => assoc k params' = assoc k params end.
Proof.
  revert params. induction es as [|[k v] es IH]; intros params Hnd Hx Hp; [by exists params|]. cbn in Hnd. apply NoDup_cons in Hnd as [Hk Hnd].
  destruct (Hx k v ltac:(left)) as [x Hvx]. pose proof (proj2 (assoc_None k es) Hk) as Hnone.
  assert (Hstep : exists params1, resolve_params st ds ((k, v) :: es) params = resolve_params st ds es params1 /\ (NoDup params.*1 -> NoDup params1.*1) /\
            assoc k params1 = Some x /\ forall k', k' <> k -> assoc k' params1 = assoc k' params).
  { pose proof (Hp k v ltac:(cbn; by rewrite bool_decide_true)) as Hkv. unfold resolves in Hvx.
    destruct v as [| | | |t| | |]; cbn [resolve_params]; try (subst x; by exists params).
    destruct (starts_with (js "$") t); [|subst x; by exists params]. exists (set_prop k x params). rewrite Hvx. split_and!; [done|apply NoDup_set_prop| |].
    - rewrite assoc_set_prop. by rewrite bool_decide_true.
    - intros k' Hne. rewrite assoc_set_prop. by rewrite bool_decide_false. }
  destruct Hstep as (params1 & -> & Hnd1 & Hk1 & Hother). destruct (IH params1) as (params' & -> & Hnd' & Hspec); [done|intros; eapply Hx; by right| |].
  { intros k' v' E. assert (k' <> k) as Hne by congruence. rewrite Hother by done. apply Hp. cbn. by rewrite bool_decide_false. }
  exists params'. split_and!; [done|auto|]. intros k'. cbn. specialize (Hspec k'). case_bool_decide as E; [subst; rewrite Hnone in Hspec; exists x; split; congruence|].
  destruct (assoc k' es); [done|]. by rewrite Hspec, Hother.
Qed.

Definition text st (v : value) : jsstr := match to_string st v with Ok s => s | Err _ => [] end.
Lemma fill_params_inert st ps params :
  (forall k v, (k, v) ∈ params -> plain_key k = true /\ as_function v = None /\ exists s, to_string st v = Ok s /\ inert s = true) ->
  forallb inert_piece ps = true ->
  fill_params st (VStr (flatten ps)) params = Ok (VStr (flatten (expand (fun k => text st <$> assoc k params) ps))) /\
  forallb inert_piece (expand (fun k => text st <$> assoc k params) ps) = true.
Proof.
  revert ps. induction params as [|[k v] params IH]; intros ps Hp Hps; cbn [fill_params]; [by rewrite expand_nothing|].
  destruct (Hp k v ltac:(left)) as (Hk & Hf & s & Hs & Hi). cbn [replace_in]. rewrite Hf, Hs. cbn [mbind result_bind].
  rewrite replaceAll_flatten by (done || by apply inert_literal).
  destruct (IH (expand (fun k' => if bool_decide (k' = k) then Some s else None) ps)) as [-> Hin].
  - intros k' v' ?. apply Hp. by right.
  - apply expand_inert; [|done]. intros k' v'. case_bool_decide; [by intros [= <-]|done].
  - rewrite expand_expand in *. rewrite (expand_ext (fun k' => text st <$> assoc k' ((k, v) :: params))
      (fun k' => match (if bool_decide (k' = k) then Some s else None) with Some v => Some v | None => text st <$> assoc k' params end)); [done|].
    intros k' _. cbn. case_bool_decide; [|done]. cbn. unfold text. by rewrite Hs.
Qed.

Definition chosen (defaults params : list (jsstr * param)) (k : jsstr) : option param :=
  match assoc k params with Some p => Some p | None => assoc k defaults end.
Lemma chosen_ok sources defaults params k p :
  params_ok sources defaults params = true -> chosen defaults params k = Some p ->
  plain_key k = true /\ exists s, param_text sources p = Some s /\ inert s = true.
Proof.
  intros [[[Hp Hd]%andb_prop _]%andb_prop _]%andb_prop Hc. rewrite !forallb_forall in Hp, Hd. unfold chosen in Hc.
  assert (Ht : plain_key k = true /\ text_ok sources p = true).
  { destruct (assoc k params) eqn:E; [injection Hc as ->; apply assoc_elem, list_elem_of_In, Hp in E; by apply andb_prop in E|].
    pose proof (proj1 (assoc_None _ _) E). apply assoc_elem, list_elem_of_In, Hd in Hc. apply andb_prop in Hc as [? [Hin|?]%orb_prop]; [|done].
    by apply bool_decide_eq_true in Hin. }
  destruct Ht as [? Ht]. split; [done|]. unfold text_ok in Ht. destruct (param_text sources p) as [s|]; [by exists s|done].
Qed.

Lemma merged_assoc st sources defaults params dvs vs k :
  params_ok sources defaults params = true -> represents_params st defaults dvs -> represents_params st params vs ->
  match chosen defaults params k, assoc k (set_props (set_props [] dvs) vs) with
  | Some p, Some v => represents_param st p v | None, None => True | _, _ => False end.
Proof.
  intros [[_ Hp%bool_decide_eq_true]%andb_prop Hd%bool_decide_eq_true]%andb_prop Hdv Hv.
  rewrite !assoc_set_props by (rewrite ?(params_keys _ _ _ Hv), ?(params_keys _ _ _ Hdv); done). pose proof (params_assoc st defaults dvs k Hdv) as E1. pose proof (params_assoc st params vs k Hv) as E2.
  unfold chosen. by destruct (assoc k params), (assoc k vs), (assoc k defaults), (assoc k dvs).
Qed.

(** The use of a format: all its holes are filled. *)
Lemma fill_format st ds sources f params dvs vs c :
  sources_ok st ds sources -> represents_params st (f_params f) dvs -> represents_params st params vs ->
  params_ok sources (f_params f) params = true -> forallb inert_piece (f_template f) = true -> literal c = true ->
  let ps := set_props (set_props [] dvs) vs in
  exists ps', resolve_params st ds ps ps = Ok ps' /\
    (template ← fill_params st (VStr (flatten (f_template f))) ps'; replace_in st template (hole (js "children")) (VStr c)) =
    Ok (VStr (flatten (expand (hole_value sources (f_params f) params c) (f_template f)))).
Proof.
  intros Hs Hd Hv Hok Ht Hc ps. pose proof (fun k => merged_assoc st sources (f_params f) params dvs vs k Hok Hd Hv) as Hm. fold ps in Hm.
  assert (Hnd : NoDup ps.*1) by (apply NoDup_set_props, NoDup_set_props, NoDup_nil_2).
  assert (Hres : forall k v, assoc k ps = Some v -> exists p s, chosen (f_params f) params k = Some p /\ plain_key k = true /\ represents_param st p v /\
            param_text sources p = Some s /\ inert s = true).
  { intros k v E. specialize (Hm k). rewrite E in Hm. destruct (chosen _ _ k) as [p|] eqn:Ec; [|done].
    destruct (chosen_ok _ _ _ _ _ Hok Ec) as (? & s & ? & ?). by exists p, s. }
  assert (Hval : forall k v x, assoc k ps = Some v -> resolves st ds v x -> plain_key k = true /\ as_function x = None /\ exists s,
            hole_value sources (f_params f) params c k = Some s /\ to_string st x = Ok s /\ inert s = true).
  { intros k v x E Hx. destruct (Hres k v E) as (p & s & Hch & Hk & Hp & Hps & Hi). destruct (param_resolves _ _ _ _ _ _ Hs Hp Hps) as (y & Hy & Hys & Hf).
    assert (x = y) as -> by (unfold resolves in Hx, Hy; destruct v; try congruence; destruct (starts_with _ _); congruence).
    split_and!; [done..|]. exists s. split; [|done]. unfold hole_value. unfold chosen in Hch. destruct (assoc k params); [congruence|]. by rewrite Hch. }
  destruct (resolve_params_spec st ds ps ps Hnd) as (ps' & Er & Hnd' & Hspec); [|done|].
  { intros k v E%elem_assoc; [|done]. destruct (Hres k v E) as (p & s & _ & _ & Hp & Hps & _). destruct (param_resolves _ _ _ _ _ _ Hs Hp Hps) as (x & ? & _). by exists x. }
  exists ps'. split; [done|]. destruct (fill_params_inert st (f_template f) ps') as [-> Hin]; [|done|].
  { intros k x E%elem_assoc; [|auto]. specialize (Hspec k). destruct (assoc k ps) as [v|] eqn:Ek; [|congruence]. destruct Hspec as (y & Hy & E').
    assert (x = y) as -> by congruence. destruct (Hval k v y Ek Hy) as (? & ? & s & _ & ? & ?). by eauto. }
  cbn [mbind result_bind replace_in as_function]. rewrite to_string_str. cbn [mbind result_bind]. rewrite replaceAll_flatten by done.
  rewrite expand_expand. do 3 f_equal. apply expand_ext. intros k _. specialize (Hspec k). destruct (assoc k ps) as [v|] eqn:Ek.
  - destruct Hspec as (x & Hx & ->). destruct (Hval k v x Ek Hx) as (_ & _ & s & -> & E & _). cbn. unfold text. by rewrite E.
  - rewrite Hspec. cbn. unfold hole_value. specialize (Hm k). rewrite Ek in Hm. unfold chosen in Hm. by destruct (assoc k params), (assoc k (f_params f)).
Qed.
End Parameters.

Section Rendering.
Context `{JsRealm}.
Context (sc : Scope) (sources : list (jsstr * SourceData)) (fmts : list (jsstr * Format)).
#[local] Notation st := (heap sc).
Context (Hsources : sources_ok st (dataSources sc) sources) (Hproto : prototype (formats sc) = VProto ObjectProto).
Context (Hfmts : forall name, match assoc name (own (formats sc)), assoc name fmts with
                              | Some v, Some f => represents_format st f v | None, None => True | _, _ => False end).

Lemma html_nested_ind (P : html -> Prop) :
  (forall s, P (Text s)) -> (forall hs, Forall P hs -> P (Group hs)) -> (forall href class children, P (Anchor href class children)) ->
  (forall tag id class hs, Forall P hs -> P (Elem tag id class hs)) -> (forall name params hs, Forall P hs -> P (Use name params hs)) -> forall h, P h.
Proof.
  intros Ht Hg Ha He Hu. fix IH 1. assert (IHs : forall hs, Forall P hs) by (fix IHs 1; intros [|h hs]; constructor; [apply IH|apply IHs]).
  intros [s|hs|? ? ?|? ? ? hs|? ? hs]; [apply Ht|apply Hg, IHs|apply Ha|apply He, IHs|apply Hu, IHs].
Qed.

Lemma attribute_attr body ps name v :
  get st body "params" = Ok ps -> (if truthy ps then shows_some st ps name v else v = None) -> attribute st body name = Ok (attr name v).
Proof.
  intros Hp Hv. unfold attribute. rewrite Hp. cbn [mbind result_bind]. destruct (truthy ps); [|by subst]. destruct Hv as (x & -> & Hx).
  cbn [mbind result_bind]. destruct (truthy x); [|by subst]. destruct Hx as (t & -> & ->). done.
Qed.

(** Fuel for a list of nodes. *)
Lemma resolve_list hs els :
  Forall2 (fun h v => exists n, resolve n sc v = Ok (render sources fmts h)) hs els -> exists n, map_list (resolve n sc) els = Ok (render sources fmts <$> hs).
Proof.
  induction 1 as [|h v hs els [n Hn] _ [m Hm]]; [by exists O|]. exists (max n m). cbn. rewrite (resolve_more sc n) by (lia || by rewrite Hn). rewrite Hn. cbn.
  rewrite (map_list_mono _ _ _ _ Hm); [done|]. intros x y _ Hx. rewrite (resolve_more sc m) by (lia || by rewrite Hx). done.
Qed.
Lemma nodes_resolve hs els :
  Forall (fun h => forall v, represents st h v -> well_formed sources fmts h = true -> exists n, resolve n sc v = Ok (render sources fmts h)) hs ->
  all2 (represents st) hs els -> forallb (well_formed sources fmts) hs = true -> exists n, map_list (resolve n sc) els = Ok (render sources fmts <$> hs).
Proof.
  intros Hh Hr%all2_Forall2 Hw. apply resolve_list. induction Hr as [|h v hs els Hv _ IH]; constructor; inversion Hh; subst;
    cbn in Hw; apply andb_prop in Hw as [? ?]; auto.
Qed.
Lemma children_resolve hs body children :
  Forall (fun h => forall v, represents st h v -> well_formed sources fmts h = true -> exists n, resolve n sc v = Ok (render sources fmts h)) hs ->
  get st body "children" = Ok children ->
  (if truthy children then exists els, map_target st children = Ok els /\ all2 (represents st) hs els else hs = []) ->
  forallb (well_formed sources fmts) hs = true -> exists n, children_html sc (resolve n sc) body = Ok (concat (render sources fmts <$> hs)).
Proof.
  intros Hh Hc Hk Hw. unfold children_html. rewrite Hc. cbn [mbind result_bind]. destruct (truthy children); [|subst; by exists O].
  destruct Hk as (els & -> & Hr). destruct (nodes_resolve hs els Hh Hr Hw) as [n Hn]. exists n. cbn [mbind result_bind]. rewrite Hn. cbn. by rewrite join_nil.
Qed.

(** The node that represents a tree gives its HTML. *)
Lemma component_plain n l name body rest :
  st !! l = Some (Plain ((name, body) :: rest)) -> name <> js "a" ->
  resolve (S n) sc (VRef l) = (fmt ← table_key st (formats sc) name;
    if truthy fmt then format_html sc (resolve n sc) fmt body else element_html sc (resolve n sc) name body).
Proof.
  intros E Ha. cbn [resolve]. unfold node_html. cbn [array_of]. rewrite E. unfold component_html. cbn [entries]. rewrite E.
  cbn [mbind result_bind]. by rewrite bool_decide_eq_false_2.
 Qed.

Lemma resolve_represents h v : represents st h v -> well_formed sources fmts h = true -> exists n, resolve n sc v = Ok (render sources fmts h).
Proof.
  revert v. induction h as [s|hs IH|href class children|tag id class hs IH|name params hs IH] using html_nested_ind; intros v.
  - intros -> _. by exists 1%nat.
  - intros (l & els & -> & Hl & Hr) Hw. destruct (nodes_resolve hs els IH Hr Hw) as [n Hn]. exists (S n). cbn. rewrite Hl, Hn. cbn. by rewrite join_nil.
  - intros (l & body & rest & c & -> & Hl & (x & Hx & Hxs) & (y & Hy & Hys) & -> & (z & Hz & Hzs)) _. exists 1%nat. cbn [resolve]. unfold node_html. cbn [array_of].
    rewrite Hl. unfold component_html. cbn [entries]. rewrite Hl. cbn [mbind result_bind]. rewrite bool_decide_eq_true_2 by done.
    unfold anchor_html. rewrite Hx. cbn [mbind result_bind]. rewrite Hxs. cbn [mbind result_bind]. rewrite Hy. cbn [mbind result_bind].
    destruct (truthy y); [destruct Hys as (t & -> & ->)|subst c]; cbn [mbind result_bind]; rewrite Hz; cbn [mbind result_bind]; by rewrite Hzs.
  - intros (l & body & rest & ps & children & -> & Hl & Hps & Hattr & Hc & Hk). cbn [well_formed].
    intros [[[[Ha Hf]%andb_prop Hm]%andb_prop Hpk]%andb_prop Hw]%andb_prop. rewrite negb_true_iff, bool_decide_eq_false in *.
    destruct (children_resolve hs body children IH Hc Hk Hw) as [n Hn]. exists (S n). rewrite (component_plain n l tag body rest) by done.
    rewrite table_key_own by done. specialize (Hfmts tag). destruct (assoc tag fmts); [by destruct Hf|]. destruct (assoc tag (own (formats sc))); [done|].
    cbn [default mbind result_bind truthy]. unfold element_html. rewrite (attribute_attr body ps "class" class), (attribute_attr body ps "id" id) by (done || by destruct (truthy ps), Hattr).
    cbn [mbind result_bind]. by rewrite Hn.
  - intros (l & body & rest & ps & vs & children & -> & Hl & Hps & Hvs & Hrep & Hc & Hk). cbn [well_formed].
    intros [[[Ha Hw]%andb_prop Hlit]%andb_prop Hf]%andb_prop. rewrite negb_true_iff, bool_decide_eq_false in Ha.
    destruct (children_resolve hs body children IH Hc Hk Hw) as [n Hn]. exists (S n). rewrite (component_plain n l name body rest) by done.
    pose proof (Hfmts name) as Hfm. cbn [render]. destruct (assoc name fmts) as [f|]; [|done]. unfold table_key. destruct (assoc name (own (formats sc))) as [fv|]; [|done].
    destruct Hfm as (Ht & Htm & dps & dvs & Hdp & Hdvs & Hd). apply andb_prop in Hf as [Hok Hin]. cbn [mbind result_bind]. rewrite Ht. unfold format_html.
    destruct (fill_format st (dataSources sc) sources f params dvs vs _ Hsources Hd Hrep Hok Hin Hlit) as (ps' & Hr & Hfill).
    rewrite Hdp. cbn [mbind result_bind]. rewrite Hdvs. cbn [mbind result_bind]. rewrite Hps. cbn [mbind result_bind].
    assert ((if truthy ps then spread st ps else Ok []) = Ok vs) as -> by (destruct (truthy ps); congruence). cbn [mbind result_bind].
    rewrite Hr. cbn [mbind result_bind]. rewrite Hn. cbn [mbind result_bind]. rewrite Htm. cbn [mbind result_bind].
    apply bind_ok in Hfill as (t & -> & Hfill). cbn [mbind result_bind]. by rewrite Hfill.
Qed.
End Rendering.

(** ** Growth of the store and the collection of the definitions *)

Section Collection.
Context `{JsRealm} (eval_code : jsstr -> Scope -> result Scope).
Implicit Types (st : store) (es : list (jsstr * value)).

Lemma all2_impl {A B} (P Q : A -> B -> Prop) l k : all2 P l k -> (forall a b, a ∈ l -> P a b -> Q a b) -> all2 Q l k.
Proof.
  revert k. induction l as [|a l IH]; intros [|b k]; try done. cbn. intros [? ?] Hi. split; [apply Hi; [left|done]|].
  apply IH; [done|]. intros a' b' ?. apply Hi. by right.
Qed.

Section Grown.
Context (st st' : store) (Hsub : st ⊆ st').
Lemma map_target_grown v els : map_target st v = Ok els -> map_target st' v = Ok els.
Proof. destruct v as [| | | | |l| |]; try done. cbn. destruct (st !! l) eqn:E; [|done]. by rewrite (lookup_grown st st' Hsub _ _ E). Qed.
Lemma shows_grown v name s : shows st v name s -> shows st' v name s.
Proof. intros (x & Hx & Hs). exists x. split; [by eapply get_grown|by eapply to_string_grown]. Qed.
Lemma shows_some_grown v name s : shows_some st v name s -> shows_some st' v name s.
Proof.
  intros (x & Hx & Hs). exists x. split; [by eapply get_grown|]. destruct (truthy x); [|done]. destruct Hs as (t & -> & Ht).
  exists t. split; [done|by eapply to_string_grown].
Qed.
Lemma param_grown p v : represents_param st p v -> represents_param st' p v.
Proof. destruct p as [s|name [field|]]; try done. intros (? & ? & ?). split_and!; try done. by eapply to_string_grown. Qed.
Lemma params_grown ps vs : represents_params st ps vs -> represents_params st' ps vs.
Proof. intros Hp. eapply all2_impl; [done|]. intros a b _ [? ?]. split; [done|by apply param_grown]. Qed.
Lemma format_grown f v : represents_format st f v -> represents_format st' f v.
Proof.
  intros (? & ? & ps & vs & ? & ? & ?). split; [done|]. split; [by eapply get_grown|]. exists ps, vs.
  split; [by eapply get_grown|]. split; [by eapply spread_grown|by apply params_grown].
Qed.
Lemma source_grown d v : represents_source st d v -> represents_source st' d v.
Proof.
  intros [Hw Hf]. split; [intros s Hs; destruct (Hw s Hs); split; [by eapply to_string_grown|done]|].
  intros field s Hs. destruct (Hf field s Hs) as (x & ? & ? & ?). exists x. split_and!; [by eapply get_key_grown|by eapply to_string_grown|done].
Qed.
Lemma represents_grown h v : represents st h v -> represents st' h v.
Proof.
  assert (Hkids : forall hs children, Forall (fun h => forall v, represents st h v -> represents st' h v) hs ->
            (if truthy children then exists els, map_target st children = Ok els /\ all2 (represents st) hs els else hs = []) ->
            if truthy children then exists els, map_target st' children = Ok els /\ all2 (represents st') hs els else hs = []).
  { intros hs children Hh Hk. destruct (truthy children); [|done]. destruct Hk as (els & ? & Ha). exists els. split; [by apply map_target_grown|].
    eapply all2_impl; [done|]. intros a b Hin. rewrite Forall_forall in Hh. by apply Hh. }
  revert v. induction h as [s|hs IH|href class children|tag id class hs IH|name params hs IH] using html_nested_ind; intros v; [done|..].
  - intros (l & els & -> & ? & Ha). exists l, els. split_and!; [done|by eapply lookup_grown|]. eapply all2_impl; [done|].
    intros a b Hin. rewrite Forall_forall in IH. by apply IH.
  - intros (l & body & rest & c & -> & ? & ? & ? & -> & ?). exists l, body, rest, c.
    split_and!; [done|by eapply lookup_grown|by apply shows_grown|by apply shows_some_grown|done|by apply shows_grown].
  - intros (l & body & rest & ps & children & -> & ? & ? & Ha & ? & Hk). exists l, body, rest, ps, children.
    split; [done|]. split; [by eapply lookup_grown|]. split; [by eapply get_grown|]. split; [|split; [by eapply get_grown|by apply Hkids]].
    destruct (truthy ps); [|done]. destruct Ha. split; by apply shows_some_grown.
  - intros (l & body & rest & ps & vs & children & -> & ? & ? & Hs & ? & ? & Hk). exists l, body, rest, ps, vs, children.
    split; [done|]. split; [by eapply lookup_grown|]. split; [by eapply get_grown|]. split; [|split; [by apply params_grown|split; [by eapply get_grown|by apply Hkids]]].
    destruct (truthy ps); [by eapply spread_grown|done].
Qed.
End Grown.

Lemma alloc_grown st o : st ⊆ (alloc st o).1.
Proof. apply insert_subseteq. apply not_elem_of_dom, is_fresh. Qed.

(** What an entry asks for. *)
Definition entry_ok st (sources : list (jsstr * SourceData)) (e : jsstr * value) : Prop :=
  (forall name, e.1 = js "^" ++ name -> name <> proto_key) /\
  (forall name, e.1 = js "$" ++ name -> name <> proto_key /\ match assoc name sources with Some d => is_script eval_code st e.2 d | None => no_script st e.2 end).

(** What a key stands for after an entry. *)
Definition override {A} (new : option A) (old : option A) : option A := match new with Some a => Some a | None => old end.
Definition collected (es : list (jsstr * value)) (sources : list (jsstr * SourceData)) (sc sc' : Scope) : Prop :=
  heap sc ⊆ heap sc' /\ prototype (formats sc') = prototype (formats sc) /\
  (forall name, assoc name (own (formats sc')) = override (assoc (js "^" ++ name) es) (assoc name (own (formats sc)))) /\
  (forall name d, assoc name sources = Some d -> is_Some (assoc (js "$" ++ name) es) ->
     exists x, assoc name (own (dataSources sc')) = Some x /\ represents_source (heap sc') d x) /\
  (forall name, assoc (js "$" ++ name) es = None -> assoc name (own (dataSources sc')) = assoc name (own (dataSources sc))) /\
  assoc (js "headlink") (own (extensions sc')) = override (assoc (js "+headlink") es) (assoc (js "headlink") (own (extensions sc))).

Lemma assoc_key c name k' (v : value) name' : k' = c :: name' -> assoc (c :: name) [(k', v)] = if bool_decide (name = name') then Some v else None.
Proof. intros ->. cbn. apply (f_equal (fun b : bool => if b then Some v else None)). apply bool_decide_ext. split; [by intros [= ->]|by intros ->]. Qed.
Lemma assoc_other c name k' (v : value) : starts_with [c] k' = false -> assoc (c :: name) [(k', v)] = None.
Proof.
  intros Hk. cbn. rewrite bool_decide_eq_false_2; [done|]. intros <-. pose proof (starts_with_app [c] name) as E. cbn in *. congruence.
Qed.

(** An entry changes what it names and nothing else. *)
Lemma collected_nothing es sources sc sc' :
  heap sc ⊆ heap sc' -> formats sc' = formats sc -> dataSources sc' = dataSources sc -> extensions sc' = extensions sc ->
  (forall name, assoc (js "^" ++ name) es = None) -> (forall name, is_Some (assoc (js "$" ++ name) es) -> assoc name sources = None) -> assoc (js "+headlink") es = None ->
  collected es sources sc sc'.
Proof.
  intros Hh Hf Hd He H1 H2 H3. unfold collected. rewrite Hf, Hd, He, H3. split_and!; try done; [intros name; by rewrite H1|].
  intros name d Hs Hi. by rewrite H2 in Hs.
Qed.
Lemma collected_script sources sc k v st tf td te x y name :
  k = js "$" ++ name -> name <> proto_key -> heap sc ⊆ st -> tf = formats sc -> te = extensions sc -> td = dataSources sc ->
  (forall d, assoc name sources = Some d -> represents_source st d x) ->
  collected [(k, v)] sources sc (mkScope st tf (set_key st td name x) te y).
Proof.
  intros -> Hp Hh -> -> -> Hx. unfold collected. cbn [heap formats dataSources extensions]. rewrite set_key_own by done. cbn [own].
  split_and!; [done..| | |done].
  - intros name' d Hd. change (js "$" ++ name') with (36 :: name'). rewrite (assoc_key 36 name' _ v name) by done. case_bool_decide; [subst|by intros [? [=]]]. intros _. exists x.
    rewrite assoc_set_prop, bool_decide_true by done. auto.
  - intros name'. change (js "$" ++ name') with (36 :: name'). rewrite (assoc_key 36 name' _ v name) by done. case_bool_decide; [done|]. intros _. rewrite assoc_set_prop. by rewrite bool_decide_false.
Qed.
Lemma process_entry_collected st sources sc e :
  st ⊆ heap sc -> entry_ok st sources e -> exists sc', process_entry eval_code sc e = Ok sc' /\ collected [e] sources sc sc'.
Proof.
  intros Hst [Hf Hs]. destruct e as [k v]. cbn [fst snd] in *. unfold process_entry.
  destruct (starts_with (js "^") k) eqn:E1; [|destruct (starts_with (js "$") k) eqn:E2; [|destruct (starts_with (js "+") k) eqn:E3]].
  - apply starts_with_spec in E1 as [name ->]. eexists. split; [done|]. unfold collected. cbn [heap formats dataSources extensions].
    change (drop 1 (js "^" ++ name)) with name. rewrite set_key_own by by apply Hf. split_and!; try done; [|by intros name' d _ [? [=]]].
    intros name'. cbn [own]. rewrite assoc_set_prop, (assoc_key 94 name' _ v name) by done. by case_bool_decide.
  - apply starts_with_spec in E2 as [name ->]. destruct (Hs name eq_refl) as [Hp Hsc]. change (drop 1 (js "$" ++ name)) with name.
    destruct (assoc name sources) as [d|] eqn:Ed.
    + destruct Hsc as (Hscript & c & Hcode & Hc & Hpr). rewrite (get_grown _ _ Hst _ _ _ Hscript). cbn [mbind result_bind is_str]. rewrite bool_decide_eq_true_2 by done.
      rewrite (get_grown _ _ Hst _ _ _ Hcode). cbn [mbind result_bind truthy]. rewrite bool_decide_eq_false_2 by done. cbn [negb].
      pose proof (alloc_grown (heap sc) (Plain [])) as Hal. destruct (alloc (heap sc) (Plain [])) as [st1 o]. cbn in Hal.
      destruct (Hpr (mkScope st1 (formats sc) (dataSources sc) (extensions sc) o)) as (st2 & x & -> & Hsub & Hx). cbn in Hsub. eexists. split; [done|].
      apply (collected_script sources sc _ v st2 _ _ _ x x name); try done; [by etrans|]. intros d' Hd'. assert (d' = d) as -> by congruence. done.
    + destruct Hsc as (script & Hscript & Hno). exists sc. rewrite (get_grown _ _ Hst _ _ _ Hscript). cbn [mbind result_bind].
      assert (collected [(js "$" ++ name, v)] sources sc sc).
      { apply collected_nothing; try done. intros name'. change (js "$" ++ name') with (36 :: name'). rewrite (assoc_key 36 name' _ v name) by done. case_bool_decide; [by subst|by intros [? [=]]]. }
      destruct (is_str script (js "javascript")); [|done]. destruct Hno as [?|(code & Hcode & Ht)]; [done|].
      rewrite (get_grown _ _ Hst _ _ _ Hcode). cbn [mbind result_bind]. by rewrite Ht.
  - apply starts_with_spec in E3 as [name ->]. eexists. split; [done|]. unfold collected. cbn [heap formats dataSources extensions].
    change (drop 1 (js "+" ++ name)) with name. split_and!; try done; [by intros name' d _ [? [=]]|].
    change (js "+headlink") with (43 :: js "headlink"). rewrite (assoc_key 43 (js "headlink") _ v name) by done. unfold set_key.
    destruct (bool_decide (name = proto_key) && _) eqn:E.
    + apply andb_prop in E as [->%bool_decide_eq_true _]. rewrite (bool_decide_eq_false_2 (js "headlink" = proto_key)) by (by intros [=]). by destruct (can_be_proto v).
    + cbn [own]. rewrite assoc_set_prop. clear E. by case_bool_decide.
  - exists sc. split; [done|]. apply collected_nothing; try done; [intros name; by apply (assoc_other 94)| |by apply (assoc_other 43)].
    intros name [x Hx]. change (assoc (36 :: name) [(k, v)] = Some x) in Hx. by rewrite (assoc_other 36 name k v E2) in Hx.
Qed.

Lemma collected_app es es' sources sc sc1 sc2 :
  (forall k, is_Some (assoc k es) -> assoc k es' = None) -> collected es sources sc sc1 -> collected es' sources sc1 sc2 -> collected (es ++ es') sources sc sc2.
Proof.
  intros Hdis (H1 & H2 & H3 & H4 & H5 & H6) (G1 & G2 & G3 & G4 & G5 & G6).
  assert (Hov : forall k (old : option value), override (assoc k es') (override (assoc k es) old) = override (assoc k (es ++ es')) old).
  { intros k old. rewrite assoc_app. destruct (assoc k es) eqn:E; [|by destruct (assoc k es')]. by rewrite (Hdis k) by by eexists. }
  split_and!; [by etrans|congruence|intros name; by rewrite G3, H3, Hov| | |by rewrite G6, H6, Hov].
  - intros name d Hd [v Hv]. rewrite assoc_app in Hv. destruct (assoc (js "$" ++ name) es) eqn:E; [|by apply (G4 name d Hd)].
    destruct (H4 name d Hd) as (x & Hx & Hr); [by eexists|]. exists x. split; [|by eapply source_grown]. rewrite G5; [done|]. apply Hdis. by eexists.
  - intros name Hn. rewrite assoc_app in Hn. destruct (assoc (js "$" ++ name) es) eqn:E; [done|]. by rewrite G5, H5.
Qed.
Lemma process_entries_collected st sources es sc :
  st ⊆ heap sc -> Forall (entry_ok st sources) es -> NoDup es.*1 -> exists sc', process_entries eval_code sc es = Ok sc' /\ collected es sources sc sc'.
Proof.
  revert sc. induction es as [|[k v] es IH]; intros sc Hst Hok Hnd; [exists sc; split; [done|]; apply collected_nothing; try done; by intros ? [? [=]]|].
  apply Forall_cons in Hok as [He Hok]. apply NoDup_cons in Hnd as [Hk Hnd]. destruct (process_entry_collected st sources sc (k, v) Hst He) as (sc1 & E1 & C1).
  destruct (IH sc1) as (sc2 & E2 & C2); [by destruct C1; etrans|done..|]. exists sc2. cbn [process_entries]. rewrite E1. cbn [mbind result_bind]. split; [done|].
  apply (collected_app [(k, v)] es sources sc sc1); [|done..]. intros k'. cbn [assoc]. case_bool_decide; [subst|by intros [? [=]]]. intros _. by apply assoc_None.
Qed.
End Collection.

(** ** Properties *)

(** The links and the nodes of a page, after the loop. *)
Lemma link_shown `{JsRealm} st link v : represents_link st link v -> head_link st v = Ok (link_html link).
Proof. intros [(x & Hx & Hxs) (y & Hy & Hys)]. unfold head_link. rewrite Hx. cbn. rewrite Hxs. cbn. rewrite Hy. cbn. by rewrite Hys. Qed.
Lemma links_html `{JsRealm} st links els :
  all2 (represents_link st) links els -> map_list (head_link st) els = Ok (link_html <$> links).
Proof. intros Hl%all2_Forall2. induction Hl as [|link v links els Hv _ IH]; [done|]. cbn. rewrite (link_shown _ _ _ Hv). cbn. by rewrite IH. Qed.
Lemma links_compiled `{JsRealm} st st' links v :
  st ⊆ st' -> (if truthy v then exists els, array_of st v = Some els /\ all2 (represents_link st) links els else links = []) ->
  (if truthy v then els ← map_target st' v; parts ← map_list (head_link st') els; Ok (mapped st' v parts) else Ok []) = Ok (link_html <$> links).
Proof.
  intros Hsub Hv. destruct (truthy v); [|by subst]. destruct Hv as (els & Ha & Hl). destruct v as [| | | | |l| |]; try done. cbn in *.
  destruct (st !! l) as [[| | |]|] eqn:E; try done. injection Ha as ->. rewrite (lookup_grown st st' Hsub _ _ E). cbn.
  rewrite (links_html st' links els); [done|]. eapply all2_impl; [done|]. intros a b _ [? ?]. by split; apply (shows_grown st).
Qed.
Lemma mains_html `{JsRealm} sc sources fmts mains els :
  sources_ok (heap sc) (dataSources sc) sources -> prototype (formats sc) = VProto ObjectProto ->
  (forall name, match assoc name (own (formats sc)), assoc name fmts with
                | Some v, Some f => represents_format (heap sc) f v | None, None => True | _, _ => False end) ->
  all2 (represents (heap sc)) mains els -> forallb (well_formed sources fmts) mains = true ->
  map_list (resolveNode sc) els = Ok (render sources fmts <$> mains).
Proof.
  intros Hs Hp Hf Hm%all2_Forall2. induction Hm as [|h v mains els Hv _ IH]; [done|]. cbn [forallb map_list fmap list_fmap]. intros [Hw Hws]%andb_prop.
  destruct (resolve_represents sc sources fmts Hs Hp Hf h v Hv Hw) as [n Hn]. rewrite (resolve_resolveNode _ _ _ _ Hn). cbn [mbind result_bind]. by rewrite IH.
Qed.
Lemma page_entries_ok `{JsRealm} eval_code st (es : list (jsstr * value)) sources :
  js "^" ++ proto_key ∉ es.*1 -> js "$" ++ proto_key ∉ es.*1 -> NoDup es.*1 ->
  (forall name, match assoc (js "$" ++ name) es, assoc name sources with
                | Some v, Some d => is_script eval_code st v d | Some v, None => no_script st v | None, Some _ => False | None, None => True end) ->
  Forall (entry_ok eval_code st sources) es.
Proof.
  intros Hf Hs Hnd Hsrc. apply Forall_forall. intros [k v] Hin. pose proof (elem_assoc k v es Hnd Hin) as Hk.
  assert (k ∈ es.*1) by (apply list_elem_of_fmap; by exists (k, v)). split; cbn [fst snd].
  - intros name -> ->. done.
  - intros name ->. split; [by intros ->|]. specialize (Hsrc name). rewrite Hk in Hsrc. by destruct (assoc name sources).
Qed.
Lemma page_collected `{JsRealm} eval_code st doc fmts sources links mains :
  represents_page eval_code st doc fmts sources links mains -> forallb (well_formed sources fmts) mains = true ->
  compile_doc eval_code st doc = Ok (document (join (nl ++ js "  ") (link_html <$> links)) (join nl (render sources fmts <$> mains))).
Proof.
  intros (l & es & -> & Hl & Hnd & Hpf & Hps & Hf & Hsrc & Hlinks & main & els & Hmain & Hels & Hm) Hw. unfold compile_doc. cbn [entries]. rewrite Hl. cbn [mbind result_bind].
  pose proof (alloc_grown st (Array [])) as Hal. unfold initial_scope. destruct (alloc st (Array [])) as [st1 lst] eqn:Ea. cbn in Hal.
  destruct (process_entries_collected eval_code st sources es (mkScope st1 empty_table empty_table (mkTable [(js "headlink", lst)] (VProto ObjectProto)) VUndefined))
    as (sc & -> & Hh & Hp & Hfo & Hso & _ & Hhl); [done|by apply page_entries_ok|done|]. cbn [heap formats extensions own prototype empty_table] in *.
  assert (Hsub : st ⊆ heap sc) by by etrans. cbn [mbind result_bind].
  rewrite (get_grown st (heap sc) Hsub (VRef l) "main" main). 2: { rewrite (get_plain st l es "main" Hl) by (apply (bool_decide_unpack _); by vm_compute). by rewrite Hmain. }
  cbn [mbind result_bind]. rewrite (map_target_grown st (heap sc) Hsub _ _ Hels). cbn [mbind result_bind].
  rewrite (mains_html sc sources fmts mains els); [|..|done].
  - cbn [mbind result_bind]. unfold table_key. rewrite Hhl. destruct (assoc (js "+headlink") es) as [v|]; cbn [override].
    + cbn [mbind result_bind]. by rewrite (links_compiled st (heap sc) links v Hsub Hlinks).
    + cbn [assoc]. rewrite bool_decide_eq_true_2 by done. cbn [mbind result_bind]. injection Ea as <- <-. subst links.
      rewrite (links_compiled _ (heap sc) [] (VRef (fresh (dom st))) Hh); [done|]. cbn [truthy]. exists []. split; [|done]. cbn. by rewrite lookup_insert_eq.
  - intros name d Hd. apply (Hso name d Hd). specialize (Hsrc name). rewrite Hd in Hsrc. by destruct (assoc (js "$" ++ name) es).
  - by rewrite Hp.
  - intros name. rewrite Hfo. specialize (Hf name). destruct (assoc (js "^" ++ name) es), (assoc name fmts); try done. by apply (format_grown st).
  - eapply all2_impl; [done|]. intros a b _. by apply represents_grown.
Qed.

(** C18: compiling a page writes the document its reference semantics denotes.
    When the source file parses to a document that represents the formats, the
    data sources, the links and the trees (objects may be shared, have further
    properties and any order of them; other extensions are ignored), every script
    prints its data and does nothing else, every parameter has a text, and inside
    formats a [$] of a text stands for itself, then the file written is the HTML
    frame around the links and the trees with all the holes of a format filled at
    once, and no other file changes. *)
Theorem compile_page_correct `{JsRealm} (yaml_load : jsstr -> result (store * value)) (eval_code : jsstr -> Scope -> result Scope)
    (fs : FileSystem) (src dst content : jsstr) (st : store) (doc : value)
    (fmts : list (jsstr * Format)) (sources : list (jsstr * SourceData)) (links : list (jsstr * jsstr)) (mains : list html) :
  files fs !! src = Some content -> yaml_load content = Ok (st, doc) ->
  represents_page eval_code st doc fmts sources links mains -> forallb (well_formed sources fmts) mains = true -> write_refused fs dst = None ->
  compileWeb4YamlToHtml yaml_load eval_code fs src dst =
  (Ok (js "[Web4 Compiler] Successfully built " ++ dst),
   mkFS (<[dst := document (join (nl ++ js "  ") (link_html <$> links)) (join nl (render sources fmts <$> mains))]> (files fs)) (write_refused fs)).
Proof.
  intros Hsrc Hyaml Hpage Hw Hwr. unfold compileWeb4YamlToHtml. rewrite Hsrc, Hyaml. cbn [mbind result_bind].
  by rewrite (page_collected eval_code st doc fmts sources links mains Hpage Hw), Hwr.
Qed.

(** A page: a format with a parameter that a use overrides and one from a data
    source, used around a paragraph that is written once and shown twice. *)
Module Demo.
#[export] Instance realm : @JsRealm no_numbers := {|
  proto_members := fun p => js <$> match p with ArrayProto => ["map"; "join"; "length"] | StringProto => ["replaceAll"; "startsWith"; "slice"; "split"] | _ => [] end%string;
  intrinsic_own := fun _ _ => None; intrinsic_string := fun _ => None; replacer := fun _ => None |}.
#[local] Existing Instance no_numbers.
Definition text_ (s : string) : value := VStr (js s).
Definition obj (ps : list (string * value)) : object := Plain (prod_map js id <$> ps).
Definition page : store := list_to_map
  [(0%nat, obj [("^card", VRef 1); ("$stats", VRef 3); ("+headlink", VRef 4); ("+hero", VNull); ("main", VRef 6)]);
   (1%nat, obj [("template", text_ "<b>${title}</b>: ${count}${children}"); ("params", VRef 2)]);
   (2%nat, obj [("title", text_ "Hi"); ("count", text_ "$stats.blocks")]);
   (3%nat, obj [("script", text_ "javascript"); ("code", text_ "print")]);
   (4%nat, Array [VRef 5]);
   (5%nat, obj [("rel", text_ "icon"); ("href", text_ "/i.svg")]);
   (6%nat, Array [VRef 7; text_ "US$$5"]);
   (7%nat, obj [("card", VRef 8)]);
   (8%nat, obj [("children", VRef 10); ("params", VRef 9)]);
   (9%nat, obj [("title", text_ "US$5")]);
   (10%nat, Array [VRef 11; VRef 11]);
   (11%nat, obj [("p", VRef 12)]);
   (12%nat, obj [("params", VRef 13); ("children", VRef 14); ("note", VNull)]);
   (13%nat, obj [("id", text_ "x")]);
   (14%nat, Array [text_ "send"])]%string.
Definition eval_code (c : jsstr) (sc : Scope) : result Scope :=
  if bool_decide (c = js "print") then
    let '(st, x) := alloc (heap sc) (obj [("blocks", text_ "12")]) in Ok (mkScope st (formats sc) (dataSources sc) (extensions sc) x)
  else Err "SyntaxError".
Definition fmts := [(js "card", mkFormat [(js "title", Const (js "Hi")); (js "count", Source (js "stats") (Some (js "blocks")))]
  [Lit (js "<b>"); Hole (js "title"); Lit (js "</b>: "); Hole (js "count"); Hole (js "children")])].
Definition sources := [(js "stats", mkSource None [(js "blocks", js "12")])].
Definition mains := let p := Elem (js "p") (Some (js "x")) None [Text (js "send")] in
  [Use (js "card") [(js "title", Const (js "US$5"))] [p; p]; Text (js "US$$5")].

Lemma prints_stats : prints eval_code (js "print") (mkSource None [(js "blocks", js "12")]).
Proof.
  intros sc. unfold eval_code. rewrite bool_decide_eq_true_2 by done.
  pose proof (alloc_grown (heap sc) (obj [("blocks"%string, text_ "12")])) as Hg. eexists _, _. split; [done|]. split; [done|]. split; [done|].
  intros field s. cbn [fields assoc]. case_bool_decide; [subst|done]. intros [= <-]. exists (text_ "12"). split; [|split; [apply to_string_str|done]].
  unfold get_key. cbn. by rewrite lookup_insert_eq.
Qed.
(** The conditions on the store, by evaluation. *)
Ltac shown := eexists; split; [by vm_compute|by vm_compute].
Ltac by_compute := apply (bool_decide_unpack _); by vm_compute.

Lemma represents_card : represents_format page (mkFormat [(js "title", Const (js "Hi")); (js "count", Source (js "stats") (Some (js "blocks")))]
  [Lit (js "<b>"); Hole (js "title"); Lit (js "</b>: "); Hole (js "count"); Hole (js "children")]) (VRef 1).
Proof.
  split; [done|]. split; [by vm_compute|]. exists (VRef 2), [(js "title", text_ "Hi"); (js "count", text_ "$stats.blocks")].
  split; [by vm_compute|]. split; [by vm_compute|]. split; [split; [done|]|split; [split; [done|]|done]].
  - split; [by vm_compute|]. split; [done|]. intros t [= <-]. by vm_compute.
  - split; [by_compute|]. split; [by_compute|]. exists []. split; [done|]. by left.
Qed.
Lemma represents_mains : all2 (represents page) mains [VRef 7; text_ "US$$5"].
Proof.
  assert (Hp : represents page (Elem (js "p") (Some (js "x")) None [Text (js "send")]) (VRef 11)).
  { exists 11%nat, (VRef 12), [], (VRef 13), (VRef 14). split; [done|]. split; [by vm_compute|]. split; [by vm_compute|]. cbn [truthy].
    split; [split|split; [by vm_compute|]].
    - exists (text_ "x"). split; [by vm_compute|]. cbn [truthy]. eexists. split; [done|by vm_compute].
    - exists VUndefined. split; [by vm_compute|done].
    - exists [text_ "send"]. split; [by vm_compute|done]. }
  split; [|done]. exists 7%nat, (VRef 8), [], (VRef 9), [(js "title", text_ "US$5")], (VRef 10). split; [done|]. split; [by vm_compute|]. split; [by vm_compute|]. cbn [truthy].
  split; [by vm_compute|]. split; [|split; [by vm_compute|]].
  - split; [|done]. split; [done|]. split; [by vm_compute|]. split; [done|]. intros t [= <-]. by vm_compute.
  - exists [VRef 11; VRef 11]. split; [by vm_compute|done].
Qed.
Lemma represents_demo : represents_page eval_code page (VRef 0) fmts sources [(js "icon", js "/i.svg")] mains.
Proof.
  exists 0%nat, [(js "^card", VRef 1); (js "$stats", VRef 3); (js "+headlink", VRef 4); (js "+hero", VNull); (js "main", VRef 6)].
  split; [done|]. split; [by vm_compute|]. split; [by_compute|]. split; [by_compute|]. split; [by_compute|]. split; [|split; [|split]].
  - intros name. destruct (decide (name = js "card")) as [->|Hne]; [apply represents_card|].
    cbn. rewrite !bool_decide_eq_false_2 by (done || (intros E; apply Hne; by injection E)). done.
  - intros name. destruct (decide (name = js "stats")) as [->|Hne].
    + split; [by vm_compute|]. exists (js "print"). split; [by vm_compute|]. split; [done|apply prints_stats].
    + cbn. rewrite !bool_decide_eq_false_2 by (done || (intros E; apply Hne; by injection E)). done.
  - exists [VRef 5]. split; [by vm_compute|]. split; [|done]. split; shown.
  - exists (VRef 6), [VRef 7; text_ "US$$5"]. split; [by vm_compute|]. split; [by vm_compute|apply represents_mains].
Qed.
End Demo.

Lemma compile_page_correct_witness :
  let fs := mkFS {[js "in" := js "y"]} (fun _ => None) in
  files (compileWeb4YamlToHtml (H := no_numbers) (H0 := Demo.realm) (fun _ => Ok (Demo.page, VRef 0)) Demo.eval_code fs (js "in") (js "out")).2 !! js "out" =
  Some (document (js "<link rel=" ++ quoted "icon" ++ js " href=" ++ quoted "/i.svg" ++ js ">")
    (js "<b>US$5</b>: 12<p id=" ++ quoted "x" ++ js ">send</p><p id=" ++ quoted "x" ++ js ">send</p>" ++ nl ++ js "US$$5")).
Proof.
  intros fs. rewrite (compile_page_correct _ _ fs (js "in") (js "out") (js "y") Demo.page (VRef 0) _ _ _ _ (lookup_singleton_eq (js "in") (js "y")) eq_refl Demo.represents_demo);
    [cbn [snd files]; rewrite lookup_insert_eq; by vm_compute|by vm_compute|done].
Defined.

(** C40: [resolveNode] goes no deeper than there are objects, or it never
    returns: more fuel than that changes no result, so that a model run that
    exhausts it stands for a call that overflows the stack; on a node from which
    no circle of nodes can be reached it does not; and a node that leads into a
    circle never gives a result. *)
Theorem resolveNode_terminates `{JsRealm} (sc : Scope) (node : value) :
  (forall n, (size (heap sc) < n)%nat -> resolve n sc node = resolveNode sc node) /\
  (Acc (child (heap sc)) node -> resolveNode sc node <> Err out_of_fuel) /\
  (forall n s, resolve n sc node = Ok s -> Acc (child (heap sc)) node).
Proof. split; [intros n; apply resolveNode_fuel|]. split; [apply resolveNode_acyclic|]. intros n s. apply resolve_Acc. Qed.

Lemma resolveNode_terminates_witness :
  let sc := initial_scope (H := no_numbers) Demo.page in
  Acc (child (H0 := Demo.realm) (heap sc)) (VRef 11) /\ resolveNode (H0 := Demo.realm) sc (VRef 11) <> Err out_of_fuel /\
  resolve (H0 := Demo.realm) 99 sc (VRef 11) = resolveNode (H0 := Demo.realm) sc (VRef 11).
Proof.
  intros sc. destruct (resolveNode_terminates (H0 := Demo.realm) sc (VRef 11)) as (Hn & Ha & Ho).
  pose proof (Ho 9%nat _ ltac:(vm_compute; reflexivity)) as Hacc. split; [done|]. split; [by apply Ha|]. apply Hn. by vm_compute; lia.
Defined.

(** Outside the hypotheses: a child text with [$$] loses one of its dollars,
    since [replaceAll] reads the replacement text for [$]-sequences. *)
Section Examples.
#[local] Existing Instances no_numbers Demo.realm.
#[local] Notation scope st fmts := (mkScope st (mkTable fmts (VProto ObjectProto)) empty_table empty_table VUndefined).

Definition price : store := list_to_map
  [(0%nat, Demo.obj [("template", Demo.text_ "${children}")]); (1%nat, Demo.obj [("price", VRef 2)]); (2%nat, Demo.obj [("children", VRef 3)]);
   (3%nat, Array [Demo.text_ "US$$5"])]%string.
Example template_rewrites_dollars : resolveNode (scope price [(js "price", VRef 0)]) (VRef 1) = Ok (js "US$5").
Proof. by vm_compute. Qed.

(** A format's children given as one text, as in [html.yaml], throw. *)
Definition feature : store := list_to_map
  [(0%nat, Demo.obj [("template", Demo.text_ "${children}")]); (1%nat, Demo.obj [("feature-card", VRef 2)]);
   (2%nat, Demo.obj [("children", Demo.text_ "Fast")])]%string.
Example text_children_throw :
  resolveNode (scope feature [(js "feature-card", VRef 0)]) (VRef 1) = Err (type_error "map is not a function").
Proof. by vm_compute. Qed.

(** An element without a name of its own in [formats] finds the members that
    every object inherits: [constructor] is taken for a format. *)
Definition inherited : store := list_to_map [(0%nat, Demo.obj [("constructor", VRef 1)]); (1%nat, Demo.obj [])]%string.
Example inherited_name_is_a_format :
  resolveNode (scope inherited []) (VRef 0) = Err (type_error "Cannot read properties of undefined or null").
Proof. by vm_compute. Qed.

(** A list that contains itself, as an anchor can make it. *)
Definition circle : store := {[0%nat := Array [Demo.text_ "x"; VRef 0]]}.
Example circle_overflows : resolveNode (scope circle []) (VRef 0) = Err out_of_fuel.
Proof. by vm_compute. Qed.
End Examples.
