(* ===== verification/Nicknames.v ===== *)
(** * Nickname rules ([src/src/nicknames.h], [src/src/nicknames.cpp])

    Normalisation and validity of names, the pricing controller, fees and
    bonds, and the status of a registration as a function of the height.  The
    definitions follow the source line by line; the theorems relate the index
    loops to a declarative reading of the rules and bound the arithmetic. *)

From S2P Require Import Prelude.
Open Scope Z_scope.

(** ** Amounts ([src/src/amount.h]) *)

Definition COIN : Z := 100000000.
Definition CENT : Z := 1000000.
Definition MAX_MONEY : Z := 800000000 * COIN.
Definition MoneyRange (nValue : Z) : bool := (0 <=? nValue) && (nValue <=? MAX_MONEY).

Module Nicknames.

(** ** Constants *)

Definition MIN_LENGTH : nat := 4.
Definition MAX_LENGTH : nat := 16.
Definition ACTIVE_BLOCKS : Z := 144000.
Definition GRACE_BLOCKS : Z := 14400.
Definition RENEWAL_PERCENT : Z := 25.
Definition PRICING_WINDOW_BLOCKS : Z := 11200.
Definition PRICING_EPOCH_BLOCKS : Z := 1600.
Definition PRICING_TARGET_REGISTRATIONS_7D : Z := 280.
Definition PRICING_ALPHA_PERCENT : Z := 20.
Definition PRICING_STEP_LIMIT_PERCENT : Z := 10.
Definition DEFAULT_PRICING_MULTIPLIER_PERMILLE : Z := 1000.
Definition MIN_PRICING_MULTIPLIER_PERMILLE : Z := 500.
Definition MAX_PRICING_MULTIPLIER_PERMILLE : Z := 3000.

Inductive Status :=
| ACTIVE
| EXPIRED_GRACE
| EXPIRED_AVAILABLE
| RELEASED
| BOND_CLAIMABLE.

#[export] Instance Status_eq_dec : EqDecision Status.
Proof. solve_decision. Defined.

Record Pricing := mkPricing { registrationFee : Z; bondAmount : Z }.

(** ** Characters

    [isspace] and [tolower] are those of the C locale. *)

Definition code (c : Ascii.ascii) : Z := Z.of_N (Ascii.N_of_ascii c).
Definition chr (z : Z) : Ascii.ascii := Ascii.ascii_of_N (Z.to_N z).

Definition isspace (c : Ascii.ascii) : bool :=
  (code c =? 32) || ((9 <=? code c) && (code c <=? 13)).
Definition tolower (c : Ascii.ascii) : Ascii.ascii :=
  if (65 <=? code c) && (code c <=? 90) then chr (code c + 32) else c.

Definition IsAsciiLowerLetter (c : Ascii.ascii) : bool := (97 <=? code c) && (code c <=? 122).
Definition IsAsciiDigit (c : Ascii.ascii) : bool := (48 <=? code c) && (code c <=? 57).
Definition is_underscore (c : Ascii.ascii) : bool := code c =? 95.
Definition IsAllowedChar (c : Ascii.ascii) : bool :=
  IsAsciiLowerLetter c || IsAsciiDigit c || is_underscore c.

(** [input[i]], for an index the code has checked. *)
Definition char_at (s : string) (i : nat) : Ascii.ascii :=
  match String.get i s with Some c => c | None => Ascii.zero end.

(** ** Normalisation *)

(** [while (begin < end && isspace(input[begin])) ++begin;] *)
Fixpoint skip_begin (fuel : nat) (input : string) (begin stop : nat) : nat :=
  match fuel with
  | O => begin
  | S fuel' =>
      if (begin <? stop)%nat && isspace (char_at input begin)
      then skip_begin fuel' input (S begin) stop else begin
  end.

(** [while (end > begin && isspace(input[end - 1])) --end;] *)
Fixpoint skip_end (fuel : nat) (input : string) (begin stop : nat) : nat :=
  match fuel with
  | O => stop
  | S fuel' =>
      if (begin <? stop)%nat && isspace (char_at input (stop - 1))
      then skip_end fuel' input begin (stop - 1) else stop
  end.

(** [for (i = begin; i < end; ++i) normalized.push_back(tolower(input[i]));] *)
Fixpoint push_lower (count : nat) (input : string) (i : nat) : string :=
  match count with
  | O => EmptyString
  | S count' => String.String (tolower (char_at input i)) (push_lower count' input (S i))
  end.

Definition NormalizeNickname (input : string) : string :=
  let size := String.length input in
  let begin := skip_begin size input 0 size in
  let stop := skip_end size input begin size in
  let begin := if (begin <? stop)%nat && (code (char_at input begin) =? 64)
               then S begin else begin in
  push_lower (stop - begin) input begin.

(** ** Validity *)

(** The character loop of [IsValidNormalizedNickname]; [Ok hasLetter] when the
    loop runs to the end. *)
Fixpoint valid_chars (name : string) (hasLetter previousUnderscore : bool) : result bool :=
  match name with
  | EmptyString => Ok hasLetter
  | String.String c rest =>
      if negb (IsAllowedChar c)
      then Err "nickname may only contain lowercase ascii letters, digits, and underscores"
      else if is_underscore c then
        if previousUnderscore
        then Err "nickname cannot contain consecutive underscores"
        else valid_chars rest hasLetter true
      else valid_chars rest (hasLetter || IsAsciiLowerLetter c) false
  end.

Definition IsValidNormalizedNickname (name : string) : result unit :=
  let size := String.length name in
  if (size <? MIN_LENGTH)%nat || (MAX_LENGTH <? size)%nat
  then Err "nickname length must be between 4 and 16 characters"
  else if is_underscore (char_at name 0) || is_underscore (char_at name (size - 1))
  then Err "nickname cannot start or end with underscore"
  else match valid_chars name false false with
       | Err reason => Err reason
       | Ok hasLetter =>
           if negb hasLetter then Err "nickname must contain at least one letter" else Ok tt
       end.

Definition IsValidNickname (input : string) : result unit :=
  IsValidNormalizedNickname (NormalizeNickname input).

(** ** Pricing *)

Definition GetBasePricing (normalizedLength : Z) : Pricing :=
  if normalizedLength =? 4 then mkPricing (24 * COIN) (48 * COIN)
  else if normalizedLength =? 5 then mkPricing (12 * COIN) (24 * COIN)
  else if normalizedLength =? 6 then mkPricing (6 * COIN) (12 * COIN)
  else if normalizedLength =? 7 then mkPricing (3 * COIN) (6 * COIN)
  else mkPricing (1 * COIN) (3 * COIN).

Definition ScaleByMultiplierPermille (baseAmount multiplierPermille : Z) : Z :=
  if (baseAmount <=? 0) || (multiplierPermille <=? 0) then 0
  else Z.quot (i64 (i64 (baseAmount * multiplierPermille) + 500)) 1000.

Definition ClampPricingMultiplierPermille (multiplierPermille : Z) : Z :=
  if multiplierPermille <? MIN_PRICING_MULTIPLIER_PERMILLE then MIN_PRICING_MULTIPLIER_PERMILLE
  else if MAX_PRICING_MULTIPLIER_PERMILLE <? multiplierPermille then MAX_PRICING_MULTIPLIER_PERMILLE
  else multiplierPermille.

Definition ComputeNextPricingMultiplierPermille (previousMultiplierPermille recentRegistrations : Z) : Z :=
  let prev := ClampPricingMultiplierPermille previousMultiplierPermille in
  if PRICING_TARGET_REGISTRATIONS_7D <=? 0 then prev
  else
    let raw := if 0 <? recentRegistrations
               then Z.quot (i64 (recentRegistrations * 1000)) PRICING_TARGET_REGISTRATIONS_7D
               else 0 in
    let alpha := PRICING_ALPHA_PERCENT in
    let smoothed := Z.quot (i64 (i64 (i64 ((100 - alpha) * prev) + i64 (alpha * raw)) + 50)) 100 in
    let smoothed := ClampPricingMultiplierPermille smoothed in
    let step := PRICING_STEP_LIMIT_PERCENT in
    let lowerBound := Z.quot (i64 (i64 (prev * (100 - step)) + 99)) 100 in
    let upperBound := Z.quot (i64 (prev * (100 + step))) 100 in
    let smoothed := if smoothed <? lowerBound then lowerBound else smoothed in
    let smoothed := if upperBound <? smoothed then upperBound else smoothed in
    ClampPricingMultiplierPermille smoothed.

Definition GetPricing (normalizedLength multiplierPermille : Z) : Pricing :=
  let base := GetBasePricing normalizedLength in
  let clampedMultiplier := ClampPricingMultiplierPermille multiplierPermille in
  mkPricing (ScaleByMultiplierPermille (registrationFee base) clampedMultiplier)
            (ScaleByMultiplierPermille (bondAmount base) clampedMultiplier).

Definition GetRenewalFee (normalizedLength multiplierPermille : Z) : Z :=
  let pricing := GetPricing normalizedLength multiplierPermille in
  Z.quot (i64 (registrationFee pricing * RENEWAL_PERCENT)) 100.

Definition GetRenewalBondIncrease (normalizedLength multiplierPermille : Z) : Z :=
  GetRenewalFee normalizedLength multiplierPermille.

(** ** Status *)

Definition GetStatus (currentHeight activeUntilHeight graceUntilHeight : Z)
    (released bondClaimed : bool) : Status :=
  if released then (if bondClaimed then RELEASED else BOND_CLAIMABLE)
  else if currentHeight <=? activeUntilHeight then ACTIVE
  else if currentHeight <=? graceUntilHeight then EXPIRED_GRACE
  else if bondClaimed then EXPIRED_AVAILABLE else BOND_CLAIMABLE.

Definition StatusToString (status : Status) : string :=
  match status with
  | ACTIVE => "ACTIVE"
  | EXPIRED_GRACE => "EXPIRED_GRACE"
  | EXPIRED_AVAILABLE => "EXPIRED_AVAILABLE"
  | RELEASED => "RELEASED"
  | BOND_CLAIMABLE => "BOND_CLAIMABLE"
  end.

(** ** Command-line overrides of the two periods *)

(** [strtoll(s, NULL, 10)]: optional white space, optional sign, decimal
    digits, saturated to the range of [long long]. *)
Fixpoint digits_value (s : string) (acc : Z) : Z :=
  match s with
  | String.String c rest => if IsAsciiDigit c then digits_value rest (10 * acc + (code c - 48)) else acc
  | EmptyString => acc
  end.
Fixpoint strtoll (s : string) : Z :=
  match s with
  | EmptyString => 0
  | String.String c rest =>
      if isspace c then strtoll rest
      else
        let v := if code c =? 45 then - digits_value rest 0
                 else if code c =? 43 then digits_value rest 0
                 else digits_value s 0 in
        Z.max (- 2 ^ 63) (Z.min (2 ^ 63 - 1) v)
  end.
Definition atoi64 (str : string) : Z := strtoll str.

Definition GetArg (mapArgs : gmap string string) (strArg : string) (nDefault : Z) : Z :=
  match mapArgs !! strArg with Some v => atoi64 v | None => nDefault end.

Definition ActiveBlocks (mapArgs : gmap string string) : Z :=
  i32 (GetArg mapArgs "-nicknameactiveblocks" ACTIVE_BLOCKS).
Definition GraceBlocks (mapArgs : gmap string string) : Z :=
  i32 (GetArg mapArgs "-nicknamegraceblocks" GRACE_BLOCKS).

(** ** A declarative reading of the rules *)

Notation chars := String.list_ascii_of_string.

Fixpoint trim_start (l : list Ascii.ascii) : list Ascii.ascii :=
  match l with
  | [] => []
  | c :: l' => if isspace c then trim_start l' else l
  end.
Definition trim_end (l : list Ascii.ascii) : list Ascii.ascii := reverse (trim_start (reverse l)).
Definition strip_at (l : list Ascii.ascii) : list Ascii.ascii :=
  match l with c :: l' => if code c =? 64 then l' else l | [] => [] end.

(** Strip the white space at both ends, then one [@], then lower the case. *)
Definition normal_form (input : string) : string :=
  String.string_of_list_ascii (tolower <$> strip_at (trim_end (trim_start (chars input)))).

(** What a nickname is: 4 to 16 lower-case letters, digits and underscores,
    with a letter, and with underscores only single and inside. *)
Record nickname_wf (name : string) : Prop := {
  wf_length : (4 <= String.length name <= 16)%nat;
  wf_chars : Forall (fun c => IsAllowedChar c = true) (chars name);
  wf_first : forall c, head (chars name) = Some c -> is_underscore c = false;
  wf_last : forall c, last (chars name) = Some c -> is_underscore c = false;
  wf_single : forall i c d, chars name !! i = Some c -> chars name !! S i = Some d ->
                is_underscore c = true -> is_underscore d = false;
  wf_letter : Exists (fun c => IsAsciiLowerLetter c = true) (chars name)
}.

(** The base prices in whole coins. *)
Definition fee_tier (len : Z) : Z :=
  if len =? 4 then 24 else if len =? 5 then 12 else if len =? 6 then 6 else if len =? 7 then 3 else 1.
Definition bond_tier (len : Z) : Z :=
  if len =? 4 then 48 else if len =? 5 then 24 else if len =? 6 then 12 else if len =? 7 then 6 else 3.

(** The step limiter applied to the exact smoothed value. *)
Definition limit_step (prev smoothed : Z) : Z :=
  Z.max 500 (Z.min 3000 (Z.min (prev * 110 / 100) (Z.max ((prev * 90 + 99) / 100) smoothed))).

(** [epochs] pricing epochs at a constant registration count. *)
Fixpoint iterate_multiplier (epochs : nat) (m recent : Z) : Z :=
  match epochs with
  | O => m
  | S n => iterate_multiplier n (ComputeNextPricingMultiplierPermille m recent) recent
  end.

(** The phase of a registration: usable, in grace, over. *)
Definition status_phase (s : Status) : Z :=
  match s with ACTIVE => 0 | EXPIRED_GRACE => 1 | _ => 2 end.

(** ** Lemmas on normalisation *)

Lemma length_chars s : length (chars s) = String.length s.
Proof. induction s; simpl; auto. Qed.

Lemma chars_inj s t : chars s = chars t -> s = t.
Proof.
  intros H. rewrite <- (String.string_of_list_ascii_of_string s), H.
  apply String.string_of_list_ascii_of_string.
Qed.

Lemma lookup_chars s i : chars s !! i = String.get i s.
Proof. revert i. induction s as [|c s IH]; intros [|i]; simpl; auto. Qed.

Lemma char_at_lookup s i c : chars s !! i = Some c -> char_at s i = c.
Proof. unfold char_at. rewrite lookup_chars. by intros ->. Qed.

Lemma trim_end_snoc l c : trim_end (l ++ [c]) = if isspace c then trim_end l else l ++ [c].
Proof.
  unfold trim_end. rewrite reverse_snoc. simpl. destruct (isspace c); [done|].
  by rewrite reverse_cons, reverse_involutive.
Qed.

Lemma take_drop_snoc {A} (l : list A) b e c :
  (b <= e)%nat -> l !! e = Some c ->
  take (S e - b) (drop b l) = take (e - b) (drop b l) ++ [c].
Proof.
  intros Hb Hc. replace (S e - b)%nat with (S (e - b)) by lia.
  apply take_S_r. rewrite lookup_drop. rewrite <- Hc. f_equal. lia.
Qed.

Lemma skip_begin_spec n s b :
  (b <= String.length s)%nat -> (String.length s - b <= n)%nat ->
  let b' := skip_begin n s b (String.length s) in
  (b <= b' <= String.length s)%nat /\ drop b' (chars s) = trim_start (drop b (chars s)).
Proof.
  revert b. induction n as [|n IH]; intros b Hb Hn; cbn [skip_begin].
  - assert (b = String.length s) as -> by lia. split; [lia|].
    by rewrite drop_ge by (rewrite length_chars; lia).
  - destruct (Nat.ltb_spec b (String.length s)) as [Hlt|Hge]; cbn [andb].
    + destruct (lookup_lt_is_Some_2 (chars s) b) as [c Hc]; [by rewrite length_chars|].
      rewrite (char_at_lookup s b c Hc). rewrite (drop_S _ _ _ Hc). cbn [trim_start].
      destruct (isspace c).
      * destruct (IH (S b)) as [? <-]; [lia..|]. split; [lia|done].
      * split; [lia|]. by rewrite (drop_S _ _ _ Hc).
    + assert (b = String.length s) as -> by lia. split; [lia|].
      by rewrite drop_ge by (rewrite length_chars; lia).
Qed.

Lemma skip_end_spec n s b e :
  (b <= e <= String.length s)%nat -> (e - b <= n)%nat ->
  let e' := skip_end n s b e in
  (b <= e' <= e)%nat /\ take (e' - b) (drop b (chars s)) = trim_end (take (e - b) (drop b (chars s))).
Proof.
  revert e. induction n as [|n IH]; intros e He Hn; cbn [skip_end].
  - replace (e - b)%nat with 0%nat by lia. split; [lia|done].
  - destruct (Nat.ltb_spec b e) as [Hlt|Hge]; cbn [andb].
    + destruct e as [|e]; [lia|]. replace (S e - 1)%nat with e by lia.
      destruct (lookup_lt_is_Some_2 (chars s) e) as [c Hc]; [rewrite length_chars; lia|].
      rewrite (char_at_lookup s e c Hc), (take_drop_snoc _ b e c) by (done || lia).
      rewrite trim_end_snoc. destruct (isspace c).
      * destruct (IH e) as [? <-]; [lia..|]. split; [lia|done].
      * split; [lia|]. by apply take_drop_snoc; [lia|].
    + replace (e - b)%nat with 0%nat by lia. split; [lia|done].
Qed.

Lemma push_lower_spec n s i :
  (i + n <= String.length s)%nat ->
  chars (push_lower n s i) = tolower <$> take n (drop i (chars s)).
Proof.
  revert i. induction n as [|n IH]; intros i Hi; [done|]. cbn [push_lower String.list_ascii_of_string].
  destruct (lookup_lt_is_Some_2 (chars s) i) as [c Hc]; [rewrite length_chars; lia|].
  rewrite IH by lia. rewrite (char_at_lookup s i c Hc), (drop_S _ _ _ Hc). done.
Qed.

Lemma strip_at_take l b e :
  (b <= e)%nat -> (e <= length l)%nat ->
  forall c0, let b' := if (b <? e)%nat && (code (default c0 (l !! b)) =? 64) then S b else b in
  (b' <= e)%nat /\ take (e - b') (drop b' l) = strip_at (take (e - b) (drop b l)).
Proof.
  intros Hbe Hel c0. cbn zeta. destruct (Nat.ltb_spec b e) as [Hlt|Hge]; cbn [andb].
  - destruct (lookup_lt_is_Some_2 l b) as [c Hc]; [lia|]. rewrite Hc. cbn [default].
    rewrite (drop_S _ _ _ Hc). replace (e - b)%nat with (S (e - S b)) by lia.
    cbn [take strip_at default from_option id]. destruct (code c =? 64); split; (lia || done || idtac).
    rewrite (drop_S _ _ _ Hc). replace (e - b)%nat with (S (e - S b)) by lia. done.
  - replace (e - b)%nat with 0%nat by lia. split; [lia|done].
Qed.

Lemma NormalizeNickname_chars s :
  chars (NormalizeNickname s) = tolower <$> strip_at (trim_end (trim_start (chars s))).
Proof.
  unfold NormalizeNickname. set (n := String.length s).
  destruct (skip_begin_spec n s 0) as [Hb Eb]; [lia..|]. fold n in Hb, Eb.
  set (b := skip_begin n s 0 n) in *.
  destruct (skip_end_spec n s b n) as [He Ee]; [lia..|].
  set (e := skip_end n s b n) in *.
  destruct (strip_at_take (chars s) b e) with (c0 := Ascii.zero) as [Hs Es];
    [lia|rewrite length_chars; lia|].
  replace (char_at s b) with (default Ascii.zero (chars s !! b)) by
    (unfold char_at; rewrite lookup_chars; by destruct (String.get b s)).
  rewrite push_lower_spec by lia. rewrite Es, Ee. do 3 f_equal.
  rewrite take_ge, Eb; [done|]. rewrite length_drop, length_chars. fold n. lia.
Qed.

(** ** Lemmas on characters *)

Lemma tolower_id c : IsAllowedChar c = true -> tolower c = c.
Proof.
  unfold IsAllowedChar, IsAsciiLowerLetter, IsAsciiDigit, is_underscore, tolower. intros H.
  destruct (Z.leb_spec 65 (code c)), (Z.leb_spec (code c) 90); cbn [andb]; try done.
  exfalso. destruct (Z.leb_spec 97 (code c)), (Z.leb_spec (code c) 122),
    (Z.leb_spec 48 (code c)), (Z.leb_spec (code c) 57), (Z.eqb_spec (code c) 95);
    try (cbn in H; discriminate); lia.
Qed.

Lemma allowed_not_space c : IsAllowedChar c = true -> isspace c = false.
Proof.
  unfold IsAllowedChar, IsAsciiLowerLetter, IsAsciiDigit, is_underscore, isspace. intros H.
  destruct (Z.leb_spec 97 (code c)), (Z.leb_spec (code c) 122),
    (Z.leb_spec 48 (code c)), (Z.leb_spec (code c) 57), (Z.eqb_spec (code c) 95),
    (Z.eqb_spec (code c) 32), (Z.leb_spec 9 (code c)), (Z.leb_spec (code c) 13);
    try (cbn in H; discriminate); try done; lia.
Qed.

Lemma allowed_not_at c : IsAllowedChar c = true -> (code c =? 64) = false.
Proof.
  unfold IsAllowedChar, IsAsciiLowerLetter, IsAsciiDigit, is_underscore. intros H.
  destruct (Z.leb_spec 97 (code c)), (Z.leb_spec (code c) 122),
    (Z.leb_spec 48 (code c)), (Z.leb_spec (code c) 57), (Z.eqb_spec (code c) 95),
    (Z.eqb_spec (code c) 64); try (cbn in H; discriminate); try done; lia.
Qed.

Lemma trim_start_id l : Forall (fun c => IsAllowedChar c = true) l -> trim_start l = l.
Proof. intros [|c l' Hc _]; [done|]. simpl. by rewrite allowed_not_space. Qed.

Lemma NormalizeNickname_allowed name :
  Forall (fun c => IsAllowedChar c = true) (chars name) -> NormalizeNickname name = name.
Proof.
  intros H. apply chars_inj. rewrite NormalizeNickname_chars.
  rewrite (trim_start_id _ H). unfold trim_end.
  rewrite (trim_start_id (reverse _)) by by apply Forall_reverse. rewrite reverse_involutive.
  replace (strip_at (chars name)) with (chars name).
  - rewrite <- (list_fmap_id (chars name)) at 2. apply list_fmap_ext.
    intros i c Hc. apply tolower_id. by eapply Forall_lookup_1 in H.
  - destruct H as [|c l Hc _]; [done|]. simpl. by rewrite allowed_not_at.
Qed.

(** ** Lemmas on validity *)

Lemma valid_chars_spec name h p r :
  valid_chars name h p = Ok r <->
  Forall (fun c => IsAllowedChar c = true) (chars name) /\
  (forall c, p = true -> head (chars name) = Some c -> is_underscore c = false) /\
  (forall i c d, chars name !! i = Some c -> chars name !! S i = Some d ->
     is_underscore c = true -> is_underscore d = false) /\
  r = h || existsb IsAsciiLowerLetter (chars name).
Proof.
  revert h p. induction name as [|c name IH]; intros h p; cbn [valid_chars String.list_ascii_of_string].
  - split.
    + intros [= ->]. by rewrite orb_false_r.
    + intros (_ & _ & _ & ->). cbn. by rewrite orb_false_r.
  - assert (Hstep : forall h' p', p' = is_underscore c ->
        (h' || existsb IsAsciiLowerLetter (chars name) =
         h || existsb IsAsciiLowerLetter (c :: chars name)) ->
        IsAllowedChar c = true -> (p = true -> is_underscore c = false) ->
        (valid_chars name h' p' = Ok r <->
         Forall (fun c => IsAllowedChar c = true) (c :: chars name) /\
         (forall d, p = true -> head (c :: chars name) = Some d -> is_underscore d = false) /\
         (forall i d e, (c :: chars name) !! i = Some d -> (c :: chars name) !! S i = Some e ->
            is_underscore d = true -> is_underscore e = false) /\
         r = h || existsb IsAsciiLowerLetter (c :: chars name))).
    { intros h' p' -> Hh Hc Hp. rewrite IH, <- Hh, Forall_cons. split.
      - intros (Hf & Hhd & Hs & ->). split_and!; [done|done|by intros d Hpt [= <-]; apply Hp| |done].
        intros [|i] d e Hd He Hu; [|exact (Hs i d e Hd He Hu)].
        simpl in Hd, He. injection Hd as ->. apply Hhd; [done|].
        by destruct (chars name).
      - intros ([_ Hf] & Hhd & Hs & ->). split_and!; [done| |intros i; apply (Hs (S i))|done].
        intros d Hu Hd. apply (Hs 0%nat c d); [done| |done]. simpl. by destruct (chars name). }
    destruct (IsAllowedChar c) eqn:Ec; cbn [negb].
    + destruct (is_underscore c) eqn:Eu.
      * assert (IsAsciiLowerLetter c = false) as Hl.
        { unfold is_underscore, IsAsciiLowerLetter in *. apply Z.eqb_eq in Eu. by rewrite Eu. }
        destruct p.
        -- split; [done|]. intros (_ & Hhd & _). by rewrite (Hhd c) in Eu.
        -- apply Hstep; try done. cbn. by rewrite Hl.
      * apply Hstep; try done. cbn. by rewrite orb_assoc.
    + split; [done|]. intros (Hf & _). inversion Hf; congruence.
Qed.

Lemma char_at_head name c rest : name = String.String c rest -> char_at name 0 = c.
Proof. by intros ->. Qed.

Lemma char_at_last name c : last (chars name) = Some c -> char_at name (String.length name - 1) = c.
Proof.
  intros H. apply char_at_lookup. rewrite <- length_chars.
  rewrite last_lookup in H. by rewrite Nat.sub_1_r.
Qed.

Lemma IsValidNormalizedNickname_wf name :
  IsValidNormalizedNickname name = Ok tt <-> nickname_wf name.
Proof.
  unfold IsValidNormalizedNickname, MIN_LENGTH, MAX_LENGTH. split.
  - intros H. split_ifs; [discriminate..|].
    destruct (valid_chars name false false) as [h|] eqn:Ev; [|discriminate]. split_ifs; [discriminate|].
    apply valid_chars_spec in Ev as (Hf & _ & Hs & Hl). subst h.
    destruct name as [|c0 rest]; [simpl in *; lia|]. constructor; [split; lia|done| | |done|].
    + by intros c [= <-].
    + intros c Hc. apply char_at_last in Hc. by rewrite Hc in *.
    + apply Exists_exists. cbn [orb] in E. apply existsb_exists in E as (c & Hin & Hc).
      exists c. split; [by apply list_elem_of_In|done].
  - intros [Hlen Hf Hh Hl Hs Hx].
    destruct name as [|c0 rest]; [simpl in *; lia|]. set (name := String.String c0 rest) in *.
    destruct (last (chars name)) as [cl|] eqn:El; [|apply last_None in El; done].
    rewrite (char_at_head name c0 rest), (char_at_last name cl), (Hh c0), (Hl cl) by done.
    replace (valid_chars name false false) with (Ok true).
    + split_ifs; try done; lia.
    + symmetry. apply valid_chars_spec. split_and!; try done. cbn [orb]. symmetry.
      apply existsb_exists. apply Exists_exists in Hx as (c & Hin & Hc).
      exists c. split; [by apply list_elem_of_In|done].
Qed.

(** ** Lemmas on pricing *)

Lemma Clamp_range m :
  MIN_PRICING_MULTIPLIER_PERMILLE <= ClampPricingMultiplierPermille m <= MAX_PRICING_MULTIPLIER_PERMILLE.
Proof.
  unfold ClampPricingMultiplierPermille, MIN_PRICING_MULTIPLIER_PERMILLE, MAX_PRICING_MULTIPLIER_PERMILLE.
  split_ifs; lia.
Qed.

Lemma Clamp_id m :
  MIN_PRICING_MULTIPLIER_PERMILLE <= m <= MAX_PRICING_MULTIPLIER_PERMILLE ->
  ClampPricingMultiplierPermille m = m.
Proof. intros H. unfold ClampPricingMultiplierPermille. split_ifs; lia. Qed.

Lemma Clamp_mono m1 m2 :
  m1 <= m2 -> ClampPricingMultiplierPermille m1 <= ClampPricingMultiplierPermille m2.
Proof.
  unfold ClampPricingMultiplierPermille, MIN_PRICING_MULTIPLIER_PERMILLE, MAX_PRICING_MULTIPLIER_PERMILLE.
  intros H. split_ifs; lia.
Qed.

Lemma Scale_exact b m :
  0 < b <= 100000 * 48 -> 0 < m <= MAX_PRICING_MULTIPLIER_PERMILLE ->
  ScaleByMultiplierPermille (1000 * b) m = b * m.
Proof.
  unfold MAX_PRICING_MULTIPLIER_PERMILLE. intros Hb Hm. unfold ScaleByMultiplierPermille.
  assert (0 < b * m <= 100000 * 48 * 3000) by nia.
  split_ifs; try lia. rewrite (i64_id (1000 * b * m)), i64_id by (unfold in_i64; lia).
  replace (1000 * b * m + 500) with (500 + (b * m) * 1000) by lia.
  rewrite Z.quot_div_nonneg, Z.div_add by lia. rewrite Z.div_small; lia.
Qed.

Lemma GetBasePricing_tier len :
  GetBasePricing len = mkPricing (1000 * (100000 * fee_tier len)) (1000 * (100000 * bond_tier len)).
Proof. unfold GetBasePricing, fee_tier, bond_tier, COIN. by split_ifs. Qed.

Lemma tier_bounds len : 0 < fee_tier len < bond_tier len /\ bond_tier len <= 48.
Proof. unfold fee_tier, bond_tier. split_ifs; lia. Qed.

Lemma tier_antitone l l' :
  4 <= l -> l <= l' -> fee_tier l' <= fee_tier l /\ bond_tier l' <= bond_tier l.
Proof. intros. unfold fee_tier, bond_tier. split_ifs; lia. Qed.

Lemma Compute_limit prev recent :
  exists sm, ComputeNextPricingMultiplierPermille prev recent
             = limit_step (ClampPricingMultiplierPermille prev) (ClampPricingMultiplierPermille sm).
Proof.
  unfold ComputeNextPricingMultiplierPermille. cbn [Z.leb].
  pose proof (Clamp_range prev) as Hp. set (p := ClampPricingMultiplierPermille prev) in *.
  unfold MIN_PRICING_MULTIPLIER_PERMILLE, MAX_PRICING_MULTIPLIER_PERMILLE in Hp.
  change (PRICING_TARGET_REGISTRATIONS_7D <=? 0) with false. cbv iota.
  match goal with |- context [Z.quot (i64 (i64 (?a + ?b) + 50)) 100] =>
    exists (Z.quot (i64 (i64 (a + b) + 50)) 100);
    set (sm := ClampPricingMultiplierPermille (Z.quot (i64 (i64 (a + b) + 50)) 100)) end.
  unfold PRICING_STEP_LIMIT_PERCENT. change (100 - 10) with 90. change (100 + 10) with 110.
  rewrite (i64_id (p * 90)), (i64_id (p * 90 + 99)), (i64_id (p * 110)) by (unfold in_i64; lia).
  rewrite !Z.quot_div_nonneg by lia. unfold limit_step.
  unfold ClampPricingMultiplierPermille, MIN_PRICING_MULTIPLIER_PERMILLE, MAX_PRICING_MULTIPLIER_PERMILLE.
  split_ifs; lia.
Qed.

Lemma Compute_exact prev recent :
  0 <= recent <= 2 ^ 53 ->
  ComputeNextPricingMultiplierPermille prev recent
  = let p := ClampPricingMultiplierPermille prev in
    limit_step p (ClampPricingMultiplierPermille ((80 * p + 20 * (recent * 1000 / 280) + 50) / 100)).
Proof.
  intros Hr. unfold ComputeNextPricingMultiplierPermille.
  pose proof (Clamp_range prev) as Hp. set (p := ClampPricingMultiplierPermille prev) in *.
  unfold MIN_PRICING_MULTIPLIER_PERMILLE, MAX_PRICING_MULTIPLIER_PERMILLE in Hp.
  change (PRICING_TARGET_REGISTRATIONS_7D <=? 0) with false. cbv iota zeta.
  unfold PRICING_STEP_LIMIT_PERCENT, PRICING_ALPHA_PERCENT, PRICING_TARGET_REGISTRATIONS_7D.
  assert (0 <= recent * 1000 / 280 <= 2 ^ 53 * 1000 / 280) as Hq
    by (split; [apply Z.div_pos; lia|apply Z.div_le_mono; lia]).
  change (2 ^ 53 * 1000 / 280) with 32168568766932114 in Hq.
  replace (if 0 <? recent then Z.quot (i64 (recent * 1000)) 280 else 0) with (recent * 1000 / 280).
  2:{ destruct (Z.ltb_spec 0 recent).
      - rewrite i64_id by (unfold in_i64; lia). by rewrite Z.quot_div_nonneg by lia.
      - by replace recent with 0 by lia. }
  set (q := recent * 1000 / 280) in *. change (100 - 20) with 80. change (100 - 10) with 90.
  change (100 + 10) with 110.
  rewrite (i64_id (80 * p)), (i64_id (20 * q)) by (unfold in_i64; lia).
  rewrite (i64_id (80 * p + 20 * q)), (i64_id (80 * p + 20 * q + 50)) by (unfold in_i64; lia).
  rewrite (i64_id (p * 90)), (i64_id (p * 90 + 99)), (i64_id (p * 110)) by (unfold in_i64; lia).
  rewrite !Z.quot_div_nonneg by lia. unfold limit_step.
  set (sm := (80 * p + 20 * q + 50) / 100).
  unfold ClampPricingMultiplierPermille, MIN_PRICING_MULTIPLIER_PERMILLE, MAX_PRICING_MULTIPLIER_PERMILLE.
  split_ifs; lia.
Qed.

Lemma Compute_mono_prev p1 p2 recent :
  0 <= recent <= 2 ^ 53 -> p1 <= p2 ->
  ComputeNextPricingMultiplierPermille p1 recent <= ComputeNextPricingMultiplierPermille p2 recent.
Proof.
  intros Hr Hp. rewrite !Compute_exact by done. cbn zeta. apply Clamp_mono in Hp.
  set (c1 := ClampPricingMultiplierPermille p1) in *. set (c2 := ClampPricingMultiplierPermille p2) in *.
  pose proof (Clamp_mono ((80 * c1 + 20 * (recent * 1000 / 280) + 50) / 100)
                         ((80 * c2 + 20 * (recent * 1000 / 280) + 50) / 100)
                         ltac:(apply Z.div_le_mono; lia)).
  assert (c1 * 110 / 100 <= c2 * 110 / 100) by (apply Z.div_le_mono; lia).
  assert ((c1 * 90 + 99) / 100 <= (c2 * 90 + 99) / 100) by (apply Z.div_le_mono; lia).
  unfold limit_step. lia.
Qed.

Lemma iterate_mono n m1 m2 recent :
  0 <= recent <= 2 ^ 53 -> m1 <= m2 -> iterate_multiplier n m1 recent <= iterate_multiplier n m2 recent.
Proof.
  intros Hr. revert m1 m2. induction n as [|n IH]; intros m1 m2 Hm; [done|].
  by apply IH, Compute_mono_prev.
Qed.

Lemma iterate_add n k m recent :
  iterate_multiplier (n + k) m recent = iterate_multiplier k (iterate_multiplier n m recent) recent.
Proof. revert m. induction n as [|n IH]; intros m; [done|]. apply IH. Qed.

Lemma iterate_fixed n m recent :
  ComputeNextPricingMultiplierPermille m recent = m -> iterate_multiplier n m recent = m.
Proof. intros H. induction n as [|n IH]; [done|]. simpl. by rewrite H. Qed.

Lemma settle_endpoints :
  iterate_multiplier 32 500 PRICING_TARGET_REGISTRATIONS_7D = 998 /\
  iterate_multiplier 32 3000 PRICING_TARGET_REGISTRATIONS_7D = 1002 /\
  ComputeNextPricingMultiplierPermille 998 PRICING_TARGET_REGISTRATIONS_7D = 998 /\
  ComputeNextPricingMultiplierPermille 1002 PRICING_TARGET_REGISTRATIONS_7D = 1002.
Proof. vm_compute. auto. Qed.

(** ** Properties *)

(** normalisation computes the declarative normal form: white space is
    trimmed at both ends, one leading [@] is dropped, and letters are lowered. *)
Theorem NormalizeNickname_correct (input : string) :
  NormalizeNickname input = normal_form input.
Proof.
  apply chars_inj. rewrite NormalizeNickname_chars. unfold normal_form.
  by rewrite String.list_ascii_of_string_of_list_ascii.
Qed.

(** the validity check accepts exactly the names the rules describe, and
    an accepted name is a fixed point of normalisation, so that the database
    keys [NormalizeKeyName] computes for it are the name itself. *)
Theorem IsValidNormalizedNickname_correct (name : string) :
  (IsValidNormalizedNickname name = Ok tt <-> nickname_wf name) /\
  (IsValidNormalizedNickname name = Ok tt -> NormalizeNickname name = name).
Proof.
  split; [apply IsValidNormalizedNickname_wf|].
  intros H. apply IsValidNormalizedNickname_wf in H. apply NormalizeNickname_allowed, H.
Qed.

Lemma IsValidNormalizedNickname_correct_witness : NormalizeNickname "kubu_user" = "kubu_user".
Proof. apply (proj2 (IsValidNormalizedNickname_correct "kubu_user")). reflexivity. Defined.

(** whatever the inputs, the next price multiplier stays in the permitted
    band and moves by at most ten percent of the (clamped) previous one. *)
Theorem ComputeNextPricingMultiplier_bounded (previous recent : Z) :
  let p := ClampPricingMultiplierPermille previous in
  let next := ComputeNextPricingMultiplierPermille previous recent in
  500 <= next <= 3000 /\ 90 * p <= 100 * next <= 110 * p.
Proof.
  cbn zeta. destruct (Compute_limit previous recent) as [sm ->].
  pose proof (Clamp_range previous) as Hp. set (p := ClampPricingMultiplierPermille previous) in *.
  unfold MIN_PRICING_MULTIPLIER_PERMILLE, MAX_PRICING_MULTIPLIER_PERMILLE in Hp.
  unfold limit_step.
  pose proof (Z.div_mod (p * 110) 100 ltac:(lia)). pose proof (Z.mod_pos_bound (p * 110) 100 ltac:(lia)).
  pose proof (Z.div_mod (p * 90 + 99) 100 ltac:(lia)). pose proof (Z.mod_pos_bound (p * 90 + 99) 100 ltac:(lia)).
  lia.
Qed.

(** more registrations in the window never lower the next multiplier
    (for every count the seven-day window can hold). *)
Theorem ComputeNextPricingMultiplier_monotone (previous r1 r2 : Z) :
  0 <= r1 <= r2 -> r2 <= 2 ^ 53 ->
  ComputeNextPricingMultiplierPermille previous r1 <= ComputeNextPricingMultiplierPermille previous r2.
Proof.
  intros H1 H2. rewrite !Compute_exact by lia. cbn zeta.
  set (p := ClampPricingMultiplierPermille previous).
  assert (r1 * 1000 / 280 <= r2 * 1000 / 280) by (apply Z.div_le_mono; lia).
  pose proof (Clamp_mono ((80 * p + 20 * (r1 * 1000 / 280) + 50) / 100)
                         ((80 * p + 20 * (r2 * 1000 / 280) + 50) / 100)
                         ltac:(apply Z.div_le_mono; lia)).
  unfold limit_step. lia.
Qed.

Lemma ComputeNextPricingMultiplier_monotone_witness :
  ComputeNextPricingMultiplierPermille 1000 10 <= ComputeNextPricingMultiplierPermille 1000 900.
Proof. apply ComputeNextPricingMultiplier_monotone; lia. Defined.

(** at the target registration rate the controller settles: from any
    starting multiplier it is within 2 permille of par after 32 epochs, and
    stays there. *)
Theorem pricing_settles (m : Z) (epochs : nat) :
  (32 <= epochs)%nat ->
  998 <= iterate_multiplier epochs (ClampPricingMultiplierPermille m) PRICING_TARGET_REGISTRATIONS_7D <= 1002.
Proof.
  intros H. replace epochs with (32 + (epochs - 32))%nat by lia.
  pose proof (Clamp_range m) as Hm.
  unfold MIN_PRICING_MULTIPLIER_PERMILLE, MAX_PRICING_MULTIPLIER_PERMILLE in Hm.
  pose proof (iterate_mono (32 + (epochs - 32)) 500 _ PRICING_TARGET_REGISTRATIONS_7D ltac:(done) (proj1 Hm)) as Hlo.
  pose proof (iterate_mono (32 + (epochs - 32)) _ 3000 PRICING_TARGET_REGISTRATIONS_7D ltac:(done) (proj2 Hm)) as Hhi.
  rewrite iterate_add in Hlo at 1. rewrite (iterate_add _ _ 3000) in Hhi.
  destruct settle_endpoints as (E1 & E2 & E3 & E4). rewrite E1, (iterate_fixed _ _ _ E3) in Hlo.
  rewrite E2, (iterate_fixed _ _ _ E4) in Hhi. lia.
Qed.

Lemma pricing_settles_witness :
  998 <= iterate_multiplier 40 (ClampPricingMultiplierPermille 2750) PRICING_TARGET_REGISTRATIONS_7D <= 1002.
Proof. apply pricing_settles. lia. Defined.

(** fees and bonds are exact multiples of the base price (no rounding
    loss, no overflow), are valid positive amounts, never rise with the length
    of the name, and a renewal locks exactly a quarter of the registration fee. *)
Theorem GetPricing_correct (len multiplier : Z) :
  let m := ClampPricingMultiplierPermille multiplier in
  let price := GetPricing len multiplier in
  1000 * registrationFee price = registrationFee (GetBasePricing len) * m /\
  1000 * bondAmount price = bondAmount (GetBasePricing len) * m /\
  0 < registrationFee price < bondAmount price /\ MoneyRange (bondAmount price) = true /\
  4 * GetRenewalFee len multiplier = registrationFee price /\
  (forall len', 4 <= len -> len <= len' ->
     registrationFee (GetPricing len' multiplier) <= registrationFee price /\
     bondAmount (GetPricing len' multiplier) <= bondAmount price).
Proof.
  cbn zeta. unfold GetPricing, GetRenewalFee, GetPricing, MoneyRange. cbn [registrationFee bondAmount].
  pose proof (Clamp_range multiplier) as Hm. set (m := ClampPricingMultiplierPermille multiplier) in *.
  unfold MIN_PRICING_MULTIPLIER_PERMILLE, MAX_PRICING_MULTIPLIER_PERMILLE in Hm.
  pose proof (tier_bounds len) as Hk. rewrite (GetBasePricing_tier len). cbn [registrationFee bondAmount].
  rewrite !Scale_exact by (unfold MAX_PRICING_MULTIPLIER_PERMILLE; lia).
  split_and!; try nia.
  - rewrite andb_true_iff, !Z.leb_le. unfold MAX_MONEY, COIN. nia.
  - unfold RENEWAL_PERCENT. rewrite i64_id by (unfold in_i64; nia).
    replace (100000 * fee_tier len * m * 25) with (25000 * fee_tier len * m * 100) by lia.
    rewrite Z.quot_mul by lia. lia.
  - intros len' H4 Hlen. pose proof (tier_antitone len len' H4 Hlen). pose proof (tier_bounds len').
    rewrite (GetBasePricing_tier len'). cbn [registrationFee bondAmount].
    rewrite !Scale_exact by (unfold MAX_PRICING_MULTIPLIER_PERMILLE; lia). nia.
Qed.

(** without an operation a registration only ages: its status never moves
    back as the height grows, and once out of grace it no longer changes. *)
Theorem GetStatus_ages (h1 h2 active grace : Z) (released claimed : bool) :
  h1 <= h2 ->
  let s1 := GetStatus h1 active grace released claimed in
  let s2 := GetStatus h2 active grace released claimed in
  status_phase s1 <= status_phase s2 /\ (status_phase s1 = 2 -> active <= grace -> s2 = s1).
Proof.
  intros H. cbn zeta. unfold GetStatus. split_ifs; simpl; (split; [lia|intros; try done; lia]).
Qed.

Lemma GetStatus_ages_witness :
  status_phase (GetStatus 100 150 170 false false) <= status_phase (GetStatus 160 150 170 false false).
Proof. exact (proj1 (GetStatus_ages 100 160 150 170 false false ltac:(lia))). Defined.

End Nicknames.
