(* ===== verification/WalletEngine.v ===== *)
(** * The browser wallet
      ([src/Client-Side/assets/js/wallet-engine.js], [src/vendors/ether.js])

    [wallet-engine.js] is a page whose state is the two input fields, the
    status panel, the confirmation button the panel may hold and the calls
    that wait for an answer; the events that can reach it, in any order, are
    the user's edits and clicks and the settling of a call.  [ether.js] is one
    asynchronous function against an external registry contract and signer.

    The markup is the text assigned to [innerHTML]; it is not parsed, so the
    confirmation button of a panel is the one the panel's own markup has.  The
    text of an error that the engine raises is a stand-in. *)

From S2P Require Import Prelude JsValues Nicknames.
Open Scope Z_scope.

(** ** Numbers read from a field *)

(** The longest run of digits in front, and the rest. *)
Fixpoint span_digits (s : jsstr) : jsstr * jsstr :=
  match s with
  | c :: s' => if is_digit c then let '(d, r) := span_digits s' in (c :: d, r) else ([], s)
  | [] => ([], [])
  end.

(** The sign in front, and the rest. *)
Definition span_sign (s : jsstr) : bool * jsstr :=
  match s with
  | c :: s' => if c =? 45 then (true, s') else if c =? 43 then (false, s') else (false, s)
  | [] => (false, [])
  end.

(** The exponent part, 0 when there is none. *)
Definition exponent (s : jsstr) : Z :=
  match s with
  | c :: s' =>
      if (c =? 101) || (c =? 69) then
        let '(neg, r) := span_sign s' in
        let '(d, _) := span_digits r in
        if neg then - decimal_value d else decimal_value d
      else 0
  | [] => 0
  end.

Section Wallet.
Context `{JsNumbers}.

(** The longest prefix that is a decimal literal, after leading white space. *)
Definition parseFloat (s : jsstr) : number :=
  let '(neg, s) := span_sign (trim_start s) in
  if starts_with (js "Infinity") s then infinity neg
  else
    let '(whole, r) := span_digits s in
    let '(frac, r') := match r with
                       | c :: r1 => if c =? 46 then span_digits r1 else ([], r)
                       | [] => ([], [])
                       end in
    if bool_decide (whole = []) && bool_decide (frac = []) then nan
    else round64 neg (decimal_value (whole ++ frac)) (exponent r' - Z.of_nat (length frac)).

(** ** The page of wallet-engine.js *)

Inductive request :=
| resolvealias (alias : jsstr)
| sendtoaddress (address : jsval) (amount : number).

(** A call that waits, with the variables its continuation holds. *)
Inductive call :=
| Resolving (handle amount : jsstr)
| Broadcasting (handle amount : jsstr).

Record Confirmation := mkConfirmation {
  c_handle : jsstr; c_amount : jsstr; c_address : jsval }.

Record Page := mkPage {
  sendBtn : bool;                     (* the page has the button *)
  handleInput : jsstr;
  amountInput : jsstr;
  statusDiv : jsstr;
  confirmBtn : option Confirmation;   (* the listener of #confirm-send-btn *)
  waiting : list call;
  sent : list request;
}.

(** How a call of [fetch] and the reading of its body settle. *)
Inductive outcome := Rejected (message : jsstr) | Body (data : jsval).

Inductive event :=
| Edit (handle amount : jsstr)
| ClickSend
| ClickConfirm
| Settle (i : nat) (o : outcome).

(** Assigning [statusDiv.innerHTML] removes the button that was there. *)
Definition set_status (html : jsstr) (p : Page) : Page :=
  mkPage (sendBtn p) (handleInput p) (amountInput p) html None (waiting p) (sent p).
Definition start_call (c : call) (r : request) (p : Page) : Page :=
  mkPage (sendBtn p) (handleInput p) (amountInput p) (statusDiv p) (confirmBtn p)
    (waiting p ++ [c]) (sent p ++ [r]).
Definition finish_call (i : nat) (p : Page) : Page :=
  mkPage (sendBtn p) (handleInput p) (amountInput p) (statusDiv p) (confirmBtn p)
    (delete i (waiting p)) (sent p).
Definition show_confirmation (html : jsstr) (c : Confirmation) (p : Page) : Page :=
  mkPage (sendBtn p) (handleInput p) (amountInput p) html (Some c) (waiting p) (sent p).

Definition q : jsstr := [34].
Definition lf : jsstr := [10].
Definition style (css : string) : jsstr := js " style=" ++ q ++ js css ++ q.
Definition paragraph (css : string) (text : jsstr) : jsstr :=
  js "<p" ++ style css ++ js ">" ++ text ++ js "</p>".

Definition resolved_markup (handle amount address : jsstr) : jsstr :=
  lf ++ js "        <div" ++ style "background: #eef9f2; padding: 12px; border-radius: 6px; border: 1px solid #b7ebd0;" ++ js ">" ++ lf ++
  js "          " ++ paragraph "color: #0d6332; margin: 0 0 4px 0;" (js "<strong>Handle Resolved!</strong>") ++ lf ++
  js "          " ++ paragraph "margin: 0 0 8px 0; font-family: monospace;"
    (handle ++ js " " ++ [10132] ++ js " " ++ address) ++ lf ++
  js "          <button id=" ++ q ++ js "confirm-send-btn" ++ q ++
    style "background: #0d6332; color: #fff; border: none; padding: 8px 16px; border-radius: 4px; cursor: pointer;" ++ js ">" ++ lf ++
  js "            Confirm & Send " ++ amount ++ js " KUBU" ++ lf ++
  js "          </button>" ++ lf ++
  js "        </div>" ++ lf ++ js "      ".

Definition sent_markup (handle amount txid : jsstr) : jsstr :=
  lf ++ js "            " ++ paragraph "color: green; font-weight: bold;"
    (js "Sent " ++ amount ++ js " KUBU to " ++ handle ++ js "!") ++ lf ++
  js "            " ++ paragraph "font-family: monospace; font-size: 12px;" (js "TxID: " ++ txid) ++ lf ++
  js "          ".

(** The click on the send button up to its first [await]. *)
Definition click_send (p : Page) : Page :=
  if negb (sendBtn p) then p
  else
    let handle := trim (handleInput p) in
    let amount := trim (amountInput p) in
    if bool_decide (handle = []) || bool_decide (amount = []) then
      set_status (paragraph "color: red;" (js "Please enter both a @handle and amount.")) p
    else
      start_call (Resolving handle amount) (resolvealias (strip_at handle))
        (set_status (paragraph "color: #666;" (js "Resolving " ++ handle ++ js " on Kubu Network...")) p).

(** What the body of the answer to [resolvealias] says: an error text or an
    address, or the error its reading throws. *)
Definition read_resolution (data : jsval) : result (jsstr + jsval * jsstr) :=
  error ← get_prop data "error";
  if truthy error then
    message ← get_prop error "message";
    s ← to_string message;
    Ok (inl s)
  else
    res ← get_prop data "result";
    address ← get_prop res "address";
    s ← to_string address;
    Ok (inr (address, s)).

(** The rest of the click handler, with its [catch]. *)
Definition on_resolution (handle amount : jsstr) (o : outcome) (p : Page) : Page :=
  let proxy_error e := set_status (paragraph "color: red;" (js "RPC Proxy Error: " ++ e)) p in
  match o with
  | Rejected e => proxy_error e
  | Body data =>
      match read_resolution data with
      | Err e => proxy_error (js e)
      | Ok (inl message) => set_status (paragraph "color: red;" (js "Resolution Error: " ++ message)) p
      | Ok (inr (address, s)) =>
          show_confirmation (resolved_markup handle amount s) (mkConfirmation handle amount address) p
      end
  end.

(** The click on the confirmation button. *)
Definition click_confirm (p : Page) : Page :=
  match confirmBtn p with
  | None => p
  | Some c =>
      start_call (Broadcasting (c_handle c) (c_amount c)) (sendtoaddress (c_address c) (parseFloat (c_amount c)))
        (set_status (paragraph "color: #666;" (js "Broadcasting transaction to Kubu Network...")) p)
  end.

Definition read_receipt (data : jsval) : result (jsstr + jsstr) :=
  error ← get_prop data "error";
  if truthy error then
    message ← get_prop error "message";
    s ← to_string message;
    Ok (inl s)
  else
    res ← get_prop data "result";
    s ← to_string res;
    Ok (inr s).

(** The rest of its handler, which catches nothing. *)
Definition on_receipt (handle amount : jsstr) (o : outcome) (p : Page) : Page :=
  match o with
  | Rejected _ => p
  | Body data =>
      match read_receipt data with
      | Err _ => p
      | Ok (inl message) => set_status (paragraph "color: red;" (js "Transaction Failed: " ++ message)) p
      | Ok (inr txid) => set_status (sent_markup handle amount txid) p
      end
  end.

Definition handle_event (p : Page) (e : event) : Page :=
  match e with
  | Edit handle amount =>
      mkPage (sendBtn p) handle amount (statusDiv p) (confirmBtn p) (waiting p) (sent p)
  | ClickSend => click_send p
  | ClickConfirm => click_confirm p
  | Settle i o =>
      match waiting p !! i with
      | None => p
      | Some (Resolving handle amount) => on_resolution handle amount o (finish_call i p)
      | Some (Broadcasting handle amount) => on_receipt handle amount o (finish_call i p)
      end
  end.

(** The page when [DOMContentLoaded] has fired, and after a sequence of events. *)
Definition loaded (has_send : bool) : Page := mkPage has_send [] [] [] None [] [].
Definition run (p : Page) (es : list event) : Page := foldl handle_event p es.

Definition is_payment (r : request) : bool :=
  match r with sendtoaddress _ _ => true | resolvealias _ => false end.
Definition is_click_send (e : event) : bool := match e with ClickSend => true | _ => false end.
Definition is_click_confirm (e : event) : bool := match e with ClickConfirm => true | _ => false end.
Definition is_resolving (c : call) : bool := match c with Resolving _ _ => true | _ => false end.
Definition count {A} (f : A -> bool) (l : list A) : nat := length (filter (fun x => f x = true) l).

(** A payment of [amount] to [address] is backed by a resolution: an answer to
    the lookup of the handle entered with that amount gave the address. *)
Definition backed (p0 : Page) (es : list event) (handle amount : jsstr) (address : jsval) : Prop :=
  exists es1 i data s es2,
    es = es1 ++ Settle i (Body data) :: es2 /\
    waiting (run p0 es1) !! i = Some (Resolving handle amount) /\
    resolvealias (strip_at handle) ∈ sent (run p0 es1) /\
    read_resolution data = Ok (inr (address, s)).

(** What holds of the page after the events [es]. *)
Definition page_inv (p0 : Page) (es : list event) (p : Page) : Prop :=
  (forall h a, Resolving h a ∈ waiting p -> h <> [] /\ a <> [] /\ resolvealias (strip_at h) ∈ sent p) /\
  (forall c, confirmBtn p = Some c ->
     c_handle c <> [] /\ c_amount c <> [] /\ backed p0 es (c_handle c) (c_amount c) (c_address c)) /\
  (forall addr n, sendtoaddress addr n ∈ sent p ->
     exists h a, h <> [] /\ a <> [] /\ backed p0 es h a addr /\ n = parseFloat a /\ ClickConfirm ∈ es).

Definition has_confirm (p : Page) : nat := match confirmBtn p with Some _ => 1 | None => 0 end.

(** ** ether.js *)

Definition is_ascii (c : Ascii.ascii) : Prop := code_unit c < 128.

(** [toLowerCase]; the Unicode tables beyond ASCII are a parameter. *)
Definition toLowerCase (unicode_lower : jsstr -> jsstr) (s : jsstr) : jsstr :=
  if forallb is_ascii_unit s then ascii_lower <$> s else unicode_lower s.

Definition cleanHandle (unicode_lower : jsstr -> jsstr) (usernameInput : jsstr) : jsstr :=
  toLowerCase unicode_lower (strip_at (trim usernameInput)).

(** The contract, the signer and the amount parser of the library. *)
Record Chain := mkChain {
  resolveName : jsstr -> result jsstr;
  parseEther : jsstr -> result Z;
  sendTransaction : jsstr -> Z -> result jsstr;
  wait : jsstr -> result unit;
}.

Inductive effect :=
| Resolved (handle address : jsstr)
| Sent (to : jsstr) (value : Z) (hash : jsstr)
| Confirmed
| PaymentFailed (message : string).

Definition amount_text (amountInCoins : jsval) : result jsstr :=
  match amountInCoins with
  | Undefined | Null => Err (type_error "Cannot read properties of undefined or null")
  | v => to_string v
  end.

Definition sendCoinByName (unicode_lower : jsstr -> jsstr) (chain : Chain)
    (usernameInput : jsstr) (amountInCoins : jsval) : list effect :=
  let handle := cleanHandle unicode_lower usernameInput in
  match resolveName chain handle with
  | Err e => [PaymentFailed e]
  | Ok recipientAddress =>
      Resolved handle recipientAddress ::
      match (s ← amount_text amountInCoins; parseEther chain s) with
      | Err e => [PaymentFailed e]
      | Ok value =>
          match sendTransaction chain recipientAddress value with
          | Err e => [PaymentFailed e]
          | Ok hash =>
              Sent recipientAddress value hash ::
              match wait chain hash with
              | Err e => [PaymentFailed e]
              | Ok _ => [Confirmed]
              end
          end
      end
  end.

(** The payment an effect is. *)
Definition payment_of (e : effect) : option (jsstr * Z * jsstr) :=
  match e with Sent to value hash => Some (to, value, hash) | _ => None end.

End Wallet.

(** ** Lemmas *)

Section Runs.
Context `{JsNumbers}.
Implicit Types (p : Page) (es : list event).

Lemma run_snoc p es e : run p (es ++ [e]) = handle_event (run p es) e.
Proof. unfold run. by rewrite foldl_app. Qed.

Lemma backed_snoc p0 es e h a addr : backed p0 es h a addr -> backed p0 (es ++ [e]) h a addr.
Proof.
  intros (es1 & i & data & s & es2 & -> & Hw). exists es1, i, data, s, (es2 ++ [e]).
  by rewrite <- app_assoc.
Qed.

Lemma page_inv_same p0 es e p p' :
  page_inv p0 es p -> (confirmBtn p' = confirmBtn p \/ confirmBtn p' = None) ->
  (forall c, c ∈ waiting p' -> c ∈ waiting p) -> sent p' = sent p -> page_inv p0 (es ++ [e]) p'.
Proof.
  intros (Hw & Hc & Hs) Hcf Hwt Est. split_and!.
  - rewrite Est. auto.
  - intros c E. destruct Hcf as [Hcf|Hcf]; rewrite Hcf in E; [|done].
    destruct (Hc c E) as (? & ? & ?). split_and!; [done..|by apply backed_snoc].
  - rewrite Est. intros addr n Hin. destruct (Hs addr n Hin) as (h & a & ? & ? & Hb & -> & ?).
    exists h, a. split_and!; [done|done|by apply backed_snoc|done|apply elem_of_app; by left].
Qed.

Lemma elem_of_delete {A} i (l : list A) x : x ∈ delete i l -> x ∈ l.
Proof.
  revert i. induction l as [|y l IH]; intros i; [by destruct i|]. destruct i as [|i]; cbn; [by right|].
  intros [->|Hx]%elem_of_cons; [left|right; eauto].
Qed.

Lemma page_inv_click_send p0 es p : page_inv p0 es p -> page_inv p0 (es ++ [ClickSend]) (click_send p).
Proof.
  intros Hi. unfold click_send. destruct (sendBtn p); cbn [negb]; [|by eapply page_inv_same; eauto].
  case_bool_decide as Eh; cbn [orb]; [by eapply page_inv_same; eauto|].
  case_bool_decide as Ea; [by eapply page_inv_same; eauto|].
  destruct Hi as (Hw & Hc & Hs). split_and!; cbn.
  - intros h a [Hin|[= -> ->]%list_elem_of_singleton]%elem_of_app.
    + destruct (Hw h a Hin) as (? & ? & ?). split_and!; [done..|]. apply elem_of_app. by left.
    + split_and!; [done..|]. apply elem_of_app. right. left.
  - done.
  - intros addr n [Hin|E%list_elem_of_singleton]%elem_of_app; [|done].
    destruct (Hs addr n Hin) as (h & a & ? & ? & Hb & -> & ?). exists h, a.
    split_and!; [done|done|by apply backed_snoc|done|apply elem_of_app; by left].
Qed.

Lemma page_inv_click_confirm p0 es p :
  page_inv p0 es p -> page_inv p0 (es ++ [ClickConfirm]) (click_confirm p).
Proof.
  intros Hi. unfold click_confirm. destruct (confirmBtn p) as [c|] eqn:Ec; [|by eapply page_inv_same; eauto].
  destruct Hi as (Hw & Hc & Hs). split_and!; cbn.
  - intros h a [Hin|E%list_elem_of_singleton]%elem_of_app; [|done].
    destruct (Hw h a Hin) as (? & ? & ?). split_and!; [done..|]. apply elem_of_app. by left.
  - done.
  - intros addr n [Hin|[= -> ->]%list_elem_of_singleton]%elem_of_app.
    + destruct (Hs addr n Hin) as (h & a & ? & ? & Hb & -> & ?). exists h, a.
      split_and!; [done|done|by apply backed_snoc|done|apply elem_of_app; by left].
    + destruct (Hc c Ec) as (? & ? & ?). exists (c_handle c), (c_amount c).
      split_and!; [done|done|by apply backed_snoc|done|apply elem_of_app; right; left].
Qed.

Lemma page_inv_settle b es i o :
  let p := run (loaded b) es in
  page_inv (loaded b) es p -> page_inv (loaded b) (es ++ [Settle i o]) (handle_event p (Settle i o)).
Proof.
  intros p Hi. cbn [handle_event]. destruct (waiting p !! i) as [[h a|h a]|] eqn:Ei.
  - assert (Hgone : forall html, page_inv (loaded b) (es ++ [Settle i o]) (set_status html (finish_call i p))).
    { intros html. eapply page_inv_same; [done|by right|cbn; apply elem_of_delete|done]. }
    unfold on_resolution. destruct o as [e|data]; [apply Hgone|].
    destruct (read_resolution data) as [[message|[addr s]]|e] eqn:Er; [apply Hgone| |apply Hgone].
    destruct (Hgone []) as (Hw & _ & Hs). split_and!; cbn in *; [done| |done].
    intros c [= <-]. cbn. destruct (proj1 Hi h a ltac:(by eapply list_elem_of_lookup_2)) as (? & ? & ?).
    split_and!; [done|done|]. exists es, i, data, s, []. by split_and!.
  - unfold on_receipt. destruct o as [e|data]; [|destruct (read_receipt data) as [[message|txid]|e]];
      (eapply page_inv_same; [done|(by left) || (by right)|cbn; apply elem_of_delete|done]).
  - eapply page_inv_same; eauto.
Qed.

Lemma page_inv_run b es : page_inv (loaded b) es (run (loaded b) es).
Proof.
  induction es as [|e es IH] using rev_ind.
  - split_and!; cbn; [|done|]; intros ? ? Hin; by apply not_elem_of_nil in Hin.
  - rewrite run_snoc. destruct e as [h a| | |i o].
    + eapply page_inv_same; eauto.
    + by apply page_inv_click_send.
    + by apply page_inv_click_confirm.
    + by apply page_inv_settle.
Qed.

Ltac page := cbn [confirmBtn waiting sent set_status start_call finish_call show_confirmation
  is_click_send is_click_confirm is_payment is_resolving has_confirm].

Lemma count_app {A} (f : A -> bool) l1 l2 : count f (l1 ++ l2) = (count f l1 + count f l2)%nat.
Proof. unfold count. by rewrite filter_app, length_app. Qed.

Lemma count_one {A} (f : A -> bool) x : count f [x] = if f x then 1%nat else 0%nat.
Proof. unfold count. rewrite filter_cons, filter_nil. by destruct (f x); case_decide. Qed.

Lemma count_delete {A} (f : A -> bool) i l x :
  l !! i = Some x -> (count f (delete i l) + (if f x then 1 else 0))%nat = count f l.
Proof.
  intros Hx. rewrite <- (take_drop_middle l i x Hx) at 2. rewrite delete_take_drop, !count_app.
  change (x :: drop (S i) l) with ([x] ++ drop (S i) l). rewrite count_app, count_one. lia.
Qed.

(** Lookups under way, a confirmation on offer and payments made never exceed
    the clicks on the send button. *)
Lemma payments_bounded b es :
  let p := run (loaded b) es in
  (count is_payment (sent p) + has_confirm p + count is_resolving (waiting p) <= count is_click_send es)%nat /\
  (count is_payment (sent p) <= count is_click_confirm es)%nat.
Proof.
  induction es as [|e es IH] using rev_ind; [done|]. cbn zeta in *. rewrite run_snoc, !count_app, !count_one.
  set (p := run (loaded b) es) in *. unfold has_confirm in *. destruct e as [h a| | |i o]; cbn [handle_event].
  - page. lia.
  - unfold click_send. destruct (sendBtn p); cbn [negb]; [|page; destruct (confirmBtn p); lia].
    destruct (bool_decide _ || bool_decide _); page; rewrite ?count_app, ?count_one; page; destruct (confirmBtn p); lia.
  - unfold click_confirm. destruct (confirmBtn p) as [c|] eqn:Ec; [|rewrite ?Ec; page; lia].
    page. rewrite ?count_app, ?count_one. page. lia.
  - page. destruct (waiting p !! i) as [[h a|h a]|] eqn:Ei; [| |lia];
      pose proof (count_delete is_resolving _ _ _ Ei) as Hd; cbn [is_resolving] in Hd.
    + unfold on_resolution. destruct o as [m|data]; [|destruct (read_resolution data) as [[?|[? ?]]|?]];
        page; destruct (confirmBtn p); lia.
    + unfold on_receipt. destruct o as [m|data]; [|destruct (read_receipt data) as [[?|?]|?]];
        page; destruct (confirmBtn p); lia.
Qed.

End Runs.

Section Handles.
Notation chars := String.list_ascii_of_string.
Implicit Types (l : list Ascii.ascii).

Lemma js_chars s : js s = code_unit <$> chars s.
Proof. induction s as [|c s IH]; [done|]. cbn. by rewrite IH. Qed.

Lemma code_unit_nonneg c : 0 <= code_unit c.
Proof. unfold code_unit. lia. Qed.

Lemma is_js_space_ascii c : is_ascii c -> is_js_space (code_unit c) = Nicknames.isspace c.
Proof.
  unfold is_ascii, is_js_space, Nicknames.isspace. change (Nicknames.code c) with (code_unit c). intros Hc.
  assert (Hne : forall k, 128 <= k -> (code_unit c =? k) = false) by (intros k ?; apply Z.eqb_neq; lia).
  rewrite (Hne 160), (Hne 5760), (Hne 8232), (Hne 8233), (Hne 8239), (Hne 8287), (Hne 12288), (Hne 65279) by lia.
  rewrite (proj2 (Z.leb_gt 8192 (code_unit c))) by lia. cbn [andb orb]. rewrite !orb_false_r. apply orb_comm.
Qed.

Lemma trim_start_ascii l :
  Forall is_ascii l -> trim_start (code_unit <$> l) = code_unit <$> Nicknames.trim_start l.
Proof.
  induction 1 as [|c l Hc _ IH]; [done|]. cbn. rewrite is_js_space_ascii by done.
  by destruct (Nicknames.isspace c).
Qed.

Lemma trim_start_Forall l : Forall is_ascii l -> Forall is_ascii (Nicknames.trim_start l).
Proof. induction 1; cbn; [done|]. case_match; [done|by constructor]. Qed.

Lemma trim_end_ascii l :
  Forall is_ascii l -> trim_end (code_unit <$> l) = code_unit <$> Nicknames.trim_end l.
Proof.
  intros Hl. unfold trim_end, Nicknames.trim_end. rewrite <- fmap_reverse.
  rewrite trim_start_ascii by (by apply Forall_reverse). by rewrite fmap_reverse.
Qed.

Lemma trim_end_Forall l : Forall is_ascii l -> Forall is_ascii (Nicknames.trim_end l).
Proof. intros Hl. apply Forall_reverse, trim_start_Forall. by apply Forall_reverse. Qed.

Lemma strip_at_ascii l : strip_at (code_unit <$> l) = code_unit <$> Nicknames.strip_at l.
Proof. destruct l as [|c l]; [done|]. cbn. change (Nicknames.code c) with (code_unit c). by case_match. Qed.

Lemma strip_at_Forall l : Forall is_ascii l -> Forall is_ascii (Nicknames.strip_at l).
Proof. destruct 1; cbn; [done|]. case_match; [done|by constructor]. Qed.

Lemma ascii_lower_code c : is_ascii c -> ascii_lower (code_unit c) = code_unit (Nicknames.tolower c).
Proof.
  unfold is_ascii, ascii_lower, Nicknames.tolower. change (Nicknames.code c) with (code_unit c). intros Hc.
  case_match; [|done]. pose proof (code_unit_nonneg c). unfold Nicknames.chr.
  unfold code_unit at 2. rewrite Ascii.N_ascii_embedding by lia. lia.
Qed.

Lemma stripped_ascii s :
  Forall is_ascii (chars s) ->
  exists l, strip_at (trim (js s)) = code_unit <$> l /\ Forall is_ascii l /\
    l = Nicknames.strip_at (Nicknames.trim_end (Nicknames.trim_start (chars s))).
Proof.
  intros Hs. eexists. split_and!; [|by apply strip_at_Forall, trim_end_Forall, trim_start_Forall|done].
  unfold trim. rewrite js_chars, trim_start_ascii by done.
  rewrite trim_end_ascii by (by apply trim_start_Forall). by rewrite strip_at_ascii.
Qed.

Lemma chars_string l : chars (String.string_of_list_ascii l) = l.
Proof. induction l; cbn; congruence. Qed.

(** A character whose lower case is allowed in a name is neither space nor [@]. *)
Lemma lower_allowed c :
  Nicknames.IsAllowedChar (Nicknames.tolower c) = true ->
  Nicknames.isspace c = false /\ (Nicknames.code c =? 64) = false.
Proof.
  unfold Nicknames.tolower. destruct (_ && _) eqn:E.
  - intros _. apply andb_prop in E as [?%Z.leb_le ?%Z.leb_le]. unfold Nicknames.isspace.
    split; [|apply Z.eqb_neq; lia]. apply orb_false_iff. split; [apply Z.eqb_neq; lia|].
    apply andb_false_iff. right. apply Z.leb_gt. lia.
  - intros Hc. split; [by apply Nicknames.allowed_not_space|by apply Nicknames.allowed_not_at].
Qed.

Lemma normalize_stripped l :
  Forall (fun c => Nicknames.IsAllowedChar c = true) (Nicknames.tolower <$> l) ->
  chars (Nicknames.NormalizeNickname (String.string_of_list_ascii l)) = Nicknames.tolower <$> l.
Proof.
  intros Hl. rewrite Nicknames.NormalizeNickname_chars, chars_string.
  assert (Hs : Forall (fun c => Nicknames.isspace c = false) l).
  { apply Forall_fmap in Hl. eapply Forall_impl; [done|]. intros c Hc. by apply lower_allowed. }
  assert (Ht : forall l', Forall (fun c => Nicknames.isspace c = false) l' -> Nicknames.trim_start l' = l').
  { intros l' [|c l'' Hc _]; [done|]. cbn. by rewrite Hc. }
  rewrite (Ht l Hs). unfold Nicknames.trim_end. rewrite Ht by (by apply Forall_reverse).
  rewrite reverse_involutive. destruct l as [|c l]; [done|].
  cbn. apply Forall_cons in Hl as [Hc _]. by rewrite (proj2 (lower_allowed c Hc)).
Qed.

End Handles.

(** [sendCoinByName] pays once, the address the registry holds for the cleaned
    handle, when the lookup, the amount and the signer succeed, and otherwise
    not at all. *)
Lemma sendCoinByName_payments `{JsNumbers} (unicode_lower : jsstr -> jsstr) (chain : Chain)
    (user : jsstr) (amount : jsval) :
  omap payment_of (sendCoinByName unicode_lower chain user amount) =
  match (to ← resolveName chain (cleanHandle unicode_lower user);
         s ← amount_text amount; value ← parseEther chain s;
         hash ← sendTransaction chain to value; Ok (to, value, hash)) with
  | Ok payment => [payment]
  | Err _ => []
  end.
Proof.
  unfold sendCoinByName. destruct (resolveName chain _) as [to|]; [cbn [mbind result_bind]|done].
  destruct (amount_text amount) as [s|]; [cbn [mbind result_bind]|done].
  destruct (parseEther chain s) as [value|]; [cbn [mbind result_bind]|done].
  destruct (sendTransaction chain to value) as [hash|]; [cbn [mbind result_bind]|done].
  by destruct (wait chain hash).
Qed.

(** ** Properties *)

(** C10: however the user's clicks and the answers interleave, a payment is
    sent only after a click on the confirmation button, to an address that an
    answer to the lookup of a handle the user submitted gave, with the amount
    submitted with that handle; and there are at most as many payments as
    clicks on the confirmation button and as clicks on the send button. *)
Theorem payments_are_backed `{JsNumbers} (b : bool) (es : list event) :
  let p := run (loaded b) es in
  (forall address amount, sendtoaddress address amount ∈ sent p ->
     ClickConfirm ∈ es /\
     exists handle entered, handle <> [] /\ entered <> [] /\ amount = parseFloat entered /\
       backed (loaded b) es handle entered address) /\
  (count is_payment (sent p) <= count is_click_confirm es)%nat /\
  (count is_payment (sent p) <= count is_click_send es)%nat.
Proof.
  intros p. destruct (page_inv_run b es) as (_ & _ & Hs), (payments_bounded b es) as [? ?].
  split_and!; [|done|unfold p; lia].
  intros address amount Hin. destruct (Hs address amount Hin) as (h & a & ? & ? & ? & -> & ?).
  split; [done|]. by exists h, a.
Qed.

Lemma payments_are_backed_witness :
  let answer := Obj (H := no_numbers) [(js "result", Obj [(js "address", Str (js "KabC"))])] in
  let es := [Edit (js " @alice ") (js "2"); ClickSend; Settle 0 (Body answer); ClickConfirm] in
  let p := run (H := no_numbers) (loaded (H := no_numbers) true) es in
  sent p = [resolvealias (js "alice"); sendtoaddress (H := no_numbers) (Str (js "KabC")) tt] /\
  (count (is_payment (H := no_numbers)) (sent p) <= 1)%nat.
Proof.
  intros answer es p. split; [by vm_compute|].
  pose proof (payments_are_backed (H := no_numbers) true es) as (_ & Hc & _). exact Hc.
Defined.

(** C34: the web front ends and the node read a handle alike: on ASCII input
    [ether.js] sends the registry the node's normal form, and the alias
    [wallet-engine.js] sends for a valid handle has the same normal form. *)
Theorem frontends_normalise_alike `{JsNumbers} (s : string) (unicode_lower : jsstr -> jsstr) (page : Page) :
  Forall is_ascii (String.list_ascii_of_string s) ->
  cleanHandle unicode_lower (js s) = js (Nicknames.NormalizeNickname s) /\
  (Nicknames.IsValidNickname s = Ok tt ->
   sendBtn page = true -> handleInput page = js s -> trim (amountInput page) <> [] ->
   exists alias, sent (click_send page) = sent page ++ [resolvealias (js alias)] /\
     Nicknames.NormalizeNickname alias = Nicknames.NormalizeNickname s).
Proof.
  intros Hs. destruct (stripped_ascii s Hs) as (l & El & Hl & Dl). split.
  - unfold cleanHandle, toLowerCase. rewrite El.
    replace (forallb is_ascii_unit (code_unit <$> l)) with true.
    + rewrite js_chars, Nicknames.NormalizeNickname_chars, <- Dl, <- !list_fmap_compose.
      apply list_fmap_ext. intros i c Hc. apply ascii_lower_code. by eapply Forall_lookup_1 in Hl.
    + symmetry. apply forallb_forall. intros x Hx%list_elem_of_In.
      apply list_elem_of_fmap in Hx as (c & -> & Hc). rewrite Forall_forall in Hl.
      pose proof (Hl c Hc) as Hlt. unfold is_ascii in Hlt. pose proof (code_unit_nonneg c).
      unfold is_ascii_unit. apply andb_true_intro. split; [apply Z.leb_le|apply Z.ltb_lt]; lia.
  - intros Hv%Nicknames.IsValidNormalizedNickname_wf Hb Hh Ha.
    pose proof (Nicknames.NormalizeNickname_chars s) as En. rewrite <- Dl in En.
    assert (Hall : Forall (fun c => Nicknames.IsAllowedChar c = true) (Nicknames.tolower <$> l))
      by (rewrite <- En; apply Hv).
    exists (String.string_of_list_ascii l). split.
    + unfold click_send. rewrite Hb, Hh. cbn [negb].
      rewrite (bool_decide_eq_false_2 (trim (amountInput page) = [])) by done.
      rewrite bool_decide_eq_false_2.
      * cbn. by rewrite El, js_chars, chars_string.
      * intros E. rewrite E in El. destruct Hv as [Hlen _ _ _ _ _]. destruct l; [|done].
        cbn in En. destruct (Nicknames.NormalizeNickname s); cbn in Hlen; [lia|done].
    + apply Nicknames.chars_inj. rewrite En. by apply normalize_stripped.
Qed.

Lemma frontends_normalise_alike_witness :
  cleanHandle (fun u => u) (js "  @Alice_7 ") = js "alice_7".
Proof.
  rewrite (proj1 (frontends_normalise_alike (H := no_numbers) "  @Alice_7 " (fun u => u)
    (loaded (H := no_numbers) true) ltac:(repeat constructor))). by vm_compute.
Defined.
