(* ===== verification/AliasService.v ===== *)
(** * The alias service
      ([src/state/alias.go], [src/rpc/api.go], [src/kubu-tx/core/tx_processor.go])

    The table of handles that the Go programs keep, guarded by a readers-writer
    lock, with the request handler and the transaction processor over it.  The
    accounts are a package that is not part of the repository: a parameter
    ([AccountOps]).  Calls that run at the same time are a step relation with
    one step per access to shared memory. *)

From S2P Require Import Prelude Nicknames.
Open Scope Z_scope.
Open Scope kubu_scope.

(** ** Strings

    Go strings are byte sequences, and [len] counts bytes.  [strings.ToLower]
    lowers the letters of ASCII text; other text goes through the tables of
    package [unicode], the argument [unicode_lower]. *)

Definition TrimPrefix (s prefix : string) : string :=
  if String.prefix prefix s then String.substring (String.length prefix) (String.length s - String.length prefix) s else s.

Definition is_ascii_byte (c : Ascii.ascii) : bool := Nicknames.code c <? 128.

Section Service.
Context (unicode_lower : string -> string).

Definition ToLower (s : string) : string :=
  if forallb is_ascii_byte (String.list_ascii_of_string s)
  then String.string_of_list_ascii (Nicknames.tolower <$> String.list_ascii_of_string s)
  else unicode_lower s.

(** ** The table *)

Record AliasRecord := mkAlias { Handle : string; Owner : string; BlockNum : Z }.
Record AliasState := mkAliasState { alias_records : gmap string AliasRecord }.
Definition NewAliasState : AliasState := mkAliasState ∅.

Definition normalized (handle : string) : string := ToLower (TrimPrefix handle "@").

(** The checks of [RegisterAlias], and the record it writes. *)
Definition register_check (s : AliasState) (handle : string) : result unit :=
  let n := Z.of_nat (String.length (normalized handle)) in
  reject (n <? 3) || (20 <? n) with "handle must be between 3 and 20 characters";
  reject bool_decide (is_Some (alias_records s !! normalized handle)) with "alias already registered";
  Ok tt.
Definition register_write (s : AliasState) (handle ownerAddress : string) (currentBlock : Z) : AliasState :=
  mkAliasState (<[normalized handle := mkAlias (normalized handle) ownerAddress currentBlock]> (alias_records s)).
Definition RegisterAlias (s : AliasState) (handle ownerAddress : string) (currentBlock : Z) : AliasState * result unit :=
  match register_check s handle with
  | Err e => (s, Err e)
  | Ok _ => (register_write s handle ownerAddress currentBlock, Ok tt)
  end.

Definition ResolveAlias (s : AliasState) (handle : string) : result string :=
  match alias_records s !! normalized handle with
  | None => Err "alias not found"
  | Some record => Ok (Owner record)
  end.

(** ** The request handler

    [http.Error], or the map that is encoded, whose keys the encoder sorts. *)
Inductive Response := HttpError (message : string) (status : Z) | JsonObject (members : list (string * string)).

(** [name] is the query's parameter, empty if there is none. *)
Definition HandleResolveAlias (s : AliasState) (name : string) : Response :=
  if bool_decide (name = "") then HttpError "missing handle parameter" 400
  else match ResolveAlias s name with
       | Err e => HttpError e 404
       | Ok address => JsonObject [("address", address); ("handle", name)]
       end.

(** ** Transactions *)

Definition TxTypeStandardTransfer : Z := 1.
Definition TxTypeAliasTransfer : Z := 2.
Definition TxTypeRegisterAlias : Z := 3.

Record AliasTx := mkAliasTx { tx_Type : Z; tx_Sender : string; tx_Recipient : string; tx_Amount : Z; tx_Fee : Z; tx_Signature : bytes }.

(** The accounts: a transfer and the current block. *)
Class AccountOps (A : Type) := {
  Transfer : A -> string -> string -> Z -> A * result unit;
  CurrentBlock : A -> Z
}.

Record Processor (A : Type) := mkProcessor { AccountState : A; AliasTable : AliasState }.
#[local] Arguments mkProcessor {A}.
#[local] Arguments AccountState {A}.
#[local] Arguments AliasTable {A}.

Context {A : Type} `{AccountOps A}.

(** The sum wraps around at 64 bits. *)
Definition ProcessTransaction (p : Processor A) (tx : AliasTx) : Processor A * result unit :=
  if tx_Type tx =? TxTypeStandardTransfer then
    let '(acc, r) := Transfer (AccountState p) (tx_Sender tx) (tx_Recipient tx) (u64 (tx_Amount tx + tx_Fee tx)) in
    (mkProcessor acc (AliasTable p), r)
  else if tx_Type tx =? TxTypeRegisterAlias then
    let '(s, r) := RegisterAlias (AliasTable p) (tx_Recipient tx) (tx_Sender tx) (CurrentBlock (AccountState p)) in
    (mkProcessor (AccountState p) s, r)
  else if tx_Type tx =? TxTypeAliasTransfer then
    match ResolveAlias (AliasTable p) (tx_Recipient tx) with
    | Err e => (p, Err (String.append "alias resolution failed: " e))
    | Ok resolvedAddress =>
        let '(acc, r) := Transfer (AccountState p) (tx_Sender tx) resolvedAddress (u64 (tx_Amount tx + tx_Fee tx)) in
        (mkProcessor acc (AliasTable p),
         match r with Ok _ => Ok tt | Err e => Err (String.append "insufficient balance or state error: " e) end)
    end
  else (p, Err "unsupported transaction type").
Definition ProcessAll (p : Processor A) (txs : list AliasTx) : Processor A := foldl (fun p tx => (ProcessTransaction p tx).1) p txs.

(** ** Calls at the same time *)

Inductive call := CallRegister (handle ownerAddress : string) (currentBlock : Z) | CallResolve (handle : string).
Inductive answer := Registered (r : result unit) | Resolved (r : result string).

(** A call on its own. *)
Definition run_call (s : AliasState) (c : call) : AliasState * answer :=
  match c with
  | CallRegister handle owner block => let '(s, r) := RegisterAlias s handle owner block in (s, Registered r)
  | CallResolve handle => (s, Resolved (ResolveAlias s handle))
  end.

(** Where a goroutine is: before the lock, in the critical section, after the
    checks of a registration, before the deferred unlock, returned. *)
Inductive phase := Waiting | Locked | Checked | Unlocking (a : answer) | Returned (a : answer).
Definition is_register (c : call) : bool := match c with CallRegister _ _ _ => true | CallResolve _ => false end.
Definition in_section (ph : phase) : bool := match ph with Waiting | Returned _ => false | _ => true end.

(** The lock by those who hold it.  A lock that is waited for also keeps new
    readers out, which only removes executions. *)
Record Shared := mkShared { mu_writer : option nat; mu_readers : gset nat; table : AliasState; goroutines : list (call * phase) }.

Inductive go_step : Shared -> Shared -> Prop :=
| go_Lock i h o b t gs : gs !! i = Some (CallRegister h o b, Waiting) ->
    go_step (mkShared None ∅ t gs) (mkShared (Some i) ∅ t (<[i := (CallRegister h o b, Locked)]> gs))
| go_RLock i h rs t gs : gs !! i = Some (CallResolve h, Waiting) ->
    go_step (mkShared None rs t gs) (mkShared None ({[i]} ∪ rs) t (<[i := (CallResolve h, Locked)]> gs))
| go_check i h o b w rs t gs : gs !! i = Some (CallRegister h o b, Locked) ->
    go_step (mkShared w rs t gs)
      (mkShared w rs t (<[i := (CallRegister h o b, match register_check t h with Ok _ => Checked | Err e => Unlocking (Registered (Err e)) end)]> gs))
| go_write i h o b w rs t gs : gs !! i = Some (CallRegister h o b, Checked) ->
    go_step (mkShared w rs t gs) (mkShared w rs (register_write t h o b) (<[i := (CallRegister h o b, Unlocking (Registered (Ok tt)))]> gs))
| go_read i h w rs t gs : gs !! i = Some (CallResolve h, Locked) ->
    go_step (mkShared w rs t gs) (mkShared w rs t (<[i := (CallResolve h, Unlocking (Resolved (ResolveAlias t h)))]> gs))
| go_Unlock i h o b a w rs t gs : gs !! i = Some (CallRegister h o b, Unlocking a) ->
    go_step (mkShared w rs t gs) (mkShared None rs t (<[i := (CallRegister h o b, Returned a)]> gs))
| go_RUnlock i h a w rs t gs : gs !! i = Some (CallResolve h, Unlocking a) ->
    go_step (mkShared w rs t gs) (mkShared w (rs ∖ {[i]}) t (<[i := (CallResolve h, Returned a)]> gs)).

Definition all_waiting (calls : list call) : Shared := mkShared None ∅ NewAliasState ((fun c => (c, Waiting)) <$> calls).

(** ** Linearizability *)

(** The calls that have taken effect, with their answers. *)
Definition answered (g : call * phase) : option answer := match g.2 with Unlocking a | Returned a => Some a | _ => None end.

(** The goroutines of [order], called one after the other, leave [t] and answer
    as they did. *)
Inductive in_sequence (gs : list (call * phase)) : list nat -> AliasState -> Prop :=
| seq_nil : in_sequence gs [] NewAliasState
| seq_snoc order t i c ph a t' : in_sequence gs order t -> gs !! i = Some (c, ph) -> run_call t c = (t', a) -> answered (c, ph) = Some a ->
    in_sequence gs (order ++ [i]) t'.

(** Whoever is in the critical section holds the lock, and nobody else does. *)
Definition holds (s : Shared) (i : nat) (c : call) : Prop := if is_register c then mu_writer s = Some i else i ∈ mu_readers s.
Record lock_ok (s : Shared) : Prop := {
  lk_section i c ph : goroutines s !! i = Some (c, ph) -> in_section ph = true <-> holds s i c;
  lk_writer i : mu_writer s = Some i -> exists c ph, goroutines s !! i = Some (c, ph) /\ is_register c = true;
  lk_readers i : i ∈ mu_readers s -> exists c ph, goroutines s !! i = Some (c, ph) /\ is_register c = false;
  lk_exclusive : is_Some (mu_writer s) -> mu_readers s = ∅;
  lk_checked i c : goroutines s !! i = Some (c, Checked) -> exists h o b, c = CallRegister h o b /\ register_check (table s) h = Ok tt
}.
Definition order_ok (s : Shared) (order : list nat) : Prop :=
  NoDup order /\ in_sequence (goroutines s) order (table s) /\ forall i g, goroutines s !! i = Some g -> is_Some (answered g) <-> i ∈ order.

Lemma in_sequence_insert gs order t i g : in_sequence gs order t ->
  (forall c ph, gs !! i = Some (c, ph) -> c = g.1 /\ (forall a, answered (c, ph) = Some a -> answered g = Some a)) -> in_sequence (<[i := g]> gs) order t.
Proof.
  intros Hs Hi. induction Hs as [|order t j c ph a t' _ IH Hj Hr Ha]; [constructor|].
  destruct (decide (j = i)) as [->|Hne].
  - destruct (Hi c ph Hj) as [Ec Ea]. destruct g as [c' ph']. cbn in Ec. subst c'. apply (seq_snoc _ order t i c ph' a t' IH); [|done|by apply Ea].
    apply list_lookup_insert_eq. by eapply lookup_lt_Some.
  - apply (seq_snoc _ order t j c ph a t' IH); [by rewrite list_lookup_insert_ne|done|done].
Qed.

(** A step that answers no call keeps the order; one that answers extends it. *)
Lemma order_same s order s' i c ph ph' : order_ok s order -> goroutines s !! i = Some (c, ph) -> table s' = table s ->
  goroutines s' = <[i := (c, ph')]> (goroutines s) -> answered (c, ph') = answered (c, ph) -> order_ok s' order.
Proof.
  intros (Hn & Hs & Ho) Hi Et Eg Ea. unfold order_ok. rewrite Et, Eg. split_and!; [done| |].
  - apply in_sequence_insert; [done|]. intros c' ph2 E. rewrite Hi in E. injection E as <- <-. split; [done|]. intros a Ha. by rewrite Ea.
  - intros j g Hj. destruct (decide (j = i)) as [->|Hne].
    + rewrite list_lookup_insert_eq in Hj by (by eapply lookup_lt_Some). injection Hj as <-. rewrite Ea. by apply Ho.
    + rewrite list_lookup_insert_ne in Hj by done. by apply Ho.
Qed.
Lemma order_snoc s order s' i c ph ph' a : order_ok s order -> goroutines s !! i = Some (c, ph) -> answered (c, ph) = None ->
  run_call (table s) c = (table s', a) -> goroutines s' = <[i := (c, ph')]> (goroutines s) -> answered (c, ph') = Some a -> order_ok s' (order ++ [i]).
Proof.
  intros (Hn & Hs & Ho) Hi Hnone Hr Eg Ea. unfold order_ok. rewrite Eg.
  assert (i ∉ order) as Hnot by (intros Hin; apply (Ho i _ Hi) in Hin as [? E]; congruence).
  assert (i < length (goroutines s))%nat as Hlt by by eapply lookup_lt_Some. split_and!.
  - apply NoDup_app. split_and!; [done| |apply NoDup_singleton]. intros x Hx ->%list_elem_of_singleton. done.
  - eapply seq_snoc; [|by apply list_lookup_insert_eq|exact Hr|done]. apply in_sequence_insert; [done|].
    intros c' ph2 E. rewrite Hi in E. injection E as <- <-. split; [done|]. intros a' Ha. congruence.
  - intros j g Hj. rewrite elem_of_app, list_elem_of_singleton. destruct (decide (j = i)) as [->|Hne].
    + rewrite list_lookup_insert_eq in Hj by done. injection Hj as <-. split; [by right|by rewrite Ea].
    + rewrite list_lookup_insert_ne in Hj by done. rewrite (Ho j g Hj). naive_solver.
Qed.

(** One goroutine moves. *)
Lemma lock_insert w rs t gs w' rs' t' i c ph ph' : lock_ok (mkShared w rs t gs) -> gs !! i = Some (c, ph) ->
  (in_section ph' = true <-> if is_register c then w' = Some i else i ∈ rs') -> (w' = Some i -> is_register c = true) -> (i ∈ rs' -> is_register c = false) ->
  (forall j, j <> i -> w = Some j <-> w' = Some j) -> (forall j, j <> i -> j ∈ rs <-> j ∈ rs') -> (is_Some w' -> rs' = ∅) ->
  (forall j h, j <> i -> gs !! j = Some (h, Checked) -> t' = t) ->
  (ph' = Checked -> exists h o b, c = CallRegister h o b /\ register_check t' h = Ok tt) ->
  lock_ok (mkShared w' rs' t' (<[i := (c, ph')]> gs)).
Proof.
  intros [Hsec Hwr Hrd _ Hchk] Hi Hph' Hwi Hri Hw Hrs Hrw Ht Hc'. unfold holds in *. cbn [goroutines mu_writer mu_readers table] in *.
  assert (forall j g, <[i := (c, ph')]> gs !! j = Some g <-> j = i /\ g = (c, ph') \/ j <> i /\ gs !! j = Some g) as Hl.
  { intros j g. rewrite list_lookup_insert_Some. apply lookup_lt_Some in Hi. naive_solver. }
  split; unfold holds; cbn [goroutines mu_writer mu_readers table].
  - intros j c2 ph2 [[-> [= -> ->]]|[Hne Hj]]%Hl; [done|]. rewrite (Hsec j c2 ph2 Hj). destruct (is_register c2); [by apply Hw|by apply Hrs].
  - intros j Hj. destruct (decide (j = i)) as [->|Hne]; [exists c, ph'; split; [apply Hl; by left|by apply Hwi]|].
    destruct (Hwr j) as (c2 & ph2 & Hj2 & E); [by apply Hw|]. exists c2, ph2. split; [apply Hl; by right|done].
  - intros j Hj. destruct (decide (j = i)) as [->|Hne]; [exists c, ph'; split; [apply Hl; by left|by apply Hri]|].
    destruct (Hrd j) as (c2 & ph2 & Hj2 & E); [by apply Hrs|]. exists c2, ph2. split; [apply Hl; by right|done].
  - done.
  - intros j c2 [[-> [= -> <-]]|[Hne Hj]]%Hl; [by apply Hc'|]. rewrite (Ht j c2 Hne Hj). by apply (Hchk j c2).
Qed.

(** Nobody else is in the critical section with a registration. *)
Lemma section_alone s i j h o b ph c ph2 : lock_ok s -> goroutines s !! i = Some (CallRegister h o b, ph) -> in_section ph = true ->
  goroutines s !! j = Some (c, ph2) -> in_section ph2 = true -> j = i.
Proof.
  intros Hok Hi Hph Hj Hph2. apply (lk_section _ Hok i _ _ Hi) in Hph. apply (lk_section _ Hok j _ _ Hj) in Hph2. unfold holds in *. cbn in Hph.
  destruct (is_register c); [congruence|]. rewrite (lk_exclusive _ Hok) in Hph2 by by rewrite Hph. set_solver.
Qed.

Lemma lock_step s s' : go_step s s' -> lock_ok s -> lock_ok s'.
Proof.
  intros Hst Hok. destruct Hst as [i h o b t gs Hi|i h rs t gs Hi|i h o b w rs t gs Hi|i h o b w rs t gs Hi|i h w rs t gs Hi|i h o b a w rs t gs Hi|i h a w rs t gs Hi];
    pose proof (lk_section _ Hok i _ _ Hi) as Hheld; pose proof (lk_exclusive _ Hok) as Hrw; pose proof (lk_readers _ Hok i) as Hrd;
    pose proof (lk_writer _ Hok i) as Hwr; unfold holds in *; cbn [in_section is_register goroutines mu_writer mu_readers] in *.
  - apply (lock_insert _ _ _ _ _ _ _ _ _ _ _ Hok Hi); try done; set_solver.
  - apply (lock_insert _ _ _ _ _ _ _ _ _ _ _ Hok Hi); try done; set_solver.
  - apply (lock_insert _ _ _ _ _ _ _ _ _ _ _ Hok Hi); try done; [by destruct (register_check t h)|naive_solver|].
    destruct (register_check t h) as [[]|] eqn:E; [|done]. intros _. by exists h, o, b.
  - apply (lock_insert _ _ _ _ _ _ _ _ _ _ _ Hok Hi); try done; first [naive_solver|intros j c Hne Hj; destruct Hne; by eapply section_alone].
  - apply (lock_insert _ _ _ _ _ _ _ _ _ _ _ Hok Hi); try done; naive_solver.
  - apply (lock_insert _ _ _ _ _ _ _ _ _ _ _ Hok Hi); try done; naive_solver.
  - apply (lock_insert _ _ _ _ _ _ _ _ _ _ _ Hok Hi); try done; first [set_solver|naive_solver|intros Hw; rewrite (Hrw Hw); set_solver].
Qed.

(** Every answer extends the order. *)
Lemma order_step s s' order : go_step s s' -> lock_ok s -> order_ok s order -> exists more, order_ok s' (order ++ more).
Proof.
  intros Hst Hok Ho. pose proof (lk_checked _ Hok) as Hchk.
  destruct Hst as [i h o b t gs Hi|i h rs t gs Hi|i h o b w rs t gs Hi|i h o b w rs t gs Hi|i h w rs t gs Hi|i h o b a w rs t gs Hi|i h a w rs t gs Hi].
  - exists []. rewrite app_nil_r. by eapply order_same.
  - exists []. rewrite app_nil_r. by eapply order_same.
  - destruct (register_check t h) as [[]|e] eqn:E; [exists []; rewrite app_nil_r; by eapply order_same|]. exists [i].
    eapply order_snoc; [done|exact Hi|done| |done|done]. cbn. unfold RegisterAlias. by rewrite E.
  - exists [i]. eapply order_snoc; [done|exact Hi|done| |done|done]. cbn. unfold RegisterAlias.
    destruct (Hchk i _ Hi) as (? & ? & ? & [= <- <- <-] & E). cbn in E. by rewrite E.
  - exists [i]. by eapply order_snoc.
  - exists []. rewrite app_nil_r. by eapply order_same.
  - exists []. rewrite app_nil_r. by eapply order_same.
Qed.

Lemma all_waiting_ok calls : lock_ok (all_waiting calls) /\ order_ok (all_waiting calls) [].
Proof.
  assert (forall i c ph, ((fun c => (c, Waiting)) <$> calls) !! i = Some (c, ph) -> ph = Waiting) as Hw.
  { intros i c ph. rewrite list_lookup_fmap. destruct (calls !! i); [by intros [= <- <-]|done]. }
  split; [split|split_and!]; unfold holds; cbn.
  - intros i c ph ->%Hw. destruct (is_register c); set_solver.
  - done.
  - set_solver.
  - done.
  - intros i c E%Hw. done.
  - constructor.
  - constructor.
  - intros i [c ph] ->%Hw. cbn. split; [by intros [? ?]|by intros ?%elem_of_nil].
Qed.

Lemma concurrent_inv s s' order : rtc go_step s s' -> lock_ok s -> order_ok s order -> lock_ok s' /\ exists more, order_ok s' (order ++ more).
Proof.
  intros Hr. revert order. induction Hr as [s|s1 s2 s3 Hst _ IH]; intros order Hl Ho; [split; [done|exists []; by rewrite app_nil_r]|].
  destruct (order_step s1 s2 order Hst Hl Ho) as [more Ho2]. destruct (IH _ (lock_step _ _ Hst Hl) Ho2) as (Hl3 & more2 & Ho3).
  split; [done|]. exists (more ++ more2). by rewrite app_assoc.
Qed.

(** A goroutine that has not returned, or another one, can move. *)
Lemma some_step s i c ph : lock_ok s -> goroutines s !! i = Some (c, ph) -> in_section ph = true -> exists s', go_step s s'.
Proof.
  intros Hok Hi Hph. destruct s as [w rs t gs], c as [h o b|h], ph as [| | |a|a]; cbn in Hi; try done; try by eexists; econstructor.
  by destruct (lk_checked _ Hok i _ Hi) as (? & ? & ? & ? & _).
Qed.
Lemma progress s i c ph : lock_ok s -> goroutines s !! i = Some (c, ph) -> (forall a, ph <> Returned a) -> exists s', go_step s s'.
Proof.
  intros Hok Hi Hph. destruct (in_section ph) eqn:E; [by eapply some_step|]. destruct ph as [| | |a|a]; try done; [|by destruct (Hph a)].
  destruct (mu_writer s) as [j|] eqn:Ew.
  - destruct (lk_writer _ Hok j Ew) as (c2 & ph2 & Hj & Hc2). eapply some_step; [done|exact Hj|]. apply (lk_section _ Hok j c2 ph2 Hj). unfold holds. by rewrite Hc2.
  - destruct (set_choose_or_empty (mu_readers s)) as [[j Hj]|Hempty].
    + destruct (lk_readers _ Hok j Hj) as (c2 & ph2 & Hj2 & Hc2). eapply some_step; [done|exact Hj2|]. apply (lk_section _ Hok j c2 ph2 Hj2). unfold holds. by rewrite Hc2.
    + apply leibniz_equiv in Hempty. destruct s as [w rs t gs]. cbn in Ew, Hempty, Hi. subst w rs. destruct c; by eexists; econstructor.
Qed.

(** ** Transactions over the table *)

Lemma RegisterAlias_keeps s h o b name r : alias_records s !! name = Some r -> alias_records (RegisterAlias s h o b).1 !! name = Some r.
Proof.
  intros Hr. unfold RegisterAlias. destruct (register_check s h) as [[]|] eqn:E; [|done]. apply reject_ok in E as [_ E]. apply reject_ok in E as [E _].
  apply bool_decide_eq_false in E. cbn. apply lookup_insert_Some. right. split; [|done]. intros En. destruct E. by rewrite En, Hr.
Qed.
Lemma ProcessTransaction_keeps p tx name r : alias_records (AliasTable p) !! name = Some r ->
  alias_records (AliasTable (ProcessTransaction p tx).1) !! name = Some r.
Proof.
  intros Hr. unfold ProcessTransaction. destruct (tx_Type tx =? TxTypeStandardTransfer); [by destruct (Transfer _ _ _ _)|].
  destruct (tx_Type tx =? TxTypeRegisterAlias).
  - pose proof (RegisterAlias_keeps (AliasTable p) (tx_Recipient tx) (tx_Sender tx) (CurrentBlock (AccountState p)) name r Hr) as Hk. by destruct (RegisterAlias _ _ _ _).
  - destruct (tx_Type tx =? TxTypeAliasTransfer); [|done]. destruct (ResolveAlias _ _); [by destruct (Transfer _ _ _ _)|done].
Qed.
Lemma ProcessAll_keeps p txs name r : alias_records (AliasTable p) !! name = Some r -> alias_records (AliasTable (ProcessAll p txs)) !! name = Some r.
Proof. revert p. induction txs as [|tx txs IH]; intros p Hr; [done|]. by apply IH, ProcessTransaction_keeps. Qed.
Lemma RegisterAlias_resolves s h o b s' : RegisterAlias s h o b = (s', Ok tt) -> alias_records s' !! normalized h = Some (mkAlias (normalized h) o b).
Proof. unfold RegisterAlias. destruct (register_check s h); [|done]. intros [= <-]. apply lookup_insert_eq. Qed.

(** ** Properties *)

(** C24: calls that run at the same time behave as if one came after the other.
    In every state that goroutines can reach with their lock, the calls that
    have been answered have an order in which, called alone, they give the same
    answers and leave the same table; calls answered later come later in it;
    nobody else is in the critical section when a record is written; and as
    long as a call has not returned, some goroutine can go on. *)
Theorem alias_calls_linearizable (calls : list call) (s s' : Shared) : rtc go_step (all_waiting calls) s -> rtc go_step s s' ->
  (exists order more, NoDup (order ++ more) /\ in_sequence (goroutines s) order (table s) /\ in_sequence (goroutines s') (order ++ more) (table s') /\
     (forall i c a, goroutines s !! i = Some (c, Returned a) -> i ∈ order) /\ (forall i c a, goroutines s' !! i = Some (c, Returned a) -> i ∈ order ++ more) /\
     (forall i c, goroutines s !! i = Some (c, Waiting) -> i ∉ order)) /\
  (forall i j c c2 ph, goroutines s !! i = Some (c, Checked) -> goroutines s !! j = Some (c2, ph) -> in_section ph = true -> j = i) /\
  (forall i c ph, goroutines s !! i = Some (c, ph) -> (forall a, ph <> Returned a) -> exists s2, go_step s s2).
Proof.
  intros Hr Hr'. destruct (all_waiting_ok calls) as [Hl0 Ho0]. destruct (concurrent_inv _ _ _ Hr Hl0 Ho0) as (Hl & order & Ho). cbn in Ho.
  destruct (concurrent_inv _ _ _ Hr' Hl Ho) as (_ & more & Ho'). split_and!.
  - exists order, more. pose proof Ho as (_ & Hs & Ha). pose proof Ho' as (Hn & Hs' & Ha'). split_and!; try done.
    + intros i c a Hi. apply (Ha i _ Hi). by eexists.
    + intros i c a Hi. apply (Ha' i _ Hi). by eexists.
    + intros i c Hi Hin. apply (Ha i _ Hi) in Hin as [? ?]. done.
  - intros i j c c2 ph Hi Hj Hph. destruct (lk_checked _ Hl i c Hi) as (h & o & b & -> & _). by eapply section_alone.
  - intros i c ph. by apply progress.
Qed.

(** C37: a handle belongs to whoever registered it first.  After a successful
    registration and any further transactions, a transfer to any spelling of
    the handle is the transfer to the registrant's address, with the same
    amount, and the lookup service gives that address. *)
Theorem alias_transfers_reach_owner (p p' : Processor A) (reg tx : AliasTx) (txs : list AliasTx) : tx_Type reg = TxTypeRegisterAlias ->
  ProcessTransaction p reg = (p', Ok tt) -> normalized (tx_Recipient tx) = normalized (tx_Recipient reg) -> tx_Recipient tx <> "" ->
  tx_Type tx = TxTypeAliasTransfer ->
  let q := ProcessAll p' txs in
  let direct := ProcessTransaction q (mkAliasTx TxTypeStandardTransfer (tx_Sender tx) (tx_Sender reg) (tx_Amount tx) (tx_Fee tx) (tx_Signature tx)) in
  (ProcessTransaction q tx).1 = direct.1 /\ is_ok (ProcessTransaction q tx).2 = is_ok direct.2 /\
  HandleResolveAlias (AliasTable q) (tx_Recipient tx) = JsonObject [("address", tx_Sender reg); ("handle", tx_Recipient tx)].
Proof.
  intros Ereg Hp Hn Hne Etx q direct. unfold ProcessTransaction in Hp. rewrite Ereg in Hp. cbn in Hp.
  destruct (RegisterAlias _ _ _ _) as [s r] eqn:Er. injection Hp as <- ->. apply RegisterAlias_resolves in Er.
  apply (ProcessAll_keeps (mkProcessor (AccountState p) s) txs) in Er. fold q in Er.
  assert (ResolveAlias (AliasTable q) (tx_Recipient tx) = Ok (tx_Sender reg)) as Hres by (unfold ResolveAlias; by rewrite Hn, Er).
  split_and!; [| |unfold HandleResolveAlias; rewrite bool_decide_eq_false_2 by done; by rewrite Hres].
  all: unfold direct, ProcessTransaction; rewrite Etx; cbn [tx_Type tx_Sender tx_Recipient tx_Amount tx_Fee]; cbn -[u64 Transfer];
    rewrite Hres; destruct (Transfer _ _ _ _) as [acc [[]|e]]; done.
Qed.
End Service.

(** ** Examples *)

Module AliasExample.

Definition calls : list call := [CallRegister "@Alice" "0xA" 5; CallRegister "alice" "0xB" 6; CallResolve "@ALICE"].

(** The first registration, then the other two calls. *)
Definition first : Shared :=
  mkShared None ∅ (register_write id NewAliasState "@Alice" "0xA" 5)
    [(CallRegister "@Alice" "0xA" 5, Returned (Registered (Ok tt))); (CallRegister "alice" "0xB" 6, Waiting); (CallResolve "@ALICE", Waiting)].
Definition last : Shared :=
  mkShared None ∅ (register_write id NewAliasState "@Alice" "0xA" 5)
    [(CallRegister "@Alice" "0xA" 5, Returned (Registered (Ok tt)));
     (CallRegister "alice" "0xB" 6, Returned (Registered (Err "alias already registered")));
     (CallResolve "@ALICE", Returned (Resolved (Ok "0xA")))].

Lemma to_first : rtc (go_step id) (all_waiting calls) first.
Proof.
  eapply rtc_l; [apply (go_Lock id 0); reflexivity|]. eapply rtc_l; [eapply (go_check id 0); reflexivity|].
  eapply rtc_l; [eapply (go_write id 0); reflexivity|]. eapply rtc_l; [eapply (go_Unlock id 0); reflexivity|]. apply rtc_refl.
Qed.
Lemma to_last : rtc (go_step id) first last.
Proof.
  eapply rtc_l; [apply (go_RLock id 2); reflexivity|]. eapply rtc_l; [eapply (go_read id 2); reflexivity|].
  eapply rtc_l; [eapply (go_RUnlock id 2); reflexivity|]. eapply rtc_l; [apply (go_Lock id 1); reflexivity|].
  eapply rtc_l; [eapply (go_check id 1); reflexivity|]. eapply rtc_l; [eapply (go_Unlock id 1); reflexivity|]. apply rtc_refl.
Qed.

(** Balances by address, and the block. *)
Definition Accounts : Type := gmap string Z * Z.
#[export] Instance accounts : AccountOps Accounts := {|
  Transfer a from to amount :=
    let balance x := default 0 (a.1 !! x) in
    if balance from <? amount then (a, Err "insufficient balance")
    else let m := <[from := balance from - amount]> a.1 in ((<[to := default 0 (m !! to) + amount]> m, a.2), Ok tt);
  CurrentBlock a := a.2
|}.
Definition start : Processor Accounts := mkProcessor Accounts ({["0xC" := 100]}, 7) NewAliasState.
Definition register : AliasTx := mkAliasTx TxTypeRegisterAlias "0xA" "@Alice" 0 0 [].
Definition again : AliasTx := mkAliasTx TxTypeRegisterAlias "0xB" "alice" 0 0 [].
Definition pay : AliasTx := mkAliasTx TxTypeAliasTransfer "0xC" "@ALICE" 40 2 [].

End AliasExample.
#[local] Existing Instance AliasExample.accounts.

Lemma alias_calls_linearizable_witness :
  exists order more, NoDup (order ++ more) /\ in_sequence id (goroutines AliasExample.last) (order ++ more) (table AliasExample.last) /\ 0%nat ∈ order /\ 1%nat ∉ order.
Proof.
  destruct (alias_calls_linearizable id AliasExample.calls AliasExample.first AliasExample.last AliasExample.to_first AliasExample.to_last)
    as ((order & more & Hn & _ & Hs & Ho & _ & Hw) & _).
  exists order, more. split; [exact Hn|]. split; [exact Hs|]. split; [eapply Ho; reflexivity|eapply Hw; reflexivity].
Defined.

Lemma alias_transfers_reach_owner_witness :
  let q := ProcessAll id (ProcessTransaction id AliasExample.start AliasExample.register).1 [AliasExample.again] in
  HandleResolveAlias id (AliasTable _ q) "@ALICE" = JsonObject [("address", "0xA"); ("handle", "@ALICE")] /\
  (AccountState _ (ProcessTransaction id q AliasExample.pay).1).1 !! "0xA" = Some 42.
Proof.
  destruct (alias_transfers_reach_owner id AliasExample.start (ProcessTransaction id AliasExample.start AliasExample.register).1
              AliasExample.register AliasExample.pay [AliasExample.again]) as (_ & _ & E);
    [reflexivity|reflexivity|reflexivity|discriminate|reflexivity|]. split; [exact E|vm_compute; reflexivity].
Defined.
