(* ===== verification/Serialize.v ===== *)
(** * Serialization ([src/src/serialize.h], [CDataStream] of [src/src/streams.h])

    Writers are functions to byte lists ([os.write] appends).  Readers are
    computations over the unread bytes of the stream which may throw; a throw
    leaves the stream where the failing [read] found it, because the callers
    that catch go on reading from there. *)

From S2P Require Import Prelude.
Open Scope Z_scope.

(** ** Readers *)

Definition Reader (A : Type) : Type := bytes -> result A * bytes.

Definition rret {A} (a : A) : Reader A := fun s => (Ok a, s).
Definition rthrow {A} (e : string) : Reader A := fun s => (Err e, s).
Definition rbind {A B} (m : Reader A) (f : A -> Reader B) : Reader B := fun s =>
  match m s with
  | (Ok a, s') => f a s'
  | (Err e, s') => (Err e, s')
  end.
(** [try { m } catch (const std::exception&) { h }] *)
Definition rcatch {A} (m : Reader A) (h : Reader A) : Reader A := fun s =>
  match m s with
  | (Ok a, s') => (Ok a, s')
  | (Err _, s') => h s'
  end.

Declare Scope reader_scope.
Delimit Scope reader_scope with reader.
Notation "x <-- m ;; k" := (rbind m (fun x => k))
  (at level 100, m at next level, right associativity) : reader_scope.
Open Scope reader_scope.

Definition end_of_data : string := "CDataStream::read(): end of data".

(** [s.read(p, n)] on the unread bytes. *)
Definition read (n : Z) : Reader bytes := fun s =>
  if n =? 0 then (Ok [], s)
  else if Z.of_nat (length s) <? n then (Err end_of_data, s)
  else (Ok (take (Z.to_nat n) s), drop (Z.to_nat n) s).

(** ** [CDataStream] with its read position *)

Record CDataStream := mkStream { vch : bytes; nReadPos : Z }.

Definition stream_rest (ds : CDataStream) : bytes := drop (Z.to_nat (nReadPos ds)) (vch ds).
Definition stream_size (ds : CDataStream) : Z := Z.of_nat (length (vch ds)) - nReadPos ds.

Definition stream_read (ds : CDataStream) (nSize : Z) : result bytes * CDataStream :=
  if nSize =? 0 then (Ok [], ds)
  else
    let nReadPosNext := u32 (nReadPos ds + nSize) in
    let size := Z.of_nat (length (vch ds)) in
    if size <=? nReadPosNext then
      if size <? nReadPosNext then (Err end_of_data, ds)
      else (Ok (take (Z.to_nat nSize) (stream_rest ds)), mkStream [] 0)
    else (Ok (take (Z.to_nat nSize) (stream_rest ds)), mkStream (vch ds) nReadPosNext).

Definition stream_write (ds : CDataStream) (bs : bytes) : CDataStream :=
  mkStream (vch ds ++ bs) (nReadPos ds).

(** ** Fixed-width fields *)

Definition ser_writedata8 (obj : Z) : bytes := le_bytes 1 obj.
Definition ser_writedata16 (obj : Z) : bytes := le_bytes 2 obj.
Definition ser_writedata32 (obj : Z) : bytes := le_bytes 4 obj.
Definition ser_writedata64 (obj : Z) : bytes := le_bytes 8 obj.

Definition ser_readdata (n : Z) : Reader Z := bs <-- read n ;; rret (le_value bs).
Definition ser_readdata8 : Reader Z := ser_readdata 1.
Definition ser_readdata16 : Reader Z := ser_readdata 2.
Definition ser_readdata32 : Reader Z := ser_readdata 4.
Definition ser_readdata64 : Reader Z := ser_readdata 8.

(** ** Compact sizes *)

Definition MAX_SIZE : Z := 33554432.

Definition GetSizeOfCompactSize (nSize : Z) : Z :=
  if nSize <? 253 then 1
  else if nSize <=? 65535 then 1 + 2
  else if nSize <=? 4294967295 then 1 + 4
  else 1 + 8.

Definition WriteCompactSize (nSize : Z) : bytes :=
  if nSize <? 253 then ser_writedata8 nSize
  else if nSize <=? 65535 then ser_writedata8 253 ++ ser_writedata16 nSize
  else if nSize <=? 4294967295 then ser_writedata8 254 ++ ser_writedata32 nSize
  else ser_writedata8 255 ++ ser_writedata64 nSize.

Definition non_canonical : string := "non-canonical ReadCompactSize()".

Definition ReadCompactSize : Reader Z :=
  chSize <-- ser_readdata8 ;;
  nSizeRet <--
    (if chSize <? 253 then rret chSize
     else if chSize =? 253 then
       n <-- ser_readdata16 ;; if n <? 253 then rthrow non_canonical else rret n
     else if chSize =? 254 then
       n <-- ser_readdata32 ;; if n <? 65536 then rthrow non_canonical else rret n
     else
       n <-- ser_readdata64 ;; if n <? 4294967296 then rthrow non_canonical else rret n) ;;
  if MAX_SIZE <? nSizeRet then rthrow "ReadCompactSize(): size too large" else rret nSizeRet.

(** ** Variable-length integers *)

(** [GetSizeOfVarInt], with fuel for the ten digits of a 64-bit value. *)
Fixpoint size_of_varint (fuel : nat) (n : Z) : Z :=
  match fuel with
  | O => 0
  | S fuel' => if n <=? 127 then 1 else 1 + size_of_varint fuel' (Z.shiftr n 7 - 1)
  end.
Definition GetSizeOfVarInt (n : Z) : Z := size_of_varint 10 n.

(** The array [tmp] the loop of [WriteVarInt] fills, from [tmp[0]] on; [len0]
    says whether [len] is still zero. *)
Fixpoint varint_tmp (fuel : nat) (n : Z) (len0 : bool) : bytes :=
  match fuel with
  | O => []
  | S fuel' =>
      u8 (Z.lor (Z.land n 127) (if len0 then 0 else 128)) ::
      (if n <=? 127 then [] else varint_tmp fuel' (Z.shiftr n 7 - 1) false)
  end.
Definition WriteVarInt (n : Z) : bytes := reverse (varint_tmp 10 n true).

(** [wrap] is the conversion to the integer type [I]. *)
Fixpoint varint_loop (wrap : Z -> Z) (s : bytes) (n : Z) : result Z * bytes :=
  match s with
  | [] => (Err end_of_data, [])
  | ch :: s' =>
      let n := wrap (Z.lor (Z.shiftl n 7) (Z.land (ub ch) 127)) in
      if Z.land (ub ch) 128 =? 0 then (Ok n, s') else varint_loop wrap s' (wrap (n + 1))
  end.
Definition ReadVarInt (wrap : Z -> Z) : Reader Z := fun s => varint_loop wrap s 0.

(** ** The [Serialize]/[Unserialize] overloads *)

Class Serializable (A : Type) := {
  Serialize : A -> bytes;
  Unserialize : Reader A
}.

(** The contract between a type and its stream format, on the values [wf]. *)
Class SerializeOk (A : Type) {S : Serializable A} (wf : A -> Prop) : Prop :=
  unserialize_serialize : forall a rest, wf a -> Unserialize (Serialize a ++ rest) = (Ok a, rest).

#[export] Instance Serializable_bool : Serializable bool := {
  Serialize a := ser_writedata8 (if a then 1 else 0);
  Unserialize := f <-- ser_readdata8 ;; rret (negb (f =? 0))
}.

(** [int32_t]/[uint32_t] and the 64-bit pair share their bytes; the reader
    names the type it assigns to. *)
Definition Serialize_int32 (a : Z) : bytes := ser_writedata32 (u32 a).
Definition Unserialize_int32 : Reader Z := a <-- ser_readdata32 ;; rret (i32 a).
Definition Serialize_uint32 (a : Z) : bytes := ser_writedata32 a.
Definition Unserialize_uint32 : Reader Z := ser_readdata32.
Definition Serialize_int64 (a : Z) : bytes := ser_writedata64 (u64 a).
Definition Unserialize_int64 : Reader Z := a <-- ser_readdata64 ;; rret (i64 a).

(** [base_blob] writes its bytes; a [uint256]/[uint160] is the little-endian
    number of those bytes. *)
Definition Serialize_blob (width : nat) (a : Z) : bytes := le_bytes width a.
Definition Unserialize_blob (width : nat) : Reader Z := ser_readdata (Z.of_nat width).

#[export] Instance Serializable_string : Serializable string := {
  Serialize str := WriteCompactSize (Z.of_nat (String.length str)) ++ bytes_of_string str;
  Unserialize := n <-- ReadCompactSize ;; bs <-- read (u32 n) ;; rret (string_of_bytes bs)
}.

(** The block-wise loop of [Unserialize_impl] for vectors of [unsigned char]. *)
Fixpoint read_blocks (fuel : nat) (remaining : Z) : Reader bytes :=
  match fuel with
  | O => rret []
  | S fuel' =>
      if remaining <=? 0 then rret []
      else
        let blk := Z.min remaining (1 + 4999999) in
        bs <-- read blk ;; rest <-- read_blocks fuel' (remaining - blk) ;; rret (bs ++ rest)
  end.

#[export] Instance Serializable_bytes : Serializable bytes := {
  Serialize v := WriteCompactSize (Z.of_nat (length v)) ++ v;
  Unserialize := n <-- ReadCompactSize ;; read_blocks (S (Z.to_nat (u32 n / 5000000))) (u32 n)
}.

Fixpoint unserialize_n {A} (r : Reader A) (n : nat) : Reader (list A) :=
  match n with
  | O => rret []
  | S n' => a <-- r ;; l <-- unserialize_n r n' ;; rret (a :: l)
  end.

Definition Serialize_vector {A} `{Serializable A} (v : list A) : bytes :=
  WriteCompactSize (Z.of_nat (length v)) ++ concat (Serialize <$> v).
Definition Unserialize_vector {A} `{Serializable A} : Reader (list A) :=
  n <-- ReadCompactSize ;; unserialize_n Unserialize (Z.to_nat (u32 n)).

Definition Serialize_pair {A B} `{Serializable A} `{Serializable B} (p : A * B) : bytes :=
  Serialize p.1 ++ Serialize p.2.
Definition Unserialize_pair {A B} `{Serializable A} `{Serializable B} : Reader (A * B) :=
  a <-- Unserialize ;; b <-- Unserialize ;; rret (a, b).

Example varint_ex : WriteVarInt 65535 = [x82; xfe; x7f].
Proof. reflexivity. Qed.
Example compact_ex : ReadCompactSize (WriteCompactSize 70000) = (Ok 70000, []).
Proof. vm_compute. reflexivity. Qed.

(** ** Lemmas on readers *)

Lemma read_app n a rest :
  n = Z.of_nat (length a) -> read n (a ++ rest) = (Ok a, rest).
Proof.
  intros ->. unfold read. destruct (Z.eqb_spec (Z.of_nat (length a)) 0) as [E|E].
  - destruct a; [done|simpl in E; lia].
  - rewrite length_app. destruct (Z.ltb_spec (Z.of_nat (length a + length rest)) (Z.of_nat (length a))); [lia|].
    rewrite Nat2Z.id, take_app_length, drop_app_length. done.
Qed.

Lemma rbind_Ok {A B} (m : Reader A) (f : A -> Reader B) s a s' :
  m s = (Ok a, s') -> rbind m f s = f a s'.
Proof. intros H. unfold rbind. by rewrite H. Qed.

Lemma ser_readdata_app n k z rest :
  k = Z.of_nat n -> 0 <= z < 256 ^ Z.of_nat n -> ser_readdata k (le_bytes n z ++ rest) = (Ok z, rest).
Proof.
  intros -> Hz. unfold ser_readdata.
  rewrite (rbind_Ok _ _ _ (le_bytes n z) rest) by (apply read_app; by rewrite length_le_bytes).
  unfold rret. by rewrite le_value_bytes_id.
Qed.

Lemma ReadCompactSize_app n rest :
  0 <= n <= MAX_SIZE -> ReadCompactSize (WriteCompactSize n ++ rest) = (Ok n, rest).
Proof.
  unfold MAX_SIZE. intros Hn. unfold ReadCompactSize, WriteCompactSize, ser_writedata8, ser_writedata16,
    ser_writedata32, ser_writedata64, ser_readdata8, ser_readdata16, ser_readdata32.
  destruct (Z.ltb_spec n 253); [|destruct (Z.leb_spec n 65535); [|destruct (Z.leb_spec n 4294967295); [|lia]]].
  - rewrite (rbind_Ok _ _ _ n rest) by (apply ser_readdata_app; lia).
    rewrite (proj2 (Z.ltb_lt n 253)) by lia. unfold rbind, rret. split_ifs; (done || unfold MAX_SIZE in *; lia).
  - rewrite <- app_assoc. rewrite (rbind_Ok _ _ _ 253 (le_bytes 2 n ++ rest)) by (apply ser_readdata_app; lia).
    cbn [Z.ltb Z.eqb Z.compare Pos.compare Pos.compare_cont Pos.eqb].
    rewrite (rbind_Ok _ _ _ n rest).
    2:{ rewrite (rbind_Ok _ _ _ n rest) by (apply ser_readdata_app; lia). split_ifs; [lia|done]. }
    split_ifs; [unfold MAX_SIZE in *; lia|done].
  - rewrite <- app_assoc. rewrite (rbind_Ok _ _ _ 254 (le_bytes 4 n ++ rest)) by (apply ser_readdata_app; lia).
    cbn [Z.ltb Z.eqb Z.compare Pos.compare Pos.compare_cont Pos.eqb].
    rewrite (rbind_Ok _ _ _ n rest).
    2:{ rewrite (rbind_Ok _ _ _ n rest) by (apply ser_readdata_app; lia). split_ifs; [lia|done]. }
    split_ifs; [unfold MAX_SIZE in *; lia|done].
Qed.

Lemma read_inv n s a rest :
  0 <= n -> read n s = (Ok a, rest) -> s = a ++ rest /\ Z.of_nat (length a) = n.
Proof.
  intros Hn. unfold read. destruct (Z.eqb_spec n 0) as [->|]; [by intros [= <- <-]|].
  destruct (Z.ltb_spec (Z.of_nat (length s)) n); [done|]. intros [= <- <-].
  split; [by rewrite take_drop|]. rewrite length_take. lia.
Qed.

Lemma rbind_Ok_inv {A B} (m : Reader A) (f : A -> Reader B) s b s'' :
  rbind m f s = (Ok b, s'') -> exists a s', m s = (Ok a, s') /\ f a s' = (Ok b, s'').
Proof. unfold rbind. destruct (m s) as [[a|e] s'] eqn:E; [eauto|done]. Qed.

Lemma ser_readdata_inv n k s z rest :
  k = Z.of_nat n -> ser_readdata k s = (Ok z, rest) ->
  s = le_bytes n z ++ rest /\ 0 <= z < 256 ^ Z.of_nat n.
Proof.
  intros ->. unfold ser_readdata. intros (a & s' & Hr & [= <- <-])%rbind_Ok_inv.
  apply read_inv in Hr as [-> Hl]; [|lia]. apply Nat2Z.inj in Hl. subst n.
  rewrite le_bytes_value. split; [done|]. apply le_value_range.
Qed.

Lemma ReadCompactSize_inv s n rest :
  ReadCompactSize s = (Ok n, rest) -> s = WriteCompactSize n ++ rest /\ 0 <= n <= MAX_SIZE.
Proof.
  unfold ReadCompactSize, ser_readdata8, ser_readdata16, ser_readdata32, ser_readdata64.
  intros (ch & s1 & H1 & H)%rbind_Ok_inv. apply (ser_readdata_inv 1) in H1 as [-> Hch]; [|done].
  apply rbind_Ok_inv in H as (m & s2 & H2 & H3).
  destruct (Z.ltb_spec MAX_SIZE m) as [|Hm]; [done|]. injection H3 as -> ->. unfold MAX_SIZE in *.
  unfold WriteCompactSize, ser_writedata8, ser_writedata16, ser_writedata32, ser_writedata64.
  destruct (Z.ltb_spec ch 253); [injection H2 as -> ->; split; [split_ifs; (done || lia)|lia]|].
  destruct (Z.eqb_spec ch 253) as [->|]; [|destruct (Z.eqb_spec ch 254) as [->|]];
    apply rbind_Ok_inv in H2 as (k & s3 & H2 & H4).
  - apply (ser_readdata_inv 2) in H2 as [-> Hk]; [|done].
    destruct (Z.ltb_spec k 253); [done|]. injection H4 as -> ->. split; [split_ifs; (done || lia)|lia].
  - apply (ser_readdata_inv 4) in H2 as [-> Hk]; [|done].
    destruct (Z.ltb_spec k 65536); [done|]. injection H4 as -> ->. split; [split_ifs; (done || lia)|lia].
  - destruct (Z.ltb_spec k 4294967296); [done|]. injection H4 as -> ->. lia.
Qed.

(** ** Lemmas on variable-length integers *)

Section VarInt.
Context (wrap : Z -> Z) (bound : Z).
Context (wrap_id : forall z, 0 <= z < bound -> wrap z = z).

Lemma low7_digit n flag :
  0 <= n -> (flag = 0 \/ flag = 128) ->
  ub (u8 (Z.lor (Z.land n 127) flag)) = n mod 128 + flag.
Proof.
  intros Hn Hf. change 127 with (Z.ones 7). rewrite Z.land_ones by lia. change (2 ^ 7) with 128.
  pose proof (Z.mod_pos_bound n 128 ltac:(lia)) as Hm.
  rewrite ub_u8. destruct Hf as [-> | ->].
  - rewrite Z.lor_0_r, Z.add_0_r. apply Z.mod_small. lia.
  - rewrite Z.lor_comm. pose proof (lor_add_low 1 (n mod 128) 7 ltac:(lia) ltac:(lia)) as E.
    change (1 * 2 ^ 7) with 128 in E. rewrite E, Z.mod_small; lia.
Qed.

Lemma digit_low7 n flag :
  0 <= n -> (flag = 0 \/ flag = 128) -> Z.land (n mod 128 + flag) 127 = n mod 128.
Proof.
  intros Hn Hf. change 127 with (Z.ones 7). rewrite Z.land_ones by lia. change (2 ^ 7) with 128.
  pose proof (Z.mod_pos_bound n 128 ltac:(lia)).
  destruct Hf as [-> | ->]; [rewrite Z.add_0_r|rewrite <- (Z.mul_1_l 128) at 2; rewrite Z_mod_plus_full];
    apply Z.mod_small; lia.
Qed.

Lemma digit_flag n flag :
  0 <= n -> (flag = 0 \/ flag = 128) -> Z.land (n mod 128 + flag) 128 = flag.
Proof.
  intros Hn Hf. pose proof (Z.mod_pos_bound n 128 ltac:(lia)) as Hm.
  assert (Z.testbit (n mod 128 + flag) 7 = negb (flag =? 0)) as Ht.
  { destruct Hf as [-> | ->]; cbn [Z.eqb negb].
    - apply (testbit_small _ 7); lia.
    - apply Z.testbit_true; [lia|]. change (2 ^ 7) with 128.
      rewrite <- (Z.mul_1_l 128) at 2. by rewrite Z.div_add, Z.div_small by lia. }
  change 128 with (2 ^ 7). apply Z.bits_inj'. intros i Hi.
  rewrite Z.land_spec, Z.pow2_bits_eqb by lia. destruct (Z.eqb_spec 7 i) as [<-|].
  - rewrite andb_true_r. etrans; [exact Ht|]. destruct Hf as [-> | ->]; reflexivity.
  - rewrite andb_false_r. destruct Hf as [-> | ->]; [by rewrite Z.bits_0|].
    symmetry. change 128 with (2 ^ 7). rewrite Z.pow2_bits_eqb by lia. by apply Z.eqb_neq.
Qed.

Lemma varint_step acc n flag s :
  0 <= acc -> (flag = 0 \/ flag = 128) -> 0 <= n -> acc * 128 + n mod 128 < bound ->
  varint_loop wrap (u8 (Z.lor (Z.land n 127) flag) :: s) acc
  = if flag =? 0 then (Ok (acc * 128 + n mod 128), s)
    else varint_loop wrap s (wrap (acc * 128 + n mod 128 + 1)).
Proof.
  intros Ha Hf Hn Hb. cbn [varint_loop]. rewrite low7_digit, digit_low7, digit_flag by done.
  pose proof (Z.mod_pos_bound n 128 ltac:(lia)).
  assert (Z.lor (Z.shiftl acc 7) (n mod 128) = acc * 128 + n mod 128) as ->.
  { rewrite Z.shiftl_mul_pow2 by lia. by rewrite lor_add_low by lia. }
  rewrite wrap_id by lia. done.
Qed.

Lemma varint_flagged fuel n s :
  (0 < fuel)%nat -> 0 <= n -> n + 1 < bound -> n < 128 ^ Z.of_nat fuel ->
  varint_loop wrap (reverse (varint_tmp fuel n false) ++ s) 0 = varint_loop wrap s (n + 1).
Proof.
  revert n s. induction fuel as [|fuel IH]; intros n s H0 Hn Hb Hf; [lia|].
  rewrite Nat2Z.inj_succ, Z.pow_succ_r in Hf by lia.
  cbn [varint_tmp]. rewrite reverse_cons, <- app_assoc. cbn [app].
  pose proof (Z.div_mod n 128 ltac:(lia)) as Hdm. pose proof (Z.mod_pos_bound n 128 ltac:(lia)) as Hm.
  destruct (Z.leb_spec n 127).
  - rewrite reverse_nil. cbn [app]. rewrite varint_step by (lia || auto).
    cbn [Z.eqb]. rewrite Z.mod_small by lia. rewrite wrap_id by lia. done.
  - rewrite Z.shiftr_div_pow2 by lia. change (2 ^ 7) with 128.
    assert (n / 128 < 128 ^ Z.of_nat fuel) by (apply Z.div_lt_upper_bound; lia).
    assert (1 <= n / 128) by (apply Z.div_le_lower_bound; lia).
    assert (0 < fuel)%nat by (destruct fuel; [simpl in *; lia|lia]).
    rewrite IH by lia. rewrite Z.sub_add. rewrite varint_step by (lia || auto).
    cbn [Z.eqb]. rewrite wrap_id by lia. f_equal. lia.
Qed.

Lemma varint_roundtrip n s :
  0 <= n -> n < bound -> n < 2 ^ 64 ->
  ReadVarInt wrap (WriteVarInt n ++ s) = (Ok n, s).
Proof.
  intros Hn Hb H64. unfold ReadVarInt, WriteVarInt. cbn [varint_tmp].
  rewrite reverse_cons, <- app_assoc. cbn [app].
  pose proof (Z.div_mod n 128 ltac:(lia)) as Hdm. pose proof (Z.mod_pos_bound n 128 ltac:(lia)) as Hm.
  destruct (Z.leb_spec n 127).
  - rewrite reverse_nil. cbn [app]. rewrite varint_step by (lia || auto). cbn [Z.eqb].
    rewrite Z.mod_small by lia. done.
  - rewrite Z.shiftr_div_pow2 by lia. change (2 ^ 7) with 128.
    assert (1 <= n / 128) by (apply Z.div_le_lower_bound; lia).
    change (varint_loop wrap (reverse (varint_tmp 9 (n / 128 - 1) false) ++
      u8 (Z.lor (Z.land n 127) 0) :: s) 0 = (Ok n, s)).
    rewrite varint_flagged by (lia || (assert (n / 128 < 2 ^ 57) by (apply Z.div_lt_upper_bound; lia); lia)).
    rewrite Z.sub_add, varint_step by (lia || auto). cbn [Z.eqb]. do 2 f_equal. lia.
Qed.

End VarInt.

Lemma length_varint_tmp fuel n b : Z.of_nat (length (varint_tmp fuel n b)) = size_of_varint fuel n.
Proof.
  revert n b. induction fuel as [|fuel IH]; intros n b; [done|]. cbn [varint_tmp size_of_varint length].
  destruct (n <=? 127); [done|]. rewrite <- (IH _ false). lia.
Qed.

(** ** The instances meet the contract *)

Lemma read_blocks_app fuel a rest :
  Z.of_nat (length a) <= 5000000 * Z.of_nat fuel ->
  read_blocks fuel (Z.of_nat (length a)) (a ++ rest) = (Ok a, rest).
Proof.
  revert a. induction fuel as [|fuel IH]; intros a Hf; [destruct a; [done|simpl in Hf; lia]|].
  cbn [read_blocks].
  destruct (Z.leb_spec (Z.of_nat (length a)) 0) as [H0|H0].
  - destruct a; [done|simpl in H0; lia].
  - set (blk := Z.min (Z.of_nat (length a)) (1 + 4999999)).
    replace (a ++ rest) with (take (Z.to_nat blk) a ++ (drop (Z.to_nat blk) a ++ rest))
      by (by rewrite app_assoc, take_drop).
    rewrite (rbind_Ok _ _ _ (take (Z.to_nat blk) a) (drop (Z.to_nat blk) a ++ rest)).
    2:{ apply read_app. rewrite length_take. lia. }
    replace (Z.of_nat (length a) - blk) with (Z.of_nat (length (drop (Z.to_nat blk) a)))
      by (rewrite length_drop; lia).
    rewrite (rbind_Ok _ _ _ (drop (Z.to_nat blk) a) rest).
    + unfold rret. by rewrite take_drop.
    + apply IH. rewrite length_drop. lia.
Qed.

Lemma u32_size n : 0 <= n <= MAX_SIZE -> u32 n = n.
Proof. intros H. apply u32_id. unfold in_u32, MAX_SIZE in *. lia. Qed.

#[export] Instance SerializeOk_bool : SerializeOk bool (fun _ => True).
Proof.
  intros a rest _. cbn [Serialize Unserialize Serializable_bool]. unfold ser_writedata8, ser_readdata8.
  rewrite (rbind_Ok _ _ _ (if a then 1 else 0) rest) by (apply ser_readdata_app; destruct a; lia).
  by destruct a.
Qed.

#[export] Instance SerializeOk_string :
  SerializeOk string (fun str => Z.of_nat (String.length str) <= MAX_SIZE).
Proof.
  intros a rest H. cbn [Serialize Unserialize Serializable_string]. rewrite <- app_assoc.
  rewrite (rbind_Ok _ _ _ (Z.of_nat (String.length a)) (bytes_of_string a ++ rest))
    by (apply ReadCompactSize_app; lia).
  rewrite u32_size by lia. rewrite (rbind_Ok _ _ _ (bytes_of_string a) rest).
  - unfold rret. by rewrite string_of_bytes_of_string.
  - apply read_app. by rewrite length_bytes_of_string.
Qed.

#[export] Instance SerializeOk_bytes :
  SerializeOk bytes (fun v => Z.of_nat (length v) <= MAX_SIZE).
Proof.
  intros a rest H. cbn [Serialize Unserialize Serializable_bytes]. rewrite <- app_assoc.
  rewrite (rbind_Ok _ _ _ (Z.of_nat (length a)) (a ++ rest)) by (apply ReadCompactSize_app; lia).
  rewrite u32_size by lia. apply read_blocks_app.
  pose proof (Z.mul_succ_div_gt (Z.of_nat (length a)) 5000000 ltac:(lia)).
  assert (0 <= Z.of_nat (length a) / 5000000) by (apply Z.div_pos; lia). lia.
Qed.

Lemma Unserialize_int32_app z rest :
  in_i32 z -> Unserialize_int32 (Serialize_int32 z ++ rest) = (Ok z, rest).
Proof.
  unfold in_i32, Unserialize_int32, Serialize_int32, ser_readdata32, ser_writedata32. intros H.
  pose proof (Z.mod_pos_bound z (2 ^ 32) ltac:(lia)).
  rewrite (rbind_Ok _ _ _ (u32 z) rest) by (apply ser_readdata_app; [done|unfold u32, wrap_u; lia]).
  unfold rret, i32, wrap_s, u32, wrap_u. do 2 f_equal.
  rewrite Z.add_mod_idemp_l by lia. change (32 - 1) with 31. rewrite Z.mod_small; lia.
Qed.

Lemma Unserialize_int64_app z rest :
  in_i64 z -> Unserialize_int64 (Serialize_int64 z ++ rest) = (Ok z, rest).
Proof.
  unfold in_i64, Unserialize_int64, Serialize_int64, ser_readdata64, ser_writedata64. intros H.
  pose proof (Z.mod_pos_bound z (2 ^ 64) ltac:(lia)).
  rewrite (rbind_Ok _ _ _ (u64 z) rest) by (apply ser_readdata_app; [done|unfold u64, wrap_u; lia]).
  unfold rret, i64, wrap_s, u64, wrap_u. do 2 f_equal.
  rewrite Z.add_mod_idemp_l by lia. change (64 - 1) with 63. rewrite Z.mod_small; lia.
Qed.

Lemma Unserialize_blob_app w z rest :
  0 <= z < 256 ^ Z.of_nat w -> Unserialize_blob w (Serialize_blob w z ++ rest) = (Ok z, rest).
Proof. intros H. by apply ser_readdata_app. Qed.

Lemma unserialize_n_app {A} `{SA : Serializable A} (wf : A -> Prop) {OK : SerializeOk A wf} (l : list A) rest :
  Forall wf l -> unserialize_n Unserialize (length l) (concat (Serialize <$> l) ++ rest) = (Ok l, rest).
Proof.
  induction 1 as [|a l Ha Hl IH]; [done|]. cbn [length fmap list_fmap concat unserialize_n].
  rewrite <- app_assoc. rewrite (rbind_Ok _ _ _ a (concat (Serialize <$> l) ++ rest)) by by apply unserialize_serialize.
  by rewrite (rbind_Ok _ _ _ l rest).
Qed.

Lemma Unserialize_vector_app {A} `{SA : Serializable A} (wf : A -> Prop) {OK : SerializeOk A wf} (l : list A) rest :
  Z.of_nat (length l) <= MAX_SIZE -> Forall wf l ->
  Unserialize_vector (Serialize_vector l ++ rest) = (Ok l, rest).
Proof.
  intros Hl Hwf. unfold Unserialize_vector, Serialize_vector. rewrite <- app_assoc.
  rewrite (rbind_Ok _ _ _ (Z.of_nat (length l)) (concat (Serialize <$> l) ++ rest))
    by (apply ReadCompactSize_app; lia).
  rewrite u32_size, Nat2Z.id by lia. by eapply unserialize_n_app.
Qed.

#[export] Hint Resolve unserialize_serialize Unserialize_int32_app Unserialize_int64_app
  Unserialize_blob_app Unserialize_vector_app : kubu.

(** ** Properties *)

(** the compact-size code is canonical: reading succeeds exactly on the
    bytes that writing the value produces, for sizes up to [MAX_SIZE]; so no
    two encodings denote one size. *)
Theorem CompactSize_canonical (s : bytes) (n : Z) (rest : bytes) :
  ReadCompactSize s = (Ok n, rest) <-> s = WriteCompactSize n ++ rest /\ 0 <= n <= MAX_SIZE.
Proof.
  split; [apply ReadCompactSize_inv|]. intros [-> H]. by apply ReadCompactSize_app.
Qed.

(** a variable-length integer read at the type it was written at gives
    the number back and stops at the byte after it, for every 32-bit height,
    every [uint32_t] and every [uint64_t]; and the size functions agree with
    the bytes written. *)
Theorem VarInt_roundtrip (n : Z) (rest : bytes) :
  (0 <= n < 2 ^ 31 -> ReadVarInt i32 (WriteVarInt n ++ rest) = (Ok n, rest)) /\
  (in_u32 n -> ReadVarInt u32 (WriteVarInt n ++ rest) = (Ok n, rest)) /\
  (in_u64 n -> ReadVarInt u64 (WriteVarInt n ++ rest) = (Ok n, rest)) /\
  Z.of_nat (length (WriteVarInt n)) = GetSizeOfVarInt n /\
  (in_u64 n -> Z.of_nat (length (WriteCompactSize n)) = GetSizeOfCompactSize n).
Proof.
  split_and!.
  - intros H. apply (varint_roundtrip i32 (2 ^ 31)); try lia. intros z Hz. apply i32_id. unfold in_i32. lia.
  - intros H. apply (varint_roundtrip u32 (2 ^ 32)); unfold in_u32 in H; try lia. intros z Hz. by apply u32_id.
  - intros H. apply (varint_roundtrip u64 (2 ^ 64)); unfold in_u64 in H; try lia. intros z Hz. by apply u64_id.
  - unfold WriteVarInt, GetSizeOfVarInt. by rewrite length_reverse, length_varint_tmp.
  - intros _. unfold WriteCompactSize, GetSizeOfCompactSize, ser_writedata8, ser_writedata16,
      ser_writedata32, ser_writedata64. split_ifs; by rewrite ?length_app, ?length_le_bytes.
Qed.

Lemma VarInt_roundtrip_witness :
  ReadVarInt u32 (WriteVarInt 4294967295 ++ [x01]) = (Ok 4294967295, [x01]).
Proof. apply (proj1 (proj2 (VarInt_roundtrip 4294967295 [x01]))). unfold in_u32. lia. Defined.

(** [CDataStream] with its moving read position and buffer clearing
    implements the reader on the unread bytes, failure included, for streams
    and reads within the 32-bit position. *)
Theorem stream_read_refines (ds : CDataStream) (n : Z) :
  0 <= nReadPos ds <= Z.of_nat (length (vch ds)) -> 0 <= n ->
  Z.of_nat (length (vch ds)) < 2 ^ 32 -> nReadPos ds + n < 2 ^ 32 ->
  let '(r, ds') := stream_read ds n in
  read n (stream_rest ds) = (r, stream_rest ds') /\
  0 <= nReadPos ds' <= Z.of_nat (length (vch ds')) /\
  stream_size ds' = stream_size ds - (if is_ok r then n else 0).
Proof.
  destruct ds as [v p]. unfold stream_read, read, stream_size, stream_rest. cbn [vch nReadPos].
  intros Hp Hn Hv Hsum. rewrite u32_id by (unfold in_u32; lia).
  destruct (Z.eqb_spec n 0) as [->|Hn0]; [cbn [is_ok vch nReadPos]; split_and!; (done || lia)|].
  rewrite length_drop. destruct (Z.leb_spec (Z.of_nat (length v)) (p + n)) as [Hle|Hlt].
  - destruct (Z.ltb_spec (Z.of_nat (length v)) (p + n)); cbn [is_ok vch nReadPos length];
      split_ifs; try lia; split_and!; try (done || lia).
    f_equal. rewrite drop_drop. by apply drop_ge; lia.
  - cbn [is_ok vch nReadPos]. split_ifs; [lia|]. split_and!; try lia.
    rewrite drop_drop. do 2 f_equal. lia.
Qed.

Lemma stream_read_refines_witness :
  read 2 (stream_rest (mkStream [x01; x02; x03] 1)) = (Ok [x02; x03], []).
Proof.
  exact (proj1 (stream_read_refines (mkStream [x01; x02; x03] 1) 2
    ltac:(simpl; lia) ltac:(lia) ltac:(simpl; lia) ltac:(simpl; lia))).
Defined.
