(* ===== verification/Script.v ===== *)
(** * Scripts ([src/src/script/script.h], [script.cpp], [standard.h], [standard.cpp],
      the key class of [src/src/pubkey.h])

    A [CScript] is its bytes and an iterator is the suffix it points to.  The
    hash functions and the curve check are the operations of the class
    [CryptoOps]. *)

From S2P Require Import Prelude.
Open Scope Z_scope.

(** ** Opcodes used by name *)

Definition OP_0 : Z := 0.
Definition OP_PUSHDATA1 : Z := 76.
Definition OP_PUSHDATA2 : Z := 77.
Definition OP_PUSHDATA4 : Z := 78.
Definition OP_1 : Z := 81.
Definition OP_16 : Z := 96.
Definition OP_RETURN : Z := 106.
Definition OP_DUP : Z := 118.
Definition OP_EQUAL : Z := 135.
Definition OP_EQUALVERIFY : Z := 136.
Definition OP_HASH160 : Z := 169.
Definition OP_CHECKSIG : Z := 172.
Definition OP_CHECKSIGVERIFY : Z := 173.
Definition OP_CHECKMULTISIG : Z := 174.
Definition OP_CHECKMULTISIGVERIFY : Z := 175.
Definition OP_SMALLINTEGER : Z := 250.
Definition OP_PUBKEYS : Z := 251.
Definition OP_PUBKEYHASH : Z := 253.
Definition OP_PUBKEY : Z := 254.
Definition OP_INVALIDOPCODE : Z := 255.

Definition MAX_SCRIPT_SIZE : Z := 10000.
Definition MAX_PUBKEYS_PER_MULTISIG : Z := 20.
Definition MAX_OP_RETURN_RELAY : Z := 83.

Definition len (v : bytes) : Z := Z.of_nat (length v).
Definition byte_at (v : bytes) (i : nat) : Z := match v !! i with Some b => ub b | None => 0 end.

(** ** Writing: the [operator<<] overloads *)

Definition push_opcode (opcode : Z) : bytes := [u8 opcode].

Definition push_data (b : bytes) : bytes :=
  (if len b <? OP_PUSHDATA1 then [u8 (len b)]
   else if len b <=? 255 then [u8 OP_PUSHDATA1; u8 (len b)]
   else if len b <=? 65535 then u8 OP_PUSHDATA2 :: le_bytes 2 (len b)
   else u8 OP_PUSHDATA4 :: le_bytes 4 (len b)) ++ b.

(** The opcode [push_data] writes in front of its argument. *)
Definition push_code (b : bytes) : Z :=
  if len b <? OP_PUSHDATA1 then len b
  else if len b <=? 255 then OP_PUSHDATA1
  else if len b <=? 65535 then OP_PUSHDATA2 else OP_PUSHDATA4.

(** ** Script numbers *)

(** The [while (absvalue)] loop; eight digits hold every [uint64_t]. *)
Fixpoint abs_digits (fuel : nat) (absvalue : Z) : bytes :=
  match fuel with
  | O => []
  | S fuel' => if absvalue =? 0 then [] else u8 (Z.land absvalue 255) :: abs_digits fuel' (Z.shiftr absvalue 8)
  end.

Definition last_byte (v : bytes) : Z := match last v with Some b => ub b | None => 0 end.
Definition set_last (v : bytes) (z : Z) : bytes := take (length v - 1) v ++ [u8 z].

Definition scriptnum_serialize (value : Z) : bytes :=
  if value =? 0 then []
  else
    let neg := value <? 0 in
    let absvalue := u64 (if neg then - value else value) in
    let result := abs_digits 8 absvalue in
    if negb (Z.land (last_byte result) 128 =? 0) then result ++ [u8 (if neg then 128 else 0)]
    else if neg then set_last result (Z.lor (last_byte result) 128)
    else result.

(** [result |= vch[i] << 8*i] over the vector. *)
Fixpoint or_bytes (v : bytes) (i : Z) : Z :=
  match v with
  | [] => 0
  | b :: v' => Z.lor (Z.shiftl (ub b) (8 * i)) (or_bytes v' (i + 1))
  end.

Definition set_vch (vch : bytes) : Z :=
  match vch with
  | [] => 0
  | _ =>
      let result := or_bytes vch 0 in
      if negb (Z.land (last_byte vch) 128 =? 0)
      then - Z.land result (Z.lnot (Z.shiftl 128 (8 * (len vch - 1))))
      else result
  end.

Definition CScriptNum_of (vch : bytes) (fRequireMinimal : bool) (nMaxNumSize : Z) : result Z :=
  if nMaxNumSize <? len vch then Err "script number overflow"
  else if fRequireMinimal && (0 <? len vch) &&
          (Z.land (last_byte vch) 127 =? 0) &&
          ((len vch <=? 1) || (Z.land (byte_at vch (length vch - 2)) 128 =? 0))
  then Err "non-minimally encoded script number"
  else Ok (set_vch vch).

Definition getint (m_value : Z) : Z :=
  if 2 ^ 31 - 1 <? m_value then 2 ^ 31 - 1
  else if m_value <? - 2 ^ 31 then - 2 ^ 31
  else m_value.

Definition push_int64 (n : Z) : bytes :=
  if (n =? -1) || ((1 <=? n) && (n <=? 16)) then [u8 (n + (OP_1 - 1))]
  else if n =? 0 then [u8 OP_0]
  else push_data (scriptnum_serialize n).

(** ** Reading *)

(** [GetOp2] at the iterator [pc]: opcode, pushed data and the next iterator. *)
Definition take_data (opcode : Z) (nSize : Z) (pc : bytes) : option (Z * bytes * bytes) :=
  if len pc <? nSize then None
  else Some (opcode, take (Z.to_nat nSize) pc, drop (Z.to_nat nSize) pc).

Definition GetOp2 (pc : bytes) : option (Z * bytes * bytes) :=
  match pc with
  | [] => None
  | b :: pc =>
      let opcode := ub b in
      if opcode <=? OP_PUSHDATA4 then
        if opcode <? OP_PUSHDATA1 then take_data opcode opcode pc
        else if opcode =? OP_PUSHDATA1 then
          if len pc <? 1 then None else take_data opcode (le_value (take 1 pc)) (drop 1 pc)
        else if opcode =? OP_PUSHDATA2 then
          if len pc <? 2 then None else take_data opcode (le_value (take 2 pc)) (drop 2 pc)
        else
          if len pc <? 4 then None else take_data opcode (le_value (take 4 pc)) (drop 4 pc)
      else Some (opcode, [], pc)
  end.

Definition DecodeOP_N (opcode : Z) : Z := if opcode =? OP_0 then 0 else opcode - (OP_1 - 1).
Definition EncodeOP_N (n : Z) : Z := if n =? 0 then OP_0 else OP_1 + n - 1.

(** ** Classification of whole scripts ([script.cpp]) *)

Definition IsUnspendable (s : bytes) : bool :=
  ((0 <? len s) && (byte_at s 0 =? OP_RETURN)) || (MAX_SCRIPT_SIZE <? len s).

Definition IsPayToScriptHash (s : bytes) : bool :=
  (len s =? 23) && (byte_at s 0 =? OP_HASH160) && (byte_at s 1 =? 20) && (byte_at s 22 =? OP_EQUAL).

Definition IsPayToWitnessScriptHash (s : bytes) : bool :=
  (len s =? 34) && (byte_at s 0 =? OP_0) && (byte_at s 1 =? 32).

Definition IsWitnessProgram (s : bytes) : option (Z * bytes) :=
  if (len s <? 4) || (42 <? len s) then None
  else if negb (byte_at s 0 =? OP_0) && ((byte_at s 0 <? OP_1) || (OP_16 <? byte_at s 0)) then None
  else if byte_at s 1 + 2 =? len s then Some (DecodeOP_N (byte_at s 0), drop 2 s)
  else None.

(** The loops over a script advance by at least a byte: its length is fuel enough. *)
Fixpoint push_only_loop (fuel : nat) (pc : bytes) : bool :=
  match pc, fuel with
  | [], _ => true
  | _, O => false
  | _, S fuel' =>
      match GetOp2 pc with
      | None => false
      | Some (opcode, _, pc') => if OP_16 <? opcode then false else push_only_loop fuel' pc'
      end
  end.
Definition IsPushOnly (pc : bytes) : bool := push_only_loop (length pc) pc.

Fixpoint sigop_loop (fuel : nat) (fAccurate : bool) (pc : bytes) (lastOpcode n : Z) : Z :=
  match fuel with
  | O => n
  | S fuel' =>
      match GetOp2 pc with
      | None => n
      | Some (opcode, _, pc') =>
          let n := if (opcode =? OP_CHECKSIG) || (opcode =? OP_CHECKSIGVERIFY) then n + 1
                   else if (opcode =? OP_CHECKMULTISIG) || (opcode =? OP_CHECKMULTISIGVERIFY) then
                     if fAccurate && (OP_1 <=? lastOpcode) && (lastOpcode <=? OP_16)
                     then n + DecodeOP_N lastOpcode else n + MAX_PUBKEYS_PER_MULTISIG
                   else n in
          sigop_loop fuel' fAccurate pc' opcode n
      end
  end.
Definition GetSigOpCount (fAccurate : bool) (s : bytes) : Z :=
  sigop_loop (length s) fAccurate s OP_INVALIDOPCODE 0.

(** The last push of a push-only [scriptSig]; [None] when the loop returns 0. *)
Fixpoint last_push_loop (fuel : nat) (pc : bytes) (data : bytes) : option bytes :=
  match pc, fuel with
  | [], _ => Some data
  | _, O => None
  | _, S fuel' =>
      match GetOp2 pc with
      | None => None
      | Some (opcode, d, pc') => if OP_16 <? opcode then None else last_push_loop fuel' pc' d
      end
  end.
Definition GetSigOpCount_p2sh (s scriptSig : bytes) : Z :=
  if negb (IsPayToScriptHash s) then GetSigOpCount true s
  else match last_push_loop (length scriptSig) scriptSig [] with
       | None => 0
       | Some data => GetSigOpCount true data
       end.

(** ** Public keys ([pubkey.h]) *)

Definition COMPRESSED_SIZE : Z := 33.
Definition PUBKEY_SIZE : Z := 65.

Definition GetLen (chHeader : Z) : Z :=
  if (chHeader =? 2) || (chHeader =? 3) then COMPRESSED_SIZE
  else if (chHeader =? 4) || (chHeader =? 6) || (chHeader =? 7) then PUBKEY_SIZE
  else 0.

(** [CPubKey(vch)]: the bytes, or none when the header does not announce their number. *)
Definition CPubKey (vch : bytes) : bytes :=
  match vch with
  | [] => []
  | b :: _ => if negb (GetLen (ub b) =? 0) && (GetLen (ub b) =? len vch) then vch else []
  end.
Definition IsValid (pubkey : bytes) : bool := 0 <? len pubkey.
Definition IsCompressed (pubkey : bytes) : bool := len pubkey =? 33.

(** [Hash160] and SHA-256 digests as the little-endian numbers of their bytes,
    and [secp256k1_ec_pubkey_parse] on a byte string. *)
Class CryptoOps := {
  Hash160 : bytes -> Z;
  Sha256 : bytes -> Z;
  secp256k1_ec_pubkey_parse : bytes -> bool
}.

Section Standard.
Context `{CryptoOps}.

Definition IsFullyValid (pubkey : bytes) : bool := IsValid pubkey && secp256k1_ec_pubkey_parse pubkey.
Definition GetID (pubkey : bytes) : Z := Hash160 pubkey.

(** ** Standard outputs ([standard.h], [standard.cpp]) *)

Inductive txnouttype :=
| TX_NONSTANDARD
| TX_PUBKEY
| TX_PUBKEYHASH
| TX_SCRIPTHASH
| TX_MULTISIG
| TX_NULL_DATA
| TX_WITNESS_V0_SCRIPTHASH
| TX_WITNESS_V0_KEYHASH.

Inductive CTxDestination :=
| CNoDestination
| CKeyID (id : Z)
| CScriptID (id : Z).

Definition ToByteVector (id : Z) : bytes := le_bytes 20 id.
Definition uint160_of (v : bytes) : Z := le_value v.

Definition TEMPLATE_PUBKEY : bytes := push_opcode OP_PUBKEY ++ push_opcode OP_CHECKSIG.
Definition TEMPLATE_PUBKEYHASH : bytes :=
  push_opcode OP_DUP ++ push_opcode OP_HASH160 ++ push_opcode OP_PUBKEYHASH ++
  push_opcode OP_EQUALVERIFY ++ push_opcode OP_CHECKSIG.
Definition TEMPLATE_MULTISIG : bytes :=
  push_opcode OP_SMALLINTEGER ++ push_opcode OP_PUBKEYS ++ push_opcode OP_SMALLINTEGER ++
  push_opcode OP_CHECKMULTISIG.
(** In the order of the multimap's keys. *)
Definition mTemplates : list (txnouttype * bytes) :=
  [(TX_PUBKEY, TEMPLATE_PUBKEY); (TX_PUBKEYHASH, TEMPLATE_PUBKEYHASH); (TX_MULTISIG, TEMPLATE_MULTISIG)].

(** The scan of [OP_PUBKEYS]: opcode, data and iterator of [script1] after it. *)
Fixpoint scan_pubkeys (fuel : nat) (opcode1 : Z) (vch1 pc1 : bytes) (sols : list bytes)
    : Z * bytes * bytes * list bytes :=
  match fuel with
  | O => (opcode1, vch1, pc1, sols)
  | S fuel' =>
      if (33 <=? len vch1) && (len vch1 <=? 65) then
        let sols := sols ++ [vch1] in
        match GetOp2 pc1 with
        | None => (OP_INVALIDOPCODE, [], [], sols)
        | Some (op, v, pc) => scan_pubkeys fuel' op v pc sols
        end
      else (opcode1, vch1, pc1, sols)
  end.

Inductive match_result :=
| Match (b : bool) (sols : list bytes)  (* [return b] *)
| NoMatch.                               (* [break] to the next template *)

Definition multisig_ok (sols : list bytes) : bool :=
  let m := byte_at (default [] (head sols)) 0 in
  let n := byte_at (default [] (last sols)) 0 in
  negb ((m <? 1) || (n <? 1) || (n <? m) || negb (Z.of_nat (length sols) - 2 =? n)).

(** The [while (true)] loop for one template; every round takes an opcode of
    the template, so the template's length is fuel enough. *)
Fixpoint match_template (fuel : nat) (typ : txnouttype) (pc1 pc2 : bytes) (sols : list bytes) : match_result :=
  match pc1, pc2 with
  | [], [] => match typ with
              | TX_MULTISIG => if multisig_ok sols then Match true sols else Match false sols
              | _ => Match true sols
              end
  | _, _ =>
      match fuel with
      | O => NoMatch
      | S fuel' =>
          match GetOp2 pc1 with
          | None => NoMatch
          | Some (opcode1, vch1, pc1) =>
              match GetOp2 pc2 with
              | None => NoMatch
              | Some (opcode2, vch2, pc2) =>
                  let '(opcode1, vch1, pc1, sols) :=
                    if opcode2 =? OP_PUBKEYS then scan_pubkeys (S (length pc1)) opcode1 vch1 pc1 sols
                    else (opcode1, vch1, pc1, sols) in
                  match (if opcode2 =? OP_PUBKEYS then GetOp2 pc2 else Some (opcode2, vch2, pc2)) with
                  | None => NoMatch
                  | Some (opcode2, vch2, pc2) =>
                      if opcode2 =? OP_PUBKEY then
                        if (len vch1 <? 33) || (65 <? len vch1) then NoMatch
                        else match_template fuel' typ pc1 pc2 (sols ++ [vch1])
                      else if opcode2 =? OP_PUBKEYHASH then
                        if negb (len vch1 =? 20) then NoMatch
                        else match_template fuel' typ pc1 pc2 (sols ++ [vch1])
                      else if opcode2 =? OP_SMALLINTEGER then
                        if (opcode1 =? OP_0) || ((OP_1 <=? opcode1) && (opcode1 <=? OP_16))
                        then match_template fuel' typ pc1 pc2 (sols ++ [[u8 (DecodeOP_N opcode1)]])
                        else NoMatch
                      else if negb (opcode1 =? opcode2) || negb (bool_decide (vch1 = vch2)) then NoMatch
                      else match_template fuel' typ pc1 pc2 sols
                  end
              end
          end
      end
  end.

Fixpoint scan_templates (script1 : bytes) (ts : list (txnouttype * bytes))
    : bool * option txnouttype * list bytes :=
  match ts with
  | [] => (false, Some TX_NONSTANDARD, [])
  | (typ, script2) :: ts' =>
      match match_template (S (length script2)) typ script1 script2 [] with
      | Match b sols => (b, Some typ, sols)
      | NoMatch => scan_templates script1 ts'
      end
  end.

(** Return value, [typeRet] ([None] when it is left alone) and [vSolutionsRet]. *)
Definition Solver (scriptPubKey : bytes) : bool * option txnouttype * list bytes :=
  if IsPayToScriptHash scriptPubKey then
    (true, Some TX_SCRIPTHASH, [take 20 (drop 2 scriptPubKey)])
  else
    match IsWitnessProgram scriptPubKey with
    | Some (witnessversion, witnessprogram) =>
        if (witnessversion =? 0) && (len witnessprogram =? 20) then
          (true, Some TX_WITNESS_V0_KEYHASH, [witnessprogram])
        else if (witnessversion =? 0) && (len witnessprogram =? 32) then
          (true, Some TX_WITNESS_V0_SCRIPTHASH, [witnessprogram])
        else (false, None, [])
    | None =>
        if (1 <=? len scriptPubKey) && (byte_at scriptPubKey 0 =? OP_RETURN) && IsPushOnly (drop 1 scriptPubKey)
        then (true, Some TX_NULL_DATA, [])
        else scan_templates scriptPubKey mTemplates
    end.

Definition ExtractDestination (scriptPubKey : bytes) : option CTxDestination :=
  match Solver scriptPubKey with
  | (true, Some TX_PUBKEY, v :: _) =>
      let pubKey := CPubKey v in
      if negb (IsValid pubKey) then None else Some (CKeyID (GetID pubKey))
  | (true, Some TX_PUBKEYHASH, v :: _) => Some (CKeyID (uint160_of v))
  | (true, Some TX_SCRIPTHASH, v :: _) => Some (CScriptID (uint160_of v))
  | _ => None
  end.

Definition GetScriptForDestination (dest : CTxDestination) : bytes :=
  match dest with
  | CNoDestination => []
  | CKeyID keyID =>
      push_opcode OP_DUP ++ push_opcode OP_HASH160 ++ push_data (ToByteVector keyID) ++
      push_opcode OP_EQUALVERIFY ++ push_opcode OP_CHECKSIG
  | CScriptID scriptID =>
      push_opcode OP_HASH160 ++ push_data (ToByteVector scriptID) ++ push_opcode OP_EQUAL
  end.

Definition GetScriptForRawPubKey (pubKey : bytes) : bytes := push_data pubKey ++ push_opcode OP_CHECKSIG.

Definition GetScriptForMultisig (nRequired : Z) (keys : list bytes) : bytes :=
  push_opcode (EncodeOP_N nRequired) ++ concat (push_data <$> keys) ++
  push_opcode (EncodeOP_N (Z.of_nat (length keys))) ++ push_opcode OP_CHECKMULTISIG.

Definition GetScriptForWitness (redeemscript : bytes) : bytes :=
  match Solver redeemscript with
  | (true, Some TX_PUBKEY, v :: _) => push_opcode OP_0 ++ push_data (le_bytes 20 (Hash160 v))
  | (true, Some TX_PUBKEYHASH, v :: _) => push_opcode OP_0 ++ push_data v
  | _ => push_opcode OP_0 ++ push_data (le_bytes 32 (Sha256 redeemscript))
  end.

(** [CScriptID(script)] *)
Definition CScriptID_of (script : bytes) : CTxDestination := CScriptID (Hash160 script).

End Standard.

#[export] Instance CTxDestination_eq_dec : EqDecision CTxDestination.
Proof. solve_decision. Defined.
#[export] Instance txnouttype_eq_dec : EqDecision txnouttype.
Proof. solve_decision. Defined.

(** ** Lemmas on pushes *)

Lemma len_app a b : len (a ++ b) = len a + len b.
Proof. unfold len. rewrite length_app. lia. Qed.
Lemma len_nonneg a : 0 <= len a.
Proof. unfold len. lia. Qed.
Lemma len_le_bytes n z : len (le_bytes n z) = Z.of_nat n.
Proof. unfold len. by rewrite length_le_bytes. Qed.
#[export] Hint Rewrite len_app len_le_bytes : kubu.

Lemma ub_u8_id z : 0 <= z < 256 -> ub (u8 z) = z.
Proof. intros H. rewrite ub_u8. by apply Z.mod_small. Qed.

Lemma take_data_app op n b rest : n = len b -> take_data op n (b ++ rest) = Some (op, b, rest).
Proof.
  intros ->. unfold take_data. rewrite len_app. pose proof (len_nonneg rest).
  split_ifs; [lia|]. unfold len. by rewrite Nat2Z.id, take_app_length, drop_app_length.
Qed.

Lemma GetOp2_push_data b rest :
  len b < 2 ^ 32 -> GetOp2 (push_data b ++ rest) = Some (push_code b, b, rest).
Proof.
  intros Hb. pose proof (len_nonneg b). unfold push_data, push_code.
  destruct (Z.ltb_spec (len b) OP_PUSHDATA1) as [H1|H1];
    [|destruct (Z.leb_spec (len b) 255) as [H2|H2]; [|destruct (Z.leb_spec (len b) 65535) as [H3|H3]]];
    unfold OP_PUSHDATA1 in *; cbn [app]; rewrite <- ?app_assoc; cbn [app GetOp2].
  - rewrite ub_u8_id by lia. unfold OP_PUSHDATA4, OP_PUSHDATA1. split_ifs; try lia. by apply take_data_app.
  - change (ub (u8 76)) with 76. cbv zeta.
    change (76 <=? OP_PUSHDATA4) with true. change (76 <? OP_PUSHDATA1) with false.
    change (76 =? OP_PUSHDATA1) with true. cbv iota.
    unfold len at 1. cbn [length]. cbn [take drop le_value]. 
    rewrite ub_u8_id by lia. rewrite Z.mul_0_r, Z.add_0_r.
    split_ifs; [lia|]. by apply take_data_app.
  - change (ub (u8 OP_PUSHDATA2)) with 77. cbv zeta.
    change (77 <=? OP_PUSHDATA4) with true. change (77 <? OP_PUSHDATA1) with false.
    change (77 =? OP_PUSHDATA1) with false. change (77 =? OP_PUSHDATA2) with true. cbv iota.
    rewrite len_app, len_le_bytes, len_app. pose proof (len_nonneg rest). split_ifs; [lia|].
    rewrite take_app_length', drop_app_length' by by rewrite length_le_bytes.
    rewrite le_value_bytes_id by (simpl; lia). by apply take_data_app.
  - change (ub (u8 OP_PUSHDATA4)) with 78. cbv zeta.
    change (78 <=? OP_PUSHDATA4) with true. change (78 <? OP_PUSHDATA1) with false.
    change (78 =? OP_PUSHDATA1) with false. change (78 =? OP_PUSHDATA2) with false. cbv iota.
    rewrite len_app, len_le_bytes, len_app. pose proof (len_nonneg rest). split_ifs; [lia|].
    rewrite take_app_length', drop_app_length' by by rewrite length_le_bytes.
    rewrite le_value_bytes_id by (change (256 ^ Z.of_nat 4) with (2 ^ 32); lia). by apply take_data_app.
Qed.

Lemma GetOp2_push_opcode op rest :
  OP_PUSHDATA4 < op < 256 -> GetOp2 (push_opcode op ++ rest) = Some (op, [], rest).
Proof.
  intros H. cbn [push_opcode app GetOp2]. unfold OP_PUSHDATA4 in *. rewrite ub_u8_id by lia.
  split_ifs; (done || lia).
Qed.

Lemma push_code_range b : 0 <= push_code b <= OP_PUSHDATA4.
Proof.
  unfold push_code, OP_PUSHDATA1, OP_PUSHDATA2, OP_PUSHDATA4. pose proof (len_nonneg b).
  split_ifs; lia.
Qed.

Lemma len_push_data b : len b <= 255 -> len (push_data b) = len b + (if len b <? 76 then 1 else 2).
Proof.
  intros H. unfold push_data, OP_PUSHDATA1. pose proof (len_nonneg b). rewrite len_app.
  split_ifs; try lia; unfold len at 1; cbn [length]; lia.
Qed.

(** Every successful [GetOp2] moves forward. *)
Lemma GetOp2_progress pc op v pc' :
  GetOp2 pc = Some (op, v, pc') -> (length pc' < length pc)%nat /\ suffix pc' pc.
Proof.
  assert (forall op n q, take_data op n q = Some (op, v, pc') -> (length pc' <= length q)%nat /\ suffix pc' q) as Htd.
  { intros o n q Ht. unfold take_data in Ht. destruct (len q <? n); [done|]. injection Ht as Hv Hd.
    split; [rewrite <- Hd, length_drop; lia|]. exists (take (Z.to_nat n) q). by rewrite <- Hd, take_drop. }
  assert (forall k q, suffix pc' (drop k q) -> suffix pc' q) as Hsd.
  { intros k q [l Hl]. exists (take k q ++ l). by rewrite <- app_assoc, <- Hl, take_drop. }
  destruct pc as [|b pc]; [done|]. cbn [GetOp2 length]. intros Hg.
  assert (forall k o n, take_data o n (drop k pc) = Some (op, v, pc') ->
           (length pc' < S (length pc))%nat /\ suffix pc' (b :: pc)) as Hk.
  { intros k o n Ht. assert (o = op) as -> by (unfold take_data in Ht; by destruct (len _ <? n); simplify_eq).
    apply Htd in Ht as [Hl Hs]. rewrite length_drop in Hl. split; [lia|]. apply suffix_cons_r. by eapply Hsd. }
  split_ifs; try done; try (by eapply (Hk 0%nat)); try (by eapply Hk).
  injection Hg as _ _ <-. split; [lia|]. by apply suffix_cons_r.
Qed.

(** ** Lemmas on script numbers *)

Lemma le_value_app a b : le_value (a ++ b) = le_value a + 256 ^ len a * le_value b.
Proof.
  induction a as [|x a IH]; [change (256 ^ len []) with 1; cbn [app le_value]; lia|].
  cbn [app le_value]. rewrite IH. unfold len. cbn [length].
  rewrite Nat2Z.inj_succ, Z.pow_succ_r by lia. lia.
Qed.

Lemma le_value_snoc w b : le_value (w ++ [b]) = le_value w + 256 ^ len w * ub b.
Proof. rewrite le_value_app. cbn [le_value]. lia. Qed.

Lemma le_value_bound v : 0 <= le_value v < 256 ^ len v.
Proof. apply le_value_range. Qed.

Lemma pow256 n : 0 <= n -> 256 ^ n = 2 ^ (8 * n).
Proof. intros H. rewrite Z.pow_mul_r by lia. done. Qed.

Lemma or_bytes_value v i : 0 <= i -> or_bytes v i = le_value v * 2 ^ (8 * i).
Proof.
  revert i. induction v as [|b v IH]; intros i Hi; [done|]. cbn [or_bytes le_value].
  rewrite IH by lia. rewrite Z.shiftl_mul_pow2 by lia. rewrite Z.lor_comm.
  pose proof (ub_range b). replace (8 * (i + 1)) with (8 + 8 * i) by lia.
  rewrite Z.pow_add_r by lia. change (2 ^ 8) with 256.
  assert (0 < 2 ^ (8 * i)) by (apply Z.pow_pos_nonneg; lia).
  pose proof (lor_add_low (le_value v) (ub b * 2 ^ (8 * i)) (8 + 8 * i) ltac:(lia)) as E.
  rewrite Z.pow_add_r in E by lia. change (2 ^ 8) with 256 in E. rewrite E by nia. lia.
Qed.

Lemma last_byte_snoc w b : last_byte (w ++ [b]) = ub b.
Proof. unfold last_byte. by rewrite last_snoc. Qed.

Lemma set_last_snoc w b z : set_last (w ++ [b]) z = w ++ [u8 z].
Proof.
  unfold set_last. rewrite length_app. cbn [length]. replace (length w + 1 - 1)%nat with (length w) by lia.
  by rewrite take_app_length.
Qed.

Lemma high_bit b : (Z.land (ub b) 128 =? 0) = (ub b <? 128).
Proof.
  pose proof (ub_range b) as Hb. pose proof (digit_high (ub b) Hb) as Hd. clear Hb.
  destruct (Z.ltb_spec (ub b) 128); [apply Z.eqb_eq|apply Z.eqb_neq]; lia.
Qed.

Lemma set_vch_snoc w b :
  set_vch (w ++ [b]) =
    if ub b <? 128 then le_value w + 256 ^ len w * ub b
    else - (le_value w + 256 ^ len w * (ub b - 128)).
Proof.
  unfold set_vch. destruct (w ++ [b]) as [|x l] eqn:E; [by destruct w|]. rewrite <- E. clear E x l.
  rewrite last_byte_snoc, high_bit, or_bytes_value by lia.
  change (2 ^ (8 * 0)) with 1. rewrite Z.mul_1_r, le_value_snoc.
  pose proof (ub_range b) as Hb. pose proof (le_value_bound w) as Hw. pose proof (len_nonneg w) as Hl.
  destruct (Z.ltb_spec (ub b) 128) as [Hlt|Hge]; cbn [negb]; [done|].
  rewrite len_app. change (len [b]) with 1. replace (len w + 1 - 1) with (len w) by lia.
  rewrite Z.shiftl_mul_pow2 by lia. change 128 with (2 ^ 7) at 1.
  rewrite <- Z.pow_add_r by lia. rewrite land_clear_bit; [|lia|].
  - rewrite Z.pow_add_r by lia. rewrite pow256 by lia. change (2 ^ 7) with 128. lia.
  - rewrite pow256 in * by lia. apply Z.testbit_true; [lia|].
    rewrite (Z.add_comm 7), Z.pow_add_r, <- Z.div_div by lia.
    assert (0 < 2 ^ (8 * len w)) by (apply Z.pow_pos_nonneg; lia).
    rewrite (Z.mul_comm (2 ^ (8 * len w)) (ub b)), Z.div_add by lia.
    rewrite (Z.div_small (le_value w)) by lia. change (2 ^ 7) with 128. rewrite Z.add_0_l. replace (ub b) with (ub b - 128 + 1 * 128) by lia.
    by rewrite Z.div_add, Z.div_small by lia.
Qed.

Lemma abs_digits_value fuel a :
  0 <= a < 256 ^ Z.of_nat fuel -> le_value (abs_digits fuel a) = a.
Proof.
  revert a. induction fuel as [|fuel IH]; intros a Ha; [change (256 ^ Z.of_nat 0) with 1 in Ha; simpl; lia|].
  rewrite Nat2Z.inj_succ, Z.pow_succ_r in Ha by lia. cbn [abs_digits].
  destruct (Z.eqb_spec a 0) as [->|]; [done|]. cbn [le_value].
  change 255 with (Z.ones 8). rewrite Z.land_ones, Z.shiftr_div_pow2 by lia. change (2 ^ 8) with 256.
  pose proof (Z.mod_pos_bound a 256 ltac:(lia)).
  rewrite IH, ub_u8_id by (lia || (split; [apply Z.div_pos; lia|apply Z.div_lt_upper_bound; lia])).
  pose proof (Z.div_mod a 256 ltac:(lia)). lia.
Qed.

Lemma abs_digits_last fuel a :
  0 < a < 256 ^ Z.of_nat fuel -> exists w b, abs_digits fuel a = w ++ [b] /\ ub b <> 0.
Proof.
  revert a. induction fuel as [|fuel IH]; intros a Ha; [change (256 ^ Z.of_nat 0) with 1 in Ha; lia|].
  rewrite Nat2Z.inj_succ, Z.pow_succ_r in Ha by lia. cbn [abs_digits].
  destruct (Z.eqb_spec a 0) as [->|]; [lia|].
  change 255 with (Z.ones 8). rewrite Z.land_ones, Z.shiftr_div_pow2 by lia. change (2 ^ 8) with 256.
  destruct (Z.eqb_spec (a / 256) 0) as [E|E].
  - exists [], (u8 (a mod 256)). rewrite E. split; [by destruct fuel|].
    pose proof (Z.mod_pos_bound a 256 ltac:(lia)). pose proof (Z.div_mod a 256 ltac:(lia)).
    rewrite ub_u8_id by lia. lia.
  - destruct (IH (a / 256)) as (w & b & -> & Hb).
    + split; [|apply Z.div_lt_upper_bound; lia]. pose proof (Z.div_pos a 256). lia.
    + by exists (u8 (a mod 256) :: w), b.
Qed.

(** Digits are determined by their value and a non-zero leading digit. *)
Lemma abs_digits_of_value fuel w b :
  len (w ++ [b]) <= Z.of_nat fuel -> ub b <> 0 -> abs_digits fuel (le_value (w ++ [b])) = w ++ [b].
Proof.
  revert w. induction fuel as [|fuel IH]; intros w Hl Hb.
  - rewrite len_app in Hl. pose proof (len_nonneg w). change (len [b]) with 1 in Hl. lia.
  - cbn [abs_digits]. pose proof (le_value_bound w) as Hw. pose proof (ub_range b) as Hub.
    assert (0 < 256 ^ len w) by (apply Z.pow_pos_nonneg; [lia|apply len_nonneg]).
    destruct (Z.eqb_spec (le_value (w ++ [b])) 0) as [E|E]; [rewrite le_value_snoc in E; nia|].
    change 255 with (Z.ones 8). rewrite Z.land_ones, Z.shiftr_div_pow2 by lia. change (2 ^ 8) with 256.
    destruct w as [|x w]; cbn [app le_value].
    + rewrite Z.mul_0_r, Z.add_0_r. rewrite Z.mod_small, Z.div_small, u8_ub by done. by destruct fuel.
    + pose proof (ub_range x). rewrite (Z.mul_comm 256), Z_mod_plus_full, Z.div_add by lia.
      rewrite Z.mod_small, Z.div_small, u8_ub, Z.add_0_l by done. f_equal.
      apply IH; [|done]. cbn [app] in Hl. unfold len in *. cbn [length] in Hl. lia.
Qed.

Lemma serialize_pos w b :
  len (w ++ [b]) <= 8 -> 0 < ub b < 128 ->
  scriptnum_serialize (le_value (w ++ [b])) = w ++ [b] /\
  scriptnum_serialize (- le_value (w ++ [b])) = w ++ [u8 (ub b + 128)].
Proof.
  intros Hl Hb. pose proof (le_value_bound (w ++ [b])) as Hv.
  assert (256 ^ len (w ++ [b]) <= 256 ^ 8) by (apply Z.pow_le_mono_r; lia).
  assert (0 < le_value (w ++ [b])).
  { rewrite le_value_snoc. pose proof (le_value_bound w).
    assert (0 < 256 ^ len w) by (apply Z.pow_pos_nonneg; [lia|apply len_nonneg]). nia. }
  unfold scriptnum_serialize. change (256 ^ 8) with (2 ^ 64) in *.
  destruct (Z.eqb_spec (le_value (w ++ [b])) 0); [lia|].
  destruct (Z.eqb_spec (- le_value (w ++ [b])) 0); [lia|].
  rewrite (proj2 (Z.ltb_ge (le_value (w ++ [b])) 0)) by lia.
  rewrite (proj2 (Z.ltb_lt (- le_value (w ++ [b])) 0)) by lia.
  rewrite Z.opp_involutive, u64_id by (unfold in_u64; lia).
  rewrite abs_digits_of_value by (simpl; lia).
  rewrite last_byte_snoc, high_bit, (proj2 (Z.ltb_lt (ub b) 128)) by lia. cbn [negb].
  rewrite set_last_snoc, lor_high by lia. done.
Qed.

Lemma serialize_carry w b :
  len (w ++ [b]) <= 8 -> 128 <= ub b ->
  scriptnum_serialize (le_value (w ++ [b])) = (w ++ [b]) ++ [u8 0] /\
  scriptnum_serialize (- le_value (w ++ [b])) = (w ++ [b]) ++ [u8 128].
Proof.
  intros Hl Hb. pose proof (ub_range b). pose proof (le_value_bound (w ++ [b])) as Hv.
  assert (256 ^ len (w ++ [b]) <= 256 ^ 8) by (apply Z.pow_le_mono_r; lia).
  assert (0 < le_value (w ++ [b])).
  { rewrite le_value_snoc. pose proof (le_value_bound w).
    assert (0 < 256 ^ len w) by (apply Z.pow_pos_nonneg; [lia|apply len_nonneg]). nia. }
  unfold scriptnum_serialize. change (256 ^ 8) with (2 ^ 64) in *.
  destruct (Z.eqb_spec (le_value (w ++ [b])) 0); [lia|].
  destruct (Z.eqb_spec (- le_value (w ++ [b])) 0); [lia|].
  rewrite (proj2 (Z.ltb_ge (le_value (w ++ [b])) 0)) by lia.
  rewrite (proj2 (Z.ltb_lt (- le_value (w ++ [b])) 0)) by lia.
  rewrite Z.opp_involutive, u64_id by (unfold in_u64; lia).
  rewrite abs_digits_of_value by (simpl; lia).
  rewrite last_byte_snoc, high_bit, (proj2 (Z.ltb_ge (ub b) 128)) by lia. done.
Qed.

Lemma byte_at_snoc2 w c b : byte_at ((w ++ [c]) ++ [b]) (length ((w ++ [c]) ++ [b]) - 2) = ub c.
Proof.
  unfold byte_at. rewrite !length_app. cbn [length].
  replace (length w + 1 + 1 - 2)%nat with (length w) by lia.
  rewrite lookup_app_l by (rewrite length_app; simpl; lia).
  by rewrite lookup_app_r, Nat.sub_diag by lia.
Qed.

(** The minimality condition of the constructor on a non-empty vector. *)
Lemma CScriptNum_of_snoc w b n v :
  CScriptNum_of (w ++ [b]) true n = Ok v <->
  len w + 1 <= n /\ v = set_vch (w ++ [b]) /\
  (ub b = 0 \/ ub b = 128 -> exists w' c, w = w' ++ [c] /\ 128 <= ub c).
Proof.
  unfold CScriptNum_of. rewrite len_app. change (len [b]) with 1. pose proof (len_nonneg w).
  pose proof (ub_range b). rewrite last_byte_snoc, digit_low by done.
  assert (0 <? len w + 1 = true) as -> by (apply Z.ltb_lt; lia). cbn [andb].
  assert (((if ub b <? 128 then ub b else ub b - 128) =? 0) = (ub b =? 0) || (ub b =? 128)) as ->.
  { destruct (Z.ltb_spec (ub b) 128), (Z.eqb_spec (ub b) 0), (Z.eqb_spec (ub b) 128); try lia;
      (apply Z.eqb_eq || apply Z.eqb_neq); lia. }
  destruct (Z.ltb_spec n (len w + 1)); [split; [done|lia]|].
  destruct ((ub b =? 0) || (ub b =? 128)) eqn:Eb; cbn [andb].
  - destruct w as [|c w _] using rev_ind.
    + change (len [] + 1 <=? 1) with true. cbn [orb]. split; [done|].
      intros (_ & _ & Hx). destruct Hx as (w' & c & Hw & _); [zbool; auto|]. by destruct w'.
    + rewrite byte_at_snoc2, high_bit. rewrite len_app in *. change (len [c]) with 1.
      pose proof (len_nonneg w). rewrite (proj2 (Z.leb_gt _ _)) by lia. cbn [orb].
      destruct (Z.ltb_spec (ub c) 128).
      * split; [done|]. intros (_ & _ & Hx). destruct Hx as (w' & c' & Hw & Hc); [zbool; auto|].
        apply app_inj_tail in Hw as [-> ->]. lia.
      * change (len [c]) with 1 in *. split; [|by intros (_ & -> & _)].
        intros [= <-]. split_and!; [lia|done|]. intros _. by exists w, c.
  - apply orb_false_elim in Eb as [Eb1 Eb2]. zbool. split; [|by intros (_ & -> & _)].
    intros [= <-]. split_and!; [lia|done|]. intros [?|?]; lia.
Qed.

Lemma len_abs_digits fuel k a :
  0 <= a < 256 ^ Z.of_nat k -> len (abs_digits fuel a) <= Z.of_nat (fuel `min` k).
Proof.
  revert k a. induction fuel as [|fuel IH]; intros k a Ha; [done|]. cbn [abs_digits].
  destruct (Z.eqb_spec a 0) as [|Hn]; [unfold len; simpl; lia|].
  destruct k as [|k]; [change (256 ^ Z.of_nat 0) with 1 in Ha; lia|].
  rewrite Nat2Z.inj_succ, Z.pow_succ_r in Ha by lia.
  rewrite Z.shiftr_div_pow2 by lia. change (2 ^ 8) with 256.
  pose proof (IH k (a / 256) ltac:(split; [apply Z.div_pos; lia|apply Z.div_lt_upper_bound; lia])).
  unfold len in *. cbn [length]. lia.
Qed.

(** The shape of the encoding of a non-zero number: its base-256 digits with
    the sign in the top bit, or in an extra byte when that bit is taken. *)
Lemma serialize_shape v :
  - 2 ^ 63 < v < 2 ^ 63 -> v <> 0 ->
  exists w b, Z.abs v = le_value (w ++ [b]) /\ ub b <> 0 /\ len (w ++ [b]) <= 8 /\
    scriptnum_serialize v =
      if ub b <? 128 then w ++ [u8 (ub b + (if v <? 0 then 128 else 0))]
      else (w ++ [b]) ++ [u8 (if v <? 0 then 128 else 0)].
Proof.
  intros Hv H0. destruct (abs_digits_last 8 (Z.abs v)) as (w & b & E & Hb); [simpl; lia|].
  pose proof (abs_digits_value 8 (Z.abs v) ltac:(simpl; lia)) as Ev. rewrite E in Ev.
  pose proof (len_abs_digits 8 8 (Z.abs v) ltac:(simpl; lia)) as El. rewrite E in El. simpl in El.
  exists w, b. split_and!; [done..|]. pose proof (ub_range b).
  assert (v = le_value (w ++ [b]) /\ (v <? 0) = false \/ v = - le_value (w ++ [b]) /\ (v <? 0) = true) as Hsign.
  { rewrite Ev. destruct (Z.ltb_spec v 0); [right|left]; lia. }
  destruct (Z.ltb_spec (ub b) 128).
  - destruct (serialize_pos w b) as [Hp Hn]; [lia..|]. destruct Hsign as [[-> ->]|[-> ->]]; [|done].
    by rewrite Z.add_0_r, u8_ub.
  - destruct (serialize_carry w b) as [Hp Hn]; [lia..|]. by destruct Hsign as [[-> ->]|[-> ->]].
Qed.

(** ** Lemmas on classification *)

Lemma IsPushOnly_push b : len b < 2 ^ 32 -> IsPushOnly (push_data b) = true.
Proof.
  intros Hb. unfold IsPushOnly. pose proof (GetOp2_push_data b [] Hb) as Hg. rewrite app_nil_r in Hg.
  destruct (push_data b) as [|x l] eqn:E; [done|]. cbn [length push_only_loop]. rewrite Hg.
  pose proof (push_code_range b). unfold OP_PUSHDATA4, OP_16 in *. split_ifs; [lia|]. by destruct (length l).
Qed.

(** A data-carrying output: nobody can spend it, and it is standard data. *)
Lemma Solver_null_data `{CryptoOps} b :
  len b < 2 ^ 32 -> Solver (push_opcode OP_RETURN ++ push_data b) = (true, Some TX_NULL_DATA, []) /\
  IsUnspendable (push_opcode OP_RETURN ++ push_data b) = true.
Proof.
  intros Hb. assert (0 < len (push_data b)).
  { pose proof (GetOp2_push_data b [] Hb) as Hg. rewrite app_nil_r in Hg. unfold len.
    destruct (push_data b); [done|]. simpl. lia. }
  unfold Solver, IsPayToScriptHash, IsWitnessProgram, IsUnspendable.
  rewrite len_app. change (len (push_opcode OP_RETURN)) with 1.
  change (byte_at (push_opcode OP_RETURN ++ push_data b) 0) with 106.
  change (drop 1 (push_opcode OP_RETURN ++ push_data b)) with (push_data b).
  change (106 =? OP_HASH160) with false. rewrite andb_false_r. cbn [andb].
  change (106 =? OP_RETURN) with true. rewrite IsPushOnly_push by done.
  change (negb (106 =? OP_0) && ((106 <? OP_1) || (OP_16 <? 106))) with true.
  rewrite (proj2 (Z.leb_le 1 _)), (proj2 (Z.ltb_lt 0 _)) by lia. cbn [andb orb]. split; [|done]. by split_ifs.
Qed.

Lemma Solver_P2PKH `{CryptoOps} id :
  Solver (GetScriptForDestination (CKeyID id)) = (true, Some TX_PUBKEYHASH, [ToByteVector id]).
Proof.
  unfold GetScriptForDestination, push_data, ToByteVector. rewrite !len_le_bytes.
  assert (forall v, length v = 20%nat ->
    Solver (push_opcode OP_DUP ++ push_opcode OP_HASH160 ++ ([u8 20] ++ v) ++ push_opcode OP_EQUALVERIFY ++
            push_opcode OP_CHECKSIG) = (true, Some TX_PUBKEYHASH, [v])) as Hs.
  { intros v Hv. do 20 (destruct v as [|? v]; [discriminate Hv|]). destruct v; [reflexivity|discriminate Hv]. }
  apply Hs. by rewrite length_le_bytes.
Qed.

Lemma Solver_P2SH `{CryptoOps} id :
  Solver (GetScriptForDestination (CScriptID id)) = (true, Some TX_SCRIPTHASH, [ToByteVector id]).
Proof.
  unfold GetScriptForDestination, push_data, ToByteVector. rewrite !len_le_bytes.
  assert (forall v, length v = 20%nat ->
    Solver (push_opcode OP_HASH160 ++ ([u8 20] ++ v) ++ push_opcode OP_EQUAL) = (true, Some TX_SCRIPTHASH, [v])) as Hs.
  { intros v Hv. do 20 (destruct v as [|? v]; [discriminate Hv|]). destruct v; [reflexivity|discriminate Hv]. }
  apply Hs. by rewrite length_le_bytes.
Qed.

(** ** Properties *)

(** script numbers and their minimal encodings are in bijection: a 64-bit
    number is read back from its encoding, the encoding passes the minimality
    rule, every vector of at most eight bytes that passes the rule is the
    encoding of its value, and a 32-bit operand takes at most four bytes. *)
Theorem CScriptNum_bijection :
  (forall v, - 2 ^ 63 < v < 2 ^ 63 ->
     CScriptNum_of (scriptnum_serialize v) true (len (scriptnum_serialize v)) = Ok v) /\
  (forall vch n v, n <= 8 -> CScriptNum_of vch true n = Ok v -> scriptnum_serialize v = vch) /\
  (forall v, - 2 ^ 31 < v < 2 ^ 31 -> len (scriptnum_serialize v) <= 4).
Proof.
  split_and!.
  - intros v Hv. destruct (Z.eq_dec v 0) as [->|H0]; [done|].
    destruct (serialize_shape v Hv H0) as (w & b & Ea & Hb & Hl & ->). pose proof (ub_range b).
    rewrite le_value_snoc in Ea. destruct (Z.ltb_spec (ub b) 128).
    + apply CScriptNum_of_snoc. rewrite len_app. change (len [_]) with 1. rewrite set_vch_snoc.
      destruct (Z.ltb_spec v 0); rewrite ub_u8_id by lia; split_and!; try lia; split_ifs; try lia.
    + apply CScriptNum_of_snoc. rewrite !len_app. change (len [_]) with 1. rewrite set_vch_snoc.
      rewrite le_value_snoc, ub_u8_id by (split_ifs; lia).
      split_and!; [lia|destruct (Z.ltb_spec v 0); [change (128 <? 128) with false|change (0 <? 128) with true]; cbv iota; lia|]. intros _. by exists w, b.
  - intros vch n v Hn. destruct vch as [|b w _] using rev_ind;
      [unfold CScriptNum_of, whenever; case_match; [done|by intros [= <-]]|].
    intros (Hl & -> & Hmin)%CScriptNum_of_snoc. rewrite set_vch_snoc. pose proof (ub_range b).
    destruct (Z.eq_dec (ub b) 0) as [E0|E0]; [|destruct (Z.eq_dec (ub b) 128) as [E1|E1]].
    + rewrite E0. destruct Hmin as (w' & c & -> & Hc); [auto|]. change (0 <? 128) with true. cbv iota.
      rewrite Z.mul_0_r, Z.add_0_r. rewrite (proj1 (serialize_carry w' c ltac:(lia) Hc)).
      f_equal. f_equal. apply ub_inj. by rewrite E0.
    + rewrite E1. destruct Hmin as (w' & c & -> & Hc); [auto|]. change (128 <? 128) with false. cbv iota.
      rewrite Z.mul_0_r, Z.add_0_r. rewrite (proj2 (serialize_carry w' c ltac:(lia) Hc)).
      f_equal. f_equal. apply ub_inj. by rewrite E1.
    + destruct (Z.ltb_spec (ub b) 128).
      * rewrite <- le_value_snoc. apply serialize_pos; [rewrite len_app; change (len [b]) with 1; lia|lia].
      * assert (Hub : ub (u8 (ub b - 128)) = ub b - 128) by (apply ub_u8_id; lia).
        rewrite <- Hub, <- le_value_snoc.
        rewrite (proj2 (serialize_pos w (u8 (ub b - 128)) ltac:(rewrite len_app; change (len [_]) with 1; lia) ltac:(lia))).
        rewrite Hub. f_equal. f_equal. apply ub_inj. rewrite ub_u8_id; lia.
  - intros v Hv. destruct (Z.eq_dec v 0) as [->|H0]; [done|].
    destruct (serialize_shape v ltac:(lia) H0) as (w & b & Ea & Hb & Hl & ->). pose proof (ub_range b).
    rewrite le_value_snoc in Ea. pose proof (le_value_bound w). pose proof (len_nonneg w).
    assert (len w < 4) by (apply (Z.pow_lt_mono_r_iff 256); [lia..|change (256 ^ 4) with (2 * 2 ^ 31); nia]).
    destruct (Z.ltb_spec (ub b) 128); rewrite ?len_app; change (len [_]) with 1; [lia|].
    destruct (Z.eq_dec (len w) 3) as [E3|]; [|lia]. rewrite E3 in *. change (256 ^ 3) with 16777216 in *. lia.
Qed.

(** the destination of an output script is recovered from the script that
    pays it, and a pushed payload is recovered from the script that pushes it. *)
Theorem standard_scripts_roundtrip `{CryptoOps} (id : Z) (payload rest : bytes) :
  0 <= id < 256 ^ 20 -> len payload < 2 ^ 32 ->
  ExtractDestination (GetScriptForDestination (CKeyID id)) = Some (CKeyID id) /\
  ExtractDestination (GetScriptForDestination (CScriptID id)) = Some (CScriptID id) /\
  GetOp2 (push_data payload ++ rest) = Some (push_code payload, payload, rest) /\
  Solver (push_opcode OP_RETURN ++ push_data payload) = (true, Some TX_NULL_DATA, []) /\
  IsUnspendable (push_opcode OP_RETURN ++ push_data payload) = true.
Proof.
  intros Hid Hp. unfold ExtractDestination. rewrite Solver_P2PKH, Solver_P2SH.
  unfold uint160_of, ToByteVector. rewrite le_value_bytes_id by done.
  split_and!; [done|done|by apply GetOp2_push_data|by apply Solver_null_data..].
Qed.

Lemma standard_scripts_roundtrip_witness :
  let ops := {| Hash160 := fun _ => 0; Sha256 := fun _ => 0; secp256k1_ec_pubkey_parse := fun _ => true |} in
  ExtractDestination (GetScriptForDestination (CKeyID 77)) = Some (CKeyID 77).
Proof.
  intros ops. apply (standard_scripts_roundtrip 77 [] []); unfold len; simpl; lia.
Defined.
