(* ===== verification/DerSignature.v ===== *)
(** * Signature encodings
      ([IsValidSignatureEncoding] of [src/src/script/interpreter.cpp],
      [ecdsa_signature_parse_der_lax], [CPubKey::Verify] and
      [CPubKey::CheckLowS] of [src/src/pubkey.cpp])

    The strict encoding that scripts may demand and the lenient parser that
    feeds the curve library.  A pointer into the input is the suffix it points
    to; a parsed signature of the library is its compact form, 64 bytes. *)

From S2P Require Import Prelude Script.
Open Scope Z_scope.
Open Scope kubu_scope.

(** The calls into secp256k1: whether both halves of a compact signature are
    below the order of the group; the normalised form and whether it differs;
    the verification of a normalised signature. *)
Class SignatureOps := {
  secp256k1_ecdsa_signature_parse_compact : bytes -> bool;
  secp256k1_ecdsa_signature_normalize : bytes -> bool * bytes;
  secp256k1_ecdsa_verify : bytes -> Z -> bytes -> bool
}.

Definition ix (i : Z) : nat := Z.to_nat i.

Definition IsValidSignatureEncoding (sig : bytes) : bool :=
  if len sig <? 9 then false
  else if 73 <? len sig then false
  else if negb (byte_at sig 0 =? 0x30) then false
  else if negb (byte_at sig 1 =? len sig - 3) then false
  else
    let lenR := byte_at sig 3 in
    if len sig <=? 5 + lenR then false
    else
      let lenS := byte_at sig (ix (5 + lenR)) in
      if negb (lenR + lenS + 7 =? len sig) then false
      else if negb (byte_at sig 2 =? 0x02) then false
      else if lenR =? 0 then false
      else if negb (Z.land (byte_at sig 4) 0x80 =? 0) then false
      else if (1 <? lenR) && (byte_at sig 4 =? 0) && (Z.land (byte_at sig 5) 0x80 =? 0) then false
      else if negb (byte_at sig (ix (lenR + 4)) =? 0x02) then false
      else if lenS =? 0 then false
      else if negb (Z.land (byte_at sig (ix (lenR + 6))) 0x80 =? 0) then false
      else if (1 <? lenS) && (byte_at sig (ix (lenR + 6)) =? 0) && (Z.land (byte_at sig (ix (lenR + 7))) 0x80 =? 0) then false
      else true.

(** ** The lenient parser *)

Definition be_value (v : bytes) : Z := le_value (reverse v).

(** The loop [while (lenbyte > 0 && input[pos] == 0)]. *)
Fixpoint skip_zeros (lenbyte : nat) (input : bytes) : nat * bytes :=
  match lenbyte, input with
  | S n, b :: input' => if ub b =? 0 then skip_zeros n input' else (lenbyte, input)
  | _, _ => (lenbyte, input)
  end.

(** An integer length at [input]: its value and the position after it. *)
Definition der_length (input : bytes) : option (Z * bytes) :=
  match input with
  | [] => None
  | b :: input =>
      if negb (Z.land (ub b) 0x80 =? 0) then
        let lenbyte := ub b - 0x80 in
        if len input <? lenbyte then None
        else
          let '(n, input) := skip_zeros (ix lenbyte) input in
          if (8 <=? n)%nat then None else Some (be_value (take n input), drop n input)
      else Some (ub b, input)
  end.

(** Tag, length and contents of an integer: its bytes and the position after it. *)
Definition der_integer (input : bytes) : option (bytes * bytes) :=
  match input with
  | [] => None
  | b :: input =>
      if negb (ub b =? 0x02) then None
      else
        match der_length input with
        | None => None
        | Some (rlen, input) => if len input <? rlen then None else Some (take (ix rlen) input, drop (ix rlen) input)
        end
  end.

(** Tag and length of the sequence, which is not looked at. *)
Definition der_sequence (input : bytes) : option bytes :=
  match input with
  | b :: l :: input =>
      if negb (ub b =? 0x30) then None
      else if negb (Z.land (ub l) 0x80 =? 0) then
        if len input <? ub l - 0x80 then None else Some (drop (ix (ub l - 0x80)) input)
      else Some input
  | _ => None
  end.

(** [memcpy(tmpsig + 32 - rlen, ...)] into zeroes. *)
Definition pad32 (v : bytes) : bytes := replicate (32 - length v) x00 ++ v.

Section Verify.
Context `{CryptoOps} `{SignatureOps}.

Definition compact_signature (r s : bytes) : bytes :=
  let r := (skip_zeros (length r) r).2 in
  let s := (skip_zeros (length s) s).2 in
  let tmpsig := pad32 r ++ pad32 s in
  if (32 <? len r) || (32 <? len s) || negb (secp256k1_ecdsa_signature_parse_compact tmpsig)
  then replicate 64 x00 else tmpsig.

Definition ecdsa_signature_parse_der_lax (input : bytes) : option bytes :=
  match der_sequence input with
  | None => None
  | Some input =>
      match der_integer input with
      | None => None
      | Some (r, input) =>
          match der_integer input with
          | None => None
          | Some (s, _) => Some (compact_signature r s)
          end
      end
  end.

Definition pubkey_Verify (pubkey : bytes) (hash : Z) (vchSig : bytes) : bool :=
  if negb (IsValid pubkey) then false
  else if negb (secp256k1_ec_pubkey_parse pubkey) then false
  else if len vchSig =? 0 then false
  else match ecdsa_signature_parse_der_lax vchSig with
       | None => false
       | Some sig => secp256k1_ecdsa_verify (secp256k1_ecdsa_signature_normalize sig).2 hash pubkey
       end.

Definition CheckLowS (vchSig : bytes) : bool :=
  match ecdsa_signature_parse_der_lax vchSig with
  | None => false
  | Some sig => negb (secp256k1_ecdsa_signature_normalize sig).1
  end.

End Verify.

(** ** What the strict encoding is *)

(** Shortest positive integers. *)
Definition der_int (v : bytes) : Prop :=
  (0 < length v)%nat /\ byte_at v 0 < 128 /\ ((1 < length v)%nat -> byte_at v 0 = 0 -> 128 <= byte_at v 1).

Definition der_signature (r s : bytes) (hashtype : byte) : bytes :=
  [x30; u8 (4 + len r + len s); x02; u8 (len r)] ++ r ++ [x02; u8 (len s)] ++ s ++ [hashtype].

Lemma byte_at_app_r a b i : (length a <= i)%nat -> byte_at (a ++ b) i = byte_at b (i - length a).
Proof. intros Hi. unfold byte_at. by rewrite lookup_app_r. Qed.
Lemma byte_at_app_l a b i : (i < length a)%nat -> byte_at (a ++ b) i = byte_at a i.
Proof. intros Hi. unfold byte_at. by rewrite lookup_app_l. Qed.
Lemma byte_at_range v i : 0 <= byte_at v i < 256.
Proof. unfold byte_at. destruct (v !! i); [apply ub_range|lia]. Qed.
Lemma byte_at_high v i : (Z.land (byte_at v i) 128 =? 0) = (byte_at v i <? 128).
Proof. rewrite digit_high by apply byte_at_range. destruct (Z.ltb_spec (byte_at v i) 128); done. Qed.
Lemma byte_at_take v n i : (i < n)%nat -> byte_at (take n v) i = byte_at v i.
Proof. intros Hi. unfold byte_at. by rewrite lookup_take_lt. Qed.
Lemma byte_at_drop v n i : byte_at (drop n v) i = byte_at v (n + i).
Proof. unfold byte_at. by rewrite lookup_drop. Qed.

(** The five tests of an integer with its length. *)
Definition der_int_b (n : Z) (b0 b1 : Z) : bool :=
  negb (n =? 0) && (Z.land b0 0x80 =? 0) && negb ((1 <? n) && (b0 =? 0) && (Z.land b1 0x80 =? 0)).
Lemma der_int_spec v n b0 b1 :
  n = len v -> ((0 < length v)%nat -> b0 = byte_at v 0) -> ((1 < length v)%nat -> b1 = byte_at v 1) ->
  der_int_b n b0 b1 = true <-> der_int v.
Proof.
  intros -> H0 H1. unfold der_int_b, der_int, len.
  destruct (Nat.eq_dec (length v) 0) as [E|E]; [rewrite E; cbn; split; [done|lia]|].
  rewrite (H0 ltac:(lia)), byte_at_high. rewrite (proj2 (Z.eqb_neq _ _)) by lia. cbn [negb andb].
  destruct (Nat.eq_dec (length v) 1) as [E1|E1].
  - rewrite E1. cbn. rewrite andb_true_r, Z.ltb_lt. split; [intros; split_and!; (done || lia)|tauto].
  - rewrite (H1 ltac:(lia)), byte_at_high. rewrite (proj2 (Z.ltb_lt 1 _)) by lia. cbn [andb].
    rewrite andb_true_iff, negb_true_iff, andb_false_iff, Z.eqb_neq, Z.ltb_lt, Z.ltb_ge.
    pose proof (byte_at_range v 0). split; [intros [? [?|?]]; split_and!; lia|].
    intros (_ & Hb & Hp). split; [done|]. destruct (Z.eq_dec (byte_at v 0) 0); [right; apply Hp; lia|by left].
Qed.

Section Parts.
Context (b0 b1 b2 b3 c0 c1 ht : byte) (r s : bytes).
Context (Hb3 : ub b3 = len r) (Hc1 : ub c1 = len s).
Let sig : bytes := b0 :: b1 :: b2 :: b3 :: r ++ c0 :: c1 :: s ++ [ht].

Lemma encoding_len : len sig = 7 + len r + len s.
Proof. unfold sig, len. cbn [length]. rewrite length_app. cbn [length]. rewrite length_app. cbn [length]. lia. Qed.
Lemma encoding_at k i : i = 4 + len r + Z.of_nat k -> byte_at sig (ix i) = byte_at (c0 :: c1 :: s ++ [ht]) k.
Proof.
  intros ->. unfold sig. change (b0 :: b1 :: b2 :: b3 :: r ++ c0 :: c1 :: s ++ [ht]) with ([b0; b1; b2; b3] ++ r ++ c0 :: c1 :: s ++ [ht]).
  rewrite app_assoc, byte_at_app_r; rewrite length_app; unfold ix, len; cbn [length]; [f_equal; lia|lia].
Qed.
Lemma encoding_r k : (k < length r)%nat -> byte_at sig (4 + k) = byte_at r k.
Proof. intros Hk. unfold sig. rewrite <- (byte_at_app_l r (c0 :: c1 :: s ++ [ht]) k Hk). reflexivity. Qed.

Lemma encoding_parts : IsValidSignatureEncoding sig = true <->
  9 <= len sig <= 73 /\ ub b0 = 0x30 /\ ub b1 = len sig - 3 /\ ub b2 = 2 /\ ub c0 = 2 /\ der_int r /\ der_int s.
Proof.
  rewrite <- (der_int_spec r (len r) (byte_at sig 4) (byte_at sig 5) eq_refl (encoding_r 0) (encoding_r 1)).
  rewrite <- (der_int_spec s (len s) (byte_at sig (ix (4 + len r + 2))) (byte_at sig (ix (4 + len r + 3))) eq_refl).
  2: intros; rewrite (encoding_at 2) by lia; cbn; by rewrite <- (byte_at_app_l s [ht] 0).
  2: intros; rewrite (encoding_at 3) by lia; cbn; by rewrite <- (byte_at_app_l s [ht] 1).
  pose proof (encoding_at 0 (4 + len r) ltac:(lia)) as E0. pose proof (encoding_at 1 (4 + len r + 1) ltac:(lia)) as E1.
  unfold IsValidSignatureEncoding, der_int_b.
  change (byte_at sig 0) with (ub b0). change (byte_at sig 1) with (ub b1). change (byte_at sig 2) with (ub b2).
  change (byte_at sig 3) with (ub b3). rewrite Hb3.
  replace (5 + len r) with (4 + len r + 1) by lia. replace (len r + 4) with (4 + len r) by lia.
  replace (len r + 6) with (4 + len r + 2) by lia. replace (len r + 7) with (4 + len r + 3) by lia.
  rewrite E0, E1. change (byte_at (c0 :: _) 0) with (ub c0). change (byte_at (c0 :: c1 :: _) 1) with (ub c1).
  rewrite Hc1, !encoding_len. pose proof (len_nonneg r). pose proof (len_nonneg s).
  rewrite (proj2 (Z.leb_gt _ _)) by lia. rewrite (proj2 (Z.eqb_eq (len r + len s + 7) _)) by lia. cbn [negb].
  destruct (Z.ltb_spec (7 + len r + len s) 9); [split; [done|lia]|].
  destruct (Z.ltb_spec 73 (7 + len r + len s)); [split; [done|lia]|].
  destruct (Z.eqb_spec (ub b0) 48); cbn [negb]; [|split; [done|lia]].
  destruct (Z.eqb_spec (ub b1) (7 + len r + len s - 3)); cbn [negb]; [|split; [done|lia]].
  destruct (Z.eqb_spec (ub b2) 2); cbn [negb]; [|split; [done|lia]].
  destruct (Z.eqb_spec (ub c0) 2); cbn [negb].
  2:{ split; [|lia]. split_ifs; done. }
  destruct (len r =? 0), (Z.land (byte_at sig 4) 128 =? 0), ((1 <? len r) && _ && _); cbn; try (split; [done|tauto || naive_solver]).
  destruct (len s =? 0), (Z.land (byte_at sig (ix (4 + len r + 2))) 128 =? 0), ((1 <? len s) && _ && _); cbn; intuition (done || lia).
Qed.
End Parts.

Lemma split_at (v : bytes) n : 0 <= n <= len v -> exists a b, v = a ++ b /\ len a = n.
Proof.
  intros Hn. exists (take (ix n) v), (drop (ix n) v). rewrite take_drop. split; [done|].
  unfold len, ix in *. rewrite length_take. lia.
Qed.

Lemma encoding_shape sig : IsValidSignatureEncoding sig = true ->
  exists b0 b1 b2 b3 r c0 c1 s ht,
    sig = b0 :: b1 :: b2 :: b3 :: r ++ c0 :: c1 :: s ++ [ht] /\ ub b3 = len r /\ ub c1 = len s.
Proof.
  unfold IsValidSignatureEncoding. destruct (Z.ltb_spec (len sig) 9) as [|H9]; [done|].
  destruct sig as [|b0 [|b1 [|b2 [|b3 t]]]]; try (unfold len in H9; cbn in H9; lia).
  assert (len (b0 :: b1 :: b2 :: b3 :: t) = 4 + len t) as El by (unfold len; cbn [length]; lia). rewrite El in *.
  change (byte_at (b0 :: b1 :: b2 :: b3 :: t) 3) with (ub b3). pose proof (ub_range b3) as Hb3.
  destruct (73 <? 4 + len t); [done|]. destruct (negb (byte_at _ 0 =? 48)); [done|]. destruct (negb (byte_at _ 1 =? _)); [done|].
  destruct (Z.leb_spec (4 + len t) (5 + ub b3)) as [|H5]; [done|].
  destruct (split_at t (ub b3) ltac:(lia)) as (r & t' & -> & Hr). rewrite len_app in *.
  destruct t' as [|c0 [|c1 u]]; [unfold len at 2 in H5; cbn in H5; lia|unfold len at 2 in H5; cbn in H5; lia|].
  assert (byte_at (b0 :: b1 :: b2 :: b3 :: r ++ c0 :: c1 :: u) (ix (5 + ub b3)) = ub c1) as ->.
  { change (b0 :: b1 :: b2 :: b3 :: r ++ c0 :: c1 :: u) with ([b0; b1; b2; b3] ++ r ++ c0 :: c1 :: u).
    rewrite app_assoc, byte_at_app_r; rewrite length_app; unfold ix, len in *; cbn [length]; [|lia].
    by replace (Z.to_nat (5 + ub b3) - (4 + length r))%nat with 1%nat by lia. }
  destruct (Z.eqb_spec (ub b3 + ub c1 + 7) (4 + (len r + len (c0 :: c1 :: u)))) as [Hs|]; [|done]. intros _.
  assert (len (c0 :: c1 :: u) = 2 + len u) as E2 by (unfold len; cbn [length]; lia).
  destruct (split_at u (ub c1) ltac:(pose proof (ub_range c1); lia)) as (s & w & -> & Hlen). rewrite len_app in E2.
  assert (len w = 1) as Hw by lia. destruct w as [|ht [|]]; [done| |unfold len in Hw; cbn [length] in Hw; lia].
  exists b0, b1, b2, b3, r, c0, c1, s, ht. by split_and!.
Qed.

Lemma byte_is b z : 0 <= z < 256 -> ub b = z -> b = u8 z.
Proof. intros Hz <-. by rewrite u8_ub. Qed.

Lemma strict_encoding sig : IsValidSignatureEncoding sig = true <->
  exists r s ht, sig = der_signature r s ht /\ der_int r /\ der_int s /\ len r + len s <= 66.
Proof.
  split.
  - intros Hv. pose proof Hv as Hs. apply encoding_shape in Hs as (b0 & b1 & b2 & b3 & r & c0 & c1 & s & ht & -> & Hb3 & Hc1).
    apply encoding_parts in Hv as (Hl & H0 & H1 & H2 & H3 & Hr & Hs); [|done|done]. rewrite encoding_len in Hl, H1.
    exists r, s, ht. split_and!; [|done|done|lia]. unfold der_signature. cbn [app].
    apply byte_is in H0, H1, H2, H3, Hb3, Hc1; try lia; pose proof (len_nonneg r); pose proof (len_nonneg s); try lia.
    rewrite H0, H1, H2, H3, Hb3, Hc1. by replace (7 + len r + len s - 3) with (4 + len r + len s) by lia.
  - intros (r & s & ht & -> & Hr & Hs & Hl). unfold der_signature. cbn [app].
    pose proof (len_nonneg r). pose proof (len_nonneg s). destruct Hr as [Hr0 Hr], Hs as [Hs0 Hs].
    apply encoding_parts; [by rewrite ub_u8_id by lia|by rewrite ub_u8_id by lia|]. rewrite encoding_len, ub_u8_id by lia.
    split_and!; try done; try lia; unfold len in *; lia.
Qed.

Lemma be_value_cons b v : be_value (b :: v) = ub b * 256 ^ len v + be_value v.
Proof. unfold be_value. rewrite reverse_cons, le_value_snoc. unfold len. rewrite length_reverse. lia. Qed.
Lemma be_value_range v : 0 <= be_value v < 256 ^ len v.
Proof. unfold be_value. pose proof (le_value_bound (reverse v)) as E. unfold len in *. by rewrite length_reverse in E. Qed.
Lemma be_value_inj v w : length v = length w -> be_value v = be_value w -> v = w.
Proof.
  intros Hl E. unfold be_value in E.
  rewrite <- (reverse_involutive v), <- (reverse_involutive w). f_equal.
  rewrite <- (le_bytes_value (reverse v)), <- (le_bytes_value (reverse w)), !length_reverse, Hl, E. done.
Qed.

Lemma der_int_bounds v : der_int v ->
  be_value v < 128 * 256 ^ (len v - 1) /\ (1 < len v -> 128 * 256 ^ (len v - 2) <= be_value v).
Proof.
  intros (H0 & Hp & Hm). destruct v as [|b v]; [cbn in H0; lia|]. change (byte_at (b :: v) 0) with (ub b) in *.
  assert (len (b :: v) = 1 + len v) as -> by (unfold len; cbn [length]; lia).
  replace (1 + len v - 1) with (len v) by lia. rewrite be_value_cons. pose proof (be_value_range v) as Hv. pose proof (ub_range b) as Hb.
  split; [nia|]. intros Hl. destruct v as [|c v]; [unfold len in Hl; cbn in Hl; lia|]. change (byte_at (b :: c :: v) 1) with (ub c) in Hm.
  rewrite be_value_cons in *. pose proof (be_value_range v) as Hw.
  assert (len (c :: v) = 1 + len v) as E by (unfold len; cbn [length]; lia). rewrite E in *. replace (1 + (1 + len v) - 2) with (len v) by lia.
  rewrite (Z.pow_add_r 256 1 (len v) ltac:(lia) (len_nonneg v)) in *. change (256 ^ 1) with 256 in *.
  pose proof (Z.pow_pos_nonneg 256 (len v) ltac:(lia) (len_nonneg v)). pose proof (ub_range c).
  destruct (Z.eq_dec (ub b) 0) as [Eb|Eb]; [specialize (Hm ltac:(cbn [length]; lia) Eb); nia|]. nia.
Qed.

Lemma der_int_inj v w : der_int v -> der_int w -> be_value v = be_value w -> v = w.
Proof.
  intros Hv Hw E. apply be_value_inj; [|done].
  destruct (der_int_bounds v Hv) as [Uv Lv], (der_int_bounds w Hw) as [Uw Lw]. destruct Hv as [Hv _], Hw as [Hw _].
  assert (forall a b, 1 <= a -> a < b -> 128 * 256 ^ (a - 1) <= 128 * 256 ^ (b - 2)) as Hmono.
  { intros a b Ha Hab. apply Z.mul_le_mono_nonneg_l; [lia|]. apply Z.pow_le_mono_r; lia. }
  destruct (Z.lt_trichotomy (len v) (len w)) as [Hlt|[Heq|Hgt]]; [|unfold len in Heq; lia|].
  - pose proof (Hmono (len v) (len w) ltac:(unfold len; lia) Hlt). specialize (Lw ltac:(unfold len in *; lia)). lia.
  - pose proof (Hmono (len w) (len v) ltac:(unfold len; lia) Hgt). specialize (Lv ltac:(unfold len in *; lia)). lia.
Qed.

(** A short length and its contents, read by the lenient parser. *)
Lemma der_integer_app v rest : len v < 128 -> der_integer (x02 :: u8 (len v) :: v ++ rest) = Some (v, rest).
Proof.
  intros Hl. pose proof (len_nonneg v). unfold der_integer, der_length. change (negb (ub x02 =? 2)) with false. cbn iota.
  rewrite ub_u8_id by lia. rewrite digit_high by lia. rewrite (proj2 (Z.ltb_lt _ _)) by lia. cbn [Z.eqb negb].
  rewrite len_app. pose proof (len_nonneg rest). rewrite (proj2 (Z.ltb_ge _ _)) by lia.
  unfold ix, len. rewrite Nat2Z.id, take_app_length, drop_app_length. done.
Qed.

(** C33: a signature of the strict encoding is the sequence of two shortest
    positive integers and a hash type; the lenient parser reads exactly these
    two integers from it; and it is the only strict encoding of its two
    numbers, so nobody can write the signature in another way. *)
Theorem strict_signatures_canonical `{SignatureOps} (sig : bytes) :
  IsValidSignatureEncoding sig = true ->
  exists r s ht, sig = der_signature r s ht /\
    ecdsa_signature_parse_der_lax (take (length sig - 1) sig) = Some (compact_signature r s) /\
    forall r' s', der_int r' -> der_int s' -> be_value r' = be_value r -> be_value s' = be_value s -> der_signature r' s' ht = sig.
Proof.
  intros Hv. apply strict_encoding in Hv as (r & s & ht & -> & Hr & Hs & Hl). exists r, s, ht. split; [done|]. split.
  - assert (take (length (der_signature r s ht) - 1) (der_signature r s ht)
      = x30 :: u8 (4 + len r + len s) :: x02 :: u8 (len r) :: r ++ x02 :: u8 (len s) :: s ++ []) as ->.
    { unfold der_signature. rewrite app_nil_r. rewrite !app_assoc. rewrite length_app. cbn [length]. rewrite Nat.add_sub, take_app_length.
      by rewrite <- !app_assoc. }
    pose proof (len_nonneg r). pose proof (len_nonneg s). unfold ecdsa_signature_parse_der_lax, der_sequence.
    change (negb (ub x30 =? 48)) with false. cbn iota. rewrite ub_u8_id by lia. rewrite digit_high by lia.
    rewrite (proj2 (Z.ltb_lt _ _)) by lia. cbn [Z.eqb negb]. rewrite der_integer_app by lia. by rewrite der_integer_app by lia.
  - intros r' s' Hr' Hs' Er Es. by rewrite (der_int_inj r' r), (der_int_inj s' s).
Qed.

Module DerExample.

#[export] Instance demo_signatures : SignatureOps := {|
  secp256k1_ecdsa_signature_parse_compact := fun _ => true;
  secp256k1_ecdsa_signature_normalize := fun v => (false, v);
  secp256k1_ecdsa_verify := fun v hash _ => le_value (reverse (take 32 v)) =? hash
|}.

Definition demo_sig : bytes := der_signature [x00; x90] [x02] x01.

Lemma strict_signatures_canonical_witness : exists r s ht, demo_sig = der_signature r s ht /\
  ecdsa_signature_parse_der_lax (take 9 demo_sig) = Some (compact_signature r s).
Proof.
  destruct (strict_signatures_canonical demo_sig) as (r & s & ht & E & Hlax & _); [reflexivity|].
  exists r, s, ht. split; [exact E|exact Hlax].
Defined.

(** A longer length descriptor and trailing bytes pass the lenient parser only. *)
Example lenient_sig :
  let sig := [x30; x81; x07; x02; x01; x05; x02; x01; x06; xff; xff] in
  IsValidSignatureEncoding (sig ++ [x01]) = false /\
  ecdsa_signature_parse_der_lax sig = Some (compact_signature [x05] [x06]).
Proof. split; reflexivity. Qed.

End DerExample.
