(* ===== verification/Base58.v ===== *)
(** * Base58 and addresses ([src/src/base58.cpp], [base58.h], prefixes of [chainparams.cpp])

    The conversion loops work in place on a big-endian array from its right
    end; here the array is the list in the order the loop visits it, least
    digit first.  A failing [assert] is [Err].  An address is its version and
    data bytes; [AddressCodec] is what the rest of the program uses of it. *)

From S2P Require Import Prelude Nicknames Script.
Open Scope Z_scope.

Notation chars := String.list_ascii_of_string.

(** ** The conversion loop *)

(** [for (it = rbegin; (carry != 0 || i < length) && it != rend; ++it, ++i)
    { carry += m * *it; *it = carry % b; carry /= b; }] *)
Fixpoint mul_add (m b : Z) (digits : list Z) (carry : Z) (i length : nat) : list Z * Z * nat :=
  match digits with
  | [] => ([], carry, i)
  | d :: ds =>
      if (carry =? 0) && (length <=? i)%nat then (digits, carry, i)
      else
        let carry := carry + m * d in
        let '(ds', carry', i') := mul_add m b ds (Z.quot carry b) (S i) length in
        (Z.rem carry b :: ds', carry', i')
  end.

Definition assert_carry : string := "assertion carry == 0 failed".

(** The array from its first non-zero digit on, most significant first. *)
Fixpoint skip_zeroes (digits : list Z) : list Z :=
  match digits with
  | d :: ds => if d =? 0 then skip_zeroes ds else digits
  | [] => []
  end.

Definition result_digits (digits : list Z) (length : nat) : list Z :=
  skip_zeroes (drop (List.length digits - length) (reverse digits)).

(** The loop over the digits of a number in base [m], most significant first. *)
Fixpoint digit_loop (m b : Z) (ds : list Z) (arr : list Z) (length : nat) : result (list Z * nat) :=
  match ds with
  | [] => Ok (arr, length)
  | d :: ds' =>
      let '(arr', carry, i) := mul_add m b arr d O length in
      if carry =? 0 then digit_loop m b ds' arr' i else Err assert_carry
  end.

(** The numbers that digit strings denote, least and most significant first. *)
Fixpoint value_le (b : Z) (l : list Z) : Z :=
  match l with [] => 0 | d :: l' => d + b * value_le b l' end.
Definition value_be (b : Z) (l : list Z) : Z := value_le b (reverse l).

Definition in_base (b : Z) (l : list Z) : Prop := Forall (fun d => 0 <= d < b) l.
Definition no_leading_zero (l : list Z) : Prop := forall d, head l = Some d -> d <> 0.

(** ** The alphabet *)

Definition pszBase58 : string := "123456789ABCDEFGHJKLMNPQRSTUVWXYZabcdefghijkmnopqrstuvwxyz".

(** [pszBase58[d]] *)
Definition base58_char (d : Z) : Ascii.ascii := default Ascii.zero (chars pszBase58 !! Z.to_nat d).

(** [strchr(pszBase58, c) - pszBase58], for a character that is not NUL. *)
Fixpoint index_of (c : Ascii.ascii) (l : list Ascii.ascii) (i : Z) : option Z :=
  match l with
  | [] => None
  | d :: l' => if Ascii.eqb c d then Some i else index_of c l' (i + 1)
  end.
Definition base58_digit (c : Ascii.ascii) : option Z := index_of c (chars pszBase58) 0.

(** ** Encoding *)

Fixpoint count_zeroes (v : bytes) : nat * bytes :=
  match v with
  | c :: v' => if ub c =? 0 then let '(n, r) := count_zeroes v' in (S n, r) else (O, v)
  | [] => (O, [])
  end.

Fixpoint encode_loop (v : bytes) (b58 : list Z) (length : nat) : result (list Z * nat) :=
  match v with
  | [] => Ok (b58, length)
  | c :: v' =>
      let '(b58', carry, i) := mul_add 256 58 b58 (ub c) O length in
      if carry =? 0 then encode_loop v' b58' i else Err assert_carry
  end.

Definition EncodeBase58 (v : bytes) : result string :=
  let '(zeroes, rest) := count_zeroes v in
  let size := i32 (Z.quot (len rest * 138) 100 + 1) in
  '(b58, length) ← encode_loop rest (replicate (Z.to_nat size) 0) O;
  Ok (String.string_of_list_ascii
        (replicate zeroes (Nicknames.chr 49) ++ (base58_char <$> result_digits b58 length))).

(** ** Decoding *)

(** [str.c_str()]: the characters before the first NUL. *)
Fixpoint c_str (l : list Ascii.ascii) : list Ascii.ascii :=
  match l with
  | c :: l' => if Nicknames.code c =? 0 then [] else c :: c_str l'
  | [] => []
  end.

Fixpoint count_ones (psz : list Ascii.ascii) : nat * list Ascii.ascii :=
  match psz with
  | c :: psz' => if Nicknames.code c =? 49 then let '(n, r) := count_ones psz' in (S n, r) else (O, psz)
  | [] => (O, [])
  end.

(** [while ( *psz && !isspace( *psz))]; [inr] is the array, its length and the
    rest of the string, [inl tt] the [return false]. *)
Fixpoint decode_loop (psz : list Ascii.ascii) (b256 : list Z) (length : nat)
    : result (unit + list Z * nat * list Ascii.ascii) :=
  match psz with
  | [] => Ok (inr (b256, length, []))
  | c :: psz' =>
      if Nicknames.isspace c then Ok (inr (b256, length, psz))
      else
        match base58_digit c with
        | None => Ok (inl tt)
        | Some ch =>
            let '(b256', carry, i) := mul_add 58 256 b256 ch O length in
            if carry =? 0 then decode_loop psz' b256' i else Err assert_carry
        end
  end.

(** [None] is the [return false]. *)
Definition DecodeBase58 (str : string) : result (option bytes) :=
  let psz := Nicknames.trim_start (c_str (chars str)) in
  let '(zeroes, psz) := count_ones psz in
  let size := i32 (Z.quot (Z.of_nat (List.length psz) * 733) 1000 + 1) in
  r ← decode_loop psz (replicate (Z.to_nat size) 0) O;
  match r with
  | inl _ => Ok None
  | inr (b256, length, rest) =>
      match Nicknames.trim_start rest with
      | _ :: _ => Ok None
      | [] => Ok (Some (replicate zeroes x00 ++ (u8 <$> result_digits b256 length)))
      end
  end.

(** ** Checked encoding *)

Section Checked.
Context `{CryptoOps}.

(** [Hash(begin, end)], SHA-256 twice. *)
Definition Hash (v : bytes) : Z := Sha256 (le_bytes 32 (Sha256 v)).

Definition EncodeBase58Check (vchIn : bytes) : result string :=
  EncodeBase58 (vchIn ++ take 4 (le_bytes 32 (Hash vchIn))).

Definition DecodeBase58Check (str : string) : result (option bytes) :=
  r ← DecodeBase58 str;
  match r with
  | None => Ok None
  | Some vch =>
      if (length vch <? 4)%nat then Ok None
      else
        let body := take (length vch - 4) vch in
        if bool_decide (take 4 (le_bytes 32 (Hash body)) = drop (length vch - 4) vch)
        then Ok (Some body) else Ok None
  end.

(** ** Addresses *)

Record Prefixes := mkPrefixes { PUBKEY_ADDRESS : Z; SCRIPT_ADDRESS : Z }.
Definition main_prefixes : Prefixes := mkPrefixes 45 22.
Definition test_prefixes : Prefixes := mkPrefixes 113 196.
Definition regtest_prefixes : Prefixes := mkPrefixes 111 196.

Record CBase58Data := mkBase58Data { vchVersion : bytes; vchData : bytes }.

Definition SetString (str : string) : result CBase58Data :=
  r ← DecodeBase58Check str;
  match r with
  | Some (v :: data) => Ok (mkBase58Data [v] data)
  | _ => Ok (mkBase58Data [] [])
  end.

Definition ToString (a : CBase58Data) : result string := EncodeBase58Check (vchVersion a ++ vchData a).

Definition SetDestination (params : Prefixes) (dest : CTxDestination) : CBase58Data :=
  match dest with
  | CKeyID id => mkBase58Data [u8 (PUBKEY_ADDRESS params)] (le_bytes 20 id)
  | CScriptID id => mkBase58Data [u8 (SCRIPT_ADDRESS params)] (le_bytes 20 id)
  | CNoDestination => mkBase58Data [] []
  end.

Definition address_IsValid (params : Prefixes) (a : CBase58Data) : bool :=
  (length (vchData a) =? 20)%nat &&
  (bool_decide (vchVersion a = [u8 (PUBKEY_ADDRESS params)]) ||
   bool_decide (vchVersion a = [u8 (SCRIPT_ADDRESS params)])).

Definition address_Get (params : Prefixes) (a : CBase58Data) : CTxDestination :=
  if negb (address_IsValid params a) then CNoDestination
  else if bool_decide (vchVersion a = [u8 (PUBKEY_ADDRESS params)]) then CKeyID (le_value (vchData a))
  else if bool_decide (vchVersion a = [u8 (SCRIPT_ADDRESS params)]) then CScriptID (le_value (vchData a))
  else CNoDestination.

End Checked.

(** ** What the program relies on

    [address_parse] is [CBitcoinAddress(s)] with [IsValid] and [Get],
    [address_print] is [CBitcoinAddress(dest).ToString()]. *)

Class AddressOps := {
  address_parse : string -> option CTxDestination;
  address_print : CTxDestination -> string;
}.

Definition id_ok (dest : CTxDestination) : Prop :=
  match dest with
  | CKeyID id | CScriptID id => 0 <= id < 256 ^ 20
  | CNoDestination => False
  end.

Class AddressCodec `{AddressOps} : Prop := {
  address_parse_print : forall dest, id_ok dest -> address_parse (address_print dest) = Some dest;
  address_parse_id : forall s dest, address_parse s = Some dest -> id_ok dest;
}.

Definition base58_parse `{CryptoOps} (params : Prefixes) (s : string) : option CTxDestination :=
  match SetString s with
  | Ok a => if address_IsValid params a then Some (address_Get params a) else None
  | Err _ => None
  end.
Definition base58_print `{CryptoOps} (params : Prefixes) (dest : CTxDestination) : string :=
  match ToString (SetDestination params dest) with Ok s => s | Err _ => "" end.

Definition base58_ops `{CryptoOps} (params : Prefixes) : AddressOps :=
  {| address_parse := base58_parse params; address_print := base58_print params |}.

(** ** Lemmas: digits *)

Lemma pow_S b (n : nat) : b ^ Z.of_nat (S n) = b * b ^ Z.of_nat n.
Proof. rewrite Nat2Z.inj_succ, Z.pow_succ_r by lia. done. Qed.

Lemma value_le_zero b l : Forall (fun d => d = 0) l -> value_le b l = 0.
Proof. induction 1 as [|d l -> _ IH]; [done|]. cbn. lia. Qed.

Lemma value_le_bound b l : 0 < b -> in_base b l -> 0 <= value_le b l < b ^ Z.of_nat (length l).
Proof.
  intros Hb. induction 1 as [|d l Hd _ IH]; [cbn; lia|]. cbn [value_le length]. rewrite pow_S. nia.
Qed.

Lemma value_le_app b l1 l2 : value_le b (l1 ++ l2) = value_le b l1 + b ^ Z.of_nat (length l1) * value_le b l2.
Proof.
  induction l1 as [|d l1 IH]; [cbn [app value_le length]; change (Z.of_nat 0) with 0; lia|].
  cbn [app value_le length]. rewrite pow_S, IH. ring.
Qed.

Lemma value_be_snoc b l d : value_be b (l ++ [d]) = value_be b l * b + d.
Proof. unfold value_be. rewrite reverse_snoc. cbn. ring. Qed.

Lemma value_be_cons b d l : value_be b (d :: l) = d * b ^ Z.of_nat (length l) + value_be b l.
Proof. unfold value_be. rewrite reverse_cons, value_le_app, length_reverse. cbn. ring. Qed.

Lemma mul_add_spec m b digits carry i n :
  1 < b -> 0 <= m -> in_base b digits -> 0 <= carry ->
  Forall (fun d => d = 0) (drop (n - i) digits) ->
  let '(ds', c', i') := mul_add m b digits carry i n in
  length ds' = length digits /\ in_base b ds' /\ 0 <= c' /\ (i <= i')%nat /\
  Forall (fun d => d = 0) (drop (i' - i) ds') /\
  value_le b ds' + c' * b ^ Z.of_nat (length digits) = m * value_le b digits + carry.
Proof.
  intros Hb Hm. revert carry i. induction digits as [|d ds IH]; intros carry i Hd Hc Hz; cbn [mul_add].
  { cbn [length value_le]. change (b ^ Z.of_nat 0) with 1. split_and!; [done|done|lia|lia|by rewrite drop_nil|lia]. }
  destruct ((carry =? 0) && (n <=? i)%nat) eqn:E.
  - zbool. subst. replace (n - i)%nat with O in Hz by lia. cbn [drop] in Hz.
    rewrite Nat.sub_diag. split_and!; [done|done|lia|lia|done|]. rewrite value_le_zero by done. lia.
  - apply Forall_cons in Hd as [Hd Hds].
    assert (0 <= carry + m * d) by nia. rewrite Z.quot_div_nonneg, Z.rem_mod_nonneg by lia.
    assert (Hz' : Forall (fun d => d = 0) (drop (n - S i) ds)).
    { destruct (n - i)%nat as [|k] eqn:Ek.
      - replace (n - S i)%nat with O by lia. cbn in Hz. by apply Forall_cons in Hz as [_ ?].
      - replace (n - S i)%nat with k by lia. done. }
    specialize (IH ((carry + m * d) / b) (S i) Hds ltac:(apply Z.div_pos; lia) Hz').
    destruct (mul_add m b ds _ (S i) n) as [[ds' c'] i']. destruct IH as (El & Hr & Hc' & Hi & Hz'' & Ev).
    pose proof (Z.mod_pos_bound (carry + m * d) b ltac:(lia)).
    pose proof (Z.div_mod (carry + m * d) b ltac:(lia)).
    split_and!; [cbn; lia|by constructor|done|lia| |].
    + replace (i' - i)%nat with (S (i' - S i)) by lia. done.
    + cbn [length value_le]. rewrite pow_S. nia.
Qed.

(** The array is large enough, so no carry is left. *)
Lemma digit_loop_spec m b ds arr n (k : nat) :
  1 < b -> 0 < m -> in_base m ds -> in_base b arr -> Forall (fun d => d = 0) (drop n arr) ->
  value_le b arr < m ^ Z.of_nat k -> m ^ Z.of_nat (k + length ds) <= b ^ Z.of_nat (length arr) ->
  exists arr' n', digit_loop m b ds arr n = Ok (arr', n') /\
    length arr' = length arr /\ in_base b arr' /\ Forall (fun d => d = 0) (drop n' arr') /\
    value_le b arr' = value_le b arr * m ^ Z.of_nat (length ds) + value_be m ds.
Proof.
  intros Hb Hm. revert arr n k. induction ds as [|d ds IH]; intros arr n k Hds Harr Hz Hk Hsz.
  { exists arr, n. split_and!; try done. cbn. lia. }
  apply Forall_cons in Hds as [Hd Hds]. cbn [digit_loop].
  pose proof (mul_add_spec m b arr d 0 n Hb ltac:(lia) Harr ltac:(lia) ltac:(by rewrite Nat.sub_0_r)) as Hma.
  destruct (mul_add m b arr d 0 n) as [[arr1 c1] i1]. destruct Hma as (El & Hr & Hc & _ & Hz1 & Ev).
  rewrite Nat.sub_0_r in Hz1. pose proof (value_le_bound b arr1 ltac:(lia) Hr) as Hb1.
  pose proof (value_le_bound b arr ltac:(lia) Harr) as Hb0.
  assert (Hlt : m * value_le b arr + d < m ^ Z.of_nat (S k)) by (rewrite pow_S; nia).
  assert (Hle : m ^ Z.of_nat (S k) <= b ^ Z.of_nat (length arr)).
  { etransitivity; [|exact Hsz]. apply Z.pow_le_mono_r; cbn; lia. }
  assert (c1 = 0) as -> by nia. change (0 =? 0) with true. cbv iota.
  destruct (IH arr1 i1 (S k) Hds Hr Hz1) as (arr' & n' & E & El' & Hr' & Hz' & Ev').
  - nia.
  - rewrite El. cbn [length] in Hsz. by replace (S k + length ds)%nat with (k + S (length ds))%nat by lia.
  - exists arr', n'. split_and!; [done|congruence|done|done|]. rewrite Ev', value_be_cons.
    cbn [length]. rewrite pow_S. nia.
Qed.

Lemma skip_zeroes_drop n l : Forall (fun d => d = 0) (take n l) -> skip_zeroes (drop n l) = skip_zeroes l.
Proof.
  revert n. induction l as [|d l IH]; intros n Hz; [by rewrite drop_nil|]. destruct n as [|n]; [done|].
  cbn in Hz |- *. apply Forall_cons in Hz as [-> Hz]. by apply IH.
Qed.

Lemma skip_zeroes_spec b l :
  in_base b l -> in_base b (skip_zeroes l) /\ no_leading_zero (skip_zeroes l) /\
  value_be b (skip_zeroes l) = value_be b l /\ (length (skip_zeroes l) <= length l)%nat.
Proof.
  unfold in_base. induction 1 as [|d l Hd Hl IH]; [done|]. cbn [skip_zeroes].
  destruct (Z.eqb_spec d 0) as [->|Hne].
  - destruct IH as (? & ? & E & ?). split_and!; [done|done| |cbn; lia]. rewrite value_be_cons, E. lia.
  - split_and!; [by constructor|by intros ? [= <-]|done|done].
Qed.

Lemma result_digits_spec b arr n :
  in_base b arr -> Forall (fun d => d = 0) (drop n arr) ->
  in_base b (result_digits arr n) /\ no_leading_zero (result_digits arr n) /\
  value_be b (result_digits arr n) = value_le b arr /\ (length (result_digits arr n) <= length arr)%nat.
Proof.
  intros Ha Hz. unfold result_digits. rewrite skip_zeroes_drop.
  - destruct (skip_zeroes_spec b (reverse arr)) as (? & ? & E & ?); [by apply Forall_reverse|].
    rewrite length_reverse in *. split_and!; try done. rewrite E. unfold value_be. by rewrite reverse_involutive.
  - replace (take (length arr - n) (reverse arr)) with (reverse (drop n arr)); [by apply Forall_reverse|].
    rewrite <- (take_drop n arr) at 3. rewrite reverse_app, take_app_le by (rewrite length_reverse, length_drop; lia).
    rewrite take_ge; [done|]. rewrite length_reverse, length_drop. lia.
Qed.

Lemma no_leading_zero_app l1 l2 : l1 <> [] -> no_leading_zero (l1 ++ l2) -> no_leading_zero l1.
Proof. destruct l1; [done|]. auto. Qed.

Lemma value_be_pos b l : 0 < b -> in_base b l -> no_leading_zero l -> l <> [] -> 0 < value_be b l.
Proof.
  intros Hb Hl Hz Hne. destruct l as [|d l]; [done|]. apply Forall_cons in Hl as [Hd Hl].
  rewrite value_be_cons. pose proof (Hz d eq_refl). unfold value_be.
  pose proof (value_le_bound b (reverse l) Hb ltac:(by apply Forall_reverse)).
  assert (0 < b ^ Z.of_nat (length l)) by (apply Z.pow_pos_nonneg; lia). nia.
Qed.

(** A number has one digit string without leading zeroes. *)
Lemma digits_unique b l1 l2 :
  1 < b -> in_base b l1 -> in_base b l2 -> no_leading_zero l1 -> no_leading_zero l2 ->
  value_be b l1 = value_be b l2 -> l1 = l2.
Proof.
  intros Hb. revert l2. induction l1 as [|d1 l1 IH] using rev_ind; intros l2 H1 H2 Hz1 Hz2 E.
  - destruct l2; [done|]. pose proof (value_be_pos b (z :: l2) ltac:(lia) H2 Hz2 ltac:(done)).
    rewrite <- E in H. cbn in H. lia.
  - destruct l2 as [|d2 l2 _] using rev_ind.
    { pose proof (value_be_pos b (l1 ++ [d1]) ltac:(lia) H1 Hz1 ltac:(by destruct l1)).
      rewrite E in H. cbn in H. lia. }
    apply Forall_app in H1 as [H1 [Hd1 _]%Forall_cons]. apply Forall_app in H2 as [H2 [Hd2 _]%Forall_cons].
    rewrite !value_be_snoc in E.
    assert (value_be b l1 = value_be b l2 /\ d1 = d2) as [Ev ->]
      by (apply (Z.div_mod_unique b); lia).
    f_equal. apply IH; try done.
    + destruct l1; [by intros ?|]. by eapply no_leading_zero_app.
    + destruct l2; [by intros ?|]. by eapply no_leading_zero_app.
Qed.

(** ** Lemmas: array sizes *)

Lemma size_enough a b p q (n : nat) :
  0 < a -> 1 < b -> 0 < p -> 0 < q -> a ^ q <= b ^ p ->
  a ^ Z.of_nat n <= b ^ (Z.quot (Z.of_nat n * p) q + 1).
Proof.
  intros Ha Hb Hp Hq Hpq. rewrite Z.quot_div_nonneg by lia.
  assert (0 <= Z.of_nat n * p / q) by (apply Z.div_pos; lia).
  apply (Z.pow_le_mono_l_iff _ _ q); [apply Z.pow_nonneg; lia|apply Z.pow_nonneg; lia|lia|].
  rewrite <- !Z.pow_mul_r by lia. transitivity (b ^ (p * Z.of_nat n)).
  - rewrite (Z.mul_comm (Z.of_nat n) q), !Z.pow_mul_r by lia. apply Z.pow_le_mono_l. split; [|done].
    apply Z.pow_nonneg. lia.
  - apply Z.pow_le_mono_r; [lia|]. pose proof (Z.mul_succ_div_gt (Z.of_nat n * p) q ltac:(lia)). lia.
Qed.

Lemma encode_size (n : nat) :
  Z.of_nat n < 2 ^ 30 ->
  256 ^ Z.of_nat n <= 58 ^ Z.of_nat (Z.to_nat (i32 (Z.quot (Z.of_nat n * 138) 100 + 1))) /\
  (Z.to_nat (i32 (Z.quot (Z.of_nat n * 138) 100 + 1)) <= 2 * n + 1)%nat.
Proof.
  intros Hn. assert (Hq : 0 <= Z.quot (Z.of_nat n * 138) 100 <= 2 * Z.of_nat n).
  { rewrite Z.quot_div_nonneg by lia. split; [apply Z.div_pos; lia|]. apply Z.div_le_upper_bound; lia. }
  rewrite i32_id by (unfold in_i32; lia). rewrite Z2Nat.id by lia. split; [|lia].
  apply size_enough; lia.
Qed.

Lemma decode_size (n : nat) :
  Z.of_nat n < 2 ^ 30 ->
  58 ^ Z.of_nat n <= 256 ^ Z.of_nat (Z.to_nat (i32 (Z.quot (Z.of_nat n * 733) 1000 + 1))).
Proof.
  intros Hn. assert (Hq : 0 <= Z.quot (Z.of_nat n * 733) 1000 <= Z.of_nat n).
  { rewrite Z.quot_div_nonneg by lia. split; [apply Z.div_pos; lia|]. apply Z.div_le_upper_bound; lia. }
  rewrite i32_id by (unfold in_i32; lia). rewrite Z2Nat.id by lia.
  apply size_enough; lia.
Qed.

Lemma decode_size_nat (n k : nat) :
  (n <= k)%nat -> Z.of_nat k < 2 ^ 30 ->
  (Z.to_nat (i32 (Z.quot (Z.of_nat n * 733) 1000 + 1)) <= k + 1)%nat.
Proof.
  intros Hn Hk. assert (Hq : 0 <= Z.quot (Z.of_nat n * 733) 1000 <= Z.of_nat n).
  { rewrite Z.quot_div_nonneg by lia. split; [apply Z.div_pos; lia|]. apply Z.div_le_upper_bound; lia. }
  rewrite i32_id by (unfold in_i32; lia). lia.
Qed.

Lemma digit_loop_run m b ds (size : nat) :
  1 < b -> 0 < m -> in_base m ds -> m ^ Z.of_nat (length ds) <= b ^ Z.of_nat size ->
  exists arr n, digit_loop m b ds (replicate size 0) O = Ok (arr, n) /\
    in_base b (result_digits arr n) /\ no_leading_zero (result_digits arr n) /\
    value_be b (result_digits arr n) = value_be m ds /\ (length (result_digits arr n) <= size)%nat.
Proof.
  intros Hb Hm Hds Hsz.
  assert (Hz : Forall (fun d => d = 0) (replicate size 0)) by by apply Forall_replicate.
  destruct (digit_loop_spec m b ds (replicate size 0) O O) as (arr & n & E & El & Hr & Hz' & Ev).
  - lia.
  - lia.
  - done.
  - apply Forall_replicate. lia.
  - by rewrite drop_0.
  - rewrite value_le_zero by done. cbn. lia.
  - by rewrite length_replicate.
  - exists arr, n. split; [done|]. destruct (result_digits_spec b arr n Hr Hz') as (? & ? & E' & Hlen).
    rewrite El, length_replicate in Hlen. split_and!; try done.
    rewrite E', Ev, value_le_zero by done. lia.
Qed.

(** ** Lemmas: strings *)

Lemma encode_loop_digits v arr n : encode_loop v arr n = digit_loop 256 58 (ub <$> v) arr n.
Proof.
  revert arr n. induction v as [|c v IH]; intros arr n; [done|]. cbn.
  destruct (mul_add 256 58 arr (ub c) 0 n) as [[arr' carry] i]. by destruct (carry =? 0).
Qed.

Lemma ub_in_base v : in_base 256 (ub <$> v).
Proof. apply Forall_fmap, Forall_forall. intros c _. apply ub_range. Qed.

Lemma u8_ub_map (v : bytes) : u8 <$> (ub <$> v) = v.
Proof. rewrite <- list_fmap_compose. etransitivity; [|apply list_fmap_id]. apply list_fmap_ext. intros ? c _. apply u8_ub. Qed.

Lemma ub_u8_map (l : list Z) : in_base 256 l -> ub <$> (u8 <$> l) = l.
Proof.
  intros Hl. rewrite <- list_fmap_compose. etransitivity; [|apply list_fmap_id]. apply list_fmap_ext. intros i d Hd.
  cbn. apply ub_u8_id. by eapply Forall_lookup_1 in Hl.
Qed.

Lemma count_zeroes_spec z l :
  (forall c, head l = Some c -> ub c <> 0) -> count_zeroes (replicate z x00 ++ l) = (z, l).
Proof.
  intros Hl. induction z as [|z IH].
  - cbn. destruct l as [|c l]; [done|]. cbn. by rewrite (proj2 (Z.eqb_neq _ _) (Hl c eq_refl)).
  - cbn. by rewrite IH.
Qed.

Lemma count_zeroes_inv v :
  let '(z, l) := count_zeroes v in v = replicate z x00 ++ l /\ (forall c, head l = Some c -> ub c <> 0).
Proof.
  induction v as [|c v IH]; [done|]. cbn. destruct (Z.eqb_spec (ub c) 0) as [E|E].
  - destruct (count_zeroes v) as [z l]. destruct IH as [-> Hl]. split; [|done].
    cbn. f_equal. apply ub_inj. by rewrite E.
  - split; [done|]. by intros ? [= <-].
Qed.

(** The alphabet, checked digit by digit. *)
Lemma base58_char_digit d :
  0 <= d < 58 ->
  base58_digit (base58_char d) = Some d /\ Nicknames.isspace (base58_char d) = false /\
  (Nicknames.code (base58_char d) =? 0) = false /\ (Nicknames.code (base58_char d) =? 49) = (d =? 0).
Proof.
  intros Hd. replace d with (Z.of_nat (Z.to_nat d)) by lia.
  assert (Hn : (Z.to_nat d < 58)%nat) by lia. revert Hn. generalize (Z.to_nat d). clear d Hd. intros n Hn.
  assert (Hall : forallb (fun i : nat => let d := Z.of_nat i in
    bool_decide (base58_digit (base58_char d) = Some d) && negb (Nicknames.isspace (base58_char d)) &&
    negb (Nicknames.code (base58_char d) =? 0) && Bool.eqb (Nicknames.code (base58_char d) =? 49) (d =? 0))
    (seq 0 58) = true) by by vm_compute.
  rewrite forallb_forall in Hall. specialize (Hall n ltac:(apply in_seq; lia)). cbn zeta in Hall.
  apply andb_prop in Hall as [[[H1%bool_decide_eq_true H2%negb_true_iff]%andb_prop H3%negb_true_iff]%andb_prop H4].
  split_and!; try done. by apply eqb_prop.
Qed.

Lemma index_of_sound c l i d :
  index_of c l i = Some d -> exists k, d = i + Z.of_nat k /\ l !! k = Some c.
Proof.
  revert i. induction l as [|c' l IH]; intros i; cbn; [done|].
  destruct (Ascii.eqb_spec c c') as [->|_].
  - intros [= <-]. exists O. split; [lia|done].
  - intros (k & -> & Hk)%IH. exists (S k). split; [lia|done].
Qed.

Lemma base58_digit_sound c d : base58_digit c = Some d -> 0 <= d < 58 /\ base58_char d = c.
Proof.
  unfold base58_digit. intros (k & -> & Hk)%index_of_sound. pose proof (lookup_lt_Some _ _ _ Hk) as Hlt.
  change (length (chars pszBase58)) with 58%nat in Hlt. split; [lia|].
  unfold base58_char. by rewrite Z.add_0_l, Nat2Z.id, Hk.
Qed.

Lemma decode_loop_digits ds rest arr n :
  in_base 58 ds -> (forall c, head rest = Some c -> Nicknames.isspace c = true) ->
  decode_loop ((base58_char <$> ds) ++ rest) arr n =
  match digit_loop 58 256 ds arr n with
  | Ok (arr', n') => Ok (inr (arr', n', rest))
  | Err e => Err e
  end.
Proof.
  intros Hds Hr. revert arr n. induction Hds as [|d ds Hd _ IH]; intros arr n.
  - cbn. destruct rest as [|c rest]; [done|]. cbn. by rewrite (Hr c eq_refl).
  - cbn [fmap list_fmap app decode_loop digit_loop].
    destruct (base58_char_digit d Hd) as (-> & -> & _ & _).
    destruct (mul_add 58 256 arr d 0 n) as [[arr' carry] i]. by destruct (carry =? 0).
Qed.

Lemma decode_split psz :
  (exists ds rest, psz = (base58_char <$> ds) ++ rest /\ in_base 58 ds /\
     forall c, head rest = Some c -> Nicknames.isspace c = true) \/
  (exists ds c rest, psz = (base58_char <$> ds) ++ c :: rest /\ in_base 58 ds /\
     Nicknames.isspace c = false /\ base58_digit c = None).
Proof.
  induction psz as [|c psz IH]; [left; exists [], []; split_and!; [done|constructor|done]|].
  destruct (Nicknames.isspace c) eqn:Es; [left; exists [], (c :: psz); split_and!; [done|constructor|by intros ? [= <-]]|].
  destruct (base58_digit c) as [d|] eqn:Ed; [|right; exists [], c, psz; split_and!; [done|constructor|done|done]].
  apply base58_digit_sound in Ed as [Hd <-].
  destruct IH as [(ds & rest & -> & Hds & Hr)|(ds & c' & rest & -> & Hds & Hc & Hn)].
  - left. exists (d :: ds), rest. split_and!; [done|by constructor|done].
  - right. exists (d :: ds), c', rest. split_and!; [done|by constructor|done|done].
Qed.

Lemma decode_loop_bad ds c rest arr n :
  in_base 58 ds -> Nicknames.isspace c = false -> base58_digit c = None ->
  decode_loop ((base58_char <$> ds) ++ c :: rest) arr n =
  match digit_loop 58 256 ds arr n with Ok _ => Ok (inl tt) | Err e => Err e end.
Proof.
  intros Hds Hc Hn. revert arr n. induction Hds as [|d ds Hd _ IH]; intros arr n.
  - cbn [fmap list_fmap app decode_loop digit_loop]. by rewrite Hc, Hn.
  - cbn [fmap list_fmap app decode_loop digit_loop].
    destruct (base58_char_digit d Hd) as (-> & -> & _ & _).
    destruct (mul_add 58 256 arr d 0 n) as [[arr' carry] i]. by destruct (carry =? 0).
Qed.

Lemma c_str_id l : Forall (fun c => (Nicknames.code c =? 0) = false) l -> c_str l = l.
Proof. induction 1 as [|c l Hc _ IH]; [done|]. cbn. by rewrite Hc, IH. Qed.

Lemma trim_start_spaces l1 l2 :
  Forall (fun c => Nicknames.isspace c = true) l1 ->
  Nicknames.trim_start (l1 ++ l2) = Nicknames.trim_start l2.
Proof. induction 1 as [|c l Hc _ IH]; [done|]. cbn. by rewrite Hc. Qed.

Lemma trim_start_split l :
  exists sp, l = sp ++ Nicknames.trim_start l /\ Forall (fun c => Nicknames.isspace c = true) sp /\
    (forall c, head (Nicknames.trim_start l) = Some c -> Nicknames.isspace c = false).
Proof.
  induction l as [|c l (sp & E & Hsp & Hh)]; [by exists []|]. cbn. destruct (Nicknames.isspace c) eqn:Ec.
  - exists (c :: sp). cbn. split_and!; [by f_equal|by constructor|done].
  - exists []. split_and!; [done|constructor|by intros ? [= <-]].
Qed.

Lemma count_ones_spec z ds rest :
  in_base 58 ds -> no_leading_zero ds -> (forall c, head rest = Some c -> Nicknames.isspace c = true) ->
  count_ones (replicate z (Nicknames.chr 49) ++ (base58_char <$> ds) ++ rest) = (z, (base58_char <$> ds) ++ rest).
Proof.
  intros Hds Hz Hr. induction z as [|z IH].
  2:{ cbn [replicate app count_ones]. change (Nicknames.code (Nicknames.chr 49) =? 49) with true. by rewrite IH. }
  cbn [replicate app]. destruct Hds as [|d ds Hd _].
  - destruct rest as [|c rest]; [done|]. cbn. destruct (Z.eqb_spec (Nicknames.code c) 49) as [E|]; [|done].
    specialize (Hr c eq_refl). unfold Nicknames.isspace in Hr. by rewrite E in Hr.
  - cbn. destruct (base58_char_digit d Hd) as (_ & _ & _ & ->).
    by rewrite (proj2 (Z.eqb_neq _ _) (Hz d eq_refl)).
Qed.

Lemma count_ones_inv psz :
  let '(z, l) := count_ones psz in
  psz = replicate z (Nicknames.chr 49) ++ l /\ (forall c, head l = Some c -> Nicknames.code c <> 49).
Proof.
  induction psz as [|c psz IH]; [done|]. cbn. destruct (Z.eqb_spec (Nicknames.code c) 49) as [E|E].
  - destruct (count_ones psz) as [z l]. destruct IH as [-> Hl]. split; [|done]. cbn. f_equal.
    transitivity (Nicknames.chr (Nicknames.code c)); [|by rewrite E].
    unfold Nicknames.chr, Nicknames.code. by rewrite N2Z.id, Ascii.ascii_N_embedding.
  - split; [done|]. by intros ? [= <-].
Qed.

Lemma EncodeBase58_spec z l :
  (forall c, head l = Some c -> ub c <> 0) -> len l < 2 ^ 30 ->
  exists ds, EncodeBase58 (replicate z x00 ++ l) =
      Ok (String.string_of_list_ascii (replicate z (Nicknames.chr 49) ++ (base58_char <$> ds))) /\
    in_base 58 ds /\ no_leading_zero ds /\ value_be 58 ds = value_be 256 (ub <$> l) /\
    (length ds <= 2 * length l + 1)%nat.
Proof.
  intros Hl Hlen. unfold EncodeBase58. rewrite count_zeroes_spec by done. rewrite encode_loop_digits.
  unfold len in *. destruct (encode_size (length l) Hlen) as [Hs Hn].
  destruct (digit_loop_run 256 58 (ub <$> l) _ ltac:(lia) ltac:(lia) (ub_in_base l)
    ltac:(rewrite length_fmap; exact Hs)) as (arr & n & -> & ? & ? & ? & ?).
  exists (result_digits arr n). split_and!; [done..|lia].
Qed.

Lemma DecodeBase58_spec z ds sp1 sp2 s :
  in_base 58 ds -> no_leading_zero ds -> Forall (fun c => Nicknames.isspace c = true) sp1 ->
  Forall (fun c => Nicknames.isspace c = true) sp2 ->
  Z.of_nat (length ds + length sp2) < 2 ^ 30 ->
  c_str (chars s) = sp1 ++ replicate z (Nicknames.chr 49) ++ (base58_char <$> ds) ++ sp2 ->
  exists l, DecodeBase58 s = Ok (Some (replicate z x00 ++ (u8 <$> l))) /\
    in_base 256 l /\ no_leading_zero l /\ value_be 256 l = value_be 58 ds /\
    (length l <= length ds + length sp2 + 1)%nat.
Proof.
  intros Hds Hz H1 H2 Hlen Es. unfold DecodeBase58. rewrite Es, trim_start_spaces by done.
  assert (Hr2 : forall c, head sp2 = Some c -> Nicknames.isspace c = true).
  { intros c Hc. destruct H2; simplify_eq/=; done. }
  set (psz := (base58_char <$> ds) ++ sp2).
  assert (Ht : count_ones (Nicknames.trim_start (replicate z (Nicknames.chr 49) ++ psz)) = (z, psz) \/
               (z = O /\ ds = [] /\ count_ones (Nicknames.trim_start (replicate z (Nicknames.chr 49) ++ psz)) = (O, []))).
  { destruct z as [|z]; [|left; apply (count_ones_spec (S z) ds sp2 Hds Hz Hr2)].
    destruct Hds as [|d ds Hd Hds].
    - right. split_and!; [done..|]. unfold psz. cbn. rewrite <- (app_nil_r sp2), trim_start_spaces by done. done.
    - left. unfold psz. cbn [replicate app fmap list_fmap Nicknames.trim_start].
      destruct (base58_char_digit d Hd) as (_ & -> & _ & _).
      apply (count_ones_spec O (d :: ds) sp2); [by constructor|done..]. }
  assert (Hend : Nicknames.trim_start sp2 = []) by (rewrite <- (app_nil_r sp2), trim_start_spaces; done).
  destruct Ht as [->|(-> & -> & ->)].
  - change (decode_loop psz) with (decode_loop ((base58_char <$> ds) ++ sp2)). rewrite decode_loop_digits by done.
    assert (Hsz : 58 ^ Z.of_nat (length ds) <= 256 ^ Z.of_nat (Z.to_nat (i32 (Z.quot (Z.of_nat (length psz) * 733) 1000 + 1)))).
    { etransitivity; [|apply decode_size; unfold psz; rewrite length_app, length_fmap; lia].
      apply Z.pow_le_mono_r; [lia|]. unfold psz. rewrite length_app, length_fmap. lia. }
    destruct (digit_loop_run 58 256 ds _ ltac:(lia) ltac:(lia) Hds Hsz) as (arr & n & -> & ? & ? & ? & ?).
    exists (result_digits arr n). cbn [mbind result_bind]. rewrite Hend. split_and!; [done..|].
    etransitivity; [done|]. apply decode_size_nat; [|lia]. unfold psz. rewrite length_app, length_fmap. lia.
  - exists []. split_and!; [done|constructor|done|done|cbn; lia].
Qed.

Lemma trim_end_spaces l sp :
  Forall (fun c => Nicknames.isspace c = true) sp ->
  (forall c, last l = Some c -> Nicknames.isspace c = false) -> Nicknames.trim_end (l ++ sp) = l.
Proof.
  intros Hsp Hl. unfold Nicknames.trim_end. rewrite reverse_app, trim_start_spaces by (by apply Forall_reverse).
  destruct l as [|c l _] using rev_ind; [done|]. rewrite reverse_snoc. cbn [Nicknames.trim_start].
  rewrite (Hl c) by apply last_snoc. by rewrite reverse_cons, reverse_involutive.
Qed.

Lemma chars_string_of l : chars (String.string_of_list_ascii l) = l.
Proof. induction l; cbn; congruence. Qed.

Lemma base58_text_spec z ds :
  in_base 58 ds ->
  Forall (fun c => (Nicknames.code c =? 0) = false /\ Nicknames.isspace c = false)
    (replicate z (Nicknames.chr 49) ++ (base58_char <$> ds)).
Proof.
  intros Hds. apply Forall_app. split; [by apply Forall_replicate|]. apply Forall_fmap.
  eapply Forall_impl; [done|]. intros d Hd. by destruct (base58_char_digit d Hd) as (_ & ? & ? & _).
Qed.

Lemma length_c_str l : (length (c_str l) <= length l)%nat.
Proof. induction l as [|c l IH]; [done|]. cbn. destruct (Nicknames.code c =? 0); cbn; lia. Qed.

Lemma Encode_then_Decode v :
  len v < 2 ^ 28 -> exists s, EncodeBase58 v = Ok s /\ DecodeBase58 s = Ok (Some v).
Proof.
  intros Hv. pose proof (count_zeroes_inv v) as Hz. destruct (count_zeroes v) as [z l]. destruct Hz as [-> Hl].
  assert (Hlen : len l < 2 ^ 28) by (unfold len in *; rewrite length_app in Hv; lia).
  destruct (EncodeBase58_spec z l Hl ltac:(lia)) as (ds & -> & Hds & Hnz & Ev & Hn). eexists; split; [done|].
  set (s := String.string_of_list_ascii (replicate z (Nicknames.chr 49) ++ (base58_char <$> ds))).
  assert (Ec : c_str (chars s) = [] ++ replicate z (Nicknames.chr 49) ++ (base58_char <$> ds) ++ []).
  { unfold s. rewrite chars_string_of, c_str_id, app_nil_r; [done|].
    eapply Forall_impl; [by apply base58_text_spec|by intros c [? _]]. }
  destruct (DecodeBase58_spec z ds [] [] s Hds Hnz (Forall_nil_2 _) (Forall_nil_2 _)
    ltac:(unfold len in *; cbn; lia) Ec) as (l' & -> & Hl' & Hnz' & Ev' & _).
  do 3 f_equal. rewrite <- (u8_ub_map l). f_equal. eapply (digits_unique 256); [lia|done|apply ub_in_base|done| |congruence].
  intros d Hd. destruct l as [|c l]; [done|]. injection Hd as <-. by apply Hl.
Qed.

Lemma Decode_then_Encode s :
  Z.of_nat (String.length s) < 2 ^ 28 ->
  exists r, DecodeBase58 s = Ok r /\
    forall v, r = Some v ->
      EncodeBase58 v = Ok (String.string_of_list_ascii (Nicknames.trim_end (Nicknames.trim_start (c_str (chars s))))).
Proof.
  intros Hs. destruct (trim_start_split (c_str (chars s))) as (sp1 & Ec & Hsp1 & Hh).
  set (t := Nicknames.trim_start (c_str (chars s))) in *.
  pose proof (count_ones_inv t) as Ho. destruct (count_ones t) as [z l] eqn:Eo. destruct Ho as [Et Hl].
  assert (Hlen : Z.of_nat (length l) < 2 ^ 28).
  { pose proof (length_c_str (chars s)) as Hc. rewrite Ec, Et, !length_app, Nicknames.length_chars in Hc. lia. }
  assert (Hrun : forall ds, in_base 58 ds -> (length ds <= length l)%nat ->
    exists arr n, digit_loop 58 256 ds (replicate (Z.to_nat (i32 (Z.quot (Z.of_nat (length l) * 733) 1000 + 1))) 0) O
      = Ok (arr, n)).
  { intros ds Hds Hn. destruct (digit_loop_run 58 256 ds
      (Z.to_nat (i32 (Z.quot (Z.of_nat (length l) * 733) 1000 + 1))) ltac:(lia) ltac:(lia) Hds) as (arr & n & E & _); [|eauto].
    etransitivity; [|apply decode_size; lia]. apply Z.pow_le_mono_r; lia. }
  destruct (decode_split l) as [(ds & rest & -> & Hds & Hr)|(ds & c & rest & -> & Hds & Hc & Hb)].
  - destruct (Nicknames.trim_start rest) as [|c rest'] eqn:Er.
    + destruct (trim_start_split rest) as (sp2 & E2 & Hsp2 & _). rewrite Er, app_nil_r in E2. subst sp2.
      assert (Hnz : no_leading_zero ds).
      { intros d Hd ->. destruct ds as [|d' ds]; [done|]. injection Hd as ->. by apply (Hl (Nicknames.chr 49)). }
      rewrite length_app, length_fmap in Hlen.
      destruct (DecodeBase58_spec z ds sp1 rest s Hds Hnz Hsp1 Hsp2 ltac:(lia)) as (l' & E & Hl' & Hnz' & Ev & Hn);
        [by rewrite Ec, Et|].
      eexists; split; [exact E|]. intros v [= <-].
      destruct (EncodeBase58_spec z (u8 <$> l')) as (ds' & -> & Hds' & Hnz'' & Ev' & _).
      { intros c Hc. destruct Hl' as [|d l' Hd _]; [done|]. injection Hc as <-. rewrite ub_u8_id by lia. by apply Hnz'. }
      { unfold len. rewrite length_fmap. lia. }
      rewrite ub_u8_map in Ev' by done.
      assert (ds' = ds) as -> by (apply (digits_unique 58); (done || lia || congruence)).
      do 2 f_equal. rewrite Et, app_assoc. symmetry. apply trim_end_spaces; [done|].
      intros c Hc. pose proof (base58_text_spec z ds Hds) as Hall. rewrite Forall_forall in Hall.
      apply Hall. by apply last_Some_elem_of.
    + exists None. split; [|done]. unfold DecodeBase58. fold t. rewrite Eo, decode_loop_digits by done.
      destruct (Hrun ds Hds) as (arr & n & ->); [rewrite length_app, length_fmap; lia|].
      cbn [mbind result_bind]. by rewrite Er.
  - exists None. split; [|done]. unfold DecodeBase58. fold t. rewrite Eo, decode_loop_bad by done.
    destruct (Hrun ds Hds) as (arr & n & ->); [rewrite length_app, length_fmap; lia|done].
Qed.

Section Addresses.
Context `{CryptoOps}.

Lemma Check_roundtrip v :
  len v < 2 ^ 27 -> exists s, EncodeBase58Check v = Ok s /\ DecodeBase58Check s = Ok (Some v).
Proof.
  intros Hv. unfold EncodeBase58Check, DecodeBase58Check. set (sum := take 4 (le_bytes 32 (Hash v))).
  assert (Hsum : length sum = 4%nat) by (unfold sum; by rewrite length_take, length_le_bytes).
  destruct (Encode_then_Decode (v ++ sum)) as (s & -> & E).
  { unfold len in *. rewrite length_app, Hsum. lia. }
  exists s. split; [done|]. rewrite E. cbn [mbind result_bind]. rewrite length_app, Hsum.
  rewrite (proj2 (Nat.ltb_ge _ _)) by lia. replace (length v + 4 - 4)%nat with (length v) by lia.
  rewrite take_app_length, drop_app_length. by rewrite bool_decide_true.
Qed.

Lemma SetString_ToString a :
  length (vchVersion a) = 1%nat -> len (vchData a) < 2 ^ 26 ->
  exists s, ToString a = Ok s /\ SetString s = Ok a.
Proof.
  destruct a as [v d]. cbn [vchVersion vchData]. intros Hv Hd. destruct v as [|b [|]]; try done.
  destruct (Check_roundtrip ([b] ++ d)) as (s & E1 & E2).
  { unfold len in *. rewrite length_app. cbn [length]. lia. }
  exists s. split; [exact E1|]. unfold SetString. by rewrite E2.
Qed.

Lemma base58_parse_print params dest :
  u8 (PUBKEY_ADDRESS params) <> u8 (SCRIPT_ADDRESS params) -> id_ok dest ->
  base58_parse params (base58_print params dest) = Some dest.
Proof.
  intros Hp Hid. unfold base58_parse, base58_print.
  destruct (SetString_ToString (SetDestination params dest)) as (s & -> & ->).
  { by destruct dest. }
  { destruct dest; cbn [SetDestination vchData]; unfold len; rewrite ?length_le_bytes; cbn; lia. }
  destruct dest as [|id|id]; [done|..]; cbn in Hid; unfold address_Get, address_IsValid, SetDestination;
    cbn [vchVersion vchData]; rewrite length_le_bytes; cbn [Nat.eqb andb].
  - rewrite !bool_decide_eq_true_2 by done. cbn [orb negb]. by rewrite le_value_bytes_id.
  - rewrite (bool_decide_eq_false_2 ([u8 (SCRIPT_ADDRESS params)] = [u8 (PUBKEY_ADDRESS params)])) by congruence.
    rewrite bool_decide_eq_true_2 by done. cbn [orb negb]. by rewrite le_value_bytes_id.
Qed.

Lemma base58_parse_id params s dest : base58_parse params s = Some dest -> id_ok dest.
Proof.
  unfold base58_parse. destruct (SetString s) as [a|]; [|done].
  destruct (address_IsValid params a) eqn:Ev; [|done]. intros [= <-]. unfold address_Get. rewrite Ev. cbn [negb].
  unfold address_IsValid in Ev. apply andb_prop in Ev as [Hl%Nat.eqb_eq Hv].
  assert (Hr : 0 <= le_value (vchData a) < 256 ^ 20).
  { pose proof (le_value_range (vchData a)) as Hr. rewrite Hl in Hr. exact Hr. }
  apply orb_prop in Hv as [Hv|Hv]; rewrite Hv; [exact Hr|]. clear Hv. destruct (bool_decide _); exact Hr.
Qed.

End Addresses.

(** ** Properties *)

(** C31: Base58 is a bijection between byte strings and canonical texts: every
    byte string is recovered from its encoding; decoding never fails its
    assertion, and a text that decodes is, up to surrounding white space, the
    encoding of the result. *)
Theorem Base58_bijection :
  (forall v, len v < 2 ^ 28 -> exists s, EncodeBase58 v = Ok s /\ DecodeBase58 s = Ok (Some v)) /\
  (forall s, Z.of_nat (String.length s) < 2 ^ 28 ->
     exists r, DecodeBase58 s = Ok r /\
       forall v, r = Some v ->
         EncodeBase58 v =
         Ok (String.string_of_list_ascii (Nicknames.trim_end (Nicknames.trim_start (c_str (chars s)))))).
Proof. split; [exact Encode_then_Decode|exact Decode_then_Encode]. Qed.

(** the address of a key or script hash parses back to that hash on the
    main, test and regression networks, whatever the hash function, so two
    destinations never share an address; and what parses is a 20-byte hash. *)
Theorem address_roundtrip `{CryptoOps} (params : Prefixes) (dest : CTxDestination) (s : string) :
  In params [main_prefixes; test_prefixes; regtest_prefixes] -> id_ok dest ->
  base58_parse params (base58_print params dest) = Some dest /\
  (forall dest', id_ok dest' -> base58_print params dest = base58_print params dest' -> dest = dest') /\
  (forall dest', base58_parse params s = Some dest' -> id_ok dest').
Proof.
  intros Hp Hid.
  assert (Hne : u8 (PUBKEY_ADDRESS params) <> u8 (SCRIPT_ADDRESS params))
    by (destruct Hp as [<-|[<-|[<-|[]]]]; done).
  split_and!; [by apply base58_parse_print| |by apply base58_parse_id].
  intros dest' Hid' E. apply (base58_parse_print params) in Hid, Hid'; [|done..]. rewrite E in Hid. congruence.
Qed.

Lemma address_roundtrip_witness :
  let ops := {| Hash160 := fun _ => 0; Sha256 := fun v => le_value (take 7 v); secp256k1_ec_pubkey_parse := fun _ => true |} in
  base58_print (H := ops) main_prefixes (CKeyID 1) <> EmptyString /\
  base58_parse (H := ops) main_prefixes (base58_print (H := ops) main_prefixes (CKeyID 1)) = Some (CKeyID 1).
Proof.
  intros ops. split; [by vm_compute|].
  apply (address_roundtrip (H := ops) main_prefixes (CKeyID 1) EmptyString); [by left|cbn; lia].
Defined.

(** The Base58 addresses are an instance of what the program relies on. *)
Lemma base58_codec `{CryptoOps} params :
  u8 (PUBKEY_ADDRESS params) <> u8 (SCRIPT_ADDRESS params) -> @AddressCodec (base58_ops params).
Proof. intros Hp. split; [intros; by apply base58_parse_print|apply base58_parse_id]. Qed.
