(* ===== verification/Money.v ===== *)
(** * Amounts as text, and fee rates ([src/src/utilmoneystr.cpp], [amount.cpp], [amount.h])

    A string is its list of characters; loops that run from the end of a
    string work on the reversed list. *)

From S2P Require Import Prelude Nicknames Script Base58.
Open Scope Z_scope.

Notation ascii_list := (list Ascii.ascii).

Definition digit_char (d : Z) : Ascii.ascii := Nicknames.chr (48 + d).
Definition isdigit (c : Ascii.ascii) : bool := Nicknames.IsAsciiDigit c.
Definition char_digit (c : Ascii.ascii) : Z := Nicknames.code c - 48.
Definition minus_sign : Ascii.ascii := Nicknames.chr 45.
Definition dot : Ascii.ascii := Nicknames.chr 46.
Definition zero_char : Ascii.ascii := Nicknames.chr 48.

(** ** Printing *)

(** The digits of a number, least significant first; twenty hold every 64-bit value. *)
Fixpoint dec_digits (fuel : nat) (n : Z) : list Z :=
  match fuel with
  | O => []
  | S fuel' => if n <? 10 then [n] else n mod 10 :: dec_digits fuel' (n / 10)
  end.
Definition fmt_nat (n : Z) : ascii_list := digit_char <$> reverse (dec_digits 20 n).

(** [%d] and [%08d] *)
Definition fmt_d (z : Z) : ascii_list := if z <? 0 then minus_sign :: fmt_nat (- z) else fmt_nat z.
Definition pad (width : nat) (s : ascii_list) : ascii_list := replicate (width - length s) zero_char ++ s.
Definition fmt_08d (z : Z) : ascii_list :=
  if z <? 0 then minus_sign :: pad 7 (fmt_nat (- z)) else pad 8 (fmt_nat z).

(** [for (i = str.size()-1; str[i] == '0' && isdigit(str[i-2]); --i) ++nTrim;]
    and the erasure, on the reversed string. *)
Fixpoint trim_zeros (rev : ascii_list) : ascii_list :=
  match rev with
  | c0 :: ((c1 :: c2 :: _) as rest) =>
      if (Nicknames.code c0 =? 48) && isdigit c2 then trim_zeros rest else rev
  | _ => rev
  end.

Definition FormatMoney (n : Z) : string :=
  let n_abs := if 0 <? n then n else i64 (- n) in
  let quotient := Z.quot n_abs COIN in
  let remainder := Z.rem n_abs COIN in
  let str := fmt_d quotient ++ [dot] ++ fmt_08d remainder in
  let str := reverse (trim_zeros (reverse str)) in
  String.string_of_list_ascii (if n <? 0 then minus_sign :: str else str).

(** ** Parsing *)

(** [while (isdigit( *p) && nMult > 0)]: the units and the rest. *)
Fixpoint parse_frac (p : ascii_list) (nUnits nMult : Z) : Z * ascii_list :=
  match p with
  | c :: p' =>
      if isdigit c && (0 <? nMult) then parse_frac p' (nUnits + nMult * char_digit c) (Z.quot nMult 10)
      else (nUnits, p)
  | [] => (nUnits, [])
  end.

(** The loop over the whole part: [strWhole], [nUnits] and the rest, or [return false]. *)
Fixpoint parse_whole (p strWhole : ascii_list) : option (ascii_list * Z * ascii_list) :=
  match p with
  | [] => Some (strWhole, 0, [])
  | c :: p' =>
      if Nicknames.code c =? 46 then
        let '(nUnits, rest) := parse_frac p' 0 (CENT * 10) in Some (strWhole, nUnits, rest)
      else if Nicknames.isspace c then Some (strWhole, 0, p)
      else if negb (isdigit c) then None
      else parse_whole p' (strWhole ++ [c])
  end.

Definition ParseMoney (str : string) : option Z :=
  match parse_whole (Nicknames.trim_start (c_str (chars str))) [] with
  | None => None
  | Some (strWhole, nUnits, rest) =>
      if negb (forallb Nicknames.isspace rest) then None
      else if (10 <? length strWhole)%nat then None
      else if (nUnits <? 0) || (COIN <? nUnits) then None
      else
        let nWhole := Nicknames.atoi64 (String.string_of_list_ascii strWhole) in
        Some (i64 (nWhole * COIN + nUnits))
  end.

(** ** Fee rates *)

(** [CFeeRate(nFeePaid, nBytes)] *)
Definition CFeeRate (nFeePaid nBytes : Z) : Z :=
  if 0 <? nBytes then Z.quot (i64 (nFeePaid * 1000)) nBytes else 0.

Definition GetFee (nSatoshisPerK nBytes : Z) : Z :=
  let nFee := Z.quot (i64 (nSatoshisPerK * nBytes)) 1000 in
  if (nFee =? 0) && negb (nBytes =? 0) then
    if 0 <? nSatoshisPerK then 1 else if nSatoshisPerK <? 0 then -1 else nFee
  else nFee.

Example FormatMoney_ex :
  (FormatMoney 123456000 = "1.23456" /\ FormatMoney 100000000 = "1.00" /\ FormatMoney (-50000000) = "-0.50" /\
   ParseMoney " 1.5 " = Some 150000000)%string.
Proof. by vm_compute. Qed.

(** ** Lemmas *)

Lemma digit_char_facts d :
  0 <= d < 10 ->
  isdigit (digit_char d) = true /\ char_digit (digit_char d) = d /\ Nicknames.isspace (digit_char d) = false /\
  Nicknames.code (digit_char d) = 48 + d.
Proof.
  intros Hd. assert (Hc : Nicknames.code (digit_char d) = 48 + d).
  { unfold digit_char, Nicknames.code, Nicknames.chr. rewrite Ascii.N_ascii_embedding by lia. lia. }
  unfold isdigit, Nicknames.IsAsciiDigit, char_digit, Nicknames.isspace. rewrite Hc.
  split_and!; [|lia| |done]; repeat case_match; zbool; try lia; try done.
Qed.

Lemma dec_digits_spec fuel n :
  0 <= n < 10 ^ Z.of_nat fuel -> (0 < fuel)%nat ->
  in_base 10 (dec_digits fuel n) /\ value_le 10 (dec_digits fuel n) = n /\ dec_digits fuel n <> [].
Proof.
  revert n. induction fuel as [|fuel IH]; intros n Hn Hf; [lia|]. cbn [dec_digits].
  destruct (Z.ltb_spec n 10) as [Hlt|Hge].
  - split_and!; [|cbn; lia|done]. constructor; [lia|constructor].
  - rewrite pow_S in Hn. destruct fuel as [|fuel]; [cbn in Hn; lia|].
    pose proof (Z.div_mod n 10 ltac:(lia)). pose proof (Z.mod_pos_bound n 10 ltac:(lia)).
    destruct (IH (n / 10)) as (Hb & Hv & Hne); [lia|lia|].
    split_and!; [constructor; [lia|done]| |done]. cbn [value_le]. rewrite Hv. lia.
Qed.

Lemma dec_digits_length fuel n k :
  0 <= n < 10 ^ Z.of_nat k -> (0 < k)%nat -> (length (dec_digits fuel n) <= k)%nat.
Proof.
  revert n k. induction fuel as [|fuel IH]; intros n k Hn Hk; cbn [dec_digits length]; [lia|].
  destruct (Z.ltb_spec n 10); cbn [length]; [lia|]. destruct k as [|[|k]]; [lia|cbn in Hn; lia|].
  rewrite pow_S in Hn. pose proof (Z.div_mod n 10 ltac:(lia)). pose proof (Z.mod_pos_bound n 10 ltac:(lia)).
  specialize (IH (n / 10) (S k) ltac:(lia) ltac:(lia)). lia.
Qed.

Lemma value_be_zeros k l : value_be 10 (replicate k 0 ++ l) = value_be 10 l.
Proof.
  induction k as [|k IH]; [done|]. cbn [replicate app]. rewrite value_be_cons, IH. lia.
Qed.

Lemma value_be_app l1 l2 : value_be 10 (l1 ++ l2) = value_be 10 l1 * 10 ^ Z.of_nat (length l2) + value_be 10 l2.
Proof. unfold value_be. rewrite reverse_app, value_le_app, length_reverse. lia. Qed.

Lemma fmt_nat_spec n k :
  0 <= n < 10 ^ Z.of_nat k -> (0 < k <= 20)%nat ->
  exists ds, fmt_nat n = digit_char <$> ds /\ in_base 10 ds /\ value_be 10 ds = n /\ ds <> [] /\ (length ds <= k)%nat.
Proof.
  intros Hn Hk. assert (Hp : 10 ^ Z.of_nat k <= 10 ^ Z.of_nat 20) by (apply Z.pow_le_mono_r; lia).
  destruct (dec_digits_spec 20 n ltac:(lia) ltac:(lia)) as (Hb & Hv & Hne).
  exists (reverse (dec_digits 20 n)). split_and!; [done|by apply Forall_reverse| | |].
  - unfold value_be. by rewrite reverse_involutive.
  - intros E. apply Hne. by rewrite <- (reverse_involutive (dec_digits 20 n)), E.
  - rewrite length_reverse. apply dec_digits_length; lia.
Qed.

Lemma fmt_08d_spec r :
  0 <= r < 10 ^ 8 ->
  exists f, fmt_08d r = digit_char <$> f /\ in_base 10 f /\ value_be 10 f = r /\ length f = 8%nat.
Proof.
  intros Hr. unfold fmt_08d. rewrite (proj2 (Z.ltb_ge _ _)) by lia.
  destruct (fmt_nat_spec r 8 ltac:(exact Hr) ltac:(lia)) as (ds & -> & Hb & Hv & _ & Hl).
  exists (replicate (8 - length ds) 0 ++ ds). unfold pad. rewrite length_fmap, fmap_app, fmap_replicate.
  split_and!; [done| |by rewrite value_be_zeros|rewrite length_app, length_replicate; lia].
  apply Forall_app. split; [|done]. apply Forall_replicate. lia.
Qed.

Lemma trim_zeros_spec rl Q :
  in_base 10 rl -> (2 <= length rl)%nat ->
  exists z rl', rl = replicate z 0 ++ rl' /\ (2 <= length rl')%nat /\
    trim_zeros ((digit_char <$> rl) ++ dot :: Q) = (digit_char <$> rl') ++ dot :: Q.
Proof.
  induction rl as [|a rl IH]; intros Hb Hl; [cbn in Hl; lia|]. apply Forall_cons in Hb as [Ha Hb].
  destruct rl as [|b [|c rl]]; [cbn in Hl; lia|..].
  - exists O, [a; b]. split_and!; [done|done|]. cbn. by rewrite andb_false_r.
  - cbn [fmap list_fmap app trim_zeros]. destruct (digit_char_facts a Ha) as (_ & _ & _ & ->).
    assert (Hc : 0 <= c < 10) by (by pose proof Hb as [_ [? _]%Forall_cons]%Forall_cons).
    destruct (digit_char_facts c Hc) as (-> & _). rewrite andb_true_r.
    destruct (Z.eqb_spec (48 + a) 48) as [E|E].
    + assert (a = 0) as -> by lia. destruct (IH Hb ltac:(cbn; lia)) as (z & rl' & E1 & E2 & E3).
      exists (S z), rl'. split_and!; [cbn; by rewrite <- E1|done|exact E3].
    + exists O, (a :: b :: c :: rl). split_and!; [done|cbn; lia|done].
Qed.

Lemma parse_frac_digits g u (m : nat) :
  in_base 10 g -> (length g <= m + 1)%nat ->
  parse_frac (digit_char <$> g) u (10 ^ Z.of_nat m) =
  (u + value_be 10 g * 10 ^ Z.of_nat (m + 1 - length g), []).
Proof.
  revert u m. induction g as [|d g IH]; intros u m Hb Hl; [cbn; f_equal; lia|].
  apply Forall_cons in Hb as [Hd Hb]. cbn [fmap list_fmap parse_frac].
  destruct (digit_char_facts d Hd) as (-> & -> & _).
  rewrite (proj2 (Z.ltb_lt _ _)) by (apply Z.pow_pos_nonneg; lia). cbn [andb].
  cbn [length] in Hl. rewrite value_be_cons. destruct m as [|m].
  - destruct g; [|cbn in Hl; lia]. cbn. f_equal. lia.
  - replace (Z.quot (10 ^ Z.of_nat (S m)) 10) with (10 ^ Z.of_nat m).
    + rewrite IH by (done || lia). f_equal. cbn [length].
      replace (S m + 1 - S (length g))%nat with (m + 1 - length g)%nat by lia.
      assert (E : 10 ^ Z.of_nat (S m) = 10 ^ Z.of_nat (length g) * 10 ^ Z.of_nat (m + 1 - length g)).
      { rewrite <- Z.pow_add_r by lia. f_equal. lia. }
      rewrite E. ring.
    + rewrite pow_S, Z.mul_comm, Z.quot_mul by lia. done.
Qed.

Lemma parse_whole_digits ds acc g :
  in_base 10 ds ->
  parse_whole ((digit_char <$> ds) ++ dot :: g) acc =
  (let '(u, rest) := parse_frac g 0 (CENT * 10) in Some (acc ++ (digit_char <$> ds), u, rest)).
Proof.
  intros Hb. revert acc. induction Hb as [|d ds Hd _ IH]; intros acc.
  - cbn -[parse_frac]. by rewrite app_nil_r.
  - cbn [fmap list_fmap app parse_whole]. destruct (digit_char_facts d Hd) as (-> & _ & -> & ->).
    rewrite (proj2 (Z.eqb_neq _ _)) by lia. cbn [negb]. rewrite IH. by rewrite <- app_assoc.
Qed.

Lemma digits_value_spec ds acc :
  in_base 10 ds ->
  Nicknames.digits_value (String.string_of_list_ascii (digit_char <$> ds)) acc =
  acc * 10 ^ Z.of_nat (length ds) + value_be 10 ds.
Proof.
  intros Hb. revert acc. induction Hb as [|d ds Hd _ IH]; intros acc; [cbn; lia|].
  cbn [fmap list_fmap String.string_of_list_ascii Nicknames.digits_value length].
  destruct (digit_char_facts d Hd) as (Hi & _ & _ & Hc). unfold isdigit in Hi. rewrite Hi, Hc, IH, value_be_cons, pow_S. ring.
Qed.

Lemma atoi64_digits ds :
  in_base 10 ds -> (length ds <= 10)%nat ->
  Nicknames.atoi64 (String.string_of_list_ascii (digit_char <$> ds)) = value_be 10 ds.
Proof.
  intros Hb Hl. pose proof (digits_value_spec ds 0 Hb) as Hv.
  assert (Hr : 0 <= value_be 10 ds < 10 ^ 10).
  { unfold value_be. pose proof (value_le_bound 10 (reverse ds) ltac:(lia) ltac:(by apply Forall_reverse)) as Hr.
    rewrite length_reverse in Hr. assert (10 ^ Z.of_nat (length ds) <= 10 ^ 10) by (apply Z.pow_le_mono_r; lia). lia. }
  destruct Hb as [|d ds Hd Hb]; [done|]. unfold Nicknames.atoi64.
  cbn [fmap list_fmap String.string_of_list_ascii Nicknames.strtoll].
  destruct (digit_char_facts d Hd) as (_ & _ & -> & Hc). rewrite Hc.
  rewrite (proj2 (Z.eqb_neq (48 + d) 45)), (proj2 (Z.eqb_neq (48 + d) 43)) by lia.
  change (String.String (digit_char d) (String.string_of_list_ascii (digit_char <$> ds)))
    with (String.string_of_list_ascii (digit_char <$> (d :: ds))).
  rewrite Hv. lia.
Qed.

(** ** Properties *)

(** an amount of fewer than ten billion coins is read back exactly from the
    text the node prints for it. *)
Theorem ParseMoney_FormatMoney (n : Z) :
  0 <= n < 10 ^ 10 * COIN -> ParseMoney (FormatMoney n) = Some n.
Proof.
  intros Hn. unfold FormatMoney, COIN in *.
  replace (if 0 <? n then n else i64 (- n)) with n
    by (destruct (Z.ltb_spec 0 n); [done|]; assert (n = 0) as -> by lia; done).
  rewrite Z.quot_div_nonneg, Z.rem_mod_nonneg by lia.
  pose proof (Z.div_mod n 100000000 ltac:(lia)) as Hdm. pose proof (Z.mod_pos_bound n 100000000 ltac:(lia)) as Hm.
  set (q := n / 100000000) in *. set (r := n mod 100000000) in *.
  assert (Hq : 0 <= q < 10 ^ 10) by lia. rewrite (proj2 (Z.ltb_ge n 0)) by lia.
  unfold fmt_d. rewrite (proj2 (Z.ltb_ge q 0)) by lia.
  destruct (fmt_nat_spec q 10 Hq ltac:(lia)) as (ds & -> & Hbd & Hvd & Hne & Hld).
  destruct (fmt_08d_spec r ltac:(lia)) as (f & -> & Hbf & Hvf & Hlf).
  rewrite !reverse_app, <- !fmap_reverse. change (reverse [dot]) with [dot]. rewrite <- app_assoc. cbn [app].
  destruct (trim_zeros_spec (reverse f) (digit_char <$> reverse ds)) as (z & rl & Ez & _ & ->);
    [by apply Forall_reverse|rewrite length_reverse; lia|].
  assert (Ef : f = reverse rl ++ replicate z 0)
    by (rewrite <- (reverse_involutive f), Ez, reverse_app, reverse_replicate; done).
  change ((digit_char <$> rl) ++ dot :: ?x) with ((digit_char <$> rl) ++ [dot] ++ x).
  rewrite !reverse_app, <- !fmap_reverse, reverse_involutive. change (reverse [dot]) with [dot].
  rewrite <- app_assoc. cbn [app]. set (g := reverse rl) in *.
  rewrite Ef in Hbf, Hvf, Hlf. apply Forall_app in Hbf as [Hbg _]. rewrite length_app, length_replicate in Hlf.
  unfold ParseMoney. rewrite chars_string_of, c_str_id.
  2:{ apply Forall_app. split; [|constructor; [done|]]; apply Forall_fmap; (eapply Forall_impl; [done|]);
      intros d Hd; cbn beta in Hd; destruct (digit_char_facts d Hd) as (_ & _ & _ & Hc); cbn; rewrite Hc; apply Z.eqb_neq; lia. }
  replace (Nicknames.trim_start _) with ((digit_char <$> ds) ++ dot :: (digit_char <$> g)).
  2:{ destruct Hbd as [|d ds Hd _]; [done|]. cbn. by destruct (digit_char_facts d Hd) as (_ & _ & -> & _). }
  rewrite parse_whole_digits by done. change (CENT * 10) with (10 ^ Z.of_nat 7).
  rewrite parse_frac_digits by (done || lia). cbn [app forallb negb].
  replace (0 + value_be 10 g * 10 ^ Z.of_nat (7 + 1 - length g)) with r.
  2:{ rewrite <- Hvf, value_be_app, length_replicate. rewrite <- (app_nil_r (replicate z 0)), value_be_zeros.
      replace (7 + 1 - length g)%nat with z by lia. cbn. lia. }
  rewrite length_fmap, (proj2 (Nat.ltb_ge _ _)) by lia. unfold COIN.
  rewrite (proj2 (Z.ltb_ge r 0)), (proj2 (Z.ltb_ge 100000000 r)) by lia. cbn [orb].
  rewrite atoi64_digits, Hvd by done. f_equal. rewrite i64_id by (unfold in_i64; lia). lia.
Qed.

Lemma ParseMoney_FormatMoney_witness : ParseMoney (FormatMoney 4205000000) = Some 4205000000.
Proof. apply ParseMoney_FormatMoney. unfold COIN. lia. Defined.
