(* ===== verification/Arith.v ===== *)
(** * 256-bit arithmetic ([src/src/arith_uint256.h], [arith_uint256.cpp])

    [base_uint<256>] is the array [pn] of eight 32-bit limbs, the least first,
    here a list of [Z]; every operation is the source's loop over the limbs
    with its 64-bit carries.  [val] is the number an array stands for; the
    lemmas show what each operation computes on it, modulo [2 ^ 256]. *)

From S2P Require Import Prelude Script Base58.
Open Scope Z_scope.
Open Scope kubu_scope.

Notation limbs := (list Z).

Definition WIDTH : nat := 8.
Notation B32 := (2 ^ 32).

(** ** Construction and bit operations *)

Definition base_uint_zero : limbs := replicate WIDTH 0.
Definition base_uint_of (b : Z) : limbs :=
  u32 b :: u32 (Z.shiftr b 32) :: replicate (WIDTH - 2) 0.

Definition op_not (pn : limbs) : bool := forallb (fun p => p =? 0) pn.
Definition op_complement (pn : limbs) : limbs := map (fun p => u32 (Z.lnot p)) pn.

(** [pn[i] |= x] *)
Definition or_at (pn : limbs) (i : nat) (x : Z) : limbs := alter (fun p => Z.lor p x) i pn.

(** ** Shifts *)

Definition shl_step (a : limbs) (k : nat) (shift : Z) (pn : limbs) (i : nat) : limbs :=
  let pn := if (i + k + 1 <? WIDTH)%nat && negb (shift =? 0)
            then or_at pn (i + k + 1) (Z.shiftr (a !!! i) (32 - shift)) else pn in
  if (i + k <? WIDTH)%nat then or_at pn (i + k) (u32 (Z.shiftl (a !!! i) shift)) else pn.
Definition op_shl (a : limbs) (shift : Z) : limbs :=
  fold_left (shl_step a (Z.to_nat (shift / 32)) (shift mod 32)) (seq 0 WIDTH) base_uint_zero.

Definition shr_step (a : limbs) (k : nat) (shift : Z) (pn : limbs) (i : nat) : limbs :=
  let pn := if (k + 1 <=? i)%nat && negb (shift =? 0)
            then or_at pn (i - k - 1) (u32 (Z.shiftl (a !!! i) (32 - shift))) else pn in
  if (k <=? i)%nat then or_at pn (i - k) (Z.shiftr (a !!! i) shift) else pn.
Definition op_shr (a : limbs) (shift : Z) : limbs :=
  fold_left (shr_step a (Z.to_nat (shift / 32)) (shift mod 32)) (seq 0 WIDTH) base_uint_zero.

(** ** Addition, negation, multiplication *)

Fixpoint add_loop (carry : Z) (pn b : limbs) : limbs :=
  match pn, b with
  | p :: pn', q :: b' =>
      let n := u64 (carry + p + q) in
      Z.land n 4294967295 :: add_loop (Z.shiftr n 32) pn' b'
  | _, _ => []
  end.
Definition op_add (a b : limbs) : limbs := add_loop 0 a b.

(** [while (++pn[i] == 0 && i < WIDTH-1) i++;] *)
Fixpoint op_incr (pn : limbs) : limbs :=
  match pn with
  | [] => []
  | p :: pn' => let p' := u32 (p + 1) in p' :: (if p' =? 0 then op_incr pn' else pn')
  end.
(** [while (--pn[i] == (uint32_t)-1 && i < WIDTH-1) i++;] *)
Fixpoint op_decr (pn : limbs) : limbs :=
  match pn with
  | [] => []
  | p :: pn' => let p' := u32 (p - 1) in p' :: (if p' =? 4294967295 then op_decr pn' else pn')
  end.

Definition op_neg (a : limbs) : limbs := op_incr (op_complement a).
Definition op_sub (a b : limbs) : limbs := op_add a (op_neg b).

Fixpoint mul32_loop (b32 carry : Z) (pn : limbs) : limbs :=
  match pn with
  | [] => []
  | p :: pn' =>
      let n := u64 (carry + b32 * p) in
      Z.land n 4294967295 :: mul32_loop b32 (Z.shiftr n 32) pn'
  end.
Definition op_mul32 (a : limbs) (b32 : Z) : limbs := mul32_loop b32 0 a.

(** The inner loop of [*=]: [pn] from index [j] on, [b] from 0 on. *)
Fixpoint mul_row (aj carry : Z) (pn b : limbs) : limbs :=
  match pn, b with
  | p :: pn', q :: b' =>
      let n := u64 (carry + p + aj * q) in
      Z.land n 4294967295 :: mul_row aj (Z.shiftr n 32) pn' b'
  | _, _ => pn
  end.
Definition op_mul (a b : limbs) : limbs :=
  fold_left (fun pn j => take j pn ++ mul_row (a !!! j) 0 (drop j pn) b) (seq 0 WIDTH) base_uint_zero.

(** ** Comparison *)

Fixpoint compare_loop (pn b : limbs) (i : nat) : Z :=
  match i with
  | O => 0
  | S i' =>
      if pn !!! i' <? b !!! i' then -1
      else if b !!! i' <? pn !!! i' then 1
      else compare_loop pn b i'
  end.
Definition CompareTo (pn b : limbs) : Z := compare_loop pn b WIDTH.

Definition EqualTo (pn : limbs) (b : Z) : bool :=
  forallb (fun p => p =? 0) (drop 2 pn)
  && (pn !!! 1%nat =? Z.shiftr b 32) && (pn !!! 0%nat =? Z.land b 4294967295).

Definition GetLow64 (pn : limbs) : Z := Z.lor (pn !!! 0%nat) (Z.shiftl (pn !!! 1%nat) 32).

Fixpoint limb_bits (p : Z) (bits : nat) : Z :=
  match bits with
  | O => 1
  | S bits' =>
      if negb (Z.land p (Z.shiftl 1 (Z.of_nat bits)) =? 0) then Z.of_nat bits + 1 else limb_bits p bits'
  end.
Fixpoint bits_loop (pn : limbs) (pos : nat) : Z :=
  match pos with
  | O => 0
  | S pos' =>
      if negb (pn !!! pos' =? 0) then 32 * Z.of_nat pos' + limb_bits (pn !!! pos') 31
      else bits_loop pn pos'
  end.
Definition bits (pn : limbs) : Z := bits_loop pn WIDTH.

(** ** Division *)

(** One more than [shift] iterations are left. *)
Fixpoint div_loop (n : nat) (num div pn : limbs) : limbs :=
  match n with
  | O => pn
  | S shift =>
      let '(num, pn) :=
        if 0 <=? CompareTo num div
        then (op_sub num div,
              or_at pn (shift / 32) (u32 (Z.shiftl 1 (Z.land (Z.of_nat shift) 31))))
        else (num, pn) in
      div_loop shift num (op_shr div 1) pn
  end.
Definition op_div (a b : limbs) : result limbs :=
  let num_bits := bits a in
  let div_bits := bits b in
  reject (div_bits =? 0) with "Division by zero" ;
  if num_bits <? div_bits then Ok base_uint_zero
  else
    let shift := num_bits - div_bits in
    Ok (div_loop (S (Z.to_nat shift)) a (op_shl b shift) base_uint_zero).

(** ** The compact format *)

Definition SetCompact (nCompact : Z) : limbs * bool * bool :=
  let nSize := Z.shiftr nCompact 24 in
  let nWord := Z.land nCompact 8388607 in
  let nWord := if nSize <=? 3 then Z.shiftr nWord (8 * (3 - nSize)) else nWord in
  let this := if nSize <=? 3 then base_uint_of nWord else op_shl (base_uint_of nWord) (8 * (nSize - 3)) in
  (this,
   negb (nWord =? 0) && negb (Z.land nCompact 8388608 =? 0),
   negb (nWord =? 0) && ((34 <? nSize) || (255 <? nWord) && (33 <? nSize) || (65535 <? nWord) && (32 <? nSize))).

Definition GetCompact (pn : limbs) (fNegative : bool) : result Z :=
  let nSize := (bits pn + 7) / 8 in
  let nCompact := if nSize <=? 3 then u32 (u64 (Z.shiftl (GetLow64 pn) (8 * (3 - nSize))))
                  else u32 (GetLow64 (op_shr pn (8 * (nSize - 3)))) in
  let high := negb (Z.land nCompact 8388608 =? 0) in
  let nSize := if high then nSize + 1 else nSize in
  let nCompact := if high then Z.shiftr nCompact 8 else nCompact in
  reject (negb (Z.land nCompact (u32 (Z.lnot 8388607)) =? 0)) with "assertion (nCompact & ~0x007fffff) == 0 failed" ;
  reject (negb (nSize <? 256)) with "assertion nSize < 256 failed" ;
  let nCompact := Z.lor nCompact (u32 (Z.shiftl nSize 24)) in
  Ok (Z.lor nCompact (if fNegative && negb (Z.land nCompact 8388607 =? 0) then 8388608 else 0)).

(** ** Conversion to and from [uint256], the number of its 32 bytes *)

Definition ArithToUint256 (pn : limbs) : Z := le_value (concat (map (le_bytes 4) pn)).
Definition UintToArith256 (a : Z) : limbs :=
  map (fun x => le_value (take 4 (drop (x * 4) (le_bytes 32 a)))) (seq 0 WIDTH).

(** ** The number of an array *)

Definition val (l : limbs) : Z := value_le B32 l.
Definition wf (l : limbs) : Prop := length l = WIDTH /\ in_base B32 l.
Notation M256 := (2 ^ 256).

Lemma low32 n : Z.land n 4294967295 = n mod B32.
Proof. change 4294967295 with (Z.ones 32). by apply Z.land_ones. Qed.
Lemma high32 n : Z.shiftr n 32 = n / B32.
Proof. by apply Z.shiftr_div_pow2. Qed.

Lemma val_range l : wf l -> 0 <= val l < M256.
Proof.
  intros [Hl Hb]. pose proof (value_le_bound B32 l ltac:(lia) Hb) as H. rewrite Hl in H.
  change (B32 ^ Z.of_nat WIDTH) with M256 in H. done.
Qed.

Lemma wf_lookup l i : wf l -> (i < WIDTH)%nat -> 0 <= l !!! i < B32.
Proof.
  intros [Hl Hb] Hi. eapply (Forall_lookup_total_1 _ l i) in Hb; [exact Hb|by rewrite Hl].
Qed.

Lemma wf_zero : wf base_uint_zero.
Proof. split; [done|]. repeat constructor; lia. Qed.
Lemma val_zero : val base_uint_zero = 0.
Proof. done. Qed.

Lemma base_uint_of_wf b : wf (base_uint_of b).
Proof.
  split; [done|]. unfold base_uint_of.
  repeat (apply Forall_cons; split; [first [apply u32_range | lia]|]). apply Forall_nil_2.
Qed.
Lemma val_base_uint_of b : in_u64 b -> val (base_uint_of b) = b.
Proof.
  intros Hb. unfold val, base_uint_of. cbn [value_le replicate Nat.sub WIDTH].
  unfold u32, wrap_u. rewrite high32, !(Z.mod_small (b / _)).
  - pose proof (Z.div_mod b B32 ltac:(lia)). lia.
  - unfold in_u64 in Hb. split; [apply Z.div_pos; lia|apply Z.div_lt_upper_bound; lia].
Qed.

(** The two arrays of equal numbers are equal. *)
Lemma val_inj_aux l1 l2 : in_base B32 l1 -> in_base B32 l2 -> length l1 = length l2 -> val l1 = val l2 -> l1 = l2.
Proof.
  unfold val. intros H1. revert l2. induction H1 as [|d l1 Hd _ IH]; intros [|e l2] H2 Hlen Hv; try done.
  apply Forall_cons in H2 as [He H2]. cbn in Hlen, Hv.
  assert (d = e) as ->.
  { apply (f_equal (fun z => z mod B32)) in Hv. rewrite !(Z.mul_comm B32), !Z_mod_plus_full in Hv.
    by rewrite !Z.mod_small in Hv by done. }
  f_equal. apply IH; [done|lia|]. cbn in *. nia.
Qed.
Lemma val_inj l1 l2 : wf l1 -> wf l2 -> val l1 = val l2 -> l1 = l2.
Proof. intros [L1 H1] [L2 H2]. apply val_inj_aux; [done|done|lia]. Qed.

(** ** Carry loops *)

Lemma add_loop_spec pn b carry :
  in_base B32 pn -> in_base B32 b -> length pn = length b -> 0 <= carry <= 1 ->
  exists c, length (add_loop carry pn b) = length pn /\ in_base B32 (add_loop carry pn b) /\
    val (add_loop carry pn b) + c * B32 ^ Z.of_nat (length pn) = carry + val pn + val b.
Proof.
  unfold val. intros Hp. revert b carry. induction Hp as [|p pn Hp _ IH]; intros [|q b] carry Hb Hlen Hc; try done.
  { exists carry. split_and!; [done|constructor|cbn; lia]. }
  apply Forall_cons in Hb as [Hq Hb]. cbn [add_loop]. rewrite u64_id by (unfold in_u64; lia).
  rewrite low32, high32. set (n := carry + p + q).
  assert (0 <= n / B32 <= 1) as Hd.
  { split; [apply Z.div_pos; lia|]. apply Z.lt_succ_r, Z.div_lt_upper_bound; lia. }
  destruct (IH b (n / B32) Hb ltac:(cbn in Hlen; lia) Hd) as (c & L & I & V).
  exists c. cbn [length value_le]. rewrite pow_S. split_and!; [by rewrite L| |].
  - apply Forall_cons; split; [apply Z.mod_pos_bound; lia|done].
  - pose proof (Z.div_mod n B32 ltac:(lia)). unfold n in *. nia.
Qed.

Lemma mul32_loop_spec b32 pn carry :
  0 <= b32 < B32 -> in_base B32 pn -> 0 <= carry < B32 ->
  exists c, length (mul32_loop b32 carry pn) = length pn /\ in_base B32 (mul32_loop b32 carry pn) /\
    val (mul32_loop b32 carry pn) + c * B32 ^ Z.of_nat (length pn) = carry + b32 * val pn.
Proof.
  unfold val. intros Hb Hp. revert carry. induction Hp as [|p pn Hp _ IH]; intros carry Hc.
  { exists carry. split_and!; [done|constructor|cbn; lia]. }
  cbn [mul32_loop]. rewrite u64_id by (unfold in_u64; nia).
  rewrite low32, high32. set (n := carry + b32 * p).
  assert (0 <= n / B32 < B32) as Hd.
  { split; [apply Z.div_pos; nia|]. apply Z.div_lt_upper_bound; nia. }
  destruct (IH (n / B32) Hd) as (c & L & I & V).
  exists c. cbn [length value_le]. rewrite pow_S. split_and!; [by rewrite L| |].
  - apply Forall_cons; split; [apply Z.mod_pos_bound; lia|done].
  - pose proof (Z.div_mod n B32 ltac:(lia)). unfold n in *. nia.
Qed.

Lemma mul_row_spec aj pn b carry :
  0 <= aj < B32 -> in_base B32 pn -> in_base B32 b -> (length pn <= length b)%nat -> 0 <= carry < B32 ->
  exists c, length (mul_row aj carry pn b) = length pn /\ in_base B32 (mul_row aj carry pn b) /\
    val (mul_row aj carry pn b) + c * B32 ^ Z.of_nat (length pn) = carry + val pn + aj * val b.
Proof.
  unfold val. intros Ha Hp. revert b carry. induction Hp as [|p pn Hp _ IH]; intros b carry Hb Hlen Hc.
  { exists (carry + aj * value_le B32 b). destruct b; (split_and!; [done|constructor|cbn; lia]). }
  destruct b as [|q b]; [cbn in Hlen; lia|]. apply Forall_cons in Hb as [Hq Hb].
  cbn [mul_row]. rewrite u64_id by (unfold in_u64; nia).
  rewrite low32, high32. set (n := carry + p + aj * q).
  assert (0 <= n / B32 < B32) as Hd.
  { split; [apply Z.div_pos; nia|]. apply Z.div_lt_upper_bound; nia. }
  destruct (IH b (n / B32) Hb ltac:(cbn in Hlen; lia) Hd) as (c & L & I & V).
  exists c. cbn [length value_le]. rewrite pow_S. split_and!; [by rewrite L| |].
  - apply Forall_cons; split; [apply Z.mod_pos_bound; lia|done].
  - pose proof (Z.div_mod n B32 ltac:(lia)). unfold n in *. nia.
Qed.

Lemma mod_of_carry l v c : wf l -> val l + c * M256 = v -> val l = v mod M256.
Proof.
  intros Hl <-. rewrite Z_mod_plus_full. symmetry. apply Z.mod_small, val_range, Hl.
Qed.

Lemma op_add_spec a b : wf a -> wf b -> wf (op_add a b) /\ val (op_add a b) = (val a + val b) mod M256.
Proof.
  intros [La Ha] [Lb Hb]. destruct (add_loop_spec a b 0 Ha Hb ltac:(lia) ltac:(lia)) as (c & L & I & V).
  assert (wf (op_add a b)) by (split; [by rewrite <- La|done]). split; [done|].
  apply (mod_of_carry _ _ c); [done|]. rewrite La in V. exact V.
Qed.

Lemma op_mul32_spec a b : wf a -> in_u32 b -> wf (op_mul32 a b) /\ val (op_mul32 a b) = (val a * b) mod M256.
Proof.
  intros [La Ha] Hb. destruct (mul32_loop_spec b a 0 Hb Ha ltac:(lia)) as (c & L & I & V).
  assert (wf (op_mul32 a b)) by (split; [by rewrite <- La|done]). split; [done|].
  apply (mod_of_carry _ _ c); [done|]. rewrite La in V. rewrite (Z.mul_comm (val a)). exact V.
Qed.

Lemma op_incr_spec l :
  in_base B32 l -> exists c, length (op_incr l) = length l /\ in_base B32 (op_incr l) /\
    val (op_incr l) + c * B32 ^ Z.of_nat (length l) = val l + 1.
Proof.
  unfold val. induction 1 as [|p l Hp Hl IH]; [exists 1; split_and!; [done|constructor|done]|].
  cbn [op_incr]. destruct (Z.eqb_spec (u32 (p + 1)) 0) as [E|E]; cbn [length value_le]; rewrite pow_S.
  - destruct IH as (c & L & I & V). exists c.
    assert (p = B32 - 1) as ->.
    { destruct (Z.eq_dec p (B32 - 1)); [done|]. rewrite u32_id in E; unfold in_u32; lia. }
    split_and!; [by rewrite L|apply Forall_cons; split; [apply u32_range|done]|]. rewrite E. nia.
  - exists 0. assert (p + 1 < B32).
    { destruct (Z.eq_dec p (B32 - 1)) as [->|]; [done|lia]. }
    rewrite u32_id by (unfold in_u32; lia).
    split_and!; [done|apply Forall_cons; split; [lia|done]|lia].
Qed.

Lemma op_decr_spec l :
  in_base B32 l -> exists c, length (op_decr l) = length l /\ in_base B32 (op_decr l) /\
    val (op_decr l) + c * B32 ^ Z.of_nat (length l) = val l - 1.
Proof.
  unfold val. induction 1 as [|p l Hp Hl IH]; [exists (-1); split_and!; [done|constructor|done]|].
  cbn [op_decr]. destruct (Z.eqb_spec (u32 (p - 1)) 4294967295) as [E|E]; cbn [length value_le]; rewrite pow_S.
  - destruct IH as (c & L & I & V). exists c.
    assert (p = 0) as ->.
    { destruct (Z.eq_dec p 0); [done|]. rewrite u32_id in E; unfold in_u32; lia. }
    split_and!; [by rewrite L|apply Forall_cons; split; [apply u32_range|done]|]. rewrite E. nia.
  - exists 0. assert (0 < p).
    { destruct (Z.eq_dec p 0) as [->|]; [done|lia]. }
    rewrite u32_id by (unfold in_u32; lia).
    split_and!; [done|apply Forall_cons; split; [lia|done]|lia].
Qed.

Lemma u32_lnot p : 0 <= p < B32 -> u32 (Z.lnot p) = B32 - 1 - p.
Proof.
  intros Hp. unfold u32, wrap_u. rewrite Z.lnot_eq_pred_opp. symmetry.
  apply (Z.mod_unique _ _ (-1)); lia.
Qed.

Lemma op_complement_spec l :
  in_base B32 l -> in_base B32 (op_complement l) /\
    val (op_complement l) = B32 ^ Z.of_nat (length l) - 1 - val l.
Proof.
  unfold val. induction 1 as [|p l Hp Hl [I V]]; [split; [constructor|done]|].
  cbn [op_complement map length value_le] in *. rewrite pow_S, u32_lnot by done.
  split; [apply Forall_cons; split; [lia|exact I]|]. fold (op_complement l). rewrite V. ring.
Qed.

Lemma op_complement_wf l : wf l -> wf (op_complement l) /\ val (op_complement l) = M256 - 1 - val l.
Proof.
  intros [L H]. destruct (op_complement_spec l H) as [I V]. rewrite L in V. split; [split|exact V]; [|done].
  unfold op_complement. by rewrite length_map.
Qed.

Lemma op_incr_wf l : wf l -> wf (op_incr l) /\ val (op_incr l) = (val l + 1) mod M256.
Proof.
  intros [L H]. destruct (op_incr_spec l H) as (c & L' & I & V). rewrite L in *.
  assert (wf (op_incr l)) by done. split; [done|]. by apply (mod_of_carry _ _ c).
Qed.
Lemma op_decr_wf l : wf l -> wf (op_decr l) /\ val (op_decr l) = (val l - 1) mod M256.
Proof.
  intros [L H]. destruct (op_decr_spec l H) as (c & L' & I & V). rewrite L in *.
  assert (wf (op_decr l)) by done. split; [done|]. by apply (mod_of_carry _ _ c).
Qed.

Lemma op_neg_spec l : wf l -> wf (op_neg l) /\ val (op_neg l) = (- val l) mod M256.
Proof.
  intros H. destruct (op_complement_wf l H) as [W V]. destruct (op_incr_wf _ W) as [W' V'].
  split; [exact W'|]. unfold op_neg. rewrite V', V.
  replace (M256 - 1 - val l + 1) with (- val l + 1 * M256) by ring. apply Z_mod_plus_full.
Qed.

Lemma op_sub_spec a b : wf a -> wf b -> wf (op_sub a b) /\ val (op_sub a b) = (val a - val b) mod M256.
Proof.
  intros Ha Hb. destruct (op_neg_spec b Hb) as [W V]. destruct (op_add_spec a _ Ha W) as [W' V'].
  split; [exact W'|]. unfold op_sub. rewrite V', V, Zplus_mod_idemp_r. done.
Qed.

(** ** The product *)

Lemma val_app l1 l2 : val (l1 ++ l2) = val l1 + B32 ^ Z.of_nat (length l1) * val l2.
Proof. apply value_le_app. Qed.
Lemma val_take_drop j l : (j <= length l)%nat -> val l = val (take j l) + B32 ^ Z.of_nat j * val (drop j l).
Proof. intros Hj. rewrite <- (take_drop j l) at 1. rewrite val_app, length_take_le by done. done. Qed.
Lemma val_take_S j l : (j < length l)%nat -> val (take (S j) l) = val (take j l) + B32 ^ Z.of_nat j * l !!! j.
Proof.
  intros Hj. destruct (lookup_lt_is_Some_2 l j Hj) as [x Hx].
  rewrite (take_S_r l j x Hx), val_app, length_take_le by lia. rewrite (list_lookup_total_correct _ _ _ Hx).
  unfold val at 2. cbn [value_le]. lia.
Qed.

Lemma mul_rows a b m : wf a -> wf b -> (m <= WIDTH)%nat ->
  let pn := fold_left (fun pn j => take j pn ++ mul_row (a !!! j) 0 (drop j pn) b) (seq 0 m) base_uint_zero in
  wf pn /\ exists c, val pn + c * M256 = val (take m a) * val b.
Proof.
  intros Ha Hb. induction m as [|m IH]; intros Hm; [split; [apply wf_zero|by exists 0]|].
  rewrite seq_S, fold_left_app. cbn [fold_left Nat.add].
  destruct (IH ltac:(lia)) as [W [c V]]. clear IH. revert W V.
  set (pn := fold_left _ (seq 0 m) _). intros W V. destruct W as [Lp Ip].
  destruct (mul_row_spec (a !!! m) (drop m pn) b 0) as (d & L & I & R).
  { apply wf_lookup; [done|lia]. } { by apply Forall_drop. } { apply Hb. }
  { rewrite length_drop. destruct Hb as [-> _]. lia. } { lia. }
  rewrite length_drop, Lp in L, R. split; [split|].
  - rewrite length_app, length_take_le, L by lia. lia.
  - apply Forall_app_2; [by apply Forall_take|exact I].
  - rewrite val_app, length_take_le by lia. rewrite val_take_S by (destruct Ha as [-> _]; lia).
    pose proof (val_take_drop m pn ltac:(lia)) as E. exists (c + d).
    assert (B32 ^ Z.of_nat m * B32 ^ Z.of_nat (WIDTH - m) = M256) as P.
    { rewrite <- Z.pow_add_r by lia. replace (Z.of_nat m + Z.of_nat (WIDTH - m)) with 8 by (unfold WIDTH in *; lia). done. }
    rewrite <- P in *. nia.
Qed.

Lemma op_mul_spec a b : wf a -> wf b -> wf (op_mul a b) /\ val (op_mul a b) = (val a * val b) mod M256.
Proof.
  intros Ha Hb. destruct (mul_rows a b WIDTH Ha Hb ltac:(lia)) as [W [c V]]. split; [exact W|].
  apply (mod_of_carry _ _ c); [exact W|]. rewrite take_ge in V by (destruct Ha as [-> _]; lia). exact V.
Qed.

(** ** Comparisons *)

Lemma compare_loop_spec a b i : wf a -> wf b -> (i <= WIDTH)%nat ->
  compare_loop a b i = Z.sgn (val (take i a) - val (take i b)).
Proof.
  intros Ha Hb. induction i as [|i IH]; intros Hi; [done|]. cbn [compare_loop].
  pose proof (wf_lookup a i Ha ltac:(lia)). pose proof (wf_lookup b i Hb ltac:(lia)).
  destruct Ha as [La Ia]. destruct Hb as [Lb Ib]. rewrite !val_take_S by lia.
  pose proof (value_le_bound B32 (take i a) ltac:(lia) (Forall_take _ _ _ Ia)) as Ba.
  pose proof (value_le_bound B32 (take i b) ltac:(lia) (Forall_take _ _ _ Ib)) as Bb.
  rewrite length_take_le in Ba, Bb by lia. fold (val (take i a)) in Ba. fold (val (take i b)) in Bb.
  destruct (Z.ltb_spec (a !!! i) (b !!! i)); [symmetry; apply Z.sgn_neg; nia|].
  destruct (Z.ltb_spec (b !!! i) (a !!! i)); [symmetry; apply Z.sgn_pos; nia|].
  rewrite IH by lia. f_equal. nia.
Qed.

Lemma CompareTo_spec a b : wf a -> wf b -> CompareTo a b = Z.sgn (val a - val b).
Proof.
  intros Ha Hb. unfold CompareTo. rewrite compare_loop_spec by done.
  destruct Ha as [La _], Hb as [Lb _]. by rewrite !take_ge by lia.
Qed.
Lemma CompareTo_ge a b : wf a -> wf b -> (0 <=? CompareTo a b) = (val b <=? val a).
Proof. intros Ha Hb. rewrite CompareTo_spec by done. lia. Qed.
Lemma CompareTo_gt a b : wf a -> wf b -> (0 <? CompareTo a b) = (val b <? val a).
Proof. intros Ha Hb. rewrite CompareTo_spec by done. lia. Qed.

Lemma all_zero_val l : in_base B32 l -> forallb (fun p => p =? 0) l = (val l =? 0).
Proof.
  unfold val. induction 1 as [|p l Hp Hl IH]; [done|]. cbn [forallb value_le].
  pose proof (value_le_bound B32 l ltac:(lia) Hl).
  destruct (Z.eqb_spec p 0) as [->|Hz]; cbn [andb]; [rewrite IH|]; lia.
Qed.
Lemma op_not_spec a : wf a -> op_not a = (val a =? 0).
Proof. intros [_ H]. by apply all_zero_val. Qed.

(** The two low limbs and the rest. *)
Lemma val_low64 a : wf a -> exists p q r, a = p :: q :: r /\ 0 <= p < B32 /\ 0 <= q < B32 /\ in_base B32 r /\
  val a = p + B32 * q + 2 ^ 64 * val r.
Proof.
  intros [L H]. destruct a as [|p [|q r]]; try done. apply Forall_cons in H as [Hp H].
  apply Forall_cons in H as [Hq H]. exists p, q, r. split_and!; try done; try lia.
  unfold val. cbn [value_le]. lia.
Qed.

Lemma EqualTo_spec a b : wf a -> in_u64 b -> EqualTo a b = (val a =? b).
Proof.
  intros Ha Hb. destruct (val_low64 a Ha) as (p & q & r & -> & Hp & Hq & Hr & ->).
  unfold EqualTo. change (drop 2 (p :: q :: r)) with r. rewrite all_zero_val, high32, low32 by done.
  cbn [lookup_total list_lookup_total].
  pose proof (value_le_bound B32 r ltac:(lia) Hr) as B. fold (val r) in B.
  pose proof (Z.div_mod b B32 ltac:(lia)). pose proof (Z.mod_pos_bound b B32 ltac:(lia)). unfold in_u64 in Hb.
  destruct (Z.eqb_spec (val r) 0) as [->|]; cbn [andb]; [|symmetry; apply Z.eqb_neq; nia].
  destruct (Z.eqb_spec q (b / B32)) as [->|]; cbn [andb]; [|symmetry; apply Z.eqb_neq; nia].
  destruct (Z.eqb_spec p (b mod B32)) as [->|]; symmetry; [apply Z.eqb_eq|apply Z.eqb_neq]; lia.
Qed.

Lemma GetLow64_spec a : wf a -> GetLow64 a = val a mod 2 ^ 64.
Proof.
  intros Ha. destruct (val_low64 a Ha) as (p & q & r & -> & Hp & Hq & Hr & ->).
  unfold GetLow64. cbn [lookup_total list_lookup_total]. rewrite Z.shiftl_mul_pow2, Z.lor_comm, lor_add_low by lia.
  rewrite (Z.mul_comm (2 ^ 64)), Z_mod_plus_full, Z.mod_small by lia. lia.
Qed.

(** ** Bits *)

Lemma testbit_val l n : in_base B32 l -> 0 <= n < 32 * Z.of_nat (length l) ->
  Z.testbit (val l) n = Z.testbit (l !!! Z.to_nat (n / 32)) (n mod 32).
Proof.
  unfold val. intros H. revert n. induction H as [|d l Hd Hl IH]; intros n Hn; [cbn in Hn; lia|].
  cbn [value_le]. rewrite Z.add_comm, (Z.mul_comm B32). destruct (Z.lt_ge_cases n 32).
  - rewrite (Z.div_small n), (Z.mod_small n) by lia. cbn [lookup_total list_lookup_total Z.to_nat].
    rewrite <- (Z.mod_pow2_bits_low _ 32) by lia. by rewrite Z.add_comm, Z_mod_plus_full, Z.mod_small.
  - replace n with ((n - 32) + 32) at 1 by lia. rewrite <- Z.div_pow2_bits by lia.
    rewrite Z.add_comm, Z.div_add, Z.div_small, Z.add_0_l by lia.
    cbn [length] in Hn. rewrite IH by lia.
    assert (n / 32 = (n - 32) / 32 + 1) as -> by (rewrite <- (Z.div_add _ 1) by lia; f_equal; lia).
    assert (n mod 32 = (n - 32) mod 32) as -> by (rewrite <- (Z_mod_plus_full (n - 32) 1); f_equal; lia).
    pose proof (Z.div_pos (n - 32) 32 ltac:(lia) ltac:(lia)).
    by rewrite Z2Nat.inj_add, Nat.add_1_r by lia.
Qed.

Lemma lor_range k x y : 0 <= k -> 0 <= x < 2 ^ k -> 0 <= y < 2 ^ k -> 0 <= Z.lor x y < 2 ^ k.
Proof.
  intros Hk Hx Hy. assert (Z.lor x y = Z.lor x y mod 2 ^ k) as ->; [|apply Z.mod_pos_bound; lia].
  apply Z.bits_inj'. intros i Hi. destruct (Z.lt_ge_cases i k).
  - by rewrite Z.mod_pow2_bits_low by lia.
  - rewrite Z.mod_pow2_bits_high, Z.lor_spec, !(testbit_small _ k) by lia. done.
Qed.

(** An array whose limbs have the bits of [v] stands for [v mod 2 ^ 256]. *)
Lemma val_of_bits a v : wf a ->
  (forall i r, (i < WIDTH)%nat -> 0 <= r < 32 -> Z.testbit (a !!! i) r = Z.testbit v (32 * Z.of_nat i + r)) ->
  val a = v mod M256.
Proof.
  intros Ha H. apply Z.bits_inj'. intros n Hn. destruct (Z.lt_ge_cases n 256).
  - rewrite Z.mod_pow2_bits_low by lia. destruct Ha as [L I].
    rewrite testbit_val by (rewrite ?L; unfold WIDTH; lia || done).
    pose proof (Z.div_mod n 32 ltac:(lia)). pose proof (Z.mod_pos_bound n 32 ltac:(lia)).
    rewrite H; [f_equal; lia|unfold WIDTH; lia|done].
  - rewrite Z.mod_pow2_bits_high by lia. apply (testbit_small _ 256); [by apply val_range|lia].
Qed.
Lemma testbit_limb a i r : wf a -> (i < WIDTH)%nat -> 0 <= r < 32 ->
  Z.testbit (a !!! i) r = Z.testbit (val a) (32 * Z.of_nat i + r).
Proof.
  intros [L I] Hi Hr. rewrite testbit_val; [|done|rewrite L; unfold WIDTH in *; lia].
  rewrite (Z.mul_comm 32), Z.div_add_l, Z.div_small, Z.add_0_r, Nat2Z.id by lia.
  by rewrite Z.add_comm, Z_mod_plus_full, Z.mod_small.
Qed.

Lemma length_or_at pn i x : length (or_at pn i x) = length pn.
Proof. apply length_alter. Qed.
Lemma lookup_or_at pn i x j : (i < length pn)%nat ->
  or_at pn i x !!! j = if decide (i = j) then Z.lor (pn !!! j) x else pn !!! j.
Proof.
  intros Hi. unfold or_at. case_decide as E; [subst|].
  - by rewrite list_lookup_total_alter_eq.
  - by rewrite list_lookup_total_alter_ne.
Qed.

(** ** Shifts *)

(** Limb [j] after the first [m] rounds of the loop. *)
Definition shl_limb (a : limbs) (k : nat) (s : Z) (m j : nat) : Z :=
  Z.lor (if decide ((k + 1 <= j < k + 1 + m)%nat /\ s <> 0) then Z.shiftr (a !!! (j - k - 1)%nat) (32 - s) else 0)
        (if decide (k <= j < k + m)%nat then u32 (Z.shiftl (a !!! (j - k)%nat) s) else 0).
Definition shr_limb (a : limbs) (k : nat) (s : Z) (m j : nat) : Z :=
  Z.lor (if decide (j + k < m)%nat then Z.shiftr (a !!! (j + k)%nat) s else 0)
        (if decide ((j + k + 1 < m)%nat /\ s <> 0) then u32 (Z.shiftl (a !!! (j + k + 1)%nat) (32 - s)) else 0).

Lemma shl_rounds a k s m :
  let pn := fold_left (shl_step a k s) (seq 0 m) base_uint_zero in
  length pn = WIDTH /\ forall j, (j < WIDTH)%nat -> pn !!! j = shl_limb a k s m j.
Proof.
  induction m as [|m [L H]].
  { split; [done|]. intros j Hj. cbn [seq fold_left]. unfold base_uint_zero, shl_limb.
    rewrite lookup_total_replicate_2 by done. by rewrite !decide_False by lia. }
  rewrite seq_S, fold_left_app. cbn [fold_left Nat.add]. revert L H. set (pn := fold_left _ (seq 0 m) _).
  intros L H. unfold shl_step. set (pn' := if (_ && _)%bool then _ else _).
  assert (length pn' = WIDTH) as L'.
  { unfold pn'. case_match; [rewrite length_or_at|]; exact L. }
  assert (forall j, (j < WIDTH)%nat -> pn' !!! j =
    if decide ((m + k + 1 = j)%nat /\ s <> 0) then Z.lor (pn !!! j) (Z.shiftr (a !!! m) (32 - s)) else pn !!! j) as H'.
  { intros j Hj. unfold pn'. destruct (Nat.ltb_spec (m + k + 1) WIDTH); destruct (Z.eqb_spec s 0); cbn [andb negb];
      try (rewrite lookup_or_at by lia); repeat case_decide; naive_solver lia. }
  split; [case_match; [rewrite length_or_at|]; exact L'|]. intros j Hj.
  destruct (Nat.ltb_spec (m + k) WIDTH) as [Hk|Hk]; [rewrite lookup_or_at by lia|];
    rewrite H', H by done; unfold shl_limb.
  - destruct (decide (m + k = j)%nat) as [<-|Hne].
    + rewrite (decide_False (P := ((_ = _)%nat /\ _))) by lia. rewrite (decide_False (P := (_ <= _ < k + m)%nat)) by lia.
      rewrite (decide_True (P := (_ <= _ < k + S m)%nat)) by lia. rewrite Z.lor_0_r.
      replace (m + k - k)%nat with m by lia. f_equal. apply decide_ext. lia.
    + rewrite (decide_ext (k <= j < k + S m)%nat (k <= j < k + m)%nat) by lia.
      destruct (decide ((m + k + 1 = j)%nat /\ s <> 0)) as [[<- Hs]|Hn].
      * rewrite (decide_False (P := ((_ <= _ < k + 1 + m)%nat /\ _))), (decide_False (P := (_ <= _ < k + m)%nat)) by lia.
        rewrite decide_True by lia. replace (m + k + 1 - k - 1)%nat with m by lia. by rewrite !Z.lor_0_r.
      * f_equal. apply decide_ext. lia.
  - rewrite decide_False by lia. f_equal; apply decide_ext; lia.
Qed.

Lemma shr_rounds a k s m : (m <= WIDTH)%nat ->
  let pn := fold_left (shr_step a k s) (seq 0 m) base_uint_zero in
  length pn = WIDTH /\ forall j, (j < WIDTH)%nat -> pn !!! j = shr_limb a k s m j.
Proof.
  induction m as [|m IH]; intros Hm.
  { split; [done|]. intros j Hj. cbn [seq fold_left]. unfold base_uint_zero, shr_limb.
    rewrite lookup_total_replicate_2 by done. by rewrite !decide_False by lia. }
  destruct (IH ltac:(lia)) as [L H]. clear IH.
  rewrite seq_S, fold_left_app. cbn [fold_left Nat.add]. revert L H. set (pn := fold_left _ (seq 0 m) _).
  intros L H. unfold shr_step. set (pn' := if (_ && _)%bool then _ else _).
  assert (length pn' = WIDTH) as L'.
  { unfold pn'. case_match; [rewrite length_or_at|]; exact L. }
  assert (forall j, (j < WIDTH)%nat -> pn' !!! j =
    if decide ((j + k + 1 = m)%nat /\ s <> 0) then Z.lor (pn !!! j) (u32 (Z.shiftl (a !!! m) (32 - s))) else pn !!! j) as H'.
  { intros j Hj. unfold pn'. destruct (Nat.leb_spec (k + 1) m); destruct (Z.eqb_spec s 0); cbn [andb negb];
      try (rewrite lookup_or_at by lia); repeat case_decide; naive_solver lia. }
  split; [case_match; [rewrite length_or_at|]; exact L'|]. intros j Hj.
  destruct (Nat.leb_spec k m) as [Hk|Hk]; [rewrite lookup_or_at by lia|];
    rewrite H', H by done; unfold shr_limb.
  - destruct (decide (m - k = j)%nat) as [Hj'|Hne].
    + assert (j + k = m)%nat as <- by lia.
      rewrite (decide_False (P := ((_ = _)%nat /\ _))), !(decide_False (P := ((_ + _ + _ < _)%nat /\ _))) by lia.
      rewrite (decide_False (P := (j + k < j + k)%nat)), decide_True by lia. by rewrite !Z.lor_0_r.
    + rewrite (decide_ext (j + k < S m)%nat (j + k < m)%nat) by lia.
      destruct (decide ((j + k + 1 = m)%nat /\ s <> 0)) as [[<- Hs]|Hn].
      * rewrite (decide_False (P := ((_ < j + k + 1)%nat /\ _))), (decide_True (P := ((_ < S _)%nat /\ _))) by lia.
        by rewrite Z.lor_0_r.
      * f_equal. apply decide_ext. lia.
  - rewrite decide_False by lia. f_equal; apply decide_ext; lia.
Qed.

Lemma wf_of_lookup l : length l = WIDTH -> (forall j, (j < WIDTH)%nat -> 0 <= l !!! j < B32) -> wf l.
Proof.
  intros L H. split; [done|]. apply Forall_lookup_2. intros i x Hx. rewrite <- (list_lookup_total_correct _ _ _ Hx). apply H. rewrite <- L. by eapply lookup_lt_Some.
Qed.

Lemma testbit_u32 z r : 0 <= r < 32 -> Z.testbit (u32 z) r = Z.testbit z r.
Proof. intros Hr. unfold u32, wrap_u. by rewrite Z.mod_pow2_bits_low by lia. Qed.
Lemma shiftr_range x s : 0 <= x < B32 -> 0 <= s -> 0 <= Z.shiftr x s < B32.
Proof.
  intros Hx Hs. rewrite Z.shiftr_div_pow2 by done. pose proof (Z.pow_pos_nonneg 2 s ltac:(lia) Hs).
  split; [apply Z.div_pos; lia|]. apply Z.div_lt_upper_bound; [lia|]. nia.
Qed.

Lemma shl_limb_range a k s j : wf a -> 0 <= s < 32 -> (j < WIDTH)%nat -> 0 <= shl_limb a k s WIDTH j < B32.
Proof.
  intros Ha Hs Hj. apply (lor_range 32); [lia| |]; (case_decide; [|lia]).
  - apply shiftr_range; [|lia]. apply wf_lookup; [done|lia].
  - apply u32_range.
Qed.
Lemma shr_limb_range a k s j : wf a -> 0 <= s < 32 -> 0 <= shr_limb a k s WIDTH j < B32.
Proof.
  intros Ha Hs. apply (lor_range 32); [lia| |]; (case_decide; [|lia]).
  - apply shiftr_range; [|lia]. apply wf_lookup; [done|lia].
  - apply u32_range.
Qed.

Lemma shl_limb_bits a (k : nat) s j r : wf a -> 0 <= s < 32 -> (j < WIDTH)%nat -> 0 <= r < 32 ->
  Z.testbit (shl_limb a k s WIDTH j) r = Z.testbit (val a) (32 * Z.of_nat j + r - (32 * Z.of_nat k + s)).
Proof.
  intros Ha Hs Hj Hr. unfold shl_limb. rewrite Z.lor_spec. destruct (Z.lt_ge_cases r s).
  - rewrite (orb_comm _ (Z.testbit (if decide _ then u32 _ else 0) r)).
    replace (Z.testbit (if decide _ then u32 _ else 0) r) with false.
    2: { case_decide; [|by rewrite Z.bits_0]. by rewrite testbit_u32, Z.shiftl_spec_low by lia. }
    cbn [orb]. case_decide.
    + rewrite Z.shiftr_spec, testbit_limb by (done || lia). f_equal. lia.
    + rewrite Z.bits_0, Z.testbit_neg_r; [done|lia].
  - replace (Z.testbit (if decide _ then Z.shiftr _ _ else 0) r) with false.
    2: { case_decide; [|by rewrite Z.bits_0]. rewrite Z.shiftr_spec by lia. symmetry.
         apply (testbit_small _ 32); [apply wf_lookup; [done|lia]|lia]. }
    cbn [orb]. case_decide.
    + rewrite testbit_u32, Z.shiftl_spec, testbit_limb by (done || lia). f_equal. lia.
    + rewrite Z.bits_0, Z.testbit_neg_r; [done|lia].
Qed.

Lemma shr_limb_bits a (k : nat) s j r : wf a -> 0 <= s < 32 -> (j < WIDTH)%nat -> 0 <= r < 32 ->
  Z.testbit (shr_limb a k s WIDTH j) r = Z.testbit (val a) (32 * Z.of_nat j + r + (32 * Z.of_nat k + s)).
Proof.
  intros Ha Hs Hj Hr. unfold shr_limb. rewrite Z.lor_spec.
  assert (forall n, 256 <= n -> Z.testbit (val a) n = false) as Hhigh.
  { intros n Hn. apply (testbit_small _ 256); [by apply val_range|lia]. }
  destruct (Z.lt_ge_cases (r + s) 32).
  - rewrite (orb_comm _ (Z.testbit (if decide _ then u32 _ else 0) r)).
    replace (Z.testbit (if decide _ then u32 _ else 0) r) with false.
    2: { case_decide; [|by rewrite Z.bits_0]. by rewrite testbit_u32, Z.shiftl_spec_low by lia. }
    cbn [orb]. case_decide.
    + rewrite Z.shiftr_spec, testbit_limb by (done || lia). f_equal. lia.
    + rewrite Z.bits_0, Hhigh; [done|]. unfold WIDTH in *. lia.
  - replace (Z.testbit (if decide _ then Z.shiftr _ _ else 0) r) with false.
    2: { case_decide; [|by rewrite Z.bits_0]. rewrite Z.shiftr_spec by lia. symmetry.
         apply (testbit_small _ 32); [apply wf_lookup; [done|lia]|lia]. }
    cbn [orb]. case_decide.
    + rewrite testbit_u32, Z.shiftl_spec, testbit_limb by (done || lia). f_equal. lia.
    + rewrite Z.bits_0, Hhigh; [done|]. unfold WIDTH in *. lia.
Qed.

Lemma op_shl_spec a s : wf a -> 0 <= s -> wf (op_shl a s) /\ val (op_shl a s) = (val a * 2 ^ s) mod M256.
Proof.
  intros Ha Hs. unfold op_shl. destruct (shl_rounds a (Z.to_nat (s / 32)) (s mod 32) WIDTH) as [L H].
  pose proof (Z.mod_pos_bound s 32 ltac:(lia)). pose proof (Z.div_mod s 32 ltac:(lia)).
  pose proof (Z.div_pos s 32 Hs ltac:(lia)). revert L H. set (pn := fold_left _ _ _). intros L H.
  assert (wf pn) as W.
  { apply wf_of_lookup; [done|]. intros j Hj. rewrite H by done. by apply shl_limb_range. }
  split; [done|]. apply val_of_bits; [done|]. intros i r Hi Hr.
  rewrite H, shl_limb_bits, Z.mul_pow2_bits by (done || lia). f_equal. lia.
Qed.

Lemma op_shr_spec a s : wf a -> 0 <= s -> wf (op_shr a s) /\ val (op_shr a s) = val a / 2 ^ s.
Proof.
  intros Ha Hs. unfold op_shr. destruct (shr_rounds a (Z.to_nat (s / 32)) (s mod 32) WIDTH ltac:(lia)) as [L H].
  pose proof (Z.mod_pos_bound s 32 ltac:(lia)). pose proof (Z.div_mod s 32 ltac:(lia)).
  pose proof (Z.div_pos s 32 Hs ltac:(lia)). revert L H. set (pn := fold_left _ _ _). intros L H.
  assert (wf pn) as W.
  { apply wf_of_lookup; [done|]. intros j Hj. rewrite H by done. by apply shr_limb_range. }
  split; [done|]. pose proof (val_range a Ha) as Hv. pose proof (Z.pow_pos_nonneg 2 s ltac:(lia) Hs).
  rewrite <- (Z.mod_small (val a / 2 ^ s) M256).
  2: { split; [apply Z.div_pos; lia|]. apply Z.div_lt_upper_bound; nia. }
  apply val_of_bits; [done|]. intros i r Hi Hr.
  rewrite H, shr_limb_bits, Z.div_pow2_bits by (done || lia). f_equal. lia.
Qed.

(** ** The number of bits *)

Definition bit_length (v : Z) : Z := if v =? 0 then 0 else Z.log2 v + 1.

Lemma bit_length_bounds v : 0 < v -> 2 ^ (bit_length v - 1) <= v < 2 ^ bit_length v.
Proof.
  intros Hv. unfold bit_length. rewrite (proj2 (Z.eqb_neq v 0)) by lia.
  replace (Z.log2 v + 1 - 1) with (Z.log2 v) by lia. by apply Z.log2_spec.
Qed.
Lemma bit_length_unique v n : 0 < n -> 2 ^ (n - 1) <= v < 2 ^ n -> bit_length v = n.
Proof.
  intros Hn Hv. unfold bit_length. pose proof (Z.pow_pos_nonneg 2 (n - 1) ltac:(lia) ltac:(lia)).
  rewrite (proj2 (Z.eqb_neq v 0)) by lia. rewrite (Z.log2_unique v (n - 1)); [lia|lia|].
  by replace (Z.succ (n - 1)) with n by lia.
Qed.
Lemma bit_length_nonneg v : 0 <= bit_length v.
Proof. unfold bit_length. case_match; [done|]. pose proof (Z.log2_nonneg v). lia. Qed.
Lemma bit_length_pos v : 0 < v -> 0 < bit_length v.
Proof. intros Hv. unfold bit_length. rewrite (proj2 (Z.eqb_neq v 0)) by lia. pose proof (Z.log2_nonneg v). lia. Qed.
Lemma bit_length_le v n : 0 <= v < 2 ^ n -> 0 <= n -> bit_length v <= n.
Proof.
  intros Hv Hn. destruct (Z.eq_dec v 0) as [->|]; [done|].
  pose proof (bit_length_bounds v ltac:(lia)). destruct (Z.le_gt_cases (bit_length v) n) as [|Hgt]; [done|].
  pose proof (Z.pow_le_mono_r 2 n (bit_length v - 1) ltac:(lia) ltac:(lia)). lia.
Qed.

Lemma land_bit p n : 0 <= n -> negb (Z.land p (Z.shiftl 1 n) =? 0) = Z.testbit p n.
Proof.
  intros Hn. rewrite Z.shiftl_mul_pow2, Z.mul_1_l by done. destruct (Z.testbit p n) eqn:E.
  - apply negb_true_iff, Z.eqb_neq. intros H. apply (f_equal (fun z => Z.testbit z n)) in H.
    by rewrite Z.land_spec, E, Z.pow2_bits_true, Z.bits_0 in H.
  - apply negb_false_iff, Z.eqb_eq. apply Z.bits_inj'. intros i Hi.
    rewrite Z.land_spec, Z.pow2_bits_eqb, Z.bits_0 by done.
    destruct (Z.eqb_spec n i) as [<-|]; [by rewrite E|apply andb_false_r].
Qed.

Lemma limb_bits_spec p n : 0 < p < 2 ^ (Z.of_nat n + 1) -> limb_bits p n = bit_length p.
Proof.
  revert p. induction n as [|n IH]; intros p Hp.
  - cbn in *. symmetry. apply bit_length_unique; lia.
  - cbn [limb_bits]. rewrite land_bit by lia. destruct (Z.testbit p (Z.of_nat (S n))) eqn:E.
    + symmetry. apply bit_length_unique; [lia|]. split; [|lia].
      replace (Z.of_nat (S n) + 1 - 1) with (Z.of_nat (S n)) by lia.
      destruct (Z.le_gt_cases (2 ^ Z.of_nat (S n)) p); [done|].
      by rewrite (testbit_small p (Z.of_nat (S n))) in E by lia.
    + apply IH. split; [lia|]. destruct (Z.lt_ge_cases p (2 ^ (Z.of_nat n + 1))) as [|Hge]; [done|].
      replace (Z.of_nat n + 1) with (Z.of_nat (S n)) in Hge by lia.
      exfalso. assert (Z.testbit p (Z.of_nat (S n)) = true); [|congruence].
      rewrite Z.testbit_true by lia. rewrite Z.pow_add_r in Hp by lia.
      rewrite <- (Z.div_unique p (2 ^ Z.of_nat (S n)) 1 (p - 2 ^ Z.of_nat (S n))) by lia. done.
Qed.

Lemma bits_loop_spec a i : wf a -> (i <= WIDTH)%nat -> bits_loop a i = bit_length (val (take i a)).
Proof.
  intros Ha. induction i as [|i IH]; intros Hi; [done|]. cbn [bits_loop].
  pose proof (wf_lookup a i Ha ltac:(lia)) as Hp. destruct Ha as [L I]. rewrite val_take_S by lia.
  pose proof (value_le_bound B32 (take i a) ltac:(lia) (Forall_take _ _ _ I)) as Ba.
  rewrite length_take_le in Ba by lia. fold (val (take i a)) in Ba.
  destruct (Z.eqb_spec (a !!! i) 0) as [E|E]; cbn [negb].
  - rewrite IH, E by lia. f_equal. lia.
  - rewrite limb_bits_spec by (change (Z.of_nat 31 + 1) with 32; lia). symmetry.
    assert (0 < a !!! i) as H0 by lia. pose proof (bit_length_bounds _ H0) as Hb. pose proof (bit_length_pos _ H0).
    rewrite <- Z.pow_mul_r in * by lia.
    apply bit_length_unique; [lia|]. rewrite <- Z.add_sub_assoc, !Z.pow_add_r by lia. nia.
Qed.
Lemma bits_spec a : wf a -> bits a = bit_length (val a).
Proof. intros Ha. unfold bits. rewrite bits_loop_spec by done. destruct Ha as [L _]. by rewrite take_ge by lia. Qed.

(** ** Division *)

Lemma set_bit_spec a n : wf a -> (n < 256)%nat -> Z.testbit (val a) (Z.of_nat n) = false ->
  let a' := or_at a (n / 32) (u32 (Z.shiftl 1 (Z.land (Z.of_nat n) 31))) in
  wf a' /\ val a' = val a + 2 ^ Z.of_nat n.
Proof.
  intros Ha Hn Hbit. cbn zeta. change 31 with (Z.ones 5). rewrite Z.land_ones by lia. change (2 ^ 5) with 32.
  pose proof (Z.mod_pos_bound (Z.of_nat n) 32 ltac:(lia)) as Hm. pose proof (Z.div_mod (Z.of_nat n) 32 ltac:(lia)) as Hd.
  assert (Z.of_nat (n / 32) = Z.of_nat n / 32) as Hq by apply Nat2Z.inj_div.
  assert (n / 32 < WIDTH)%nat as Hi by (apply Nat.Div0.div_lt_upper_bound; unfold WIDTH; lia).
  rewrite Z.shiftl_mul_pow2, Z.mul_1_l by lia. pose proof (proj1 Ha) as L.
  assert (wf (or_at a (n / 32) (u32 (2 ^ (Z.of_nat n mod 32))))) as W.
  { apply wf_of_lookup; [by rewrite length_or_at|]. intros j Hj. rewrite lookup_or_at by lia.
    pose proof (wf_lookup a j Ha Hj). case_decide; [|done]. apply (lor_range 32); [lia|done|apply u32_range]. }
  split; [exact W|]. rewrite (val_of_bits _ (Z.lor (val a) (2 ^ Z.of_nat n)) W).
  - pose proof (Z.pow_pos_nonneg 2 (Z.of_nat n) ltac:(lia) ltac:(lia)).
    rewrite Z.mod_small; [|apply lor_range; [lia|by apply val_range|]].
    2: { split; [lia|]. apply Z.pow_lt_mono_r; lia. }
    rewrite <- Z.add_lor_land. replace (Z.land _ _) with 0; [lia|]. symmetry.
    apply Z.bits_inj'. intros i Hi'. rewrite Z.land_spec, Z.pow2_bits_eqb, Z.bits_0 by lia.
    destruct (Z.eqb_spec (Z.of_nat n) i) as [<-|]; [by rewrite Hbit|apply andb_false_r].
  - intros i r Hi' Hr. rewrite Z.lor_spec, <- testbit_limb, Z.pow2_bits_eqb by (done || lia).
    rewrite lookup_or_at by lia. case_decide as E.
    + rewrite Z.lor_spec, testbit_u32, Z.pow2_bits_eqb by lia. f_equal. subst i.
      destruct (Z.eqb_spec (Z.of_nat n mod 32) r); destruct (Z.eqb_spec (Z.of_nat n) (32 * Z.of_nat (n / 32) + r)); lia.
    + rewrite (proj2 (Z.eqb_neq (Z.of_nat n) _)); [by rewrite orb_false_r|].
      intros En. apply E. apply Nat2Z.inj. rewrite Hq, En, (Z.mul_comm 32), Z.div_add_l, Z.div_small by lia. lia.
Qed.

Lemma testbit_multiple q n : 0 <= n -> Z.testbit (q * 2 ^ (n + 1)) n = false.
Proof. intros Hn. apply Z.mul_pow2_bits_low. lia. Qed.

Lemma div_loop_spec d n num div pn : 0 < d -> (n <= 256)%nat ->
  wf num -> wf div -> wf pn ->
  val num < d * 2 ^ Z.of_nat n -> (forall m, n = S m -> val div = d * 2 ^ Z.of_nat m) ->
  (exists q, val pn = q * 2 ^ Z.of_nat n) ->
  wf (div_loop n num div pn) /\ val (div_loop n num div pn) = val pn + val num / d.
Proof.
  intros Hd. revert num div pn. induction n as [|n IH]; intros num div pn Hn Wn Wd Wp Hnum Hdiv [q Hq].
  { cbn [div_loop]. split; [done|]. pose proof (val_range num Wn). rewrite Z.div_small; [lia|]. cbn in Hnum. lia. }
  specialize (Hdiv n eq_refl). cbn [div_loop]. rewrite CompareTo_ge by done.
  pose proof (val_range num Wn) as Rn. pose proof (Z.pow_pos_nonneg 2 (Z.of_nat n) ltac:(lia) ltac:(lia)) as Hpow.
  destruct (op_shr_spec div 1 Wd ltac:(lia)) as [Wd' Vd'].
  assert (forall m, n = S m -> val (op_shr div 1) = d * 2 ^ Z.of_nat m) as Hdiv'.
  { intros m ->. rewrite Vd', Hdiv, pow_S. change (2 ^ 1) with 2.
    replace (d * (2 * 2 ^ Z.of_nat m)) with (d * 2 ^ Z.of_nat m * 2) by ring. by apply Z.div_mul. }
  rewrite pow_S in Hnum, Hq. destruct (Z.leb_spec (val div) (val num)) as [Hle|Hlt].
  - destruct (set_bit_spec pn n Wp ltac:(lia)) as [W' V'].
    { rewrite Hq. replace (q * (2 * 2 ^ Z.of_nat n)) with (q * 2 ^ (Z.of_nat n + 1)); [apply testbit_multiple; lia|].
      rewrite Z.pow_add_r by lia. ring. }
    destruct (op_sub_spec num div Wn Wd) as [Ws Vs]. rewrite Z.mod_small in Vs by (pose proof (val_range div Wd); lia).
    destruct (IH _ _ _ ltac:(lia) Ws Wd' W' ltac:(nia) Hdiv') as [W V].
    { exists (2 * q + 1). rewrite V', Hq. ring. }
    split; [exact W|]. rewrite V, V', Vs, Hdiv.
    replace (val num - d * 2 ^ Z.of_nat n) with (val num + - 2 ^ Z.of_nat n * d) by ring.
    rewrite Z.div_add by lia. lia.
  - apply IH; try done; [lia|nia|]. exists (2 * q). rewrite Hq. ring.
Qed.

Lemma op_div_spec a b : wf a -> wf b ->
  if val b =? 0 then op_div a b = Err "Division by zero"
  else exists q, op_div a b = Ok q /\ wf q /\ val q = val a / val b.
Proof.
  intros Ha Hb. unfold op_div, whenever. rewrite !bits_spec by done.
  pose proof (val_range a Ha) as Ra. pose proof (val_range b Hb) as Rb.
  destruct (Z.eqb_spec (val b) 0) as [Hz|Hz]; [by rewrite Hz|].
  pose proof (bit_length_pos (val b) ltac:(lia)) as Pb. rewrite (proj2 (Z.eqb_neq (bit_length _) 0)) by lia.
  pose proof (bit_length_bounds (val b) ltac:(lia)) as Bb. pose proof (bit_length_le (val a) 256 Ra ltac:(lia)) as La.
  destruct (Z.ltb_spec (bit_length (val a)) (bit_length (val b))) as [Hlt|Hge].
  { exists base_uint_zero. split; [done|]. split; [apply wf_zero|]. rewrite val_zero, Z.div_small; [done|].
    split; [lia|]. destruct (Z.eq_dec (val a) 0) as [->|]; [lia|].
    pose proof (bit_length_bounds (val a) ltac:(lia)).
    pose proof (Z.pow_le_mono_r 2 (bit_length (val a)) (bit_length (val b) - 1) ltac:(lia) ltac:(lia)). lia. }
  assert (0 < val a) as Pa.
  { destruct (Z.eq_dec (val a) 0) as [E|]; [|lia]. rewrite E in Hge. change (bit_length 0) with 0 in Hge. lia. }
  pose proof (bit_length_bounds (val a) Pa) as Ba. set (shift := bit_length (val a) - bit_length (val b)).
  destruct (op_shl_spec b shift Hb ltac:(lia)) as [Ws Vs].
  assert (val b * 2 ^ shift < 2 ^ bit_length (val a)) as Hub.
  { replace (bit_length (val a)) with (bit_length (val b) + shift) by lia. rewrite Z.pow_add_r by lia.
    pose proof (Z.pow_pos_nonneg 2 shift ltac:(lia) ltac:(lia)). nia. }
  pose proof (Z.pow_le_mono_r 2 _ 256 ltac:(lia) La).
  rewrite Z.mod_small in Vs by (split; [apply Z.mul_nonneg_nonneg; lia|lia]).
  assert (2 ^ bit_length (val a) <= val b * (2 * 2 ^ shift)) as Hlb.
  { replace (bit_length (val a)) with (bit_length (val b) - 1 + (1 + shift)) by lia.
    rewrite !Z.pow_add_r by lia. change (2 ^ 1) with 2. pose proof (Z.pow_pos_nonneg 2 shift ltac:(lia) ltac:(lia)). nia. }
  eexists. split; [reflexivity|]. rewrite <- (Z.add_0_l (val a / val b)), <- val_zero.
  apply (div_loop_spec (val b)); try done; [lia|lia|apply wf_zero| | |].
  - rewrite pow_S, Z2Nat.id by lia. lia.
  - intros m Hm. injection Hm as <-. by rewrite Z2Nat.id by lia.
  - by exists 0.
Qed.

(** ** The compact format *)

(** What a compact number says, and the exponent and mantissa of a number. *)
Definition compact_value (c : Z) : Z :=
  let e := c / 2 ^ 24 in
  let w := c mod 2 ^ 23 in
  if e <=? 3 then w / 2 ^ (8 * (3 - e)) else w * 2 ^ (8 * (e - 3)).
Definition compact_exp (v : Z) : Z := if v =? 0 then 0 else bit_length v / 8 + 1.
Definition compact_mant (v : Z) : Z :=
  let e := compact_exp v in
  if e <=? 3 then v * 2 ^ (8 * (3 - e)) else v / 2 ^ (8 * (e - 3)).

Lemma pow2_pos n : 0 <= n -> 0 < 2 ^ n.
Proof. intros. apply Z.pow_pos_nonneg; lia. Qed.

Lemma overflow_flag e w : 0 <= w < 2 ^ 23 -> 3 < e ->
  negb (w =? 0) && ((34 <? e) || (255 <? w) && (33 <? e) || (65535 <? w) && (32 <? e)) =
  (M256 <=? w * 2 ^ (8 * (e - 3))).
Proof.
  intros Hw He. destruct (Z.eqb_spec w 0) as [->|Hz]; cbn [negb andb]; [done|].
  destruct (Z.le_gt_cases e 32) as [H32|H32].
  - assert (2 ^ (8 * (e - 3)) <= 2 ^ 232) by (apply Z.pow_le_mono_r; lia).
    rewrite (proj2 (Z.ltb_ge 34 e)), (proj2 (Z.ltb_ge 33 e)), (proj2 (Z.ltb_ge 32 e)), !andb_false_r by lia.
    cbn [orb]. symmetry. apply Z.leb_gt. pose proof (pow2_pos (8 * (e - 3)) ltac:(lia)). nia.
  - rewrite (proj2 (Z.ltb_lt 32 e)), andb_true_r by lia. destruct (Z.eq_dec e 33) as [->|]; [cbn; lia|].
    rewrite (proj2 (Z.ltb_lt 33 e)), andb_true_r by lia. destruct (Z.eq_dec e 34) as [->|]; [cbn; lia|].
    rewrite (proj2 (Z.ltb_lt 34 e)) by lia. cbn [orb]. symmetry. apply Z.leb_le.
    assert (2 ^ 256 <= 2 ^ (8 * (e - 3))) by (apply Z.pow_le_mono_r; lia). nia.
Qed.

Lemma SetCompact_spec c : in_u32 c -> exists t,
  SetCompact c = (t, negb (compact_value c =? 0) && Z.testbit c 23, M256 <=? compact_value c) /\
  wf t /\ val t = compact_value c mod M256.
Proof.
  intros Hc. unfold SetCompact, compact_value. change 8388608 with (Z.shiftl 1 23). rewrite land_bit by lia.
  change 8388607 with (Z.ones 23). rewrite Z.land_ones, Z.shiftr_div_pow2 by lia.
  pose proof (Z.mod_pos_bound c (2 ^ 23) ltac:(lia)) as Hw. unfold in_u32 in Hc.
  assert (0 <= c / 2 ^ 24) as He by (apply Z.div_pos; lia).
  set (e := c / 2 ^ 24) in *. set (w := c mod 2 ^ 23) in *. destruct (Z.leb_spec e 3) as [H3|H3].
  - rewrite Z.shiftr_div_pow2 by lia. pose proof (pow2_pos (8 * (3 - e)) ltac:(lia)) as Hp.
    assert (0 <= w / 2 ^ (8 * (3 - e)) < 2 ^ 23) as Hq.
    { split; [apply Z.div_pos; lia|]. apply Z.div_lt_upper_bound; nia. }
    eexists. split; [apply f_equal2; [reflexivity|]|split; [apply base_uint_of_wf|]].
    + rewrite (proj2 (Z.ltb_ge 34 e)), (proj2 (Z.ltb_ge 33 e)), (proj2 (Z.ltb_ge 32 e)), !andb_false_r by lia.
      symmetry. apply Z.leb_gt. lia.
    + rewrite val_base_uint_of, Z.mod_small by (unfold in_u64; lia). done.
  - eexists. pose proof (pow2_pos (8 * (e - 3)) ltac:(lia)) as Hp.
    destruct (op_shl_spec (base_uint_of w) (8 * (e - 3)) (base_uint_of_wf w) ltac:(lia)) as [W V].
    rewrite val_base_uint_of in V by (unfold in_u64; lia). split; [apply f_equal2; [apply f_equal2; [reflexivity|]|]|by split].
    + f_equal. f_equal. destruct (Z.eqb_spec w 0) as [->|]; [done|]. symmetry. apply Z.eqb_neq. nia.
    + by apply overflow_flag.
Qed.

Lemma compact_exp_bounds v : 0 < v -> 1 <= compact_exp v /\ 2 ^ (8 * compact_exp v - 9) <= v /\ v < 2 ^ (8 * compact_exp v - 1).
Proof.
  intros Hv. unfold compact_exp. rewrite (proj2 (Z.eqb_neq v 0)) by lia.
  pose proof (bit_length_bounds v Hv) as B. pose proof (bit_length_pos v Hv). set (n := bit_length v) in *.
  pose proof (Z.div_mod n 8 ltac:(lia)). pose proof (Z.mod_pos_bound n 8 ltac:(lia)).
  assert (0 <= n / 8) by (apply Z.div_pos; lia). split_and!; [lia| |].
  - destruct (Z.eq_dec (n / 8) 0) as [E|E].
    { rewrite E. rewrite Z.pow_neg_r by lia. lia. }
    pose proof (Z.pow_le_mono_r 2 (8 * (n / 8 + 1) - 9) (n - 1) ltac:(lia) ltac:(lia)). lia.
  - pose proof (Z.pow_le_mono_r 2 n (8 * (n / 8 + 1) - 1) ltac:(lia) ltac:(lia)). lia.
Qed.

Lemma compact_exp_le v : 0 <= v < M256 -> 0 <= compact_exp v <= 33.
Proof.
  intros Hv. unfold compact_exp. case_match; [lia|]. pose proof (bit_length_le v 256 Hv ltac:(lia)).
  pose proof (bit_length_nonneg v). pose proof (Z.div_pos (bit_length v) 8 ltac:(lia) ltac:(lia)).
  pose proof (Z.div_le_upper_bound (bit_length v) 8 32 ltac:(lia) ltac:(lia)). lia.
Qed.

(** The mantissa keeps at least fifteen bits, and its top bit is clear. *)
Lemma compact_mant_bounds v : 0 < v -> 2 ^ 15 <= compact_mant v < 2 ^ 23.
Proof.
  intros Hv. destruct (compact_exp_bounds v Hv) as (H1 & Hl & Hu). unfold compact_mant. set (e := compact_exp v) in *.
  destruct (Z.leb_spec e 3).
  - pose proof (pow2_pos (8 * (3 - e)) ltac:(lia)) as P. split.
    + destruct (Z.eq_dec e 1) as [->|]; [cbn; lia|].
      replace 15 with (8 * e - 9 + 8 * (3 - e)) by lia. rewrite Z.pow_add_r by lia. nia.
    + replace 23 with (8 * e - 1 + 8 * (3 - e)) by lia. rewrite Z.pow_add_r by lia. nia.
  - pose proof (pow2_pos (8 * (e - 3)) ltac:(lia)) as P. split.
    + apply Z.div_le_lower_bound; [done|]. rewrite <- Z.pow_add_r by lia.
      by replace (8 * (e - 3) + 15) with (8 * e - 9) by lia.
    + apply Z.div_lt_upper_bound; [done|]. rewrite <- Z.pow_add_r by lia.
      by replace (8 * (e - 3) + 23) with (8 * e - 1) by lia.
Qed.

Lemma testbit_top x n : 0 <= n -> 0 <= x < 2 ^ (n + 1) -> Z.testbit x n = (2 ^ n <=? x).
Proof.
  intros Hn Hx. destruct (Z.leb_spec (2 ^ n) x).
  - rewrite Z.testbit_true by done. rewrite Z.pow_add_r in Hx by lia.
    by rewrite <- (Z.div_unique x (2 ^ n) 1 (x - 2 ^ n)) by lia.
  - apply (testbit_small x n); lia.
Qed.

(** The mantissa before the sign bit is cleared. *)
Definition compact_raw (v : Z) : Z :=
  let n := (bit_length v + 7) / 8 in
  if n <=? 3 then v * 2 ^ (8 * (3 - n)) else v / 2 ^ (8 * (n - 3)).

Lemma compact_raw_spec v : 0 < v ->
  let n := (bit_length v + 7) / 8 in
  let high := 2 ^ 23 <=? compact_raw v in
  0 <= compact_raw v < 2 ^ 24 /\
  compact_exp v = (if high then n + 1 else n) /\
  compact_mant v = (if high then compact_raw v / 2 ^ 8 else compact_raw v).
Proof.
  intros Hv. cbn zeta. pose proof (bit_length_bounds v Hv) as B. pose proof (bit_length_pos v Hv) as P.
  unfold compact_mant, compact_exp, compact_raw. rewrite (proj2 (Z.eqb_neq v 0)) by lia.
  set (L := bit_length v) in *. set (n := (L + 7) / 8) in *.
  assert (8 * n - 7 <= L <= 8 * n) as Hn.
  { unfold n. pose proof (Z.div_mod (L + 7) 8 ltac:(lia)). pose proof (Z.mod_pos_bound (L + 7) 8 ltac:(lia)). lia. }
  assert (forall k, 0 <= k -> (2 ^ k <=? v) = (k <? L)) as Hbit.
  { intros k Hk. destruct (Z.ltb_spec k L).
    - apply Z.leb_le. pose proof (Z.pow_le_mono_r 2 k (L - 1) ltac:(lia) ltac:(lia)). lia.
    - apply Z.leb_gt. pose proof (Z.pow_le_mono_r 2 L k ltac:(lia) ltac:(lia)). lia. }
  pose proof (proj1 (Z.leb_gt _ _) (eq_trans (Hbit (8 * n) ltac:(lia)) ltac:(apply Z.ltb_ge; lia))) as Hub.
  assert (L / 8 + 1 = if 8 * n - 1 <? L then n + 1 else n) as ->.
  { destruct (Z.ltb_spec (8 * n - 1) L); rewrite <- (Z.div_unique L 8 (if 8 * n - 1 <? L then n else n - 1) (if 8 * n - 1 <? L then 0 else L - 8 * n + 8));
      destruct (Z.ltb_spec (8 * n - 1) L); lia. }
  rewrite <- Hbit by lia. destruct (Z.leb_spec n 3) as [H3|H3].
  - pose proof (pow2_pos (8 * (3 - n)) ltac:(lia)) as Pn.
    assert ((2 ^ 23 <=? v * 2 ^ (8 * (3 - n))) = (2 ^ (8 * n - 1) <=? v)) as ->.
    { replace 23 with (8 * n - 1 + 8 * (3 - n)) by lia. rewrite Z.pow_add_r by lia.
      destruct (Z.leb_spec (2 ^ (8 * n - 1)) v); [apply Z.leb_le|apply Z.leb_gt]; nia. }
    split_and!; [nia| |done|].
    + replace 24 with (8 * n + 8 * (3 - n)) by lia. rewrite Z.pow_add_r by lia. nia.
    + destruct (2 ^ (8 * n - 1) <=? v); [|by rewrite (proj2 (Z.leb_le n 3))].
      destruct (Z.leb_spec (n + 1) 3).
      * replace (8 * (3 - n)) with (8 * (3 - (n + 1)) + 8) by lia.
        by rewrite Z.pow_add_r, Z.mul_assoc, Z.div_mul by lia.
      * assert (n = 3) as -> by lia. change (2 ^ (8 * (3 - 3))) with 1. by rewrite (Z.mul_1_r v).
  - pose proof (pow2_pos (8 * (n - 3)) ltac:(lia)) as Pn.
    assert ((2 ^ 23 <=? v / 2 ^ (8 * (n - 3))) = (2 ^ (8 * n - 1) <=? v)) as ->.
    { replace (8 * n - 1) with (8 * (n - 3) + 23) by lia. rewrite Z.pow_add_r by lia.
      destruct (Z.leb_spec (2 ^ (8 * (n - 3)) * 2 ^ 23) v);
        [apply Z.leb_le, Z.div_le_lower_bound; lia|apply Z.leb_gt, Z.div_lt_upper_bound; lia]. }
    split_and!; [apply Z.div_pos; lia| |done|].
    + apply Z.div_lt_upper_bound; [done|]. rewrite <- Z.pow_add_r by lia.
      by replace (8 * (n - 3) + 24) with (8 * n) by lia.
    + destruct (2 ^ (8 * n - 1) <=? v); [|by rewrite (proj2 (Z.leb_gt n 3))].
      rewrite (proj2 (Z.leb_gt (n + 1) 3)), Z.div_div, <- Z.pow_add_r by lia. do 2 f_equal. lia.
Qed.

Lemma land_sign_clear m : 0 <= m < 2 ^ 23 -> Z.land m (u32 (Z.lnot 8388607)) = 0.
Proof.
  intros Hm. change (u32 (Z.lnot 8388607)) with (511 * 2 ^ 23). apply Z.bits_inj'. intros i Hi.
  rewrite Z.land_spec, Z.bits_0. destruct (Z.lt_ge_cases i 23).
  - rewrite Z.mul_pow2_bits_low by lia. apply andb_false_r.
  - by rewrite (testbit_small m 23) by lia.
Qed.

Lemma GetCompact_spec a : wf a -> GetCompact a false = Ok (compact_exp (val a) * 2 ^ 24 + compact_mant (val a)).
Proof.
  intros Ha. pose proof (val_range a Ha) as R. destruct (Z.eq_dec (val a) 0) as [Hz|Hz].
  { rewrite (val_inj a base_uint_zero Ha wf_zero Hz). done. }
  assert (0 < val a) as Hv by lia. unfold GetCompact. rewrite bits_spec by done.
  pose proof (bit_length_bounds (val a) Hv) as B. pose proof (bit_length_pos (val a) Hv) as P.
  destruct (compact_raw_spec (val a) Hv) as (Hr & He & Hm). pose proof (compact_mant_bounds (val a) Hv) as Bm.
  set (n := (bit_length (val a) + 7) / 8) in *.
  assert (8 * n - 7 <= bit_length (val a) <= 8 * n) as Hn.
  { unfold n. pose proof (Z.div_mod (bit_length (val a) + 7) 8 ltac:(lia)).
    pose proof (Z.mod_pos_bound (bit_length (val a) + 7) 8 ltac:(lia)). lia. }
  set (x := if n <=? 3 then u32 (u64 (Z.shiftl (GetLow64 a) (8 * (3 - n)))) else u32 (GetLow64 (op_shr a (8 * (n - 3))))).
  assert (x = compact_raw (val a)) as ->.
  { unfold x, compact_raw in *. fold n in Hr |- *. destruct (Z.leb_spec n 3).
    - assert (val a < 2 ^ 64).
      { pose proof (Z.pow_le_mono_r 2 (bit_length (val a)) 64 ltac:(lia) ltac:(lia)). lia. }
      rewrite GetLow64_spec, Z.mod_small, Z.shiftl_mul_pow2 by (done || lia).
      rewrite u64_id, u32_id by (unfold in_u64, in_u32; lia). done.
    - destruct (op_shr_spec a (8 * (n - 3)) Ha ltac:(lia)) as [W V].
      rewrite GetLow64_spec, V, Z.mod_small by (done || lia). rewrite u32_id by (unfold in_u32; lia). done. }
  change 8388608 with (Z.shiftl 1 23). rewrite land_bit, testbit_top by (done || lia).
  replace (if 2 ^ 23 <=? compact_raw (val a) then Z.shiftr (compact_raw (val a)) 8 else compact_raw (val a))
    with (compact_mant (val a)) by (rewrite Hm, Z.shiftr_div_pow2 by lia; done).
  rewrite <- He. pose proof (compact_exp_le (val a) R) as Le. unfold whenever.
  rewrite land_sign_clear, (proj2 (Z.ltb_lt (compact_exp _) 256)) by lia. cbn [Z.eqb negb].
  rewrite Z.lor_0_r, Z.shiftl_mul_pow2, u32_id by (unfold in_u32; lia).
  by rewrite Z.lor_comm, lor_add_low by lia.
Qed.

(** Encoding keeps the leading digits. *)
Lemma compact_value_encode v : 0 <= v < M256 ->
  let c := compact_exp v * 2 ^ 24 + compact_mant v in
  in_u32 c /\ Z.testbit c 23 = false /\ compact_value c <= v /\ (v - compact_value c) * 2 ^ 15 <= v /\
  compact_value c = (if compact_exp v <=? 3 then v else compact_mant v * 2 ^ (8 * (compact_exp v - 3))).
Proof.
  intros Hv. destruct (Z.eq_dec v 0) as [->|Hz]; [by vm_compute|].
  destruct (compact_exp_bounds v ltac:(lia)) as (H1 & Hl & Hu).
  pose proof (compact_mant_bounds v ltac:(lia)) as Bm. pose proof (compact_exp_le v Hv) as Le. cbn zeta.
  set (e := compact_exp v) in *. set (m := compact_mant v) in *.
  assert ((e * 2 ^ 24 + m) / 2 ^ 24 = e) as Ee by (rewrite Z.div_add_l, Z.div_small by lia; lia).
  assert ((e * 2 ^ 24 + m) mod 2 ^ 23 = m) as Em.
  { replace (e * 2 ^ 24 + m) with (m + (2 * e) * 2 ^ 23) by lia. by rewrite Z_mod_plus_full, Z.mod_small by lia. }
  assert (compact_value (e * 2 ^ 24 + m) = if e <=? 3 then v else m * 2 ^ (8 * (e - 3))) as Ev.
  { unfold compact_value. rewrite Ee, Em. destruct (Z.leb_spec e 3); [|done].
    unfold m, compact_mant. fold e. rewrite (proj2 (Z.leb_le e 3)) by done. apply Z.div_mul.
    pose proof (pow2_pos (8 * (3 - e)) ltac:(lia)). lia. }
  rewrite Ev. split_and!; [unfold in_u32; lia| | | |done].
  - rewrite Z.testbit_false, Z.add_comm by lia. replace (m + e * 2 ^ 24) with (m + (2 * e) * 2 ^ 23) by lia.
    rewrite Z.div_add, Z.div_small by lia. rewrite Z.add_0_l, Z.mul_comm. apply Z.mod_mul. lia.
  - destruct (Z.leb_spec e 3) as [|He]; [lia|]. unfold m, compact_mant. fold e. rewrite (proj2 (Z.leb_gt e 3)) by done.
    pose proof (pow2_pos (8 * (e - 3)) ltac:(lia)) as Hp. rewrite Z.mul_comm. by apply Z.mul_div_le.
  - destruct (Z.leb_spec e 3) as [|He]; [lia|]. unfold m, compact_mant. fold e. rewrite (proj2 (Z.leb_gt e 3)) by done.
    pose proof (pow2_pos (8 * (e - 3)) ltac:(lia)) as Hp.
    pose proof (Z.div_mod v (2 ^ (8 * (e - 3))) ltac:(lia)). pose proof (Z.mod_pos_bound v (2 ^ (8 * (e - 3))) Hp).
    replace (8 * e - 9) with (8 * (e - 3) + 15) in Hl by lia. rewrite Z.pow_add_r in Hl by lia. nia.
Qed.

Lemma compact_value_bound c : in_u32 c -> 0 <= compact_value c /\ 2 * compact_value c < 2 ^ (8 * (c / 2 ^ 24)).
Proof.
  intros Hc. unfold compact_value, in_u32 in *. pose proof (Z.mod_pos_bound c (2 ^ 23) ltac:(lia)) as Hw.
  assert (0 <= c / 2 ^ 24) by (apply Z.div_pos; lia). set (e := c / 2 ^ 24) in *. set (w := c mod 2 ^ 23) in *.
  destruct (Z.leb_spec e 3).
  - pose proof (pow2_pos (8 * (3 - e)) ltac:(lia)) as P. split; [apply Z.div_pos; lia|].
    pose proof (Z.mul_div_le w _ P). assert (2 ^ 24 = 2 ^ (8 * (3 - e)) * 2 ^ (8 * e)) as E.
    { rewrite <- Z.pow_add_r by lia. f_equal. lia. }
    nia.
  - pose proof (pow2_pos (8 * (e - 3)) ltac:(lia)). replace (8 * e) with (24 + 8 * (e - 3)) by lia.
    rewrite Z.pow_add_r by lia. nia.
Qed.

(** No compact number lies between the encoding of [v] and [v]. *)
Lemma compact_value_maximal v c : 0 <= v < M256 -> in_u32 c -> compact_value c <= v ->
  compact_value c <= compact_value (compact_exp v * 2 ^ 24 + compact_mant v).
Proof.
  intros Hv Hc Hle. destruct (compact_value_encode v Hv) as (_ & _ & _ & _ & ->).
  destruct (Z.leb_spec (compact_exp v) 3) as [|He]; [done|].
  assert (0 < v) as Hp by (destruct (Z.eq_dec v 0) as [->|]; [cbn in He; lia|lia]).
  destruct (compact_exp_bounds v Hp) as (H1 & Hl & Hu). pose proof (compact_mant_bounds v Hp) as Bm.
  pose proof (compact_value_bound c Hc) as [Hc0 Hc1]. unfold compact_mant in *. set (e := compact_exp v) in *.
  rewrite (proj2 (Z.leb_gt e 3)) in * by done. pose proof (pow2_pos (8 * (e - 3)) ltac:(lia)) as P.
  destruct (Z.lt_ge_cases (c / 2 ^ 24) e) as [Hlt|Hge].
  - pose proof (Z.pow_le_mono_r 2 (8 * (c / 2 ^ 24)) (15 + 8 * (e - 3) + 1) ltac:(lia) ltac:(lia)) as Hm.
    rewrite !Z.pow_add_r in Hm by lia. nia.
  - unfold compact_value in *. rewrite (proj2 (Z.leb_gt (c / 2 ^ 24) 3)) in * by lia.
    set (w := c mod 2 ^ 23) in *. set (e' := c / 2 ^ 24) in *.
    replace (8 * (e' - 3)) with (8 * (e' - e) + 8 * (e - 3)) in * by lia. rewrite Z.pow_add_r in * by lia.
    rewrite Z.mul_assoc in *. apply Z.mul_le_mono_nonneg_r; [lia|]. apply Z.div_le_lower_bound; [done|]. lia.
Qed.

Lemma compact_exp_unique v e : 2 <= e -> 2 ^ (8 * e - 9) <= v < 2 ^ (8 * e - 1) -> compact_exp v = e.
Proof.
  intros He Hv. pose proof (pow2_pos (8 * e - 9) ltac:(lia)).
  destruct (compact_exp_bounds v ltac:(lia)) as (H1 & Hl & Hu). set (e' := compact_exp v) in *.
  destruct (Z.lt_trichotomy e' e) as [Hlt|[|Hgt]]; [|done|].
  - pose proof (Z.pow_le_mono_r 2 (8 * e' - 1) (8 * e - 9) ltac:(lia) ltac:(lia)). lia.
  - pose proof (Z.pow_le_mono_r 2 (8 * e - 1) (8 * e' - 9) ltac:(lia) ltac:(lia)). lia.
Qed.

Lemma compact_idempotent v : 0 <= v < M256 ->
  let t := compact_value (compact_exp v * 2 ^ 24 + compact_mant v) in
  compact_exp t = compact_exp v /\ compact_mant t = compact_mant v.
Proof.
  intros Hv. destruct (compact_value_encode v Hv) as (_ & _ & _ & _ & ->). cbn zeta.
  destruct (Z.leb_spec (compact_exp v) 3) as [|He]; [done|].
  assert (0 < v) as Hp by (destruct (Z.eq_dec v 0) as [->|]; [cbn in He; lia|lia]).
  pose proof (compact_mant_bounds v Hp) as Bm. set (e := compact_exp v) in *. set (m := compact_mant v) in *.
  pose proof (pow2_pos (8 * (e - 3)) ltac:(lia)) as P.
  assert (compact_exp (m * 2 ^ (8 * (e - 3))) = e) as E.
  { apply compact_exp_unique; [lia|]. replace (8 * e - 9) with (15 + 8 * (e - 3)) by lia.
    replace (8 * e - 1) with (23 + 8 * (e - 3)) by lia. rewrite !Z.pow_add_r by lia. nia. }
  split; [exact E|]. unfold compact_mant at 1. rewrite E, (proj2 (Z.leb_gt e 3)) by done. apply Z.div_mul. lia.
Qed.

(** ** Conversions *)

Lemma le_value_split n bs : (n <= length bs)%nat ->
  le_value bs = le_value (take n bs) + 256 ^ Z.of_nat n * le_value (drop n bs).
Proof.
  intros Hn. rewrite <- (take_drop n bs) at 1. rewrite le_value_app. unfold len. by rewrite length_take_le.
Qed.

Lemma val_words n bs : length bs = (4 * n)%nat ->
  let l := map (fun x => le_value (take 4 (drop (x * 4) bs))) (seq 0 n) in
  length l = n /\ in_base B32 l /\ val l = le_value bs.
Proof.
  revert bs. induction n as [|n IH]; intros bs Hn; cbn zeta.
  { destruct bs; [|done]. split_and!; [done|constructor|done]. }
  destruct (IH (drop 4 bs)) as (L & I & V); [rewrite length_drop; lia|].
  cbn [seq map]. rewrite <- seq_shift, map_map.
  erewrite (map_ext (fun x => le_value (take 4 (drop (S x * 4) bs)))).
  2: { intros x. replace (S x * 4)%nat with (4 + x * 4)%nat by lia. rewrite <- drop_drop. reflexivity. }
  split_and!; [cbn [length]; by rewrite L| |].
  - apply Forall_cons; split; [|exact I]. rewrite drop_0.
    pose proof (le_value_range (take 4 bs)) as R. rewrite length_take_le in R by lia. exact R.
  - unfold val. cbn [value_le]. fold (val (map (fun x => le_value (take 4 (drop (x * 4) (drop 4 bs)))) (seq 0 n))).
    rewrite V, (le_value_split 4 bs) by lia. by rewrite drop_0.
Qed.

Lemma UintToArith256_spec z : 0 <= z < M256 -> wf (UintToArith256 z) /\ val (UintToArith256 z) = z.
Proof.
  intros Hz. destruct (val_words 8 (le_bytes 32 z)) as (L & I & V); [by rewrite length_le_bytes|].
  split; [by split|]. unfold UintToArith256. unfold WIDTH. rewrite V. by apply le_value_bytes_id.
Qed.

Lemma ArithToUint256_spec a : wf a -> ArithToUint256 a = val a.
Proof.
  intros [_ H]. unfold ArithToUint256, val. induction H as [|p l Hp _ IH]; [done|].
  cbn [map concat value_le]. rewrite (le_value_split 4) by (rewrite length_app, length_le_bytes; lia).
  rewrite take_app_length', drop_app_length' by (by rewrite length_le_bytes).
  rewrite IH, le_value_bytes_id by (change (256 ^ Z.of_nat 4) with B32; lia). done.
Qed.

(** ** Correctness *)

(** C38: the operators of a 256-bit number ([+], [-], unary [-], [~], [*] by a
    number and by a 32-bit word, [<<], [>>], [++], [--]) keep the array well
    formed and compute on its number like the integers modulo [2 ^ 256];
    [CompareTo] is the order of the numbers, [==] with a 64-bit word their
    equality, and [bits] the length of the number. *)
Theorem base_uint_arithmetic a b w s : wf a -> wf b -> in_u32 w -> 0 <= s ->
  (wf (op_add a b) /\ val (op_add a b) = (val a + val b) mod M256) /\
  (wf (op_sub a b) /\ val (op_sub a b) = (val a - val b) mod M256) /\
  (wf (op_neg a) /\ val (op_neg a) = (- val a) mod M256) /\
  (wf (op_complement a) /\ val (op_complement a) = M256 - 1 - val a) /\
  (wf (op_mul a b) /\ val (op_mul a b) = (val a * val b) mod M256) /\
  (wf (op_mul32 a w) /\ val (op_mul32 a w) = (val a * w) mod M256) /\
  (wf (op_shl a s) /\ val (op_shl a s) = (val a * 2 ^ s) mod M256) /\
  (wf (op_shr a s) /\ val (op_shr a s) = val a / 2 ^ s) /\
  (wf (op_incr a) /\ val (op_incr a) = (val a + 1) mod M256) /\
  (wf (op_decr a) /\ val (op_decr a) = (val a - 1) mod M256) /\
  CompareTo a b = Z.sgn (val a - val b) /\ EqualTo a w = (val a =? w) /\ bits a = bit_length (val a).
Proof.
  intros Ha Hb Hw Hs.
  split; [by apply op_add_spec|]. split; [by apply op_sub_spec|]. split; [by apply op_neg_spec|].
  split; [by apply op_complement_wf|]. split; [by apply op_mul_spec|]. split; [by apply op_mul32_spec|].
  split; [by apply op_shl_spec|]. split; [by apply op_shr_spec|]. split; [by apply op_incr_wf|].
  split; [by apply op_decr_wf|]. split; [by apply CompareTo_spec|]. split; [|by apply bits_spec].
  apply EqualTo_spec; [done|]. unfold in_u32, in_u64 in *. lia.
Qed.
Lemma base_uint_arithmetic_witness :
  CompareTo (base_uint_of 5) (base_uint_of 7) = -1 /\ val (op_sub (base_uint_of 5) (base_uint_of 7)) = M256 - 2.
Proof.
  destruct (base_uint_arithmetic (base_uint_of 5) (base_uint_of 7) 3 40 (base_uint_of_wf 5) (base_uint_of_wf 7)
    ltac:(unfold in_u32; lia) ltac:(lia)) as (_ & [_ H] & _ & _ & _ & _ & _ & _ & _ & _ & C & _).
  split; [exact C|exact H].
Defined.

(** division throws exactly when the divisor is zero, and otherwise the
    shift-and-subtract loop returns the integer quotient. *)
Theorem op_div_correct a b : wf a -> wf b ->
  if val b =? 0 then op_div a b = Err "Division by zero"
  else exists q, op_div a b = Ok q /\ wf q /\ val q = val a / val b.
Proof. apply op_div_spec. Qed.
Lemma op_div_correct_witness :
  op_div (base_uint_of 1) base_uint_zero = Err "Division by zero" /\
  exists q, op_div (base_uint_of 1000007) (base_uint_of 13) = Ok q /\ wf q /\ val q = 76923.
Proof.
  split; [exact (op_div_correct (base_uint_of 1) base_uint_zero (base_uint_of_wf 1) wf_zero)|].
  exact (op_div_correct (base_uint_of 1000007) (base_uint_of 13) (base_uint_of_wf _) (base_uint_of_wf _)).
Defined.

(** the compact format of a difficulty target.  [GetCompact] of any
    number passes its assertions and returns a positive compact number that
    [SetCompact] reads without overflow as the largest compact number not
    above the original one, less than one part in [2 ^ 15] below it; encoding
    that number again gives the same compact number. *)
Theorem compact_rounds_down a : wf a ->
  exists c t, GetCompact a false = Ok c /\ in_u32 c /\ SetCompact c = (t, false, false) /\ wf t /\
    val t <= val a /\ (val a - val t) * 2 ^ 15 <= val a /\
    (forall c' t' neg, in_u32 c' -> SetCompact c' = (t', neg, false) -> val t' <= val a -> val t' <= val t) /\
    GetCompact t false = Ok c.
Proof.
  intros Ha. pose proof (val_range a Ha) as R. destruct (compact_value_encode _ R) as (Hc & Hs & Hle & Happ & Hval).
  set (c := compact_exp (val a) * 2 ^ 24 + compact_mant (val a)) in *.
  destruct (SetCompact_spec c Hc) as (t & Ht & Wt & Vt). pose proof (compact_value_bound c Hc) as [Hc0 _].
  rewrite Z.mod_small in Vt by lia. rewrite Hs, andb_false_r, (proj2 (Z.leb_gt M256 _)) in Ht by lia.
  assert (forall c', in_u32 c' -> compact_value c' <= val a -> compact_value c' <= val t) as Hmax.
  { intros c' Hc' Hle'. rewrite Vt. by apply compact_value_maximal. }
  exists c, t. rewrite Vt. split_and!; [by apply GetCompact_spec|done|done|done|done|done| |].
  - intros c' t' neg Hc' Ht' Hle'. destruct (SetCompact_spec c' Hc') as (u & Hu & _ & Vu).
    rewrite Ht' in Hu. injection Hu as <- _ Ho. symmetry in Ho. apply Z.leb_gt in Ho.
    pose proof (compact_value_bound c' Hc') as [? _]. rewrite Z.mod_small in Vu by lia.
    rewrite Vu in *. rewrite <- Vt. by apply Hmax.
  - rewrite GetCompact_spec, Vt by done. destruct (compact_idempotent _ R) as [E1 E2]. fold c in E1, E2. by rewrite E1, E2.
Qed.
Lemma compact_rounds_down_witness : exists c t, GetCompact (base_uint_of 1311768467463790320) false = Ok c /\
  SetCompact c = (t, false, false) /\ val t <= 1311768467463790320 /\ c = 0x08123456.
Proof.
  destruct (compact_rounds_down (base_uint_of 1311768467463790320) (base_uint_of_wf _)) as (c & t & G & _ & S & _ & L & _).
  exists c, t. split; [exact G|]. split; [exact S|]. split; [exact L|]. vm_compute in G. congruence.
Defined.
