(* ===== verification/Merkle.v ===== *)
(** * Merkle trees ([src/src/consensus/merkle.cpp], [CheckMerkleBranch] of [auxpow.cpp])

    [MerkleComputation] keeps one hash per level of the tree and works through
    the leaves from left to right.  Hashes are numbers; the array [inner] is a
    list; [pbranch] is an option.  The loops run over the 32 bits of [count]:
    running past them is [Err].

    [tree_hash] is the tree by recursion on its depth and [tree_mutated] the
    repeated subtrees in it. *)

From S2P Require Import Prelude Script Base58 Arith.
Open Scope Z_scope.
Open Scope kubu_scope.

Section Merkle.
Context `{CryptoOps}.

(** [CHash256().Write(a, 32).Write(b, 32)] *)
Definition Hash2 (a b : Z) : Z := Hash (le_bytes 32 a ++ le_bytes 32 b).

Record MerkleState := mkMerkle {
  inner : list Z;
  matchlevel : Z;
  mutated : bool;
  branch : option (list Z)
}.

Definition bit_clear (count : Z) (level : nat) : bool := Z.land count (Z.shiftl 1 (Z.of_nat level)) =? 0.

(** [if (pbranch) { if (matchh) push inner[level]; else if (matchlevel == level) { push h; matchh = true; } }] *)
Definition push_sibling (st : MerkleState) (level : nat) (h : Z) (matchh : bool) : option (list Z) * bool :=
  match branch st with
  | Some l =>
      if matchh then (Some (l ++ [inner st !!! level]), true)
      else if matchlevel st =? Z.of_nat level then (Some (l ++ [h]), true)
      else (Some l, false)
  | None => (None, matchh)
  end.

(** The steps up while the bits of [count] are clear.  The first pass also
    compares the two hashes it combines ([check]). *)
Fixpoint combine_up (fuel : nat) (check : bool) (count : Z) (level : nat) (h : Z) (matchh : bool) (st : MerkleState) :
    result (Z * bool * nat * MerkleState) :=
  if bit_clear count level then
    match fuel with
    | O => Err "out of fuel"
    | S fuel' =>
        let '(br, matchh) := push_sibling st level h matchh in
        let mut := if check then mutated st || (inner st !!! level =? h) else mutated st in
        combine_up fuel' check count (S level) (Hash2 (inner st !!! level) h) matchh
          (mkMerkle (inner st) (matchlevel st) mut br)
    end
  else Ok (h, matchh, level, st).

Definition add_leaf (branchpos : Z) (acc : Z * MerkleState) (leaf : Z) : result (Z * MerkleState) :=
  let '(count, st) := acc in
  let matchh := count =? branchpos in
  let count := u32 (count + 1) in
  r ← combine_up 32 true count 0 leaf matchh st;
  let '(h, matchh, level, st) := (r : Z * bool * nat * MerkleState) in
  Ok (count, mkMerkle (<[level := h]> (inner st)) (if matchh then Z.of_nat level else matchlevel st) (mutated st) (branch st)).

Fixpoint add_leaves (branchpos : Z) (acc : Z * MerkleState) (leaves : list Z) : result (Z * MerkleState) :=
  match leaves with
  | [] => Ok acc
  | leaf :: rest => acc ← add_leaf branchpos acc leaf; add_leaves branchpos acc rest
  end.

Fixpoint first_level (fuel : nat) (count : Z) (level : nat) : result nat :=
  if bit_clear count level then
    match fuel with O => Err "out of fuel" | S fuel' => first_level fuel' count (S level) end
  else Ok level.

(** [while (count != 1 << level)] *)
Fixpoint sweep (fuel : nat) (count : Z) (level : nat) (h : Z) (matchh : bool) (st : MerkleState) :
    result (Z * MerkleState) :=
  if count =? u32 (Z.shiftl 1 (Z.of_nat level)) then Ok (h, st)
  else
    match fuel with
    | O => Err "out of fuel"
    | S fuel' =>
        let br := if matchh then match branch st with Some l => Some (l ++ [h]) | None => None end else branch st in
        let count := u32 (count + u32 (Z.shiftl 1 (Z.of_nat level))) in
        r ← combine_up 32 false count (S level) (Hash2 h h) matchh (mkMerkle (inner st) (matchlevel st) (mutated st) br);
        let '(h, matchh, level, st) := (r : Z * bool * nat * MerkleState) in
        sweep fuel' count level h matchh st
    end.

(** The root, the flag and the branch. *)
Definition MerkleComputation (leaves : list Z) (branchpos : Z) (pbranch : bool) : result (Z * bool * list Z) :=
  match leaves with
  | [] => Ok (0, false, [])
  | _ =>
      let st := mkMerkle (replicate 32 0) (-1) false (if pbranch then Some [] else None) in
      acc ← add_leaves branchpos (0, st) leaves;
      let '(count, st) := (acc : Z * MerkleState) in
      level ← first_level 32 count 0;
      r ← sweep 32 count level (inner st !!! level) (matchlevel st =? Z.of_nat level) st;
      let '(h, st) := (r : Z * MerkleState) in
      Ok (h, mutated st, match branch st with Some l => l | None => [] end)
  end.

Definition ComputeMerkleRoot (leaves : list Z) : result (Z * bool) :=
  r ← MerkleComputation leaves UINT32_MAX false; Ok (fst r).
Definition ComputeMerkleBranch (leaves : list Z) (position : Z) : result (list Z) :=
  r ← MerkleComputation leaves position true; Ok (snd r).

Fixpoint ComputeMerkleRootFromBranch (leaf : Z) (vMerkleBranch : list Z) (nIndex : Z) : Z :=
  match vMerkleBranch with
  | [] => leaf
  | x :: rest =>
      ComputeMerkleRootFromBranch (if negb (Z.land nIndex 1 =? 0) then Hash2 x leaf else Hash2 leaf x)
        rest (Z.shiftr nIndex 1)
  end.

(** [CAuxPow::CheckMerkleBranch], with a signed index. *)
Definition CheckMerkleBranch (hash : Z) (vMerkleBranch : list Z) (nIndex : Z) : Z :=
  if nIndex =? -1 then 0 else ComputeMerkleRootFromBranch hash vMerkleBranch nIndex.

(** ** The tree *)

Definition pow2 (d : nat) : nat := Nat.pow 2 d.

Fixpoint tree_hash (d : nat) (l : list Z) : Z :=
  match d with
  | O => default 0 (head l)
  | S d' =>
      if (length l <=? pow2 d')%nat then Hash2 (tree_hash d' l) (tree_hash d' l)
      else Hash2 (tree_hash d' (take (pow2 d') l)) (tree_hash d' (drop (pow2 d') l))
  end.

(** Two complete sibling subtrees with one hash. *)
Fixpoint tree_mutated (d : nat) (l : list Z) : bool :=
  match d with
  | O => false
  | S d' =>
      if (length l <=? pow2 d')%nat then tree_mutated d' l
      else tree_mutated d' (take (pow2 d') l) || tree_mutated d' (drop (pow2 d') l)
           || (length l =? pow2 d)%nat && (tree_hash d' (take (pow2 d') l) =? tree_hash d' (drop (pow2 d') l))
  end.

(** The pairs hashed on the way to the root. *)
Fixpoint tree_pairs (d : nat) (l : list Z) : list (Z * Z) :=
  match d with
  | O => []
  | S d' =>
      if (length l <=? pow2 d')%nat then (tree_hash d' l, tree_hash d' l) :: tree_pairs d' l
      else (tree_hash d' (take (pow2 d') l), tree_hash d' (drop (pow2 d') l))
           :: tree_pairs d' (take (pow2 d') l) ++ tree_pairs d' (drop (pow2 d') l)
  end.

Definition depth (l : list Z) : nat := Nat.log2_up (length l).
Definition merkle_root (l : list Z) : Z := tree_hash (depth l) l.

(** ** Arithmetic of levels *)

Lemma pow2_S d : pow2 (S d) = (2 * pow2 d)%nat.
Proof. done. Qed.
Lemma pow2_ge1 d : (1 <= pow2 d)%nat.
Proof. induction d as [|d IH]; [done|]. rewrite pow2_S. lia. Qed.
Lemma pow2_mono a b : (a <= b)%nat -> (pow2 a <= pow2 b)%nat.
Proof. intros Hab. apply Nat.pow_le_mono_r; lia. Qed.
Lemma pow2_Z d : Z.of_nat (pow2 d) = 2 ^ Z.of_nat d.
Proof. unfold pow2. by rewrite Nat2Z.inj_pow. Qed.

Lemma bit_clear_even q d : bit_clear (Z.of_nat (q * pow2 d)) d = Nat.even q.
Proof.
  unfold bit_clear. pose proof (land_bit (Z.of_nat (q * pow2 d)) (Z.of_nat d) ltac:(lia)) as E.
  rewrite Nat2Z.inj_mul, pow2_Z, Z.mul_pow2_bits, Z.sub_diag, Z.bit0_odd in E by lia.
  apply (f_equal negb) in E. rewrite negb_involutive, Z.negb_odd in E. rewrite Nat2Z.inj_mul, pow2_Z, E.
  destruct (Nat.even q) eqn:Eq.
  - apply Nat.even_spec in Eq as [k ->]. apply Z.even_spec. exists (Z.of_nat k). lia.
  - rewrite <- Z.negb_odd. apply negb_false_iff. rewrite <- Nat.negb_odd in Eq. apply negb_false_iff, Nat.odd_spec in Eq as [k ->].
    apply Z.odd_spec. exists (Z.of_nat k). lia.
Qed.

Lemma even_double q : Nat.even q = true -> exists k, q = (2 * k)%nat.
Proof. intros E. by apply Nat.even_spec in E. Qed.
Lemma odd_double q : Nat.even q = false -> exists k, q = (2 * k + 1)%nat.
Proof. intros E. rewrite <- Nat.negb_odd in E. by apply negb_false_iff, Nat.odd_spec in E. Qed.

(** A number has one decomposition at each level. *)
Lemma level_unique P a r b t : (r < P)%nat -> (t < P)%nat -> (a * P + r = b * P + t)%nat -> a = b /\ r = t.
Proof. intros Hr Ht E. assert (a = b) by nia. subst. lia. Qed.

(** ** Segments of the leaves *)

Definition seg (l : list Z) (a d : nat) : list Z := take (pow2 d) (drop a l).

Lemma seg_split l a d : take (pow2 d) (seg l a (S d)) = seg l a d /\ drop (pow2 d) (seg l a (S d)) = seg l (a + pow2 d) d.
Proof.
  unfold seg. rewrite pow2_S. split.
  - rewrite take_take. f_equal. lia.
  - rewrite skipn_firstn_comm, drop_drop. f_equal. lia.
Qed.
Lemma length_seg l a d : length (seg l a d) = Nat.min (pow2 d) (length l - a).
Proof. unfold seg. by rewrite length_take, length_drop. Qed.

(** A node with two children. *)
Lemma tree_hash_node l a d : (a + pow2 d < length l)%nat ->
  tree_hash (S d) (seg l a (S d)) = Hash2 (tree_hash d (seg l a d)) (tree_hash d (seg l (a + pow2 d) d)).
Proof.
  intros Ha. cbn [tree_hash]. rewrite length_seg, (proj2 (Nat.leb_gt _ _)) by (rewrite pow2_S; pose proof (pow2_ge1 d); lia).
  destruct (seg_split l a d) as [-> ->]. done.
Qed.
(** A node whose only child is doubled. *)
Lemma tree_hash_double l a d : (length l <= a + pow2 d)%nat ->
  tree_hash (S d) (seg l a (S d)) = Hash2 (tree_hash d (seg l a d)) (tree_hash d (seg l a d)).
Proof.
  intros Ha. cbn [tree_hash]. assert (seg l a (S d) = seg l a d) as E.
  { unfold seg. rewrite !take_ge by (rewrite length_drop, ?pow2_S; lia). done. }
  rewrite E, length_seg, (proj2 (Nat.leb_le _ _)) by lia. done.
Qed.

(** ** Branches *)

Lemma root_from_branch_snoc leaf br x idx : 0 <= idx ->
  ComputeMerkleRootFromBranch leaf (br ++ [x]) idx =
    (if Z.testbit idx (Z.of_nat (length br)) then Hash2 x (ComputeMerkleRootFromBranch leaf br idx)
     else Hash2 (ComputeMerkleRootFromBranch leaf br idx) x).
Proof.
  revert leaf idx. induction br as [|y br IH]; intros leaf idx Hi; cbn [app ComputeMerkleRootFromBranch length].
  - change 1 with (Z.shiftl 1 0) at 1. rewrite land_bit by lia. done.
  - rewrite IH by (rewrite Z.shiftr_nonneg; lia). rewrite Z.shiftr_spec by lia.
    replace (Z.of_nat (length br) + 1) with (Z.of_nat (S (length br))) by lia. done.
Qed.

(** The bit of a position at a level is the parity of its block. *)
Lemma testbit_block pos d : Z.testbit (Z.of_nat pos) (Z.of_nat d) = Nat.odd (pos / pow2 d).
Proof.
  rewrite Z.testbit_odd, Z.shiftr_div_pow2 by lia. rewrite <- pow2_Z, <- Nat2Z.inj_div.
  destruct (Nat.odd (pos / pow2 d)) eqn:E.
  - apply Nat.odd_spec in E as [k ->]. apply Z.odd_spec. exists (Z.of_nat k). lia.
  - rewrite <- Nat.negb_even in E. apply negb_false_iff, Nat.even_spec in E as [k ->].
    rewrite <- Z.negb_even. apply negb_false_iff, Z.even_spec. exists (Z.of_nat k). lia.
Qed.
Lemma block_half pos d q : (pos / pow2 d)%nat = q -> (pos / pow2 (S d) = q / 2)%nat.
Proof.
  intros <-. rewrite pow2_S, Nat.mul_comm. symmetry. apply Nat.Div0.div_div.
Qed.

(** ** The first pass *)

Section Pass.
Context (leaves : list Z) (pos : nat) (leaf : Z).

(** [inner] holds the hashes of the blocks of the binary digits of [c]. *)
Definition inner_ok (inn : list Z) (c : nat) : Prop :=
  length inn = 32%nat /\ forall k q r, c = ((2 * q + 1) * pow2 k + r)%nat -> (r < pow2 k)%nat ->
    inn !!! k = tree_hash k (seg leaves (2 * q * pow2 k) k).

(** The matched leaf is still to come, or its branch ends in a block of [c] at or above [lev]. *)
Definition waiting (inn : list Z) (ml : Z) (br : list Z) (c lev : nat) : Prop :=
  (c < pos)%nat /\ ml = -1 /\ br = [] \/
  exists k q r, (lev <= k)%nat /\ c = ((2 * q + 1) * pow2 k + r)%nat /\ (r < pow2 k)%nat /\
    (pos / pow2 k = 2 * q)%nat /\ ml = Z.of_nat k /\ length br = k /\
    ComputeMerkleRootFromBranch leaf br (Z.of_nat pos) = inn !!! k.

Definition branch_ok (st : MerkleState) (h : Z) (matchh : bool) (lev Q c : nat) : Prop :=
  match branch st with
  | None => True
  | Some br =>
      if matchh then (pos / pow2 lev = Q - 1)%nat /\ length br = lev /\
        ComputeMerkleRootFromBranch leaf br (Z.of_nat pos) = h
      else waiting (inner st) (matchlevel st) br c lev
  end.

(** Two complete neighbours with one hash. *)
Definition equal_pair (k i : nat) : Prop :=
  tree_hash k (seg leaves (2 * i * pow2 k) k) = tree_hash k (seg leaves ((2 * i + 1) * pow2 k) k).

Lemma push_sibling_ok st h matchh lev q c :
  c = ((2 * q + 1) * pow2 lev + (c - (2 * q + 1) * pow2 lev))%nat -> (c - (2 * q + 1) * pow2 lev < pow2 lev)%nat ->
  branch_ok st h matchh lev (2 * q + 2) c ->
  let r := push_sibling st lev h matchh in
  branch_ok (mkMerkle (inner st) (matchlevel st) (mutated st) (fst r)) (Hash2 (inner st !!! lev) h) (snd r) (S lev) (q + 1) c.
Proof.
  intros Ec Hr Hb. unfold branch_ok, push_sibling in *. destruct (branch st) as [br|]; [|done].
  destruct matchh; cbn [fst snd branch inner matchlevel].
  - destruct Hb as (Hp & Hl & E). rewrite length_app, root_from_branch_snoc, Hl, testbit_block, Hp, E by lia.
    replace (2 * q + 2 - 1)%nat with (2 * q + 1)%nat in * by lia.
    rewrite (proj2 (Nat.odd_spec (2 * q + 1))) by (by exists q). split_and!; [|cbn; lia|done].
    rewrite (block_half _ _ _ Hp). replace (2 * q + 1)%nat with (1 + q * 2)%nat by lia. rewrite Nat.div_add by lia. cbn. lia.
  - destruct (Z.eqb_spec (matchlevel st) (Z.of_nat lev)) as [Em|Em]; cbn [fst snd branch inner matchlevel].
    + destruct Hb as [(_ & E & _)|(k & q' & r & _ & Ec' & Hr' & Hp & Ek & Hl & E)]; [lia|].
      assert (k = lev) as -> by lia.
      destruct (level_unique (pow2 lev) (2 * q' + 1) r (2 * q + 1) _ Hr' Hr ltac:(lia)) as [Eq _]. assert (q' = q) as -> by lia.
      rewrite length_app, root_from_branch_snoc, Hl, testbit_block, Hp, E by lia.
      rewrite <- Nat.negb_even, (proj2 (Nat.even_spec (2 * q))) by (by exists q). cbn [negb].
      split_and!; [|cbn; lia|done]. rewrite (block_half _ _ _ Hp), Nat.mul_comm, Nat.div_mul by lia. lia.
    + destruct Hb as [Hw|(k & q' & r & Hk & Ec' & Hr' & Hp & Ek & Hl & E)]; [by left|right].
      exists k, q', r. split_and!; try done. assert (k <> lev) by (intros ->; lia). lia.
Qed.

Lemma combine_up_spec fuel check lev c h matchh st cv Q : cv = (Q * pow2 lev)%nat -> (1 <= Q)%nat ->
  (32 <= lev + fuel)%nat -> Z.of_nat cv < 2 ^ 32 -> (cv - pow2 lev <= c < cv)%nat -> (cv - pow2 lev < length leaves)%nat ->
  inner_ok (inner st) c -> h = tree_hash lev (seg leaves (cv - pow2 lev) lev) -> branch_ok st h matchh lev Q c ->
  exists h' matchh' lev' st' Q', combine_up fuel check (Z.of_nat cv) lev h matchh st = Ok (h', matchh', lev', st') /\
    cv = (Q' * pow2 lev')%nat /\ Nat.even Q' = false /\ (lev <= lev' < 32)%nat /\
    h' = tree_hash lev' (seg leaves (cv - pow2 lev') lev') /\ branch_ok st' h' matchh' lev' Q' c /\
    inner st' = inner st /\ matchlevel st' = matchlevel st /\ (branch st = None <-> branch st' = None) /\
    (lev' = lev \/ pow2 (lev' - 1) < length leaves)%nat /\
    (mutated st' = true <-> mutated st = true \/
      check = true /\ exists k i, (lev <= k)%nat /\ ((2 * i + 2) * pow2 k)%nat = cv /\ equal_pair k i).
Proof.
  revert lev h matchh st Q. induction fuel as [|fuel IH]; intros lev h matchh st Q Ecv HQ Hf Hcv Hc Hn Hin Hh Hb.
  { exfalso. pose proof (pow2_mono 32 lev ltac:(lia)). pose proof (pow2_Z 32). nia. }
  cbn [combine_up]. assert (bit_clear (Z.of_nat cv) lev = Nat.even Q) as -> by (rewrite Ecv; apply bit_clear_even). pose proof (pow2_ge1 lev) as H1.
  destruct (Nat.even Q) eqn:Eq.
  - apply even_double in Eq as [q' ->]. destruct q' as [|q]; [lia|].
    pose proof (push_sibling_ok st h matchh lev q c ltac:(nia) ltac:(nia)) as Hpush.
    replace (2 * S q)%nat with (2 * q + 2)%nat in * by lia. specialize (Hpush Hb).
    pose proof (proj2 Hin lev q (c - (2 * q + 1) * pow2 lev)%nat ltac:(nia) ltac:(nia)) as Hi.
    destruct (push_sibling st lev h matchh) as [br mh] eqn:Ep. cbn [fst snd] in Hpush.
    set (st1 := mkMerkle (inner st) (matchlevel st) (if check then mutated st || (inner st !!! lev =? h) else mutated st) br).
    assert (h = tree_hash lev (seg leaves ((2 * q + 1) * pow2 lev) lev)) as Hh2 by (rewrite Hh; f_equal; f_equal; nia).
    destruct (IH (S lev) (Hash2 (inner st !!! lev) h) mh st1 (q + 1)%nat) as
      (h' & mh' & lev' & st' & Q' & E & EQ' & Ho & Hl' & Hh' & Hb' & Ei & Em & Ebr & Hd & Hmut); try done.
    + rewrite pow2_S. nia.
    + lia.
    + lia.
    + rewrite pow2_S. nia.
    + rewrite pow2_S. nia.
    + rewrite Hi, Hh2. replace ((2 * q + 1) * pow2 lev)%nat with (2 * q * pow2 lev + pow2 lev)%nat by nia.
      rewrite <- tree_hash_node by nia. f_equal. f_equal. rewrite pow2_S. nia.
    + exists h', mh', lev', st', Q'. rewrite E, Ei, Em. split_and!; try done; [lia|lia| | |].
      * rewrite <- Ebr. cbn. unfold push_sibling in Ep. destruct (branch st); repeat case_match; naive_solver.
      * right. destruct Hd as [->|]; [|done]. replace (S lev - 1)%nat with lev by lia. nia.
      * split; intros Hm. { apply Hmut in Hm as [Hm|(Hck & k & i & Hk & Ek & Hp)]; [|right; split; [done|]; exists k, i; split_and!; (done || lia)].
        cbn in Hm. destruct check; [|by left]. apply orb_true_iff in Hm as [Hm|Hm]; [by left|]. right. split; [done|].
        exists lev, q. split_and!; [lia|nia|]. unfold equal_pair. apply Z.eqb_eq in Hm. by rewrite <- Hi, <- Hh2. }
        apply Hmut. cbn. destruct Hm as [Hm|(-> & k & i & Hk & Ek & Hp)]; [left; destruct check; [by rewrite Hm|done]|].
        destruct (decide (k = lev)) as [->|]; [|right; split; [done|]; exists k, i; split_and!; (done || lia)].
        left. apply orb_true_iff. right. apply Z.eqb_eq. assert (i = q) as -> by nia. unfold equal_pair in Hp. by rewrite Hi, Hh2.
  - exists h, matchh, lev, st, Q. split_and!; try done; [ |by left|].
    + assert (pow2 lev < pow2 32)%nat; [|destruct (Nat.lt_ge_cases lev 32) as [|Hge]; [done|apply pow2_mono in Hge; lia]].
      pose proof (pow2_Z 32). nia.
    + split; [by left|]. intros [Hm|(_ & k & i & Hk & Ek & _)]; [done|]. exfalso. apply odd_double in Eq as [q ->].
      assert (exists e, pow2 k = (e * pow2 lev)%nat) as [e He].
      { exists (pow2 (k - lev)). unfold pow2. rewrite <- Nat.pow_add_r. f_equal. lia. }
      rewrite He in Ek. assert ((2 * i + 2) * e = 2 * q + 1)%nat by nia. lia.
Qed.

Lemma odd_not_multiple a q k lev : (lev < k)%nat -> ((2 * a + 1) * pow2 lev = q * pow2 k)%nat -> False.
Proof.
  intros Hk E. assert (pow2 k = 2 * pow2 (k - S lev) * pow2 lev)%nat as Ek.
  { rewrite <- pow2_S. unfold pow2. rewrite <- Nat.pow_add_r. f_equal. lia. }
  pose proof (pow2_ge1 lev). rewrite Ek in E. assert (2 * a + 1 = 2 * (q * pow2 (k - S lev)))%nat by nia. lia.
Qed.

(** After [c] leaves. *)
Definition pass_ok (c : nat) (st : MerkleState) : Prop :=
  inner_ok (inner st) c /\
  (mutated st = true <-> exists k i, ((2 * i + 2) * pow2 k <= c)%nat /\ equal_pair k i) /\
  match branch st with
  | None => True
  | Some br => (c <= pos)%nat /\ matchlevel st = -1 /\ br = [] \/
      (pos < c)%nat /\ waiting (inner st) (matchlevel st) br c 0
  end.

Lemma inner_ok_insert inn c lev Q : (lev < 32)%nat -> S c = ((2 * Q + 1) * pow2 lev)%nat -> inner_ok inn c ->
  inner_ok (<[lev := tree_hash lev (seg leaves (S c - pow2 lev) lev)]> inn) (S c).
Proof.
  intros Hlev Ec [L Hin]. split; [by rewrite length_insert|]. intros k q r E Hr. pose proof (pow2_ge1 lev).
  destruct (Nat.lt_trichotomy k lev) as [Hk|[->|Hk]].
  - exfalso. assert (r = 0%nat) as ->.
    { assert (exists e, pow2 lev = (e * pow2 k)%nat) as [e He].
      { exists (pow2 (lev - k)). unfold pow2. rewrite <- Nat.pow_add_r. f_equal. lia. }
      rewrite He in Ec. pose proof (level_unique (pow2 k) (2 * q + 1) r ((2 * Q + 1) * e) 0 Hr ltac:(pose proof (pow2_ge1 k); lia) ltac:(nia)). lia. }
    apply (odd_not_multiple q (2 * Q + 1) lev k Hk). lia.
  - destruct (level_unique (pow2 lev) (2 * q + 1) r (2 * Q + 1) 0 Hr ltac:(lia) ltac:(lia)) as [EQ ->].
    assert (q = Q) as -> by lia. rewrite list_lookup_total_insert_eq by lia. f_equal. f_equal. nia.
  - rewrite list_lookup_total_insert_ne by lia. destruct r as [|r].
    { exfalso. apply (odd_not_multiple Q (2 * q + 1) k lev Hk). lia. }
    apply (Hin k q r); lia.
Qed.

Lemma waiting_insert inn ml br c lev Q : (lev < 32)%nat -> S c = ((2 * Q + 1) * pow2 lev)%nat ->
  waiting inn ml br c lev -> (S c <= pos)%nat /\ ml = -1 /\ br = [] \/
    forall x, length inn = 32%nat -> waiting (<[lev := x]> inn) ml br (S c) 0.
Proof.
  intros Hlev Ec [(Hc & Hml & Hbr)|(k & q & r & Hk & Ec' & Hr & Hp & Eml & Hl & E)]; [left; split_and!; (done || lia)|right].
  intros x L. right. assert (k <> lev) as Hne.
  { intros ->. pose proof (pow2_ge1 lev).
    assert (2 * q + 1 = 2 * Q)%nat; [|lia]. destruct (level_unique (pow2 lev) (2 * q + 1) r (2 * Q) (pow2 lev - 1) Hr ltac:(lia) ltac:(nia)). done. }
  exists k, q, (S r). split_and!; try done; [lia|lia| |].
  - destruct (decide (S r = pow2 k)) as [Er|]; [|lia]. exfalso.
    apply (odd_not_multiple Q (2 * q + 2) k lev ltac:(lia)). lia.
  - rewrite E. by rewrite list_lookup_total_insert_ne by lia.
Qed.

Lemma add_leaf_spec branchpos c st x : pass_ok c st -> leaves !! c = Some x -> Z.of_nat (S c) < 2 ^ 32 ->
  (branch st = None \/ branchpos = Z.of_nat pos /\ leaves !! pos = Some leaf) ->
  exists st', add_leaf branchpos (Z.of_nat c, st) x = Ok (Z.of_nat (S c), st') /\ pass_ok (S c) st' /\
    (branch st = None <-> branch st' = None).
Proof.
  intros (Hin & Hmut & Hbr) Hx Hc Hbp. unfold add_leaf. replace (Z.of_nat c + 1) with (Z.of_nat (S c)) by lia.
  rewrite u32_id by (unfold in_u32; lia). pose proof (lookup_lt_Some _ _ _ Hx) as Hlt.
  assert (x = tree_hash 0 (seg leaves c 0)) as Hx0.
  { cbn. unfold seg. rewrite (drop_S _ _ _ Hx). done. }
  destruct (combine_up_spec 32 true 0 c x (Z.of_nat c =? branchpos) st (S c) (S c)) as
    (h & mh & lev & st' & Q' & -> & Ecv & Ho & Hlev & Hh & Hb' & Ei & Em & Ebr & _ & Hm); try done; try (change (pow2 0) with 1%nat; lia).
  { by rewrite Hx0 at 1; f_equal; f_equal; change (pow2 0) with 1%nat; lia. }
  { unfold branch_ok. destruct (branch st) as [br|]; [|done]. destruct Hbp as [|[-> Hleaf]]; [done|].
    destruct (Z.eqb_spec (Z.of_nat c) (Z.of_nat pos)) as [Ec|Ec].
    - assert (c = pos) as -> by lia. destruct Hbr as [(_ & _ & ->)|[? _]]; [|lia].
      change (pow2 0) with 1%nat. rewrite Nat.div_1_r. split_and!; [lia|done|]. cbn. congruence.
    - destruct Hbr as [(? & ? & ->)|[_ Hw]]; [left; split_and!; (done || lia)|done]. }
  cbn [mbind result_bind]. eexists. split; [reflexivity|]. apply odd_double in Ho as [Q ->].
  split; [|cbn; done]. unfold pass_ok. cbn [inner mutated branch matchlevel]. rewrite Ei, Em, Hh. split_and!.
  - apply (inner_ok_insert _ c lev Q); [lia|done|done].
  - rewrite Hm, Hmut. split.
    + intros [(k & i & Hk & Hp)|(_ & k & i & _ & Hk & Hp)]; exists k, i; split; (done || lia).
    + intros (k & i & Hk & Hp). destruct (decide ((2 * i + 2) * pow2 k = S c)%nat).
      * right. split; [done|]. exists k, i. split_and!; (done || lia).
      * left. exists k, i. split; [lia|done].
  - unfold branch_ok in Hb'. destruct (branch st') as [br|]; [|done]. destruct mh.
    + destruct Hb' as (Hp & Hl & E). right. pose proof (pow2_ge1 lev).
      pose proof (Nat.div_mod_eq pos (pow2 lev)). pose proof (Nat.mod_upper_bound pos (pow2 lev) ltac:(lia)).
      split; [nia|]. right. exists lev, Q, 0%nat. split_and!; try (done || lia).
      rewrite list_lookup_total_insert_eq by (destruct Hin; lia). by rewrite E, <- Hh.
    + rewrite Ei, Em in Hb'. pose proof (waiting_insert _ _ _ _ _ Q (proj2 Hlev) Ecv Hb') as Hw.
      destruct Hb' as [(? & ? & ->)|(k & q & r & _ & Ec & Hr & Hp & Ek & _)]; [left; split_and!; (done || lia)|right].
      destruct Hw as [(_ & ? & _)|Hw]; [lia|]. split; [|by apply Hw, Hin].
      pose proof (Nat.div_mod_eq pos (pow2 k)). pose proof (Nat.mod_upper_bound pos (pow2 k) ltac:(pose proof (pow2_ge1 k); lia)). nia.
Qed.

Lemma add_leaves_spec branchpos n c st : n = length leaves -> Z.of_nat n < 2 ^ 32 -> pass_ok c st -> (c <= n)%nat ->
  (branch st = None \/ branchpos = Z.of_nat pos /\ leaves !! pos = Some leaf) ->
  exists st', add_leaves branchpos (Z.of_nat c, st) (drop c leaves) = Ok (Z.of_nat n, st') /\ pass_ok n st' /\
    (branch st = None <-> branch st' = None).
Proof.
  intros En Hn. remember (n - c)%nat as m eqn:Em. revert c st Em. induction m as [|m IH]; intros c st Em Hp Hc Hb.
  - assert (c = n) as -> by lia. rewrite drop_ge by lia. by exists st.
  - destruct (lookup_lt_is_Some_2 leaves c ltac:(lia)) as [x Hx]. rewrite (drop_S _ _ _ Hx). cbn [add_leaves].
    destruct (add_leaf_spec branchpos c st x Hp Hx ltac:(lia) Hb) as (st1 & -> & Hp1 & Hb1). cbn [mbind result_bind].
    destruct (IH (S c) st1 ltac:(lia) Hp1 ltac:(lia)) as (st2 & -> & Hp2 & Hb2); [naive_solver|].
    exists st2. split_and!; [done|done|by rewrite Hb1].
Qed.

(** ** The sweep *)

Lemma first_level_spec fuel n lev Q : n = (Q * pow2 lev)%nat -> (1 <= Q)%nat -> (32 <= lev + fuel)%nat -> Z.of_nat n < 2 ^ 32 ->
  exists lev' Q', first_level fuel (Z.of_nat n) lev = Ok lev' /\ n = ((2 * Q' + 1) * pow2 lev')%nat.
Proof.
  revert lev Q. induction fuel as [|fuel IH]; intros lev Q En HQ Hf Hn.
  { exfalso. pose proof (pow2_mono 32 lev ltac:(lia)). pose proof (pow2_Z 32). nia. }
  cbn [first_level]. assert (bit_clear (Z.of_nat n) lev = Nat.even Q) as -> by (rewrite En; apply bit_clear_even).
  destruct (Nat.even Q) eqn:E.
  - apply even_double in E as [q ->]. apply (IH (S lev) q); [rewrite pow2_S; nia|lia|lia|done].
  - apply odd_double in E as [q ->]. by exists lev, q.
Qed.

Definition sweep_ok (st : MerkleState) (h : Z) (matchh : bool) (lev Q n : nat) : Prop :=
  match branch st with
  | None => True
  | Some br =>
      if matchh then (pos / pow2 lev = Q - 1)%nat /\ length br = lev /\
        ComputeMerkleRootFromBranch leaf br (Z.of_nat pos) = h
      else waiting (inner st) (matchlevel st) br n (S lev)
  end.

(** Doubling the last node of a level. *)
Lemma double_ok st h matchh lev Q n : sweep_ok st h matchh lev (2 * Q + 1) n ->
  let br := if matchh then match branch st with Some l => Some (l ++ [h]) | None => None end else branch st in
  branch_ok (mkMerkle (inner st) (matchlevel st) (mutated st) br) (Hash2 h h) matchh (S lev) (Q + 1) n.
Proof.
  unfold sweep_ok, branch_ok. destruct (branch st) as [br|]; [|by destruct matchh]. destruct matchh; cbn [branch inner matchlevel]; [|done].
  intros (Hp & Hl & E). replace (2 * Q + 1 - 1)%nat with (2 * Q)%nat in * by lia.
  rewrite length_app, root_from_branch_snoc, Hl, testbit_block, Hp, E by lia.
  rewrite <- Nat.negb_even, (proj2 (Nat.even_spec (2 * Q))) by (by exists Q). cbn [negb].
  split_and!; [|cbn; lia|done]. rewrite (block_half _ _ _ Hp), Nat.mul_comm, Nat.div_mul by lia. lia.
Qed.

Lemma level31 : exists P, Z.of_nat P = 2 ^ 31 /\ (forall k, (k <= 31)%nat -> (pow2 k <= P)%nat) /\
  (forall k, (31 <= k)%nat -> (P <= pow2 k)%nat).
Proof.
  exists (pow2 31). split_and!; [apply (pow2_Z 31)|intros k Hk; by apply pow2_mono|intros k Hk; by apply pow2_mono].
Qed.

Lemma depth_eq lev : (1 <= length leaves <= pow2 lev)%nat -> (lev = 0 \/ pow2 (lev - 1) < length leaves)%nat -> depth leaves = lev.
Proof.
  intros Hn [->|Hd].
  - unfold depth. change (pow2 0) with 1%nat in Hn. by replace (length leaves) with 1%nat by lia.
  - destruct lev as [|lev]; [cbn in *; lia|]. unfold depth. apply Nat.log2_up_unique; [lia|].
    replace (S lev - 1)%nat with lev in Hd by lia. split; [exact Hd|]. unfold pow2 in Hn. lia.
Qed.

Lemma waiting_above st br n lev Q cv : cv = ((2 * Q + 1) * pow2 lev)%nat -> (cv - pow2 lev <= n < cv)%nat ->
  waiting (inner st) (matchlevel st) br n lev -> waiting (inner st) (matchlevel st) br n (S lev).
Proof.
  intros Ecv Hcv [Hw|(k & q & r & Hk & En & Hr & R)]; [by left|right]. exists k, q, r. split_and!; try apply R; try done.
  assert (k <> lev); [|lia]. intros ->.
  destruct (level_unique (pow2 lev) (2 * q + 1) r (2 * Q) (n - 2 * Q * pow2 lev) Hr ltac:(nia) ltac:(nia)). lia.
Qed.

Lemma sweep_spec n fuel lev Q cv h matchh st : n = length leaves -> Z.of_nat n <= 2 ^ 31 ->
  cv = ((2 * Q + 1) * pow2 lev)%nat -> (lev < 32)%nat -> (32 <= lev + fuel)%nat ->
  (cv - pow2 lev < n <= cv)%nat -> (lev = 0 \/ pow2 (lev - 1) < n)%nat ->
  inner_ok (inner st) n -> h = tree_hash lev (seg leaves (cv - pow2 lev) lev) -> sweep_ok st h matchh lev (2 * Q + 1) n ->
  (branch st <> None -> (pos < n)%nat) ->
  exists st', sweep fuel (Z.of_nat cv) lev h matchh st = Ok (merkle_root leaves, st') /\ mutated st' = mutated st /\
    match branch st' with
    | Some br => length br = depth leaves /\ ComputeMerkleRootFromBranch leaf br (Z.of_nat pos) = merkle_root leaves
    | None => branch st = None
    end.
Proof.
  intros En Hn. revert lev Q cv h matchh st. induction fuel as [|fuel IH]; intros lev Q cv h matchh st Ecv Hlev Hf Hcv Hd Hin Hh Hb Hpos; [lia|].
  cbn [sweep]. rewrite Z.shiftl_mul_pow2, Z.mul_1_l by lia. rewrite <- pow2_Z. pose proof (pow2_ge1 lev) as H1.
  destruct level31 as (P & HP & Hle & Hge).
  rewrite (u32_id (Z.of_nat (pow2 lev))) by (pose proof (Hle lev ltac:(lia)); unfold in_u32; lia).
  destruct (Z.eqb_spec (Z.of_nat cv) (Z.of_nat (pow2 lev))) as [Ee|Ee].
  - assert (Q = 0%nat) as -> by nia. exists st.
    assert (depth leaves = lev) as Ed by (apply depth_eq; subst; [split; lia|done]).
    assert (h = merkle_root leaves) as <-.
    { unfold merkle_root. rewrite Ed, Hh. f_equal. unfold seg. replace (cv - pow2 lev)%nat with 0%nat by lia.
      rewrite drop_0, take_ge by lia. done. }
    split_and!; [done|done|]. unfold sweep_ok in Hb. destruct (branch st) as [br|]; [|done]. specialize (Hpos ltac:(done)).
    destruct matchh; [rewrite Ed; apply Hb|]. exfalso. destruct Hb as [[? _]|(k & q & r & Hk & E & _)]; [lia|].
    pose proof (pow2_mono (S lev) k Hk) as Hmono. rewrite pow2_S in Hmono. nia.
  - assert (1 <= Q)%nat as HQ by (destruct Q; nia).
    assert (S lev <= 31)%nat as Hl31.
    { destruct (Nat.le_gt_cases (S lev) 31) as [|Hgt]; [done|]. pose proof (Hge lev ltac:(lia)). nia. }
    assert (Z.of_nat ((Q + 1) * pow2 (S lev)) < 2 ^ 32) as Hc32.
    { pose proof (Hle (S lev) Hl31) as Hmono. rewrite pow2_S in *. nia. }
    replace (Z.of_nat cv + Z.of_nat (pow2 lev)) with (Z.of_nat ((Q + 1) * pow2 (S lev))) by (rewrite pow2_S; nia).
    rewrite u32_id by (unfold in_u32; lia). set (cv' := ((Q + 1) * pow2 (S lev))%nat).
    assert (cv' = cv + pow2 lev)%nat as Ecv1 by (unfold cv'; rewrite pow2_S; nia).
    assert (cv' - pow2 (S lev) = cv - pow2 lev)%nat as Eoff by (unfold cv'; rewrite pow2_S; nia).
    destruct (combine_up_spec 32 false (S lev) n (Hash2 h h) matchh
      (mkMerkle (inner st) (matchlevel st) (mutated st)
        (if matchh then match branch st with Some l => Some (l ++ [h]) | None => None end else branch st)) cv' (Q + 1))
      as (h' & mh' & lev' & st' & Q' & -> & Ecv' & Ho & Hlev' & Hh' & Hb' & Ei & Em & Ebr & Hd' & Hmut);
      [reflexivity|lia|lia|exact Hc32|rewrite Eoff; lia|rewrite Eoff; lia|exact Hin| | |].
    + rewrite Eoff, tree_hash_double by lia. by rewrite <- Hh.
    + by apply double_ok.
    + cbn [mbind result_bind]. apply odd_double in Ho as [Q2 ->]. cbn [inner matchlevel branch mutated] in *.
      assert (cv' - pow2 lev' <= n < cv')%nat as Hcv'.
      { pose proof (pow2_mono (S lev) lev' ltac:(lia)). lia. }
      clearbody cv'. destruct (IH lev' Q2 cv' h' mh' st') as (st2 & -> & Hm2 & Hb2);
        [exact Ecv'|lia|lia|pose proof (pow2_mono (S lev) lev' ltac:(lia)); lia| | |exact Hh'| | |].
      * destruct Hd' as [->|]; [|lia]. right. replace (S lev - 1)%nat with lev by lia. nia.
      * by rewrite Ei.
      * unfold sweep_ok, branch_ok in *. destruct (branch st') as [br|]; [|done]. destruct mh'; [done|].
        by apply (waiting_above st' br n lev' Q2 cv').
      * intros Hne. apply Hpos. intros E. apply Hne, Ebr. rewrite E. by destruct matchh.
      * exists st2. split_and!; [done| |].
        -- rewrite Hm2. apply eq_bool_prop_intro. rewrite !Is_true_true, Hmut. split; [by intros [|[? _]]|by left].
        -- destruct (branch st2); [done|]. destruct (branch st) eqn:E; [|done]. apply Ebr in Hb2. by destruct matchh.
Qed.

End Pass.

(** ** Repeated subtrees *)

Lemma seg_take l a k P : (a + pow2 k <= P)%nat -> seg (take P l) a k = seg l a k.
Proof. intros Ha. unfold seg. rewrite skipn_firstn_comm, take_take. f_equal. lia. Qed.
Lemma seg_drop l a k P : seg (drop P l) a k = seg l (P + a) k.
Proof. unfold seg. by rewrite drop_drop. Qed.

Lemma pow2_split k d : (k < d)%nat -> exists e, pow2 d = (2 * e * pow2 k)%nat.
Proof.
  intros Hk. exists (pow2 (d - S k)). rewrite <- pow2_S. unfold pow2. rewrite <- Nat.pow_add_r. f_equal. lia.
Qed.

Lemma tree_mutated_spec d l : (length l <= pow2 d)%nat ->
  tree_mutated d l = true <-> exists k i, ((2 * i + 2) * pow2 k <= length l)%nat /\ equal_pair l k i.
Proof.
  revert l. induction d as [|d IH]; intros l Hl.
  { split; [done|]. intros (k & i & Hk & _). change (pow2 0) with 1%nat in Hl. pose proof (pow2_ge1 k). nia. }
  cbn [tree_mutated]. destruct (Nat.leb_spec (length l) (pow2 d)) as [Hs|Hs]; [by apply IH|].
  rewrite pow2_S in *. pose proof (pow2_ge1 d) as Hd. rewrite !orb_true_iff, andb_true_iff.
  rewrite (IH (take (pow2 d) l)), (IH (drop (pow2 d) l)) by (rewrite ?length_take, ?length_drop; lia).
  rewrite Nat.eqb_eq, Z.eqb_eq. rewrite length_take, length_drop. split.
  - intros [[(k & i & Hk & Hp)|(k & i & Hk & Hp)]|[Hlen Heq]].
    + exists k, i. split; [lia|]. unfold equal_pair in *. rewrite !seg_take in Hp by lia. done.
    + assert (k < d)%nat as Hkd.
      { destruct (Nat.lt_ge_cases k d) as [|Hge]; [done|]. pose proof (pow2_mono d k Hge). nia. }
      destruct (pow2_split k d Hkd) as [e He]. exists k, (e + i)%nat. split; [nia|]. unfold equal_pair in *.
      rewrite !seg_drop in Hp. rewrite He in Hp.
      replace (2 * (e + i) * pow2 k)%nat with (2 * e * pow2 k + 2 * i * pow2 k)%nat by nia.
      replace ((2 * (e + i) + 1) * pow2 k)%nat with (2 * e * pow2 k + (2 * i + 1) * pow2 k)%nat by nia. done.
    + exists d, 0%nat. split; [lia|]. unfold equal_pair, seg. rewrite Nat.mul_0_r, !Nat.mul_0_l, Nat.add_0_l, Nat.mul_1_l, drop_0.
      rewrite Heq. f_equal. rewrite take_ge; [done|]. rewrite length_drop. lia.
  - intros (k & i & Hk & Hp). destruct (Nat.lt_trichotomy k d) as [Hkd|[->|Hkd]].
    + left. destruct (pow2_split k d Hkd) as [e He]. destruct (Nat.lt_ge_cases i e) as [Hi|Hi].
      * left. exists k, i. split; [nia|]. unfold equal_pair in *. rewrite !seg_take by nia. done.
      * right. exists k, (i - e)%nat. split; [nia|]. unfold equal_pair in *. rewrite !seg_drop, He.
        replace (2 * e * pow2 k + 2 * (i - e) * pow2 k)%nat with (2 * i * pow2 k)%nat by nia.
        replace (2 * e * pow2 k + (2 * (i - e) + 1) * pow2 k)%nat with ((2 * i + 1) * pow2 k)%nat by nia. done.
    + right. assert (i = 0%nat) as -> by nia. split; [lia|]. unfold equal_pair, seg in Hp.
      rewrite Nat.mul_0_r, !Nat.mul_0_l, Nat.add_0_l, Nat.mul_1_l, drop_0 in Hp. rewrite Hp. f_equal.
      rewrite take_ge; [done|]. rewrite length_drop. lia.
    + pose proof (pow2_mono (S d) k Hkd) as Hmono. rewrite pow2_S in Hmono. nia.
Qed.

Lemma depth_length l : l <> [] -> (length l <= pow2 (depth l))%nat.
Proof.
  intros Hl. unfold depth, pow2. destruct (decide (length l = 1)%nat) as [->|]; [done|].
  apply Nat.log2_up_spec. destruct l; [done|]. cbn in *. lia.
Qed.

(** ** The computation *)

Lemma MerkleComputation_spec leaves pos leaf branchpos pbranch : leaves <> [] -> Z.of_nat (length leaves) <= 2 ^ 31 ->
  (pbranch = true -> branchpos = Z.of_nat pos /\ leaves !! pos = Some leaf) ->
  exists br, MerkleComputation leaves branchpos pbranch = Ok (merkle_root leaves, tree_mutated (depth leaves) leaves, br) /\
    (pbranch = true -> length br = depth leaves /\ ComputeMerkleRootFromBranch leaf br (Z.of_nat pos) = merkle_root leaves).
Proof.
  intros Hne Hn Hb. unfold MerkleComputation. destruct leaves as [|x rest] eqn:El; [done|]. rewrite <- El in *. clear El x rest.
  set (st := mkMerkle _ _ _ _). assert (1 <= length leaves)%nat as H1 by (destruct leaves; [done|cbn; lia]).
  destruct (add_leaves_spec leaves pos leaf branchpos (length leaves) 0 st) as (st1 & Hadd & (Hin & Hmut & Hbr) & Hnone).
  { done. } { lia. }
  { unfold pass_ok. cbn. split_and!; [split; [done|]| |].
    - intros k q r E. pose proof (pow2_ge1 k). nia.
    - split; [done|]. intros (k & i & Hk & _). pose proof (pow2_ge1 k). nia.
    - destruct pbranch; [|done]. left. split_and!; (done || lia). }
  { lia. } { cbn. destruct pbranch; [right; by apply Hb|by left]. }
  change (Z.of_nat 0) with 0 in Hadd. rewrite drop_0 in Hadd. rewrite Hadd. cbn [mbind result_bind].
  destruct (first_level_spec 32 (length leaves) 0 (length leaves)) as (lev & Q & -> & En); [change (pow2 0) with 1%nat; lia|done|lia|lia|].
  cbn [mbind result_bind]. pose proof (pow2_ge1 lev) as Hp.
  assert (lev < 32)%nat as Hlev.
  { destruct level31 as (P & HP & _ & Hge). destruct (Nat.lt_ge_cases lev 32) as [|Hgt]; [done|].
    destruct lev as [|lev]; [lia|]. pose proof (Hge lev ltac:(lia)). rewrite pow2_S in En. nia. }
  pose proof (proj2 Hin lev Q 0%nat ltac:(lia) Hp) as Hi.
  destruct (sweep_spec leaves pos leaf (length leaves) 32 lev Q (length leaves) (inner st1 !!! lev)
    (matchlevel st1 =? Z.of_nat lev) st1) as (st2 & -> & Hm2 & Hb2); try done; [lia|lia| | | | |].
  - destruct lev as [|lev]; [by left|right]. replace (S lev - 1)%nat with lev by lia. rewrite En, pow2_S. pose proof (pow2_ge1 lev). nia.
  - rewrite Hi. f_equal. f_equal. nia.
  - unfold sweep_ok. destruct (branch st1) as [br|] eqn:Eb; [|done].
    destruct Hbr as [(Hle & _)|[Hlt Hw]].
    { exfalso. cbn in Hnone. destruct pbranch; [|by pose proof (proj1 Hnone eq_refl); congruence]. destruct (Hb eq_refl) as [_ Hl].
      apply lookup_lt_Some in Hl. lia. }
    destruct (Z.eqb_spec (matchlevel st1) (Z.of_nat lev)) as [Em|Em].
    + destruct Hw as [[? _]|(k & q & r & _ & Ek & Hr & Hpos & Eml & Hl & E)]; [lia|]. assert (k = lev) as -> by lia.
      destruct (level_unique (pow2 lev) (2 * q + 1) r (2 * Q + 1) 0 Hr Hp ltac:(lia)) as [EQ _]. split_and!; [lia|done|done].
    + destruct Hw as [[? _]|(k & q & r & _ & Ek & Hr & Hpos & Eml & Hl & E)]; [lia|]. right. exists k, q, r. split_and!; try done.
      destruct (Nat.lt_trichotomy k lev) as [Hk|[->|Hk]]; [|lia|done]. exfalso.
      destruct (pow2_split k lev Hk) as [e He]. rewrite He in En.
      destruct (level_unique (pow2 k) (2 * q + 1) r ((2 * Q + 1) * (2 * e)) 0 Hr ltac:(pose proof (pow2_ge1 k); lia) ltac:(nia)). lia.
  - intros Hne'. cbn in Hnone. destruct pbranch; [|by destruct Hne'; apply Hnone]. destruct (Hb eq_refl) as [_ Hl]. by apply lookup_lt_Some in Hl.
  - cbn [mbind result_bind]. eexists. split.
    + do 3 f_equal. rewrite Hm2. apply eq_bool_prop_intro. rewrite !Is_true_true, Hmut, tree_mutated_spec by (by apply depth_length). done.
    + intros ->. destruct (branch st2); [done|]. apply Hnone in Hb2. done.
Qed.

(** ** Binding *)

Definition HashPair (p : Z * Z) : Z := Hash2 (fst p) (snd p).

(** No two of the hashed pairs collide, and no leaf is the hash of one. *)
Definition no_collision (pairs : list (Z * Z)) (l : list Z) : Prop :=
  (forall p q, p ∈ pairs -> q ∈ pairs -> HashPair p = HashPair q -> p = q) /\
  (forall x p, x ∈ l -> p ∈ pairs -> x <> HashPair p).

Lemma tree_hash_pair d l : exists p, p ∈ tree_pairs (S d) l /\ tree_hash (S d) l = HashPair p.
Proof.
  cbn [tree_pairs tree_hash]. destruct (length l <=? pow2 d)%nat; eexists; (split; [constructor|]); done.
Qed.

Lemma cons_subset {A} (x : A) l k : x :: l ⊆ k -> x ∈ k /\ l ⊆ k.
Proof. set_solver. Qed.
Lemma app_subset {A} (l1 l2 k : list A) : l1 ++ l2 ⊆ k -> l1 ⊆ k /\ l2 ⊆ k.
Proof. set_solver. Qed.
Lemma half_subset {A} n (l k : list A) : l ⊆ k -> take n l ⊆ k /\ drop n l ⊆ k.
Proof. intros Hl. apply app_subset. by rewrite take_drop. Qed.

Lemma tree_hash_inj pairs leaves d1 d2 l1 l2 : no_collision pairs leaves ->
  (1 <= length l1 <= pow2 d1)%nat -> (1 <= length l2 <= pow2 d2)%nat -> l1 ⊆ leaves -> l2 ⊆ leaves ->
  tree_pairs d1 l1 ⊆ pairs -> tree_pairs d2 l2 ⊆ pairs ->
  tree_mutated d1 l1 = false -> tree_mutated d2 l2 = false -> tree_hash d1 l1 = tree_hash d2 l2 -> l1 = l2.
Proof.
  intros [Hinj Hleaf]. revert d2 l1 l2. induction d1 as [|d1 IH]; intros d2 l1 l2 H1 H2 L1 L2 P1 P2 M1 M2 E.
  - change (pow2 0) with 1%nat in H1. destruct l1 as [|a [|? ?]]; cbn in H1; try lia. destruct d2 as [|d2].
    + change (pow2 0) with 1%nat in H2. destruct l2 as [|b [|? ?]]; cbn in H2; try lia. cbn in E. congruence.
    + destruct (tree_hash_pair d2 l2) as (p & Hp & Ep). rewrite Ep in E. exfalso.
      apply (Hleaf a p); [apply L1; constructor|by apply P2|done].
  - destruct d2 as [|d2].
    { change (pow2 0) with 1%nat in H2. destruct l2 as [|b [|? ?]]; cbn in H2; try lia.
      destruct (tree_hash_pair d1 l1) as (p & Hp & Ep). rewrite Ep in E. exfalso.
      apply (Hleaf b p); [apply L2; constructor|by apply P1|done]. }
    cbn [tree_pairs tree_mutated tree_hash] in *. pose proof (pow2_ge1 d1) as Hp1. pose proof (pow2_ge1 d2) as Hp2.
    rewrite pow2_S in H1, H2.
    destruct (Nat.leb_spec (length l1) (pow2 d1)) as [S1|S1], (Nat.leb_spec (length l2) (pow2 d2)) as [S2|S2];
      apply cons_subset in P1 as [N1 P1]; apply cons_subset in P2 as [N2 P2];
      pose proof (Hinj _ _ N1 N2 E) as Ep; injection Ep as Ex Ey.
    + apply (IH d2); (done || lia).
    + apply app_subset in P2 as [Pt Pd]. apply (half_subset (pow2 d2)) in L2 as [Lt Ld].
      apply orb_false_iff in M2 as [M2 Meq]. apply orb_false_iff in M2 as [Mt Md].
      assert (l1 = take (pow2 d2) l2) as E1 by (apply (IH d2); rewrite ?length_take; (done || lia)).
      assert (l1 = drop (pow2 d2) l2) as E2 by (apply (IH d2); rewrite ?length_drop; (done || lia)).
      exfalso. pose proof (f_equal length E1) as Hl1. pose proof (f_equal length E2) as Hl2.
      rewrite length_take in Hl1. rewrite length_drop in Hl2.
      rewrite <- E1, <- E2, Z.eqb_refl, andb_true_r, pow2_S in Meq. apply Nat.eqb_neq in Meq. lia.
    + apply app_subset in P1 as [Pt Pd]. apply (half_subset (pow2 d1)) in L1 as [Lt Ld].
      apply orb_false_iff in M1 as [M1 Meq]. apply orb_false_iff in M1 as [Mt Md].
      assert (take (pow2 d1) l1 = l2) as E1 by (apply (IH d2); rewrite ?length_take; (done || lia)).
      assert (drop (pow2 d1) l1 = l2) as E2 by (apply (IH d2); rewrite ?length_drop; (done || lia)).
      exfalso. pose proof (f_equal length E1) as Hl1. pose proof (f_equal length E2) as Hl2.
      rewrite length_take in Hl1. rewrite length_drop in Hl2.
      rewrite E1, E2, Z.eqb_refl, andb_true_r, pow2_S in Meq. apply Nat.eqb_neq in Meq. lia.
    + apply app_subset in P1 as [Pt1 Pd1]. apply (half_subset (pow2 d1)) in L1 as [Lt1 Ld1].
      apply app_subset in P2 as [Pt2 Pd2]. apply (half_subset (pow2 d2)) in L2 as [Lt2 Ld2].
      apply orb_false_iff in M1 as [M1 _]. apply orb_false_iff in M1 as [Mt1 Md1].
      apply orb_false_iff in M2 as [M2 _]. apply orb_false_iff in M2 as [Mt2 Md2].
      rewrite <- (take_drop (pow2 d1) l1), <- (take_drop (pow2 d2) l2). f_equal.
      * apply (IH d2); rewrite ?length_take; (done || lia).
      * apply (IH d2); rewrite ?length_drop; (done || lia).
Qed.

Lemma ComputeMerkleBranch_spec leaves (pos : nat) leaf : leaves !! pos = Some leaf -> Z.of_nat (length leaves) <= 2 ^ 31 ->
  exists br, ComputeMerkleBranch leaves (Z.of_nat pos) = Ok br /\ length br = depth leaves /\
    ComputeMerkleRootFromBranch leaf br (Z.of_nat pos) = merkle_root leaves.
Proof.
  intros Hl Hn. destruct (MerkleComputation_spec leaves pos leaf (Z.of_nat pos) true ltac:(by intros ->) Hn ltac:(done)) as (br & E & Hr).
  exists br. unfold ComputeMerkleBranch. rewrite E. by split; [|apply Hr].
Qed.
Lemma ComputeMerkleRoot_spec leaves : leaves <> [] -> Z.of_nat (length leaves) <= 2 ^ 31 ->
  exists muted, ComputeMerkleRoot leaves = Ok (merkle_root leaves, muted).
Proof.
  intros Hne Hn. unfold ComputeMerkleRoot.
  destruct (MerkleComputation_spec leaves 0 0 UINT32_MAX false Hne Hn ltac:(done)) as (br & -> & _). by eexists.
Qed.

(** ** Correctness *)

(** C32: the constant-space computation is the tree.  For up to [2 ^ 31]
    leaves it returns the root of the tree of least depth in which the last
    node of an odd level is doubled, and reports exactly whether two complete
    neighbouring subtrees have the same hash. *)
Theorem ComputeMerkleRoot_correct leaves : leaves <> [] -> Z.of_nat (length leaves) <= 2 ^ 31 ->
  exists muted, ComputeMerkleRoot leaves = Ok (merkle_root leaves, muted) /\
    (muted = true <-> exists k i, ((2 * i + 2) * pow2 k <= length leaves)%nat /\
      tree_hash k (seg leaves (2 * i * pow2 k) k) = tree_hash k (seg leaves ((2 * i + 1) * pow2 k) k)).
Proof.
  intros Hne Hn. destruct (MerkleComputation_spec leaves 0 0 UINT32_MAX false Hne Hn ltac:(done)) as (br & E & _).
  exists (tree_mutated (depth leaves) leaves). unfold ComputeMerkleRoot. rewrite E. split; [done|].
  by apply tree_mutated_spec, depth_length.
Qed.

(** a Merkle branch proves its leaf.  The branch computed for a position
    has one hash for each level of the tree and leads from the leaf at that
    position to the root of the block. *)
Theorem ComputeMerkleBranch_verifies leaves (pos : nat) leaf : leaves !! pos = Some leaf -> Z.of_nat (length leaves) <= 2 ^ 31 ->
  exists br, ComputeMerkleBranch leaves (Z.of_nat pos) = Ok br /\ length br = depth leaves /\
    ComputeMerkleRootFromBranch leaf br (Z.of_nat pos) = merkle_root leaves.
Proof. apply ComputeMerkleBranch_spec. Qed.

(** C21: the root binds the transactions (CVE-2012-2459).  Two lists with the
    same root for which the computation reports no mutation are equal, unless
    two of the pairs hashed for them collide or a leaf is itself the hash of
    such a pair. *)
Theorem merkle_root_binding l1 l2 root : l1 <> [] -> l2 <> [] ->
  Z.of_nat (length l1) <= 2 ^ 31 -> Z.of_nat (length l2) <= 2 ^ 31 ->
  no_collision (tree_pairs (depth l1) l1 ++ tree_pairs (depth l2) l2) (l1 ++ l2) ->
  ComputeMerkleRoot l1 = Ok (root, false) -> ComputeMerkleRoot l2 = Ok (root, false) -> l1 = l2.
Proof.
  intros N1 N2 L1 L2 Hc. unfold ComputeMerkleRoot.
  destruct (MerkleComputation_spec l1 0 0 UINT32_MAX false N1 L1 ltac:(done)) as (b1 & -> & _).
  destruct (MerkleComputation_spec l2 0 0 UINT32_MAX false N2 L2 ltac:(done)) as (b2 & -> & _).
  cbn. intros [= E1 M1] [= E2 M2].
  assert (forall l : list Z, l <> [] -> (1 <= length l)%nat) as Hlen by (intros [|? ?]; [done|cbn; lia]).
  apply (tree_hash_inj _ _ (depth l1) (depth l2) l1 l2 Hc); [ | |set_solver|set_solver|set_solver|set_solver|done|done|].
  1, 2: split; [by apply Hlen|by apply depth_length].
  unfold merkle_root in *. congruence.
Qed.

End Merkle.

Arguments tree_hash {_} _ _ : simpl nomatch.

(** ** Examples *)

Module MerkleExample.

#[export] Instance demo_sha : CryptoOps := {|
  Hash160 := fun _ => 0;
  Sha256 := fun v => (le_value v * 7919 + 13) mod (2 ^ 61 - 1);
  secp256k1_ec_pubkey_parse := fun _ => true
|}.

Lemma ComputeMerkleRoot_correct_witness : exists muted, ComputeMerkleRoot [1; 2; 3] = Ok (merkle_root [1; 2; 3], muted).
Proof.
  destruct (ComputeMerkleRoot_correct [1; 2; 3] ltac:(done) ltac:(cbn; lia)) as (muted & E & _). exists muted. exact E.
Defined.

Lemma ComputeMerkleBranch_verifies_witness : exists br, ComputeMerkleBranch [1; 2; 3] 2 = Ok br /\ length br = 2%nat /\
  ComputeMerkleRootFromBranch 3 br 2 = merkle_root [1; 2; 3].
Proof. exact (ComputeMerkleBranch_verifies [1; 2; 3] 2 3 eq_refl ltac:(cbn; lia)). Defined.

(** The doubled list has the root of the original, and is reported. *)
Example doubled_list_reported :
  merkle_root [1; 2; 3; 3] = merkle_root [1; 2; 3] /\ ComputeMerkleRoot [1; 2; 3; 3] = Ok (merkle_root [1; 2; 3], true).
Proof. by vm_compute. Qed.

Lemma merkle_root_binding_witness : [1; 2] = map Z.succ [0; 1].
Proof.
  apply (merkle_root_binding [1; 2] (map Z.succ [0; 1]) (merkle_root [1; 2])).
  - discriminate.
  - discriminate.
  - cbn. lia.
  - cbn. lia.
  - change (no_collision [(1, 2); (1, 2)] [1; 2; 1; 2]). split.
    + intros p q Hp Hq _. rewrite list_elem_of_In in Hp, Hq. cbn in Hp, Hq.
      destruct Hp as [<-|[<-|[]]], Hq as [<-|[<-|[]]]; reflexivity.
    + assert (HashPair (1, 2) = 513787729233) as Hh by (vm_compute; reflexivity).
      intros x p Hx Hp. rewrite list_elem_of_In in Hx. rewrite list_elem_of_In in Hp. cbn in Hx, Hp.
      assert (p = (1, 2)) as -> by (destruct Hp as [<-|[<-|[]]]; reflexivity). rewrite Hh.
      destruct Hx as [<-|[<-|[<-|[<-|[]]]]]; discriminate.
  - vm_compute. reflexivity.
  - vm_compute. reflexivity.
Defined.

End MerkleExample.
