(* ===== verification/Header.v ===== *)
(** * Block headers ([src/src/primitives/pureheader.h], [pureheader.cpp])

    A header and its 80-byte format, the reading of the version field (base
    version, merge-mining flag, chain id), and its two hashes.  The hash
    functions are parameters. *)

From S2P Require Import Prelude Serialize Script Base58.
Open Scope Z_scope.
Open Scope kubu_scope.
Open Scope reader_scope.

(** [scrypt_1024_1_1_256] on the 80 bytes of a header. *)
Class PowOps := { scrypt_1024_1_1_256 : bytes -> Z }.

Definition VERSION_AUXPOW : Z := Z.shiftl 1 8.
Definition VERSION_CHAIN_START : Z := Z.shiftl 1 16.

Record CPureBlockHeader := mkHeader {
  hdr_nVersion : Z;
  hashPrevBlock : Z;
  hdr_hashMerkleRoot : Z;
  hdr_nTime : Z;
  hdr_nBits : Z;
  hdr_nNonce : Z
}.
#[export] Instance CPureBlockHeader_eq_dec : EqDecision CPureBlockHeader.
Proof. solve_decision. Defined.

Definition header_null : CPureBlockHeader := mkHeader 0 0 0 0 0 0.
Definition header_IsNull (h : CPureBlockHeader) : bool := hdr_nBits h =? 0.

#[export] Instance Serializable_CPureBlockHeader : Serializable CPureBlockHeader := {
  Serialize h := Serialize_int32 (hdr_nVersion h) ++ Serialize_blob 32 (hashPrevBlock h)
    ++ Serialize_blob 32 (hdr_hashMerkleRoot h) ++ Serialize_uint32 (hdr_nTime h)
    ++ Serialize_uint32 (hdr_nBits h) ++ Serialize_uint32 (hdr_nNonce h);
  Unserialize := v <-- Unserialize_int32 ;; p <-- Unserialize_blob 32 ;; m <-- Unserialize_blob 32 ;;
    t <-- Unserialize_uint32 ;; b <-- Unserialize_uint32 ;; n <-- Unserialize_uint32 ;;
    rret (mkHeader v p m t b n)
}.

Definition header_GetHash `{CryptoOps} (h : CPureBlockHeader) : Z := Hash (Serialize h).
Definition GetPoWHash `{PowOps} (h : CPureBlockHeader) : Z := scrypt_1024_1_1_256 (Serialize h).
Definition header_GetBlockTime (h : CPureBlockHeader) : Z := hdr_nTime h.

(** ** The version field *)

Definition GetBaseVersion (ver : Z) : Z := Z.rem ver VERSION_AUXPOW.
Definition GetChainId (ver : Z) : Z := Z.shiftr ver 16.
Definition IsAuxpow (ver : Z) : bool := negb (Z.land ver VERSION_AUXPOW =? 0).
Definition SetChainId (ver chainId : Z) : Z :=
  Z.lor (Z.rem ver VERSION_CHAIN_START) (i32 (chainId * VERSION_CHAIN_START)).
Definition SetAuxpowFlag (ver : Z) (auxpow : bool) : Z :=
  if auxpow then Z.lor ver VERSION_AUXPOW else Z.land ver (Z.lnot VERSION_AUXPOW).
Definition IsLegacy (ver : Z) : bool := (ver =? 1) || (ver =? 2) && (GetChainId ver =? 0).

Definition SetBaseVersion (ver nBaseVersion nChainId : Z) : result Z :=
  reject (negb ((1 <=? nBaseVersion) && (nBaseVersion <? VERSION_AUXPOW)))
    with "assertion nBaseVersion >= 1 && nBaseVersion < VERSION_AUXPOW failed" ;
  reject (IsAuxpow ver) with "assertion !IsAuxpow() failed" ;
  Ok (Z.lor nBaseVersion (i32 (nChainId * VERSION_CHAIN_START))).

(** ** Lemmas *)

Definition header_wf (h : CPureBlockHeader) : Prop :=
  in_i32 (hdr_nVersion h) /\ 0 <= hashPrevBlock h < 256 ^ 32 /\ 0 <= hdr_hashMerkleRoot h < 256 ^ 32 /\
  in_u32 (hdr_nTime h) /\ in_u32 (hdr_nBits h) /\ in_u32 (hdr_nNonce h).

Lemma Unserialize_uint32_app z rest : in_u32 z -> Unserialize_uint32 (Serialize_uint32 z ++ rest) = (Ok z, rest).
Proof. intros Hz. by apply (ser_readdata_app 4). Qed.

#[export] Instance SerializeOk_CPureBlockHeader : SerializeOk CPureBlockHeader header_wf.
Proof.
  intros [v p m t b n] rest (Hv & Hp & Hm & Ht & Hb & Hn).
  cbn [hdr_nVersion hashPrevBlock hdr_hashMerkleRoot hdr_nTime hdr_nBits hdr_nNonce Serialize Unserialize
    Serializable_CPureBlockHeader] in *.
  rewrite <- !app_assoc.
  erewrite rbind_Ok by by apply Unserialize_int32_app. erewrite rbind_Ok by by apply Unserialize_blob_app.
  erewrite rbind_Ok by by apply Unserialize_blob_app. erewrite rbind_Ok by by apply Unserialize_uint32_app.
  erewrite rbind_Ok by by apply Unserialize_uint32_app. by erewrite rbind_Ok by by apply Unserialize_uint32_app.
Qed.
