(* ===== verification/BlockIndex.v ===== *)
(** * The block index and the active chain
      ([src/src/chain.h], [chain.cpp], [AddToBlockIndex] and
      [FindForkInGlobalIndex] of [validation.cpp], [LastCommonAncestor] of
      [net_processing.cpp])

    Index entries live in [mapBlockIndex], one object per block hash and never
    moved, so a [CBlockIndex*] is the hash of its entry and [NULL] is [None].
    A dereference that would leave the map, and a failing [assert], is [Err].
    The fields that locate a block on disk are left out. *)

From stdpp Require Import sorting.
From S2P Require Import Prelude Serialize Script Base58 Arith Header.
Open Scope Z_scope.
Open Scope kubu_scope.

(** ** Index entries *)

Record CBlockIndex := mkIndex {
  pprev : option Z;
  pskip : option Z;
  nHeight : Z;
  nChainWork : limbs;
  nStatus : Z;
  nVersion : Z;
  hashMerkleRoot : Z;
  nTime : Z;
  nBits : Z;
  nNonce : Z;
  nTimeMax : Z
}.

(** [CBlockIndex(const CBlockHeader&)], after [SetNull]. *)
Definition index_of_header (block : CPureBlockHeader) : CBlockIndex :=
  mkIndex None None 0 base_uint_zero 0 (hdr_nVersion block) (hdr_hashMerkleRoot block)
    (hdr_nTime block) (hdr_nBits block) (hdr_nNonce block) 0.

Notation BlockMap := (gmap Z CBlockIndex).

Definition deref (m : BlockMap) (p : Z) : result CBlockIndex :=
  match m !! p with Some b => Ok b | None => Err "dangling pointer" end.

Definition BLOCK_VALID_TREE : Z := 2.
Definition BLOCK_VALID_MASK : Z := 7.
Definition BLOCK_FAILED_MASK : Z := 96.

Definition index_IsValid (b : CBlockIndex) (nUpTo : Z) : bool :=
  if negb (Z.land (nStatus b) BLOCK_FAILED_MASK =? 0) then false
  else nUpTo <=? Z.land (nStatus b) BLOCK_VALID_MASK.

(** The new status and whether it changed. *)
Definition RaiseValidity (status nUpTo : Z) : Z * bool :=
  if negb (Z.land status BLOCK_FAILED_MASK =? 0) then (status, false)
  else if Z.land status BLOCK_VALID_MASK <? nUpTo
       then (Z.lor (Z.land status (u32 (Z.lnot BLOCK_VALID_MASK))) nUpTo, true)
       else (status, false).

(** ** The skip list *)

Definition InvertLowestOne (n : Z) : Z := Z.land n (n - 1).
Definition GetSkipHeight (height : Z) : Z :=
  if height <? 2 then 0
  else if negb (Z.land height 1 =? 0) then InvertLowestOne (InvertLowestOne (height - 1)) + 1
  else InvertLowestOne height.

(** Each turn of the loop lowers [heightWalk]; [fuel] bounds their number. *)
Fixpoint GetAncestor_loop (fuel : nat) (m : BlockMap) (pindexWalk heightWalk height : Z) : result Z :=
  if heightWalk <=? height then Ok pindexWalk
  else
    match fuel with
    | O => Err "out of fuel"
    | S fuel' =>
        b ← deref m pindexWalk;
        let heightSkip := GetSkipHeight heightWalk in
        let heightSkipPrev := GetSkipHeight (heightWalk - 1) in
        let follow := (heightSkip =? height)
          || (height <? heightSkip) && negb ((heightSkipPrev <? heightSkip - 2) && (height <=? heightSkipPrev)) in
        match pskip b with
        | Some s =>
            if follow then GetAncestor_loop fuel' m s heightSkip height
            else match pprev b with
                 | Some q => GetAncestor_loop fuel' m q (heightWalk - 1) height
                 | None => Err "assertion pindexWalk->pprev failed"
                 end
        | None =>
            match pprev b with
            | Some q => GetAncestor_loop fuel' m q (heightWalk - 1) height
            | None => Err "assertion pindexWalk->pprev failed"
            end
        end
    end.

Definition GetAncestor (m : BlockMap) (p height : Z) : result (option Z) :=
  b ← deref m p;
  if (nHeight b <? height) || (height <? 0) then Ok None
  else q ← GetAncestor_loop (Z.to_nat (nHeight b - height)) m p (nHeight b) height; Ok (Some q).

Definition with_skip (b : CBlockIndex) (s : option Z) : CBlockIndex :=
  mkIndex (pprev b) s (nHeight b) (nChainWork b) (nStatus b) (nVersion b) (hashMerkleRoot b)
    (nTime b) (nBits b) (nNonce b) (nTimeMax b).
Definition BuildSkip (m : BlockMap) (b : CBlockIndex) : result CBlockIndex :=
  match pprev b with
  | Some q => s ← GetAncestor m q (GetSkipHeight (nHeight b)); Ok (with_skip b s)
  | None => Ok b
  end.

(** ** Work *)

Definition GetBlockProof (bits : Z) : result limbs :=
  let '(bnTarget, fNegative, fOverflow) := SetCompact bits in
  if fNegative || fOverflow || EqualTo bnTarget 0 then Ok (base_uint_of 0)
  else q ← op_div (op_complement bnTarget) (op_add bnTarget (base_uint_of 1));
       Ok (op_add q (base_uint_of 1)).

(** ** Adding a header *)

Record BlockTree := mkTree {
  mapBlockIndex : BlockMap;
  pindexBestHeader : option Z;
  setDirtyBlockIndex : gset Z
}.

Definition link_prev (m : BlockMap) (b : CBlockIndex) (prev : Z) : result CBlockIndex :=
  match m !! prev with
  | Some bprev =>
      BuildSkip m (mkIndex (Some prev) (pskip b) (nHeight bprev + 1) (nChainWork b) (nStatus b) (nVersion b)
        (hashMerkleRoot b) (nTime b) (nBits b) (nNonce b) (nTimeMax b))
  | None => Ok b
  end.

Definition AddToBlockIndex `{CryptoOps} (s : BlockTree) (block : CPureBlockHeader) : result (BlockTree * Z) :=
  let hash := header_GetHash block in
  match mapBlockIndex s !! hash with
  | Some _ => Ok (s, hash)
  | None =>
      let m := <[hash := index_of_header block]> (mapBlockIndex s) in
      b ← link_prev m (index_of_header block) (hashPrevBlock block);
      proof ← GetBlockProof (nBits b);
      prev ← match pprev b with Some q => bq ← deref m q; Ok (Some bq) | None => Ok None end;
      let timeMax := match prev with Some bq => Z.max (nTimeMax bq) (nTime b) | None => nTime b end in
      let work := op_add (match prev with Some bq => nChainWork bq | None => base_uint_of 0 end) proof in
      let b := mkIndex (pprev b) (pskip b) (nHeight b) work (fst (RaiseValidity (nStatus b) BLOCK_VALID_TREE))
                 (nVersion b) (hashMerkleRoot b) (nTime b) (nBits b) (nNonce b) timeMax in
      let m := <[hash := b]> m in
      better ← match pindexBestHeader s with
               | None => Ok true
               | Some best => bbest ← deref m best; Ok (CompareTo (nChainWork bbest) work <? 0)
               end;
      Ok (mkTree m (if (better : bool) then Some hash else pindexBestHeader s)
            ({[hash]} ∪ setDirtyBlockIndex s), hash)
  end.

(** ** Median time *)

Definition nMedianTimeSpan : nat := 11.
Fixpoint past_times (n : nat) (m : BlockMap) (pindex : option Z) : result (list Z) :=
  match n, pindex with
  | S n', Some p => b ← deref m p; ts ← past_times n' m (pprev b); Ok (nTime b :: ts)
  | _, _ => Ok []
  end.
Definition GetMedianTimePast (m : BlockMap) (p : Z) : result Z :=
  ts ← past_times nMedianTimeSpan m (Some p);
  match merge_sort Z.le ts !! (length ts / 2)%nat with
  | Some t => Ok t
  | None => Err "index out of range"
  end.

(** ** The active chain *)

Notation CChain := (list (option Z)).

Definition Genesis (vChain : CChain) : option Z := mjoin (head vChain).
Definition Tip (vChain : CChain) : option Z := mjoin (last vChain).
Definition Height (vChain : CChain) : Z := Z.of_nat (length vChain) - 1.
Definition chain_at (vChain : CChain) (h : Z) : option Z :=
  if (h <? 0) || (Z.of_nat (length vChain) <=? h) then None else mjoin (vChain !! Z.to_nat h).
Definition Contains (m : BlockMap) (vChain : CChain) (p : Z) : result bool :=
  b ← deref m p; Ok (bool_decide (chain_at vChain (nHeight b) = Some p)).
Definition Next (m : BlockMap) (vChain : CChain) (p : Z) : result (option Z) :=
  c ← Contains m vChain p;
  b ← deref m p;
  Ok (if (c : bool) then chain_at vChain (nHeight b + 1) else None).

Fixpoint SetTip_loop (fuel : nat) (m : BlockMap) (vChain : CChain) (pindex : option Z) : result CChain :=
  match pindex with
  | None => Ok vChain
  | Some p =>
      b ← deref m p;
      match vChain !! Z.to_nat (nHeight b) with
      | None => Err "index out of range"
      | Some x =>
          if bool_decide (x = Some p) then Ok vChain
          else match fuel with
               | O => Err "out of fuel"
               | S fuel' => SetTip_loop fuel' m (<[Z.to_nat (nHeight b) := Some p]> vChain) (pprev b)
               end
      end
  end.
Definition SetTip (m : BlockMap) (vChain : CChain) (pindex : option Z) : result CChain :=
  match pindex with
  | None => Ok []
  | Some p =>
      b ← deref m p;
      let n := Z.to_nat (nHeight b + 1) in
      SetTip_loop n m (resize n None vChain) (Some p)
  end.

Fixpoint walk_to_chain (fuel : nat) (m : BlockMap) (vChain : CChain) (pindex : option Z) : result (option Z) :=
  match pindex with
  | None => Ok None
  | Some p =>
      c ← Contains m vChain p;
      if (c : bool) then Ok (Some p)
      else match fuel with
           | O => Err "out of fuel"
           | S fuel' => b ← deref m p; walk_to_chain fuel' m vChain (pprev b)
           end
  end.
Definition FindFork (m : BlockMap) (vChain : CChain) (pindex : option Z) : result (option Z) :=
  match pindex with
  | None => Ok None
  | Some p =>
      b ← deref m p;
      start ← (if Height vChain <? nHeight b then GetAncestor m p (Height vChain) else Ok (Some p));
      walk_to_chain (Z.to_nat (nHeight b + 1)) m vChain start
  end.

(** [vHave.size()] is the length of [vHave], the newest last. *)
Fixpoint GetLocator_loop (fuel : nat) (m : BlockMap) (vChain : CChain) (pindex : option Z) (nStep : Z)
    (vHave : list Z) : result (list Z) :=
  match pindex with
  | None => Ok vHave
  | Some p =>
      b ← deref m p;
      let vHave := vHave ++ [p] in
      if nHeight b =? 0 then Ok vHave
      else
        let h := Z.max (nHeight b - nStep) 0 in
        c ← Contains m vChain p;
        next ← (if (c : bool) then Ok (chain_at vChain h) else GetAncestor m p h);
        match fuel with
        | O => Err "out of fuel"
        | S fuel' => GetLocator_loop fuel' m vChain next (if (10 <? length vHave)%nat then nStep * 2 else nStep) vHave
        end
  end.
Definition GetLocator (m : BlockMap) (vChain : CChain) (pindex : option Z) : result (list Z) :=
  let pindex := match pindex with Some p => Some p | None => Tip vChain end in
  match pindex with
  | None => Ok []
  | Some p => b ← deref m p; GetLocator_loop (Z.to_nat (nHeight b)) m vChain (Some p) 1 []
  end.

Fixpoint FindForkInGlobalIndex (m : BlockMap) (vChain : CChain) (vHave : list Z) : result (option Z) :=
  match vHave with
  | [] => Ok (Genesis vChain)
  | hash :: rest =>
      match m !! hash with
      | None => FindForkInGlobalIndex m vChain rest
      | Some _ =>
          c ← Contains m vChain hash;
          if (c : bool) then Ok (Some hash)
          else a ← GetAncestor m hash (Height vChain);
               if bool_decide (a = Tip vChain) then Ok (Tip vChain)
               else FindForkInGlobalIndex m vChain rest
      end
  end.

(** [while (pa != pb && pa && pb)] *)
Fixpoint common_loop (fuel : nat) (m : BlockMap) (pa pb : option Z) : result (option Z * option Z) :=
  match pa, pb with
  | Some a, Some b =>
      if a =? b then Ok (pa, pb)
      else match fuel with
           | O => Err "out of fuel"
           | S fuel' => ba ← deref m a; bb ← deref m b; common_loop fuel' m (pprev ba) (pprev bb)
           end
  | _, _ => Ok (pa, pb)
  end.
Definition LastCommonAncestor (m : BlockMap) (pa pb : Z) : result (option Z) :=
  ba ← deref m pa;
  bb ← deref m pb;
  a ← (if nHeight bb <? nHeight ba then GetAncestor m pa (nHeight bb) else Ok (Some pa));
  b ← (if nHeight ba <? nHeight bb then GetAncestor m pb (nHeight ba) else Ok (Some pb));
  ends ← common_loop (Z.to_nat (Z.min (nHeight ba) (nHeight bb) + 1)) m a b;
  reject (negb (bool_decide (fst ends = snd ends))) with "assertion pa == pb failed" ;
  Ok (fst ends).

(** ** Walking back along [pprev] *)

Fixpoint walk (m : BlockMap) (n : nat) (p : Z) : option Z :=
  match n with
  | O => Some p
  | S n' => m !! p ≫= fun b => pprev b ≫= walk m n'
  end.

(** The work a header adds: [2 ^ 256 / (target + 1)]. *)
Definition block_work (bits : Z) : Z :=
  let t := compact_value bits in
  if (M256 <=? t) || (t =? 0) || Z.testbit bits 23 then 0 else M256 / (t + 1).

(** An entry of the map: its height, times and work follow from its
    predecessor's, and its skip pointer is the ancestor at the skip height. *)
Definition linked (m : BlockMap) (b : CBlockIndex) : Prop :=
  match pprev b with
  | None => nHeight b = 0 /\ pskip b = None /\ nTimeMax b = nTime b /\
      val (nChainWork b) = block_work (nBits b)
  | Some q => exists bq s, m !! q = Some bq /\ nHeight b = nHeight bq + 1 /\
      pskip b = Some s /\ walk m (Z.to_nat (nHeight bq - GetSkipHeight (nHeight b))) q = Some s /\
      nTimeMax b = Z.max (nTimeMax bq) (nTime b) /\
      val (nChainWork b) = (val (nChainWork bq) + block_work (nBits b)) mod M256
  end.
Definition tree_ok (m : BlockMap) : Prop :=
  forall p b, m !! p = Some b -> 0 <= nHeight b /\ wf (nChainWork b) /\ linked m b.
Definition best_ok (s : BlockTree) : Prop :=
  forall p b, mapBlockIndex s !! p = Some b -> exists best bbest,
    pindexBestHeader s = Some best /\ mapBlockIndex s !! best = Some bbest /\
    val (nChainWork b) <= val (nChainWork bbest).

Lemma deref_ok m p b : m !! p = Some b -> deref m p = Ok b.
Proof. unfold deref. by intros ->. Qed.

Lemma land_le a b : 0 <= b -> Z.land a b <= b.
Proof.
  intros Hb. assert (b - Z.land a b = Z.ldiff b (Z.land a b)) as E.
  { apply Z.sub_nocarry_ldiff, Z.bits_inj'. intros i Hi. rewrite Z.ldiff_spec, Z.land_spec, Z.bits_0.
    by destruct (Z.testbit a i), (Z.testbit b i). }
  assert (0 <= Z.ldiff b (Z.land a b)) by (apply Z.ldiff_nonneg; by left). lia.
Qed.

Lemma InvertLowestOne_range n : 1 <= n -> 0 <= InvertLowestOne n < n.
Proof.
  intros Hn. unfold InvertLowestOne. split; [apply Z.land_nonneg; lia|].
  pose proof (land_le n (n - 1) ltac:(lia)). lia.
Qed.

Lemma GetSkipHeight_range h : 1 <= h -> 0 <= GetSkipHeight h < h.
Proof.
  intros Hh. unfold GetSkipHeight. destruct (Z.ltb_spec h 2); [lia|].
  destruct (negb _) eqn:E; [|apply InvertLowestOne_range; lia].
  pose proof (InvertLowestOne_range (h - 1) ltac:(lia)) as H1. set (x := InvertLowestOne (h - 1)) in *.
  destruct (Z.eq_dec x 0) as [->|]; [|pose proof (InvertLowestOne_range x ltac:(lia)); lia].
  change (InvertLowestOne 0) with 0. lia.
Qed.

Section Walk.
Context (m : BlockMap).

Lemma walk_add n1 n2 p : walk m (n1 + n2) p = walk m n1 p ≫= walk m n2.
Proof.
  revert p. induction n1 as [|n1 IH]; intros p; [done|]. cbn [walk Nat.add].
  destruct (m !! p) as [b|]; [|done]. cbn. destruct (pprev b) as [q|]; [|done]. cbn. apply IH.
Qed.

Lemma walk_mono m' n p q : m ⊆ m' -> walk m n p = Some q -> walk m' n p = Some q.
Proof.
  intros Hm. revert p. induction n as [|n IH]; intros p; [done|]. cbn [walk].
  destruct (m !! p) as [b|] eqn:E; [|done]. rewrite (lookup_weaken _ _ _ _ E Hm). cbn.
  destruct (pprev b) as [r|]; [|done]. cbn. apply IH.
Qed.

Hypothesis Hm : tree_ok m.

Lemma prev_of p b : m !! p = Some b -> 0 < nHeight b ->
  exists q bq, pprev b = Some q /\ m !! q = Some bq /\ nHeight bq = nHeight b - 1.
Proof.
  intros Hp Hh. destruct (Hm p b Hp) as (_ & _ & L). unfold linked in L. destruct (pprev b) as [q|]; [|lia].
  destruct L as (bq & s & Hq & E & _). exists q, bq. split_and!; [done|done|lia].
Qed.
Lemma genesis_of p b : m !! p = Some b -> nHeight b = 0 -> pprev b = None.
Proof.
  intros Hp Hh. destruct (Hm p b Hp) as (_ & _ & L). unfold linked in L. destruct (pprev b) as [q|]; [|done].
  destruct L as (bq & s & Hq & E & _). destruct (Hm q bq Hq) as [? _]. lia.
Qed.

Lemma walk_height n p b : m !! p = Some b -> Z.of_nat n <= nHeight b ->
  exists q bq, walk m n p = Some q /\ m !! q = Some bq /\ nHeight bq = nHeight b - Z.of_nat n.
Proof.
  revert p b. induction n as [|n IH]; intros p b Hp Hn; [exists p, b; split_and!; [done|done|lia]|].
  destruct (prev_of p b Hp ltac:(lia)) as (q & bq & E & Hq & Hh).
  destruct (IH q bq Hq ltac:(lia)) as (r & br & W & Hr & Hhr).
  exists r, br. cbn [walk]. rewrite Hp. cbn. rewrite E. cbn. split_and!; [done|done|lia].
Qed.
Lemma walk_lookup n p q : walk m n p = Some q -> is_Some (m !! p) ->
  exists b bq, m !! p = Some b /\ m !! q = Some bq /\ nHeight bq = nHeight b - Z.of_nat n.
Proof.
  revert p. induction n as [|n IH]; intros p W [b Hp].
  { injection W as <-. exists b, b. split_and!; [done|done|lia]. }
  cbn [walk] in W. rewrite Hp in W. cbn in W. destruct (pprev b) as [r|] eqn:E; [|done]. cbn in W.
  destruct (Hm p b Hp) as (_ & _ & L). unfold linked in L. rewrite E in L. destruct L as (br & s & Hr & Hh & _).
  destruct (IH r W ltac:(by eexists)) as (br' & bq & Hr' & Hq & Hhq). rewrite Hr in Hr'. injection Hr' as <-.
  exists b, bq. split_and!; [done|done|lia].
Qed.

(** The ancestor of [p] at height [h]. *)
Definition ancestor (p h q : Z) : Prop :=
  exists b, m !! p = Some b /\ 0 <= h <= nHeight b /\ walk m (Z.to_nat (nHeight b - h)) p = Some q.

Lemma ancestor_exists p b h : m !! p = Some b -> 0 <= h <= nHeight b ->
  exists q bq, ancestor p h q /\ m !! q = Some bq /\ nHeight bq = h.
Proof.
  intros Hp Hh. destruct (walk_height (Z.to_nat (nHeight b - h)) p b Hp ltac:(lia)) as (q & bq & W & Hq & E).
  exists q, bq. split_and!; [by exists b|done|lia].
Qed.
Lemma ancestor_unique p h q q' : ancestor p h q -> ancestor p h q' -> q = q'.
Proof. intros (b & Hp & _ & W) (b' & Hp' & _ & W'). naive_solver. Qed.
Lemma ancestor_height p h q : ancestor p h q -> exists bq, m !! q = Some bq /\ nHeight bq = h.
Proof.
  intros (b & Hp & Hh & W). destruct (walk_lookup _ _ _ W ltac:(by eexists)) as (b' & bq & Hp' & Hq & E).
  exists bq. split; [done|]. rewrite Hp in Hp'. injection Hp' as <-. lia.
Qed.
Lemma ancestor_refl p b : m !! p = Some b -> ancestor p (nHeight b) p.
Proof.
  intros Hp. destruct (Hm p b Hp) as [? _]. exists b. split_and!; [done|lia|lia|]. by rewrite Z.sub_diag.
Qed.
Lemma ancestor_trans p h q h' r : ancestor p h q -> ancestor q h' r -> ancestor p h' r.
Proof.
  intros Hpq. destruct (ancestor_height _ _ _ Hpq) as (bq & Hq & Eq). destruct Hpq as (b & Hp & Hh & W).
  intros (bq' & Hq' & Hh' & W'). rewrite Hq in Hq'. injection Hq' as <-. exists b. split_and!; [done|lia|lia|].
  replace (Z.to_nat (nHeight b - h')) with (Z.to_nat (nHeight b - h) + Z.to_nat (nHeight bq - h'))%nat by lia.
  rewrite walk_add, W. exact W'.
Qed.
Lemma ancestor_prev p b q h r : m !! p = Some b -> pprev b = Some q -> ancestor q h r -> ancestor p h r.
Proof.
  intros Hp E Hq. destruct (Hm p b Hp) as (H0 & _ & L). unfold linked in L. rewrite E in L.
  destruct L as (bq & s & Hbq & Eh & _). destruct (Hm q bq Hbq) as [? _].
  apply (ancestor_trans p (nHeight bq) q); [|done]. exists b. split_and!; [done|lia|lia|].
  replace (Z.to_nat (nHeight b - nHeight bq)) with 1%nat by lia. cbn [walk]. rewrite Hp. cbn. by rewrite E.
Qed.
Lemma prev_ancestor p h q b : ancestor p h q -> m !! q = Some b -> 0 < h ->
  exists r, pprev b = Some r /\ ancestor p (h - 1) r.
Proof.
  intros Ha Hq Hh. destruct (ancestor_height _ _ _ Ha) as (b' & Hq' & E). rewrite Hq in Hq'. injection Hq' as <-.
  destruct (prev_of q b Hq ltac:(lia)) as (r & br & Er & Hr & Ehr). exists r. split; [done|].
  apply (ancestor_trans p h q); [done|]. apply (ancestor_prev q b r); [done|done|].
  replace (h - 1) with (nHeight br) by lia. by apply ancestor_refl.
Qed.
Lemma ancestor_skip p b s : m !! p = Some b -> pskip b = Some s -> ancestor p (GetSkipHeight (nHeight b)) s.
Proof.
  intros Hp Es. destruct (Hm p b Hp) as (H0 & _ & L). unfold linked in L.
  destruct (pprev b) as [q|] eqn:E; [|naive_solver]. destruct L as (bq & s' & Hq & Eh & Es' & W & _).
  rewrite Es in Es'. injection Es' as <-. destruct (Hm q bq Hq) as [? _].
  pose proof (GetSkipHeight_range (nHeight b) ltac:(lia)).
  eapply ancestor_prev; [done|done|]. exists bq. split_and!; [done|lia|lia|done].
Qed.

Lemma GetAncestor_loop_spec fuel p b h : m !! p = Some b -> 0 <= h <= nHeight b ->
  (Z.to_nat (nHeight b - h) <= fuel)%nat ->
  exists q, GetAncestor_loop fuel m p (nHeight b) h = Ok q /\ ancestor p h q.
Proof.
  revert p b. induction fuel as [|fuel IH]; intros p b Hp Hh Hf; cbn [GetAncestor_loop];
    (destruct (Z.leb_spec (nHeight b) h) as [Hle|Hlt];
      [exists p; split; [done|]; replace h with (nHeight b) by lia; by apply ancestor_refl|]); [lia|].
  rewrite (deref_ok _ _ _ Hp). cbn [mbind result_bind]. set (follow := (_ || _)%bool).
  assert (exists q, match pprev b with
    | Some q => GetAncestor_loop fuel m q (nHeight b - 1) h
    | None => Err "assertion pindexWalk->pprev failed" end = Ok q /\ ancestor p h q) as Hprev.
  { destruct (prev_of p b Hp ltac:(lia)) as (q & bq & E & Hq & Ehq). rewrite E, <- Ehq.
    destruct (IH q bq Hq ltac:(lia) ltac:(lia)) as (r & Hr & Ha). exists r. split; [done|]. by eapply ancestor_prev. }
  destruct (pskip b) as [s|] eqn:Es; [|exact Hprev]. destruct follow eqn:Ef; [|exact Hprev].
  pose proof (ancestor_skip p b s Hp Es) as Hs. destruct (ancestor_height _ _ _ Hs) as (bs & Hbs & Ehs).
  pose proof (GetSkipHeight_range (nHeight b) ltac:(lia)) as Hr. rewrite <- Ehs in *.
  assert (h <= nHeight bs) as Hle by (unfold follow in Ef; zbool; lia).
  destruct (IH s bs Hbs ltac:(lia) ltac:(lia)) as (q & Hq & Ha). exists q. split; [done|]. by eapply ancestor_trans.
Qed.

Lemma GetAncestor_spec p b h : m !! p = Some b ->
  exists r, GetAncestor m p h = Ok r /\
    (if (0 <=? h) && (h <=? nHeight b) then exists q, r = Some q /\ ancestor p h q else r = None).
Proof.
  intros Hp. unfold GetAncestor. rewrite (deref_ok _ _ _ Hp). cbn [mbind result_bind].
  destruct (Z.leb_spec 0 h); destruct (Z.leb_spec h (nHeight b)); cbn [andb].
  - rewrite (proj2 (Z.ltb_ge (nHeight b) h)), (proj2 (Z.ltb_ge h 0)) by lia. cbn [orb].
    destruct (GetAncestor_loop_spec (Z.to_nat (nHeight b - h)) p b h Hp ltac:(lia) ltac:(lia)) as (q & -> & Ha).
    exists (Some q). split; [done|]. by exists q.
  - exists None. rewrite (proj2 (Z.ltb_lt (nHeight b) h)) by lia. done.
  - exists None. rewrite (proj2 (Z.ltb_lt h 0)), orb_true_r by lia. done.
  - exists None. rewrite (proj2 (Z.ltb_lt h 0)), orb_true_r by lia. done.
Qed.

Lemma GetAncestor_in p b h : m !! p = Some b -> 0 <= h <= nHeight b ->
  exists q, GetAncestor m p h = Ok (Some q) /\ ancestor p h q.
Proof.
  intros Hp Hh. destruct (GetAncestor_spec p b h Hp) as (r & Hr & E).
  rewrite (proj2 (Z.leb_le 0 h)), (proj2 (Z.leb_le h (nHeight b))) in E by lia.
  destruct E as (q & -> & Ha). by exists q.
Qed.

End Walk.

(** ** Work *)

Lemma compact_value_not_max c : in_u32 c -> compact_value c <> M256 - 1.
Proof.
  intros Hc E. pose proof (compact_value_bound c Hc) as [_ Hb]. unfold compact_value in E.
  pose proof (Z.mod_pos_bound c (2 ^ 23) ltac:(lia)) as Hw. assert (0 <= c / 2 ^ 24) by (unfold in_u32 in Hc; apply Z.div_pos; lia).
  set (e := c / 2 ^ 24) in *. destruct (Z.leb_spec e 3).
  - pose proof (pow2_pos (8 * (3 - e)) ltac:(lia)). pose proof (Z.div_le_upper_bound (c mod 2 ^ 23) (2 ^ (8 * (3 - e))) (2 ^ 23) ltac:(lia) ltac:(nia)).
    lia.
  - replace (8 * (e - 3)) with (8 * (e - 4) + 8) in E by lia. rewrite Z.pow_add_r, Z.mul_assoc in E by lia.
    apply (f_equal (fun z => z mod 2 ^ 8)) in E. rewrite Z.mod_mul in E by lia. vm_compute in E. discriminate.
Qed.

Lemma GetBlockProof_spec c : in_u32 c -> exists w, GetBlockProof c = Ok w /\ wf w /\ val w = block_work c.
Proof.
  intros Hc. unfold GetBlockProof, block_work. destruct (SetCompact_spec c Hc) as (t & -> & Wt & Vt).
  pose proof (compact_value_bound c Hc) as [H0 _]. pose proof (compact_value_not_max c Hc) as Hmax.
  set (v := compact_value c) in *. rewrite EqualTo_spec by (done || unfold in_u64; lia).
  destruct (Z.leb_spec M256 v) as [Ho|Ho].
  { rewrite orb_true_r. exists (base_uint_of 0). split_and!; [done|apply base_uint_of_wf|done]. }
  rewrite Z.mod_small in Vt by lia. rewrite Vt. cbn [orb].
  destruct (Z.eqb_spec v 0) as [Hz|Hz].
  { rewrite orb_true_r. exists (base_uint_of 0). split_and!; [done|apply base_uint_of_wf|done]. }
  cbn [negb andb]. rewrite orb_false_r. destruct (Z.testbit c 23); cbn [orb].
  { exists (base_uint_of 0). split_and!; [done|apply base_uint_of_wf|done]. }
  destruct (op_complement_wf t Wt) as [Wc Vc]. destruct (op_add_spec t _ Wt (base_uint_of_wf 1)) as [Wa Va].
  rewrite val_base_uint_of, Vt, Z.mod_small in Va by (try (unfold in_u64); lia). rewrite Vt in Vc.
  pose proof (op_div_spec _ _ Wc Wa) as Hd. rewrite Va, (proj2 (Z.eqb_neq (v + 1) 0)), Vc in Hd by lia.
  destruct Hd as (q & Hq & Wq & Vq). rewrite Hq. cbn [mbind result_bind].
  destruct (op_add_spec q _ Wq (base_uint_of_wf 1)) as [Ws Vs]. eexists. split_and!; [reflexivity|exact Ws|].
  assert (M256 / (v + 1) = (M256 - 1 - v) / (v + 1) + 1) as E.
  { rewrite <- Z.div_add by lia. f_equal. lia. }
  rewrite Vs, val_base_uint_of, Vq, E by (unfold in_u64; lia). apply Z.mod_small. rewrite <- E.
  split; [apply Z.div_pos; lia|]. apply Z.div_lt_upper_bound; lia.
Qed.

(** ** Adding a header *)

Lemma linked_mono m m' b : m ⊆ m' -> linked m b -> linked m' b.
Proof.
  intros Hm. unfold linked. destruct (pprev b) as [q|]; [|done]. intros (bq & s & Hq & Hh & Hs & W & R).
  exists bq, s. split_and!; try apply R; [by eapply lookup_weaken|done|done|by eapply walk_mono].
Qed.

Lemma tree_ok_insert m hash b :
  tree_ok m -> m !! hash = None -> 0 <= nHeight b -> wf (nChainWork b) -> linked m b -> tree_ok (<[hash := b]> m).
Proof.
  intros Hm Hn H0 Hw Hl p c Hp. pose proof (insert_subseteq m hash b Hn) as Hsub.
  apply lookup_insert_Some in Hp as [[<- <-]|[Hne Hp]].
  - split_and!; [done|done|]. by eapply linked_mono.
  - destruct (Hm p c Hp) as (? & ? & L). split_and!; [done|done|]. by eapply linked_mono.
Qed.

(** Looking up the predecessor does not see the unfinished new entry. *)
Lemma GetAncestor_mono m m' p b h : tree_ok m -> m ⊆ m' -> m !! p = Some b -> 0 <= h <= nHeight b ->
  exists q, GetAncestor m' p h = Ok (Some q) /\ ancestor m p h q.
Proof.
  intros Hm Hsub Hp Hh. destruct (GetAncestor_loop_spec m Hm (Z.to_nat (nHeight b - h)) p b h Hp Hh ltac:(lia)) as (q & Hq & Ha).
  exists q. split; [|done]. unfold GetAncestor. rewrite (deref_ok m' p b) by (by eapply lookup_weaken).
  cbn [mbind result_bind]. rewrite (proj2 (Z.ltb_ge (nHeight b) h)), (proj2 (Z.ltb_ge h 0)) by lia. cbn [orb].
  enough (forall fuel p w r, GetAncestor_loop fuel m p w h = Ok r -> GetAncestor_loop fuel m' p w h = Ok r) as Hloop.
  { by rewrite (Hloop _ _ _ _ Hq). }
  clear - Hsub. induction fuel as [|fuel IH]; intros p w r; cbn [GetAncestor_loop]; [done|].
  destruct (w <=? h); [done|]. unfold deref at 1 2. destruct (m !! p) as [c|] eqn:E; [|done].
  rewrite (lookup_weaken _ _ _ _ E Hsub). cbn [mbind result_bind].
  destruct (pskip c), (pprev c); repeat case_match; auto.
Qed.

(** What [link_prev] leaves in a new entry. *)
Lemma link_prev_spec m hash b prev : tree_ok m -> m !! hash = None -> prev <> hash ->
  pprev b = None -> pskip b = None -> nHeight b = 0 ->
  exists b', link_prev (<[hash := b]> m) b prev = Ok b' /\
    nChainWork b' = nChainWork b /\ nStatus b' = nStatus b /\ nVersion b' = nVersion b /\
    hashMerkleRoot b' = hashMerkleRoot b /\ nTime b' = nTime b /\ nBits b' = nBits b /\ nNonce b' = nNonce b /\
    match m !! prev with
    | Some bq => pprev b' = Some prev /\ nHeight b' = nHeight bq + 1 /\
        exists s, pskip b' = Some s /\ ancestor m prev (GetSkipHeight (nHeight b')) s
    | None => b' = b
    end.
Proof.
  intros Hm Hn Hne E1 E2 E3. unfold link_prev. rewrite lookup_insert_ne by done.
  destruct (m !! prev) as [bq|] eqn:Eq; [|exists b; by split_and!].
  unfold BuildSkip. cbn [pprev nHeight]. destruct (Hm prev bq Eq) as [H0 _].
  pose proof (GetSkipHeight_range (nHeight bq + 1) ltac:(lia)).
  destruct (GetAncestor_mono m _ prev bq (GetSkipHeight (nHeight bq + 1)) Hm (insert_subseteq m hash b Hn) Eq ltac:(lia))
    as (s & -> & Ha).
  eexists. split; [reflexivity|]. cbn. split_and!; try done. by exists s.
Qed.

Lemma RaiseValidity_new : fst (RaiseValidity 0 BLOCK_VALID_TREE) = BLOCK_VALID_TREE.
Proof. done. Qed.

(** The invariant of the index. *)
Definition index_inv (s : BlockTree) : Prop :=
  tree_ok (mapBlockIndex s) /\ best_ok s /\
  (forall x, pindexBestHeader s = Some x -> is_Some (mapBlockIndex s !! x)).

Lemma AddToBlockIndex_new `{CryptoOps} s block :
  let hash := header_GetHash block in
  index_inv s -> mapBlockIndex s !! hash = None -> hashPrevBlock block <> hash -> in_u32 (hdr_nBits block) ->
  exists b s' better, AddToBlockIndex s block = Ok (s', hash) /\
    mapBlockIndex s' = <[hash := b]> (mapBlockIndex s) /\
    0 <= nHeight b /\ wf (nChainWork b) /\ linked (mapBlockIndex s) b /\
    pprev b = (if decide (is_Some (mapBlockIndex s !! hashPrevBlock block)) then Some (hashPrevBlock block) else None) /\
    nTime b = hdr_nTime block /\ nBits b = hdr_nBits block /\ nVersion b = hdr_nVersion block /\
    nStatus b = BLOCK_VALID_TREE /\
    pindexBestHeader s' = (if (better : bool) then Some hash else pindexBestHeader s) /\
    (forall x bx, pindexBestHeader s = Some x -> mapBlockIndex s !! x = Some bx ->
      better = (val (nChainWork bx) <? val (nChainWork b))) /\
    (pindexBestHeader s = None -> better = true).
Proof.
  intros hash (Hm & Hb & Hin) Hnew Hprev Hbits. unfold AddToBlockIndex. fold hash. rewrite Hnew.
  destruct (link_prev_spec _ hash (index_of_header block) (hashPrevBlock block) Hm Hnew Hprev eq_refl eq_refl eq_refl)
    as (b & -> & Ew & Es & Ev & Em & Et & Eb & En & Hlink). cbn [mbind result_bind]. cbn in Ew, Es, Ev, Em, Et, Eb, En.
  destruct (GetBlockProof_spec (nBits b) ltac:(by rewrite Eb)) as (w & -> & Ww & Vw). cbn [mbind result_bind].
  set (m := mapBlockIndex s) in *. set (m1 := <[hash := index_of_header block]> m).
  assert (exists prev, match pprev b with Some q => bq ← deref m1 q; Ok (Some bq) | None => Ok None end = Ok prev /\
    match prev with
    | Some bq => pprev b = Some (hashPrevBlock block) /\ m !! hashPrevBlock block = Some bq
    | None => pprev b = None /\ m !! hashPrevBlock block = None end) as (prev & -> & Hp).
  { destruct (m !! hashPrevBlock block) as [bq|] eqn:E.
    - destruct Hlink as (Ep & _). rewrite Ep. unfold m1. rewrite (deref_ok _ _ bq) by (by rewrite lookup_insert_ne).
      by exists (Some bq).
    - rewrite Hlink. by exists None. }
  cbn [mbind result_bind]. set (work := op_add _ w).
  assert (wf work /\ val work = match prev with
    | Some bq => (val (nChainWork bq) + block_work (nBits b)) mod M256 | None => block_work (nBits b) end) as [Wk Vk].
  { unfold work. destruct prev as [bq|].
    - destruct Hp as [_ Hp]. destruct (Hm _ _ Hp) as (_ & Wq & _). destruct (op_add_spec _ _ Wq Ww) as [? ->].
      by rewrite Vw.
    - destruct (op_add_spec _ _ (base_uint_of_wf 0) Ww) as [? ->]. split; [done|].
      rewrite val_base_uint_of by (unfold in_u64; lia). rewrite Z.add_0_l, Vw. rewrite <- Vw. by apply Z.mod_small, val_range. }
  set (b' := mkIndex _ _ _ _ _ _ _ _ _ _ _). set (m2 := <[hash := b']> m1).
  assert (m2 = <[hash := b']> m) as Em2 by apply insert_insert_eq.
  assert (exists better, match pindexBestHeader s with
     | None => Ok true | Some best => bbest ← deref m2 best; Ok (CompareTo (nChainWork bbest) work <? 0) end = Ok better /\
     (forall x bx, pindexBestHeader s = Some x -> m !! x = Some bx -> better = (val (nChainWork bx) <? val work)) /\
     (pindexBestHeader s = None -> better = true)) as (better & -> & Hbetter).
  { destruct (pindexBestHeader s) as [best|] eqn:E; [|by exists true].
    destruct (Hin best eq_refl) as [bb Hbb]. assert (best <> hash) by congruence.
    rewrite Em2, (deref_ok _ _ bb) by (by rewrite lookup_insert_ne). cbn [mbind result_bind]. eexists. split; [done|].
    split; [|done]. intros x bx [= <-] Hx. rewrite Hbb in Hx. injection Hx as <-.
    destruct (Hm _ _ Hbb) as (_ & Wb & _). rewrite CompareTo_spec by done. lia. }
  cbn [mbind result_bind]. exists b'. eexists. exists better. split; [reflexivity|]. cbn [mapBlockIndex pindexBestHeader].
  split; [exact Em2|]. unfold b' at 1 2 4 5 6 7 8 9. cbn [nHeight nChainWork pprev nTime nBits nVersion nStatus].
  rewrite Es, Et, Eb, Ev.
  assert (0 <= nHeight b) as H0.
  { destruct prev as [bq|]; destruct Hp as [_ Hp]; rewrite Hp in Hlink; [|by rewrite Hlink].
    destruct Hlink as (_ & -> & _). destruct (Hm _ _ Hp) as [? _]. lia. }
  split_and!; try done; [| |apply Hbetter|apply Hbetter].
  - unfold linked, b'. cbn [pprev nHeight pskip nTimeMax nTime nBits nChainWork].
    destruct prev as [bq|]; destruct Hp as [Ep Hp]; rewrite Ep; rewrite Hp in Hlink.
    + destruct Hlink as (_ & Eh & sk & Esk & Ha). exists bq, sk. destruct Ha as (bq' & Hq' & Hh & W).
      rewrite Hp in Hq'. injection Hq' as <-. by split_and!.
    + rewrite Hlink in *. by split_and!.
  - destruct prev as [bq|]; destruct Hp as [Ep Hp]; rewrite Ep, Hp.
    + by rewrite decide_True by by eexists.
    + rewrite decide_False; [done|]. by intros [? ?].
Qed.

Lemma index_inv_empty : index_inv (mkTree ∅ None ∅).
Proof. split; [|split]; [intros p b Hp; inversion Hp|intros p b Hp; inversion Hp|done]. Qed.

(** ** The active chain *)

(** The chain that ends in [t]: at each height the ancestor of [t]. *)
Definition chain_of (m : BlockMap) (c : CChain) (t : Z) : Prop :=
  exists b, m !! t = Some b /\ length c = Z.to_nat (nHeight b + 1) /\
    forall i, (i < length c)%nat -> exists q, c !! i = Some (Some q) /\ ancestor m t (Z.of_nat i) q.
Definition chain_ok (m : BlockMap) (c : CChain) : Prop := c = [] \/ exists t, chain_of m c t.

Section Chain.
Context (m : BlockMap) (Hm : tree_ok m).

Lemma ancestor_between p h q h' r : ancestor m p h q -> ancestor m p h' r -> h' <= h -> ancestor m q h' r.
Proof.
  intros Hq Hr Hle. destruct (ancestor_height m Hm _ _ _ Hq) as (bq & Hbq & E).
  assert (0 <= h') by (destruct Hr as (? & _ & ? & _); lia).
  destruct (ancestor_exists m Hm q bq h' Hbq ltac:(lia)) as (r' & _ & Ha & _ & _).
  rewrite (ancestor_unique m p h' r r'); [done|done|]. by apply (ancestor_trans m Hm p h q).
Qed.

Lemma chain_entry c i r : chain_ok m c -> c !! i = Some (Some r) ->
  (exists br, m !! r = Some br /\ nHeight br = Z.of_nat i) /\
  forall j, (j <= i)%nat -> exists a, c !! j = Some (Some a) /\ ancestor m r (Z.of_nat j) a.
Proof.
  intros [->|(t & b & Ht & L & H)] Hi; [done|]. pose proof (lookup_lt_Some _ _ _ Hi) as Hlt.
  destruct (H i Hlt) as (r' & Hi' & Ha). rewrite Hi in Hi'. injection Hi' as <-.
  split; [by eapply ancestor_height|]. intros j Hj. destruct (H j ltac:(lia)) as (a & Hja & Haa).
  exists a. split; [done|]. eapply ancestor_between; [done|done|lia].
Qed.

Lemma resize_entry n (c : CChain) i r : resize n None c !! i = Some (Some r) -> c !! i = Some (Some r) /\ (i < n)%nat.
Proof.
  intros Hi. pose proof (lookup_lt_Some _ _ _ Hi) as Hlt. rewrite length_resize in Hlt.
  destruct (decide (i < length c)%nat); [by rewrite lookup_resize in Hi|]. by rewrite lookup_resize_new in Hi by lia.
Qed.

(** The loop: above height [h] the chain of [p] is in place, at and below [h]
    the resized old chain. *)
Lemma SetTip_loop_spec c p b n v pindex (h : nat) fuel : chain_ok m c ->
  m !! p = Some b -> n = Z.to_nat (nHeight b + 1) -> (h <= n)%nat -> (h <= fuel)%nat -> length v = n ->
  (forall i, (i < h)%nat -> v !! i = resize n None c !! i) ->
  (forall i, (h <= i < n)%nat -> exists q, v !! i = Some (Some q) /\ ancestor m p (Z.of_nat i) q) ->
  match pindex with Some q => (0 < h)%nat /\ ancestor m p (Z.of_nat h - 1) q | None => h = O end ->
  exists v', SetTip_loop fuel m v pindex = Ok v' /\ chain_of m v' p.
Proof.
  intros Hc Hp Hn. revert v pindex h. induction fuel as [|fuel IH]; intros v pindex h Hh Hf Lv Hlow Hhigh Hq.
  - assert (h = O) as -> by lia. destruct pindex as [q|]; [lia|]. exists v. split; [done|].
    exists b. split_and!; [done|lia|]. intros i Hi. apply Hhigh. lia.
  - destruct pindex as [q|].
    2: { subst h. exists v. split; [done|]. exists b. split_and!; [done|lia|]. intros i Hi. apply Hhigh. lia. }
    destruct Hq as [Hpos Ha]. destruct (ancestor_height m Hm _ _ _ Ha) as (bq & Hbq & Ehq).
    destruct h as [|h]; [lia|]. replace (Z.of_nat (S h) - 1) with (Z.of_nat h) in * by lia.
    cbn [SetTip_loop]. rewrite (deref_ok _ _ _ Hbq). cbn [mbind result_bind]. rewrite Ehq, Nat2Z.id.
    destruct (v !! h) as [x|] eqn:Ex; [|apply lookup_ge_None in Ex; lia]. case_bool_decide as Exq.
    + subst x. exists v. split; [done|]. exists b. split_and!; [done|lia|]. intros i Hi.
      destruct (decide (i <= h)%nat) as [Hle|]; [|apply Hhigh; lia].
      rewrite Hlow in Ex by lia. apply resize_entry in Ex as [Ex _].
      destruct (chain_entry c h q Hc Ex) as [_ Hentries]. destruct (Hentries i Hle) as (a & Hca & Haa).
      exists a. split; [|by apply (ancestor_trans m Hm p (Z.of_nat h) q)]. rewrite Hlow by lia.
      rewrite lookup_resize by (try lia; by eapply lookup_lt_Some). done.
    + apply (IH _ _ h); [lia|lia|by rewrite length_insert| | |].
      * intros i Hi. rewrite list_lookup_insert_ne by lia. apply Hlow. lia.
      * intros i Hi. destruct (decide (i = h)) as [->|]; [|rewrite list_lookup_insert_ne by lia; apply Hhigh; lia].
        exists q. rewrite list_lookup_insert_eq by lia. done.
      * destruct h as [|h]; [by rewrite (genesis_of m Hm q bq Hbq)|].
        destruct (prev_ancestor m Hm p _ q bq Ha Hbq ltac:(lia)) as (r & -> & Hr). split; [lia|exact Hr].
Qed.

Lemma SetTip_spec c p b : chain_ok m c -> m !! p = Some b -> exists c', SetTip m c (Some p) = Ok c' /\ chain_of m c' p.
Proof.
  intros Hc Hp. unfold SetTip. rewrite (deref_ok _ _ _ Hp). cbn [mbind result_bind]. destruct (Hm p b Hp) as [H0 _].
  apply (SetTip_loop_spec c p b (Z.to_nat (nHeight b + 1)) _ _ (Z.to_nat (nHeight b + 1))); try done; [by rewrite length_resize|lia|].
  split; [lia|]. replace (Z.of_nat (Z.to_nat (nHeight b + 1)) - 1) with (nHeight b) by lia. by apply ancestor_refl.
Qed.

Lemma chain_of_unique c c' t : chain_of m c t -> chain_of m c' t -> c = c'.
Proof.
  intros (b & Hb & L & H) (b' & Hb' & L' & H'). simplify_eq. apply list_eq_same_length with (length c); [by rewrite L, L'|done|].
  intros i x y Hi Hx Hy. destruct (H i Hi) as (q & Hq & Ha). destruct (H' i ltac:(lia)) as (q' & Hq' & Ha').
  simplify_eq. f_equal. by eapply ancestor_unique.
Qed.

Lemma Tip_chain_of c t : chain_of m c t -> Tip c = Some t.
Proof.
  intros (b & Hb & L & H). destruct (Hm t b Hb) as [H0 _]. unfold Tip. rewrite last_lookup.
  destruct (H (pred (length c)) ltac:(lia)) as (q & -> & Ha). cbn. f_equal. eapply (ancestor_unique m); [exact Ha|].
  replace (Z.of_nat (pred (length c))) with (nHeight b) by lia. by apply (ancestor_refl m Hm).
Qed.

(** The highest block that is an ancestor of both, if any. *)
Definition last_common (p q : Z) (r : option Z) : Prop :=
  match r with
  | Some a => exists h, ancestor m p h a /\ ancestor m q h a /\
      forall h' a', ancestor m p h' a' -> ancestor m q h' a' -> h' <= h
  | None => forall h a, ancestor m p h a -> ~ ancestor m q h a
  end.

Lemma last_common_unique p q r r' : last_common p q r -> last_common p q r' -> r = r'.
Proof.
  destruct r as [a|], r' as [a'|]; cbn; [|naive_solver|naive_solver|done].
  intros (h & Hp & Hq & Hmax) (h' & Hp' & Hq' & Hmax'). f_equal.
  assert (h = h') as <- by (apply Z.le_antisymm; eauto). by eapply ancestor_unique.
Qed.

Lemma common_loop_spec fuel p q (n : nat) pa pb : (n <= fuel)%nat ->
  (forall h a, ancestor m p h a -> ancestor m q h a -> h < Z.of_nat n) ->
  match pa, pb with
  | Some a, Some b => (0 < n)%nat /\ ancestor m p (Z.of_nat n - 1) a /\ ancestor m q (Z.of_nat n - 1) b
  | None, None => n = O
  | _, _ => False
  end ->
  exists r, common_loop fuel m pa pb = Ok (r, r) /\ last_common p q r.
Proof.
  revert n pa pb. induction fuel as [|fuel IH]; intros n pa pb Hn Hmax Hab.
  all: destruct pa as [a|], pb as [b|]; try done.
  2, 4: exists None; split; [done|]; intros h x Hp Hq; pose proof (Hmax h x Hp Hq); destruct Hp as (? & _ & ? & _); lia.
  - lia.
  - destruct Hab as (Hpos & Ha & Hb). cbn [common_loop]. destruct (Z.eqb_spec a b) as [<-|Hne].
    { exists (Some a). split; [done|]. exists (Z.of_nat n - 1). split_and!; [done|done|].
      intros h' a' Hp Hq. pose proof (Hmax h' a' Hp Hq). lia. }
    destruct (ancestor_height m Hm _ _ _ Ha) as (ba & Hba & Eha). destruct (ancestor_height m Hm _ _ _ Hb) as (bb & Hbb & Ehb).
    rewrite (deref_ok _ _ _ Hba), (deref_ok _ _ _ Hbb). cbn [mbind result_bind].
    apply (IH (n - 1)%nat); [lia| |].
    + intros h x Hp Hq. pose proof (Hmax h x Hp Hq). destruct (Z.eq_dec h (Z.of_nat n - 1)) as [->|]; [|lia].
      exfalso. apply Hne. by rewrite (ancestor_unique _ _ _ _ _ Ha Hp), (ancestor_unique _ _ _ _ _ Hb Hq).
    + destruct (decide (n = 1)%nat) as [->|].
      { by rewrite (genesis_of m Hm a ba), (genesis_of m Hm b bb) by (done || lia). }
      destruct (prev_ancestor m Hm p _ a ba Ha Hba ltac:(lia)) as (a' & -> & Ha').
      destruct (prev_ancestor m Hm q _ b bb Hb Hbb ltac:(lia)) as (b' & -> & Hb').
      replace (Z.of_nat (n - 1) - 1) with (Z.of_nat n - 1 - 1) by lia. split_and!; [lia|done|done].
Qed.

Lemma common_height p bp q bq h a : m !! p = Some bp -> m !! q = Some bq ->
  ancestor m p h a -> ancestor m q h a -> h <= Z.min (nHeight bp) (nHeight bq).
Proof. intros Hp Hq (b & Hb & ? & _) (b' & Hb' & ? & _). simplify_eq. lia. Qed.

Lemma LastCommonAncestor_spec p q : is_Some (m !! p) -> is_Some (m !! q) ->
  exists r, LastCommonAncestor m p q = Ok r /\ last_common p q r.
Proof.
  intros [bp Hp] [bq Hq]. destruct (Hm p bp Hp) as [Hp0 _]. destruct (Hm q bq Hq) as [Hq0 _].
  unfold LastCommonAncestor. rewrite (deref_ok _ _ _ Hp), (deref_ok _ _ _ Hq). cbn [mbind result_bind].
  set (h := Z.min (nHeight bp) (nHeight bq)).
  assert (exists a, (if nHeight bq <? nHeight bp then GetAncestor m p (nHeight bq) else Ok (Some p)) = Ok (Some a) /\
    ancestor m p h a) as (a & -> & Ha).
  { destruct (Z.ltb_spec (nHeight bq) (nHeight bp)).
    - replace h with (nHeight bq) by lia. apply (GetAncestor_in m Hm p bp); [done|lia].
    - exists p. split; [done|]. replace h with (nHeight bp) by lia. by apply ancestor_refl. }
  assert (exists b, (if nHeight bp <? nHeight bq then GetAncestor m q (nHeight bp) else Ok (Some q)) = Ok (Some b) /\
    ancestor m q h b) as (b & -> & Hb).
  { destruct (Z.ltb_spec (nHeight bp) (nHeight bq)).
    - replace h with (nHeight bp) by lia. apply (GetAncestor_in m Hm q bq); [done|lia].
    - exists q. split; [done|]. replace h with (nHeight bq) by lia. by apply ancestor_refl. }
  cbn [mbind result_bind].
  destruct (common_loop_spec (Z.to_nat (h + 1)) p q (Z.to_nat (h + 1)) (Some a) (Some b)) as (r & -> & Hr); [lia| | |].
  - intros h' x Hx Hy. pose proof (common_height _ _ _ _ _ _ Hp Hq Hx Hy). lia.
  - replace (Z.of_nat (Z.to_nat (h + 1)) - 1) with h by lia. split_and!; [lia|done|done].
  - exists r. cbn [mbind result_bind fst snd]. unfold whenever. by rewrite bool_decide_true.
Qed.

(** ** Forks *)

Lemma chain_at_spec c t b h : chain_of m c t -> m !! t = Some b ->
  if (0 <=? h) && (h <=? nHeight b) then exists q, chain_at c h = Some q /\ ancestor m t h q else chain_at c h = None.
Proof.
  intros (b' & Ht & L & H) Hb. rewrite Ht in Hb. injection Hb as ->. destruct (Hm t b Ht) as [H0 _]. unfold chain_at.
  destruct (Z.leb_spec 0 h); cbn [andb]; [|by rewrite (proj2 (Z.ltb_lt h 0)) by lia].
  rewrite (proj2 (Z.ltb_ge h 0)) by lia. cbn [orb].
  destruct (Z.leb_spec h (nHeight b)); [|by rewrite (proj2 (Z.leb_le _ h)) by lia].
  rewrite (proj2 (Z.leb_gt _ h)) by lia. destruct (H (Z.to_nat h) ltac:(lia)) as (q & -> & Ha).
  exists q. split; [done|]. by rewrite Z2Nat.id in Ha by lia.
Qed.

Lemma Contains_spec c t p bp : chain_of m c t -> m !! p = Some bp ->
  exists x, Contains m c p = Ok x /\ (x = true <-> ancestor m t (nHeight bp) p).
Proof.
  intros Hc Hp. unfold Contains. rewrite (deref_ok _ _ _ Hp). cbn [mbind result_bind]. eexists. split; [done|].
  rewrite bool_decide_eq_true. destruct Hc as (b & Ht & Hc'). assert (chain_of m c t) as Hc by by exists b.
  pose proof (chain_at_spec c t b (nHeight bp) Hc Ht) as Hat. destruct (Hm p bp Hp) as [H0 _].
  rewrite (proj2 (Z.leb_le 0 _)) in Hat by lia. cbn [andb] in Hat. destruct (Z.leb_spec (nHeight bp) (nHeight b)).
  - destruct Hat as (q & -> & Ha). split; [by intros [= <-]|]. intros Ha'. f_equal. by eapply ancestor_unique.
  - rewrite Hat. split; [done|]. intros (b' & Hb' & ? & _). simplify_eq. lia.
Qed.

Lemma walk_to_chain_spec c t p fuel (n : nat) pindex : chain_of m c t -> (n <= fuel)%nat ->
  (forall h a, ancestor m t h a -> ancestor m p h a -> h < Z.of_nat n) ->
  match pindex with Some a => (0 < n)%nat /\ ancestor m p (Z.of_nat n - 1) a | None => n = O end ->
  exists r, walk_to_chain fuel m c pindex = Ok r /\ last_common t p r.
Proof.
  intros Hc. revert n pindex. induction fuel as [|fuel IH]; intros n pindex Hn Hmax Hp.
  all: destruct pindex as [a|].
  2, 4: exists None; split; [done|]; intros h x Hx Hy; pose proof (Hmax h x Hx Hy); destruct Hx as (? & _ & ? & _); lia.
  - lia.
  - destruct Hp as [Hpos Ha]. destruct (ancestor_height m Hm _ _ _ Ha) as (ba & Hba & Eha).
    cbn [walk_to_chain]. destruct (Contains_spec c t a ba Hc Hba) as (x & -> & Hx). cbn [mbind result_bind].
    rewrite Eha in Hx. destruct x.
    { exists (Some a). split; [done|]. exists (Z.of_nat n - 1). split_and!; [by apply Hx|done|].
      intros h' a' Ht Hp. pose proof (Hmax h' a' Ht Hp). lia. }
    rewrite (deref_ok _ _ _ Hba). cbn [mbind result_bind]. apply (IH (n - 1)%nat); [lia| |].
    + intros h y Ht Hp. pose proof (Hmax h y Ht Hp). destruct (Z.eq_dec h (Z.of_nat n - 1)) as [->|]; [|lia].
      rewrite (ancestor_unique _ _ _ _ _ Hp Ha) in Ht. apply Hx in Ht. done.
    + destruct (decide (n = 1)%nat) as [->|]; [by rewrite (genesis_of m Hm a ba) by (done || lia)|].
      destruct (prev_ancestor m Hm p _ a ba Ha Hba ltac:(lia)) as (a' & -> & Ha').
      replace (Z.of_nat (n - 1) - 1) with (Z.of_nat n - 1 - 1) by lia. split_and!; [lia|done].
Qed.

Lemma FindFork_spec c t p : chain_of m c t -> is_Some (m !! p) ->
  exists r, FindFork m c (Some p) = Ok r /\ last_common t p r.
Proof.
  intros Hc [bp Hp]. pose proof Hc as (b & Ht & L & _). destruct (Hm p bp Hp) as [Hp0 _]. destruct (Hm t b Ht) as [Ht0 _].
  unfold FindFork. rewrite (deref_ok _ _ _ Hp). cbn [mbind result_bind].
  assert (Height c = nHeight b) as -> by (unfold Height; lia). set (h := Z.min (nHeight b) (nHeight bp)).
  assert (exists a, (if nHeight b <? nHeight bp then GetAncestor m p (nHeight b) else Ok (Some p)) = Ok (Some a) /\
    ancestor m p h a) as (a & -> & Ha).
  { destruct (Z.ltb_spec (nHeight b) (nHeight bp)).
    - replace h with (nHeight b) by lia. apply (GetAncestor_in m Hm p bp); [done|lia].
    - exists p. split; [done|]. replace h with (nHeight bp) by lia. by apply ancestor_refl. }
  cbn [mbind result_bind]. apply (walk_to_chain_spec c t p _ (Z.to_nat (h + 1))); [done|lia| |].
  - intros h' x Hx Hy. pose proof (common_height _ _ _ _ _ _ Ht Hp Hx Hy). lia.
  - replace (Z.of_nat (Z.to_nat (h + 1)) - 1) with h by lia. split; [lia|done].
Qed.

(** ** Locators *)

Lemma GetLocator_loop_spec c t p fuel q h nStep vHave : chain_of m c t -> ancestor m p h q -> (Z.to_nat h <= fuel)%nat ->
  1 <= nStep -> exists l g, GetLocator_loop fuel m c (Some q) nStep vHave = Ok (vHave ++ q :: l) /\
    Forall (fun a => exists h', h' < h /\ ancestor m p h' a) l /\ last (q :: l) = Some g /\ ancestor m p 0 g.
Proof.
  intros Hc. revert q h nStep vHave. induction fuel as [|fuel IH]; intros q h nStep vHave Ha Hf Hs;
    destruct (ancestor_height m Hm _ _ _ Ha) as (bq & Hbq & Eh); destruct (Hm q bq Hbq) as [H0 _];
    cbn [GetLocator_loop]; rewrite (deref_ok _ _ _ Hbq); cbn [mbind result_bind];
    (destruct (Z.eqb_spec (nHeight bq) 0) as [Hz|Hz];
      [exists [], q; split_and!; [done|constructor|done|]; by replace 0 with h by lia|]); [lia|].
  destruct (Contains_spec c t q bq Hc Hbq) as (x & -> & Hx). cbn [mbind result_bind].
  set (h' := Z.max (nHeight bq - nStep) 0).
  assert (exists r, (if x then Ok (chain_at c h') else GetAncestor m q h') = Ok (Some r) /\ ancestor m q h' r)
    as (r & -> & Hr).
  { destruct x; [|apply (GetAncestor_in m Hm q bq); [done|lia]].
    pose proof (proj1 Hx eq_refl) as Ht. pose proof Hc as (b & Hb & _). pose proof (chain_at_spec c t b h' Hc Hb) as Hat.
    assert (nHeight bq <= nHeight b) by (destruct Ht as (? & ? & ? & _); simplify_eq; lia).
    rewrite (proj2 (Z.leb_le 0 h')), (proj2 (Z.leb_le h' (nHeight b))) in Hat by lia. cbn [andb] in Hat.
    destruct Hat as (r & -> & Hr). exists r. split; [done|]. apply (ancestor_between t (nHeight bq)); [done|done|lia]. }
  cbn [mbind result_bind].
  destruct (IH r h' (if (10 <? length (vHave ++ [q]))%nat then nStep * 2 else nStep) (vHave ++ [q])) as (l & g & -> & Hl & Hg & Hg0).
  - by apply (ancestor_trans m Hm p h q).
  - lia.
  - case_match; lia.
  - exists (r :: l), g. split_and!.
    + by rewrite <- app_assoc.
    + constructor; [exists h'; split; [lia|by apply (ancestor_trans m Hm p h q)]|].
      eapply Forall_impl; [done|]. intros a (h'' & ? & ?). exists h''. split; [lia|done].
    + done.
    + done.
Qed.

Lemma GetLocator_spec c t p bp : chain_of m c t -> m !! p = Some bp ->
  exists l g, GetLocator m c (Some p) = Ok (p :: l) /\
    Forall (fun a => exists h, h < nHeight bp /\ ancestor m p h a) l /\ last (p :: l) = Some g /\ ancestor m p 0 g.
Proof.
  intros Hc Hp. unfold GetLocator. rewrite (deref_ok _ _ _ Hp). cbn [mbind result_bind].
  apply (GetLocator_loop_spec c t p _ p (nHeight bp) 1 []); [done|by apply ancestor_refl|lia|lia].
Qed.

(** The answer to a locator of [p] is a block of the chain that [p] has too. *)
Lemma FindForkInGlobalIndex_spec c t p l g : chain_of m c t -> Forall (fun a => exists h, ancestor m p h a) l ->
  last l = Some g -> ancestor m p 0 g -> ancestor m t 0 g ->
  exists a h, FindForkInGlobalIndex m c l = Ok (Some a) /\ ancestor m t h a /\ ancestor m p h a.
Proof.
  intros Hc Hl Hlast Hg Ht. induction Hl as [|q l (h & Hq) Hl IH]; [done|]. cbn [FindForkInGlobalIndex].
  destruct (ancestor_height m Hm _ _ _ Hq) as (bq & Hbq & Eh). rewrite Hbq.
  destruct (Contains_spec c t q bq Hc Hbq) as (x & -> & Hx). cbn [mbind result_bind]. destruct x.
  { exists q, h. split_and!; [done|rewrite <- Eh; by apply Hx|done]. }
  pose proof Hc as (b & Hb & L & He). destruct (Hm t b Hb) as [H0 _].
  assert (Height c = nHeight b) as -> by (unfold Height; lia).
  assert (Tip c = Some t) as ->.
  { unfold Tip. rewrite last_lookup. destruct (He (pred (length c)) ltac:(lia)) as (t' & -> & Ha). cbn. f_equal.
    replace (Z.of_nat (pred (length c))) with (nHeight b) in Ha by lia.
    apply (ancestor_unique _ _ _ _ _ Ha). by apply ancestor_refl. }
  destruct (GetAncestor_spec m Hm q bq (nHeight b) Hbq) as (r & -> & Hr). cbn [mbind result_bind].
  case_bool_decide as Er.
  - subst r. exists t, (nHeight b). split_and!; [done|by apply ancestor_refl|].
    destruct (_ && _); [|done]. destruct Hr as (? & [= <-] & Ha). by apply (ancestor_trans m Hm p h q).
  - apply IH. destruct l; [|done]. cbn in Hlast. injection Hlast as ->.
    exfalso. assert (false = true); [|done]. apply Hx.
    destruct (ancestor_height m Hm _ _ _ Hg) as (bg & Hbg & Eg). simplify_eq. by rewrite Eg.
Qed.

End Chain.

Lemma AddToBlockIndex_spec `{CryptoOps} s block :
  let hash := header_GetHash block in
  index_inv s -> hashPrevBlock block <> hash -> in_u32 (hdr_nBits block) ->
  exists s' b, AddToBlockIndex s block = Ok (s', hash) /\ index_inv s' /\
    mapBlockIndex s ⊆ mapBlockIndex s' /\ mapBlockIndex s' !! hash = Some b /\
    (mapBlockIndex s !! hash = None ->
      nTime b = hdr_nTime block /\ nBits b = hdr_nBits block /\ nVersion b = hdr_nVersion block /\
      (is_Some (mapBlockIndex s !! hashPrevBlock block) -> pprev b = Some (hashPrevBlock block))).
Proof.
  intros hash Hs Hprev Hbits. destruct (mapBlockIndex s !! hash) as [b|] eqn:E.
  { exists s, b. unfold AddToBlockIndex. fold hash. rewrite E. by split_and!. }
  destruct (AddToBlockIndex_new s block Hs E Hprev Hbits)
    as (b & s' & better & Hadd & Em & H0 & Hw & Hl & Ep & Et & Eb & Ev & _ & Ebest & Hbetter & Hnone).
  pose proof (insert_subseteq (mapBlockIndex s) hash b E) as Hsub. fold hash in Em. destruct Hs as (Hm & Hb & Hin).
  exists s', b. rewrite Em. split_and!; [done| |done|apply lookup_insert_eq|].
  2: { intros _. split_and!; [done|done|done|]. intros Hp. by rewrite Ep, decide_True. }
  assert (forall x, pindexBestHeader s' = Some x -> is_Some (mapBlockIndex s' !! x)) as Hin'.
  { intros x. rewrite Ebest, Em. destruct better; [intros [= <-]; rewrite lookup_insert_eq; by eexists|].
    intros Hx. destruct (Hin x Hx) as [bx Hbx]. exists bx. by eapply lookup_weaken. }
  split; [rewrite Em; by apply tree_ok_insert|]. split; [|exact Hin'].
  intros p c Hp. rewrite Ebest, Em in *. destruct (pindexBestHeader s) as [best|] eqn:Es.
  - destruct (Hin best eq_refl) as [bb Hbb]. pose proof (Hbetter best bb eq_refl Hbb) as Hcmp.
    assert (forall p c, mapBlockIndex s !! p = Some c -> val (nChainWork c) <= val (nChainWork bb)) as Hold.
    { intros p' c' Hp'. destruct (Hb p' c' Hp') as (best' & bb' & Hbest' & Hbb' & Hle). congruence. }
    apply lookup_insert_Some in Hp. destruct better; symmetry in Hcmp; zbool.
    + exists hash, b. split_and!; [done|apply lookup_insert_eq|]. destruct Hp as [[_ <-]|[_ Hp]]; [lia|]. apply Hold in Hp. lia.
    + exists best, bb. split_and!; [done|by eapply lookup_weaken|]. destruct Hp as [[_ <-]|[_ Hp]]; [lia|]. by apply Hold in Hp.
  - rewrite (Hnone eq_refl). exists hash, b. split_and!; [done|apply lookup_insert_eq|].
    apply lookup_insert_Some in Hp as [[_ <-]|[_ Hp]]; [lia|]. destruct (Hb p c Hp) as (? & ? & ? & _). congruence.
Qed.

(** ** Correctness *)

(** adding a header keeps the block index consistent: every entry's
    height, skip pointer, maximal time and cumulative work (the sum of
    [2 ^ 256 / (target + 1)] along the branch) follow from its predecessor's,
    no entry is changed, and [pindexBestHeader] has the most work of all. *)
Theorem AddToBlockIndex_keeps_index `{CryptoOps} s block :
  let hash := header_GetHash block in
  index_inv s -> hashPrevBlock block <> hash -> in_u32 (hdr_nBits block) ->
  exists s' b, AddToBlockIndex s block = Ok (s', hash) /\ index_inv s' /\
    mapBlockIndex s ⊆ mapBlockIndex s' /\ mapBlockIndex s' !! hash = Some b /\
    (mapBlockIndex s !! hash = None ->
      nTime b = hdr_nTime block /\ nBits b = hdr_nBits block /\ nVersion b = hdr_nVersion block /\
      (is_Some (mapBlockIndex s !! hashPrevBlock block) -> pprev b = Some (hashPrevBlock block))).
Proof. apply AddToBlockIndex_spec. Qed.

(** C28: the skip list finds what walking back block by block finds.  In a
    consistent index [GetAncestor] never fails an assertion, and returns the
    block [nHeight - height] steps before its argument, or [NULL] when the
    height is negative or above the block's. *)
Theorem GetAncestor_correct s p b height : index_inv s -> mapBlockIndex s !! p = Some b ->
  GetAncestor (mapBlockIndex s) p height =
    Ok (if (0 <=? height) && (height <=? nHeight b)
        then walk (mapBlockIndex s) (Z.to_nat (nHeight b - height)) p else None).
Proof.
  intros [Hm _] Hp. destruct (GetAncestor_spec _ Hm p b height Hp) as (r & -> & Hr).
  destruct (_ && _); [|by rewrite Hr]. destruct Hr as (q & -> & b' & Hp' & _ & W). simplify_eq. by rewrite W.
Qed.

(** [SetTip] stops as soon as it meets the old chain, and still leaves
    exactly the chain of the new tip: one entry per height, each the tip's
    ancestor. *)
Theorem SetTip_correct s vChain p b : index_inv s -> chain_ok (mapBlockIndex s) vChain -> mapBlockIndex s !! p = Some b ->
  exists vChain', SetTip (mapBlockIndex s) vChain (Some p) = Ok vChain' /\
    Height vChain' = nHeight b /\
    forall h, 0 <= h <= nHeight b -> chain_at vChain' h = walk (mapBlockIndex s) (Z.to_nat (nHeight b - h)) p.
Proof.
  intros [Hm _] Hc Hp. destruct (SetTip_spec _ Hm vChain p b Hc Hp) as (c & Hset & Hof). exists c. split; [done|].
  destruct (Hm p b Hp) as [H0 _]. split.
  - destruct Hof as (b' & Hp' & L & _). simplify_eq. unfold Height. lia.
  - intros h Hh. pose proof (chain_at_spec _ Hm c p b h Hof Hp) as Hat.
    rewrite (proj2 (Z.leb_le 0 h)), (proj2 (Z.leb_le h (nHeight b))) in Hat by lia.
    destruct Hat as (q & -> & b' & Hp' & _ & W). by simplify_eq.
Qed.

(** [FindFork] on the active chain and [LastCommonAncestor] on its tip are
    the same function, and return the highest block that is an ancestor of
    both, or [NULL] when there is none. *)
Theorem forks_agree s vChain t p : index_inv s -> chain_of (mapBlockIndex s) vChain t -> is_Some (mapBlockIndex s !! p) ->
  exists r, FindFork (mapBlockIndex s) vChain (Some p) = Ok r /\
    LastCommonAncestor (mapBlockIndex s) t p = Ok r /\ last_common (mapBlockIndex s) t p r.
Proof.
  intros [Hm _] Hc Hp. destruct (FindFork_spec _ Hm vChain t p Hc Hp) as (r & Hr & Lr).
  destruct (LastCommonAncestor_spec _ Hm t p) as (r' & Hr' & Lr'); [destruct Hc as (b & Ht & _); by exists b|done|].
  exists r. split_and!; [done| |done]. by rewrite (last_common_unique _ t p r r' Lr Lr').
Qed.

(** block download starts from a common block.  The locator a node builds
    for a block [p] starts at [p], ends at its genesis block and holds only
    ancestors of [p]; a node whose chain has the same genesis block answers it
    with a block of its own chain that is an ancestor of [p]. *)
Theorem locator_finds_common_block s vChain vChain' t t' p g : index_inv s ->
  chain_of (mapBlockIndex s) vChain t -> chain_of (mapBlockIndex s) vChain' t' ->
  is_Some (mapBlockIndex s !! p) -> ancestor (mapBlockIndex s) p 0 g -> ancestor (mapBlockIndex s) t' 0 g ->
  exists l a h, GetLocator (mapBlockIndex s) vChain (Some p) = Ok (p :: l) /\ last (p :: l) = Some g /\
    Forall (fun q => exists h, ancestor (mapBlockIndex s) p h q) (p :: l) /\
    FindForkInGlobalIndex (mapBlockIndex s) vChain' (p :: l) = Ok (Some a) /\
    ancestor (mapBlockIndex s) t' h a /\ ancestor (mapBlockIndex s) p h a.
Proof.
  intros [Hm _] Hc Hc' [bp Hp] Hg Hg'. destruct (GetLocator_spec _ Hm vChain t p bp Hc Hp) as (l & g' & Hloc & Hl & Hlast & Hg0).
  rewrite (ancestor_unique _ _ _ _ _ Hg0 Hg) in Hlast.
  assert (Forall (fun q => exists h, ancestor (mapBlockIndex s) p h q) (p :: l)) as Hall.
  { constructor; [exists (nHeight bp); by apply ancestor_refl|]. eapply Forall_impl; [done|]. naive_solver. }
  destruct (FindForkInGlobalIndex_spec _ Hm vChain' t' p (p :: l) g Hc' Hall Hlast Hg Hg') as (a & h & Hf & Ha & Ha').
  exists l, a, h. by split_and!.
Qed.

(** ** Examples *)

Module Example.
Open Scope Z_scope.

(** A hash of a header that is its nonce. *)
#[export] Instance demo_hash : CryptoOps := {|
  Hash160 := fun _ => 0;
  Sha256 := fun v => if (length v =? 80)%nat then le_value (drop 76 v) else le_value v;
  secp256k1_ec_pubkey_parse := fun _ => true
|}.
Definition demo_header (prev nonce : Z) : CPureBlockHeader := mkHeader 1 prev 0 (1000 + nonce) 0x207fffff nonce.
Definition demo_add (s : BlockTree) (h : CPureBlockHeader) : BlockTree :=
  match AddToBlockIndex s h with Ok (s', _) => s' | Err _ => s end.
(** Blocks 1, 2, 3, 4 and a longer branch 13, 14, 15 from block 2. *)
Definition demo_headers : list CPureBlockHeader :=
  [demo_header 0 1; demo_header 1 2; demo_header 2 3; demo_header 3 4; demo_header 2 13; demo_header 13 14; demo_header 14 15].
Definition demo_tree : BlockTree := fold_left demo_add demo_headers (mkTree ∅ None ∅).

Lemma demo_add_inv hs : Forall (fun h => hashPrevBlock h <> header_GetHash h /\ in_u32 (hdr_nBits h)) hs -> index_inv (fold_left demo_add hs (mkTree ∅ None ∅)).
Proof.
  intros Hh. generalize index_inv_empty. generalize (mkTree ∅ None ∅). induction Hh as [|h l [Hp Hb] _ IH]; intros s Hs; [done|].
  cbn [fold_left]. apply IH. unfold demo_add. destruct (AddToBlockIndex_spec s h Hs Hp Hb) as (s' & b & -> & Hs' & _). done.
Qed.
Lemma demo_tree_inv : index_inv demo_tree.
Proof. apply demo_add_inv. repeat (apply Forall_cons; split; [split; [by vm_compute|unfold in_u32; cbn; lia]|]). constructor. Qed.
Lemma demo_block p : bool_decide (is_Some (mapBlockIndex demo_tree !! p)) = true -> is_Some (mapBlockIndex demo_tree !! p).
Proof. apply bool_decide_eq_true_1. Qed.

Definition demo_chain : CChain := [Some 1; Some 2; Some 3; Some 4].
Lemma demo_chain_of : chain_of (mapBlockIndex demo_tree) demo_chain 4.
Proof.
  destruct (demo_block 4 ltac:(by vm_compute)) as [b Hb]. pose proof demo_tree_inv as [Hm _].
  destruct (SetTip_spec _ Hm [] 4 b (or_introl eq_refl) Hb) as (c & Hc & H).
  vm_compute in Hc. injection Hc as <-. exact H.
Qed.
Lemma demo_genesis p n : (mapBlockIndex demo_tree !! p ≫= fun b => Some (nHeight b)) = Some (Z.of_nat n) ->
  walk (mapBlockIndex demo_tree) n p = Some 1 -> ancestor (mapBlockIndex demo_tree) p 0 1.
Proof.
  destruct (mapBlockIndex demo_tree !! p) as [b|] eqn:E; [|discriminate]. intros [= Hh] W.
  exists b. split; [done|]. split; [lia|]. by rewrite Hh, Z.sub_0_r, Nat2Z.id.
Qed.

Lemma AddToBlockIndex_keeps_index_witness :
  exists s' b, AddToBlockIndex demo_tree (demo_header 15 16) = Ok (s', 16) /\ index_inv s' /\
    mapBlockIndex s' !! 16 = Some b /\ pprev b = Some 15.
Proof.
  assert (hashPrevBlock (demo_header 15 16) <> header_GetHash (demo_header 15 16)) as Hp by (vm_compute; discriminate).
  assert (in_u32 (hdr_nBits (demo_header 15 16))) as Hb by (unfold in_u32; cbn; lia).
  destruct (AddToBlockIndex_keeps_index demo_tree (demo_header 15 16) demo_tree_inv Hp Hb) as (s' & b & Ha & Hi & _ & Hx & Hnew).
  exists s', b. split; [exact Ha|]. split; [exact Hi|]. split; [exact Hx|].
  apply Hnew; [by vm_compute|]. apply demo_block. by vm_compute.
Defined.

Lemma GetAncestor_correct_witness :
  GetAncestor (mapBlockIndex demo_tree) 15 2 = Ok (Some 13) /\ GetAncestor (mapBlockIndex demo_tree) 15 9 = Ok None.
Proof.
  destruct (demo_block 15 ltac:(by vm_compute)) as [b Hb]. assert (nHeight b = 4) as Eh.
  { vm_compute in Hb. by injection Hb as <-. }
  split; rewrite (GetAncestor_correct demo_tree 15 b _ demo_tree_inv Hb), Eh; by vm_compute.
Defined.

Lemma SetTip_correct_witness : exists c, SetTip (mapBlockIndex demo_tree) demo_chain (Some 15) = Ok c /\
  chain_at c 1 = Some 2 /\ chain_at c 2 = Some 13.
Proof.
  destruct (demo_block 15 ltac:(by vm_compute)) as [b Hb]. assert (nHeight b = 4) as Eh.
  { vm_compute in Hb. by injection Hb as <-. }
  destruct (SetTip_correct demo_tree demo_chain 15 b demo_tree_inv (or_intror (ex_intro _ 4 demo_chain_of)) Hb) as (c & Hc & _ & H).
  exists c. split; [exact Hc|]. rewrite Eh in H. split; rewrite H by lia; by vm_compute.
Defined.

Lemma forks_agree_witness :
  FindFork (mapBlockIndex demo_tree) demo_chain (Some 15) = Ok (Some 2) /\
  LastCommonAncestor (mapBlockIndex demo_tree) 4 15 = Ok (Some 2).
Proof.
  destruct (forks_agree demo_tree demo_chain 4 15 demo_tree_inv demo_chain_of (demo_block 15 ltac:(by vm_compute)))
    as (r & Hf & Hl & _).
  assert (r = Some 2) as -> by (vm_compute in Hf; by injection Hf as <-). split; [exact Hf|exact Hl].
Defined.

Lemma locator_finds_common_block_witness : exists l a h,
  GetLocator (mapBlockIndex demo_tree) demo_chain (Some 15) = Ok (15 :: l) /\
  FindForkInGlobalIndex (mapBlockIndex demo_tree) demo_chain (15 :: l) = Ok (Some a) /\
  ancestor (mapBlockIndex demo_tree) 4 h a /\ a = 2.
Proof.
  assert (ancestor (mapBlockIndex demo_tree) 15 0 1) as H1 by (apply (demo_genesis 15 4); vm_compute; reflexivity).
  assert (ancestor (mapBlockIndex demo_tree) 4 0 1) as H2 by (apply (demo_genesis 4 3); vm_compute; reflexivity).
  destruct (locator_finds_common_block demo_tree demo_chain demo_chain 4 4 15 1 demo_tree_inv demo_chain_of demo_chain_of
    (demo_block 15 ltac:(by vm_compute)) H1 H2) as (l & a & h & Hl & _ & _ & Hf & Ha & _).
  exists l, a, h. split; [exact Hl|]. split; [exact Hf|]. split; [exact Ha|].
  assert (l = [14; 13; 2; 1]) as -> by (vm_compute in Hl; by injection Hl as <-).
  vm_compute in Hf. by injection Hf as <-.
Defined.

End Example.
