(* ===== verification/Pow.v ===== *)
(** * Difficulty, proof of work and subsidy
      ([src/src/pow.cpp], [kubu.cpp], [consensus/params.h], the consensus
      parameters of [chainparams.cpp])

    [bnNew *= n] takes the overload for a 32-bit word, so [n] is truncated;
    [bnNew /= n] converts [n] to a 256-bit number.  A failing [assert] is
    [Err]. *)

From S2P Require Import Prelude Nicknames Serialize Script Base58 Arith Header BlockIndex.
Open Scope Z_scope.
Open Scope kubu_scope.

(** ** Parameters *)

Record BIP9Deployment := mkDeployment { dep_bit : Z; nStartTime : Z; nTimeout : Z }.

Record Params := mkParams {
  nSubsidyHalvingInterval : Z;
  BIP34Height : Z;
  BIP65Height : Z;
  BIP66Height : Z;
  nRuleChangeActivationThreshold : Z;
  nMinerConfirmationWindow : Z;
  vDeployments : list BIP9Deployment;
  nCoinbaseMaturity : Z;
  powLimit : Z;
  fPowAllowMinDifficultyBlocks : bool;
  fPowNoRetargeting : bool;
  nPowTargetSpacing : Z;
  nPowTargetTimespan : Z;
  fDigishieldDifficultyCalculation : bool;
  fPowAllowDigishieldMinDifficultyBlocks : bool;
  nAuxpowChainId : Z;
  fStrictChainId : bool;
  fAllowLegacyBlocks : bool;
  nHeightEffective : Z
}.

Definition DifficultyAdjustmentInterval (p : Params) : Z := Z.quot (nPowTargetTimespan p) (nPowTargetSpacing p).

(** The parameters with their [pLeft] and [pRight] branches. *)
Inductive ParamsTree := PNode (params : Params) (pLeft pRight : option ParamsTree).

Fixpoint GetConsensus (t : ParamsTree) (nTargetHeight : Z) : Params :=
  match t with
  | PNode this pLeft pRight =>
      let right :=
        match pRight with
        | Some r =>
            if nHeightEffective this <? nTargetHeight then
              let pCandidate := GetConsensus r nTargetHeight in
              if nHeightEffective pCandidate <=? nTargetHeight then pCandidate else this
            else this
        | None => this
        end in
      match pLeft with
      | Some l => if nTargetHeight <? nHeightEffective this then GetConsensus l nTargetHeight else right
      | None => right
      end
  end.

Definition main_base : Params :=
  mkParams 1168000 1000 1000 1000 10640 11200
    [mkDeployment 28 1199145601 1230767999; mkDeployment 0 1462060800 1493596800; mkDeployment 1 1479168000 0]
    30 (2 ^ 236 - 1) false false 54 54 true false 63 true true 0.
Definition main_digishield : Params :=
  mkParams 1168000 1000 1000 1000 10640 11200 (vDeployments main_base)
    240 (2 ^ 236 - 1) false false 54 54 true false 63 true true 1000.
Definition main_auxpow : Params :=
  mkParams 1168000 1000 1000 1000 10640 11200 (vDeployments main_base)
    240 (2 ^ 236 - 1) false false 54 54 true false 63 true false 39000.
Definition main_root : ParamsTree :=
  PNode main_digishield (Some (PNode main_base None None)) (Some (PNode main_auxpow None None)).

Definition test_base : Params :=
  mkParams 1168000 1000 1000 1000 3200 3360
    [mkDeployment 28 1199145601 1230767999; mkDeployment 0 1456790400 1493596800; mkDeployment 1 1462060800 0]
    30 (2 ^ 236 - 1) true false 54 54 true false 63 false true 0.
Definition test_digishield : Params :=
  mkParams 1168000 1000 1000 1000 3200 3360 (vDeployments test_base)
    240 (2 ^ 236 - 1) false false 54 54 true false 63 false true 1000.
Definition test_minDifficulty : Params :=
  mkParams 1168000 1000 1000 1000 3200 3360 (vDeployments test_base)
    240 (2 ^ 236 - 1) true false 54 54 true true 63 false true 1250.
Definition test_auxpow : Params :=
  mkParams 1168000 1000 1000 1000 3200 3360 (vDeployments test_base)
    240 (2 ^ 236 - 1) true false 54 54 true true 63 false false 39000.
Definition test_root : ParamsTree :=
  PNode test_digishield (Some (PNode test_base None None))
    (Some (PNode test_minDifficulty None (Some (PNode test_auxpow None None)))).

Definition regtest_base : Params :=
  mkParams 150 100000000 1351 1251 540 720
    [mkDeployment 28 0 999999999999; mkDeployment 0 0 999999999999; mkDeployment 1 0 999999999999]
    60 (2 ^ 255 - 1) true true 1 (4 * 60 * 60) false false 63 true true 0.
Definition regtest_digishield : Params :=
  mkParams 150 100000000 1351 1251 540 720 (vDeployments regtest_base)
    60 (2 ^ 255 - 1) true true 1 1 true false 63 true true 10.
Definition regtest_auxpow : Params :=
  mkParams 150 100000000 1351 1251 540 720 (vDeployments regtest_base)
    60 (2 ^ 255 - 1) true true 1 1 true false 63 true false 20.
Definition regtest_root : ParamsTree :=
  PNode regtest_digishield (Some (PNode regtest_base None None)) (Some (PNode regtest_auxpow None None)).

(** ** Subsidy *)

Definition GetKubuBlockSubsidy (height : Z) (p : Params) : Z :=
  let halvings := Z.quot height (nSubsidyHalvingInterval p) in
  if halvings =? 0 then 48 * COIN
  else if halvings =? 1 then 24 * COIN
  else if halvings =? 2 then 12 * COIN
  else if halvings =? 3 then 6 * COIN
  else 2 * COIN.

(** ** The next target *)

Definition AllowDigishieldMinDifficultyForBlock (last : CBlockIndex) (pblock : CPureBlockHeader) (p : Params) : bool :=
  if negb (fPowAllowMinDifficultyBlocks p) then false
  else if nHeight last <? 1250 then false
  else nTime last + nPowTargetSpacing p * 2 <? header_GetBlockTime pblock.

(** The limits of the adjustment and the filtered timespan. *)
Definition timespan_limits (height : Z) (p : Params) : Z * Z :=
  let t := nPowTargetTimespan p in
  if fDigishieldDifficultyCalculation p then (t - Z.quot t 4, t + Z.quot t 2)
  else if 10000 <? height then (Z.quot t 4, t * 4)
  else if 5000 <? height then (Z.quot t 8, t * 4)
  else (Z.quot t 16, t * 4).
Definition modulated_timespan (height actual : Z) (p : Params) : Z :=
  let t := nPowTargetTimespan p in
  let n := if fDigishieldDifficultyCalculation p then t + Z.quot (actual - t) 8 else actual in
  let '(nMin, nMax) := timespan_limits height p in
  if n <? nMin then nMin else if nMax <? n then nMax else n.

(** [bnNew *= n; bnNew /= t], capped at the limit. *)
Definition retarget (bits n : Z) (p : Params) : result Z :=
  let bnPowLimit := UintToArith256 (powLimit p) in
  let '(bnOld, _, _) := SetCompact bits in
  bnNew ← op_div (op_mul32 bnOld (u32 n)) (base_uint_of (u64 (nPowTargetTimespan p)));
  GetCompact (if 0 <? CompareTo bnNew bnPowLimit then bnPowLimit else bnNew) false.

Definition CalculateKubuNextWorkRequired (last : CBlockIndex) (nFirstBlockTime : Z) (p : Params) : result Z :=
  retarget (nBits last) (modulated_timespan (nHeight last + 1) (nTime last - nFirstBlockTime) p) p.

Definition CalculateNextWorkRequired (last : CBlockIndex) (nFirstBlockTime : Z) (p : Params) : result Z :=
  if fPowNoRetargeting p then Ok (nBits last)
  else
    let t := nPowTargetTimespan p in
    let n := nTime last - nFirstBlockTime in
    let n := if n <? Z.quot t 4 then Z.quot t 4 else n in
    let n := if t * 4 <? n then t * 4 else n in
    retarget (nBits last) n p.

Fixpoint last_normal_bits (fuel : nat) (m : BlockMap) (pindex : Z) (limit interval : Z) : result Z :=
  b ← deref m pindex;
  match pprev b with
  | Some q =>
      if negb (Z.rem (nHeight b) interval =? 0) && (nBits b =? limit) then
        match fuel with
        | O => Err "out of fuel"
        | S fuel' => last_normal_bits fuel' m q limit interval
        end
      else Ok (nBits b)
  | None => Ok (nBits b)
  end.

Definition GetNextWorkRequired (m : BlockMap) (pindexLast : option Z) (pblock : CPureBlockHeader) (p : Params) : result Z :=
  nProofOfWorkLimit ← GetCompact (UintToArith256 (powLimit p)) false;
  match pindexLast with
  | None => Ok nProofOfWorkLimit
  | Some last =>
      b ← deref m last;
      if AllowDigishieldMinDifficultyForBlock b pblock p then Ok nProofOfWorkLimit
      else
        let interval := if 1000 <=? nHeight b then 1 else DifficultyAdjustmentInterval p in
        if negb (Z.rem (nHeight b + 1) interval =? 0) then
          if fPowAllowMinDifficultyBlocks p then
            if nTime b + nPowTargetSpacing p * 2 <? header_GetBlockTime pblock then Ok nProofOfWorkLimit
            else last_normal_bits (Z.to_nat (nHeight b)) m last nProofOfWorkLimit (DifficultyAdjustmentInterval p)
          else Ok (nBits b)
        else
          let blockstogoback := if negb (nHeight b + 1 =? interval) then interval else interval - 1 in
          let nHeightFirst := nHeight b - blockstogoback in
          reject (nHeightFirst <? 0) with "assertion nHeightFirst >= 0 failed" ;
          first ← GetAncestor m last nHeightFirst;
          match first with
          | None => Err "assertion pindexFirst failed"
          | Some f => bf ← deref m f; CalculateKubuNextWorkRequired b (nTime bf) p
          end
  end.

(** ** Checking work *)

Definition CheckProofOfWork (hash bits : Z) (p : Params) : bool :=
  let '(bnTarget, fNegative, fOverflow) := SetCompact bits in
  if fNegative || EqualTo bnTarget 0 || fOverflow || (0 <? CompareTo bnTarget (UintToArith256 (powLimit p))) then false
  else if 0 <? CompareTo (UintToArith256 hash) bnTarget then false
  else true.

(** ** Lemmas *)

Definition pow_limit_ok (p : Params) : Prop := 0 < powLimit p < M256.
Definition target_ok (p : Params) (bits : Z) : Prop :=
  in_u32 bits /\ Z.testbit bits 23 = false /\ 0 < compact_value bits <= powLimit p.

(** Multiplying the largest target by the longest timespan does not overflow. *)
Definition retarget_ok (height : Z) (p : Params) : Prop :=
  0 < nPowTargetTimespan p < 2 ^ 32 /\
  0 <= fst (timespan_limits height p) <= snd (timespan_limits height p) /\
  snd (timespan_limits height p) < 2 ^ 32 /\ powLimit p * snd (timespan_limits height p) < M256.

Lemma modulated_timespan_bounds height actual p : retarget_ok height p ->
  fst (timespan_limits height p) <= modulated_timespan height actual p <= snd (timespan_limits height p).
Proof.
  intros (_ & H & _). unfold modulated_timespan. destruct (timespan_limits height p) as [nMin nMax]. cbn [fst snd] in *.
  split_ifs; lia.
Qed.

Lemma GetCompact_limit p : pow_limit_ok p ->
  GetCompact (UintToArith256 (powLimit p)) false = Ok (compact_exp (powLimit p) * 2 ^ 24 + compact_mant (powLimit p)).
Proof.
  intros [H0 H]. destruct (UintToArith256_spec (powLimit p) ltac:(lia)) as [W V]. by rewrite GetCompact_spec, V.
Qed.

(** Encoding a positive target below the limit gives a valid target. *)
Lemma target_ok_encode p v : 0 < v <= powLimit p -> powLimit p < M256 ->
  target_ok p (compact_exp v * 2 ^ 24 + compact_mant v).
Proof.
  intros Hv Hl. destruct (compact_value_encode v ltac:(lia)) as (Hc & Hs & Hle & Happ & Hval).
  split_and!; [done|done| |lia]. destruct (Z.leb_spec (compact_exp v) 3); [lia|].
  pose proof (compact_mant_bounds v ltac:(lia)). pose proof (pow2_pos (8 * (compact_exp v - 3)) ltac:(lia)). nia.
Qed.

Lemma retarget_spec bits n p : pow_limit_ok p -> target_ok p bits -> 0 <= n < 2 ^ 32 -> 0 < nPowTargetTimespan p < 2 ^ 32 ->
  powLimit p * n < M256 ->
  let v := Z.min (powLimit p) (compact_value bits * n / nPowTargetTimespan p) in
  retarget bits n p = Ok (compact_exp v * 2 ^ 24 + compact_mant v).
Proof.
  intros [Hl0 Hl] (Hb & Hs & Ht) Hn Htime Hov. unfold retarget.
  destruct (UintToArith256_spec (powLimit p) ltac:(lia)) as [Wl Vl].
  destruct (SetCompact_spec bits Hb) as (old & -> & Wo & Vo). rewrite Z.mod_small in Vo by lia.
  rewrite u32_id by done. rewrite u64_id by (unfold in_u64; lia).
  destruct (op_mul32_spec old n Wo Hn) as [Wm Vm]. rewrite Vo, Z.mod_small in Vm by nia.
  pose proof (op_div_spec _ _ Wm (base_uint_of_wf (nPowTargetTimespan p))) as Hd.
  rewrite Vm, val_base_uint_of, (proj2 (Z.eqb_neq (nPowTargetTimespan p) 0)) in Hd by (unfold in_u64; lia).
  destruct Hd as (q & -> & Wq & Vq). cbn [mbind result_bind]. rewrite CompareTo_gt, Vl, Vq by done.
  destruct (Z.ltb_spec (powLimit p) (compact_value bits * n / nPowTargetTimespan p)).
  - rewrite GetCompact_spec, Vl, Z.min_l by (done || lia). done.
  - rewrite GetCompact_spec, Vq, Z.min_r by (done || lia). done.
Qed.

Lemma CheckProofOfWork_spec hash bits p : pow_limit_ok p -> in_u32 bits -> 0 <= hash < M256 ->
  CheckProofOfWork hash bits p =
    negb (Z.testbit bits 23) && (0 <? compact_value bits) && (compact_value bits <=? powLimit p) && (hash <=? compact_value bits).
Proof.
  intros [Hl0 Hl] Hb Hh. unfold CheckProofOfWork. destruct (UintToArith256_spec (powLimit p) ltac:(lia)) as [Wl Vl].
  destruct (UintToArith256_spec hash Hh) as [Wh Vh]. destruct (SetCompact_spec bits Hb) as (t & -> & Wt & Vt).
  pose proof (compact_value_bound bits Hb) as [H0 _]. rewrite EqualTo_spec by (done || unfold in_u64; lia).
  rewrite !CompareTo_gt, Vl, Vh, Vt by done. set (v := compact_value bits) in *.
  destruct (Z.leb_spec M256 v) as [Ho|Ho].
  { rewrite orb_true_r. cbn [orb]. rewrite (proj2 (Z.leb_gt v (powLimit p))), !andb_false_r by lia. done. }
  rewrite Z.mod_small by lia. destruct (Z.eqb_spec v 0) as [->|Hz]; cbn [negb andb].
  { cbn [orb]. rewrite !andb_false_r. done. }
  rewrite (proj2 (Z.ltb_lt 0 v)) by lia. destruct (Z.testbit bits 23); [done|]. cbn [orb andb negb].
  destruct (Z.ltb_spec (powLimit p) v).
  - by rewrite (proj2 (Z.leb_gt v (powLimit p))) by lia.
  - rewrite (proj2 (Z.leb_le v (powLimit p))) by lia. cbn [andb].
    destruct (Z.ltb_spec v hash); [by rewrite (proj2 (Z.leb_gt hash v)) by lia|by rewrite (proj2 (Z.leb_le hash v)) by lia].
Qed.

(** ** The next target of a block *)

(** A target as an unsigned compact number not above the limit. *)
Definition target_le (p : Params) (bits : Z) : Prop :=
  in_u32 bits /\ Z.testbit bits 23 = false /\ 0 <= compact_value bits <= powLimit p.
Definition targets_ok (p : Params) (m : BlockMap) : Prop := forall q b, m !! q = Some b -> target_ok p (nBits b).

Lemma target_ok_le p bits : target_ok p bits -> target_le p bits.
Proof. intros (? & ? & ?). split_and!; (done || lia). Qed.
Lemma target_le_encode p v : 0 <= v <= powLimit p -> powLimit p < M256 ->
  target_le p (compact_exp v * 2 ^ 24 + compact_mant v).
Proof.
  intros Hv Hl. destruct (Z.eq_dec v 0) as [->|].
  - split_and!; [by vm_compute|done|done|change (compact_value _) with 0; lia].
  - apply target_ok_le, target_ok_encode; lia.
Qed.

Section NextWork.
Context (m : BlockMap) (p : Params) (Hm : tree_ok m) (Hlim : pow_limit_ok p) (Htargets : targets_ok p m).

Lemma last_normal_bits_spec fuel q b limit interval : m !! q = Some b -> (Z.to_nat (nHeight b) <= fuel)%nat ->
  exists c, last_normal_bits fuel m q limit interval = Ok c /\ target_ok p c.
Proof.
  revert q b. induction fuel as [|fuel IH]; intros q b Hq Hf; cbn [last_normal_bits]; rewrite (deref_ok _ _ _ Hq);
    cbn [mbind result_bind].
  - destruct (Hm q b Hq) as [? _]. rewrite (genesis_of m Hm q b Hq) by lia. exists (nBits b). split; [done|by eapply Htargets].
  - destruct (pprev b) as [r|] eqn:Ep; [|exists (nBits b); split; [done|by eapply Htargets]].
    case_match; [|exists (nBits b); split; [done|by eapply Htargets]].
    destruct (Hm q b Hq) as (_ & _ & L). unfold linked in L. rewrite Ep in L. destruct L as (br & s & Hr & Eh & _).
    apply (IH r br Hr). lia.
Qed.

Lemma retarget_le bits n : target_ok p bits -> 0 <= n < 2 ^ 32 -> 0 < nPowTargetTimespan p < 2 ^ 32 ->
  powLimit p * n < M256 -> exists c, retarget bits n p = Ok c /\ target_le p c.
Proof.
  intros Hb Hn Ht Hov. eexists. split; [by apply retarget_spec|]. apply target_le_encode; [|apply Hlim].
  destruct Hlim, Hb as (_ & _ & Hb). split; [|lia]. apply Z.min_glb; [lia|]. apply Z.div_pos; [nia|lia].
Qed.

Lemma GetNextWorkRequired_spec pindexLast pblock :
  1 <= DifficultyAdjustmentInterval p ->
  match pindexLast with
  | Some q => exists b, m !! q = Some b /\ retarget_ok (nHeight b + 1) p
  | None => True
  end ->
  exists c, GetNextWorkRequired m pindexLast pblock p = Ok c /\ target_le p c.
Proof.
  intros Hi Hlast. unfold GetNextWorkRequired. rewrite GetCompact_limit by done. cbn [mbind result_bind].
  set (limit := compact_exp (powLimit p) * 2 ^ 24 + compact_mant (powLimit p)).
  assert (target_le p limit) as Hlimit by (destruct Hlim; apply target_le_encode; lia).
  destruct pindexLast as [q|]; [|by exists limit]. destruct Hlast as (b & Hq & Hr & Hmm & Hmax & Hov).
  rewrite (deref_ok _ _ _ Hq). cbn [mbind result_bind]. destruct (Hm q b Hq) as [H0 _].
  destruct (AllowDigishieldMinDifficultyForBlock _ _ _); [by exists limit|].
  set (interval := if 1000 <=? nHeight b then 1 else DifficultyAdjustmentInterval p).
  assert (1 <= interval) as Hint by (unfold interval; case_match; lia).
  destruct (Z.eqb_spec (Z.rem (nHeight b + 1) interval) 0) as [Hrem|Hrem]; cbn [negb].
  - set (back := if negb (nHeight b + 1 =? interval) then interval else interval - 1).
    assert (0 <= nHeight b - back <= nHeight b) as Hback.
    { apply Z.rem_divide in Hrem as [k Hk]; [|lia]. unfold back. destruct (Z.eqb_spec (nHeight b + 1) interval); cbn [negb]; [lia|].
      assert (k <> 1) by (intros ->; lia). assert (0 < k) by nia. nia. }
    rewrite reject_false by (apply Z.ltb_ge; lia).
    destruct (GetAncestor_in m Hm q b (nHeight b - back) Hq ltac:(lia)) as (f & -> & Hf). cbn [mbind result_bind].
    destruct (ancestor_height m Hm _ _ _ Hf) as (bf & Hbf & _). rewrite (deref_ok _ _ _ Hbf). cbn [mbind result_bind].
    pose proof (modulated_timespan_bounds (nHeight b + 1) (nTime b - nTime bf) p ltac:(split_and!; done || lia)).
    destruct Hlim. apply retarget_le; [by eapply Htargets|lia|lia|nia].
  - destruct (fPowAllowMinDifficultyBlocks p); [|exists (nBits b); split; [done|by eapply target_ok_le, Htargets]].
    case_match; [by exists limit|].
    destruct (last_normal_bits_spec (Z.to_nat (nHeight b)) q b limit (DifficultyAdjustmentInterval p) Hq ltac:(lia)) as (c & -> & Hc).
    exists c. split; [done|by apply target_ok_le].
Qed.

End NextWork.

Lemma AddToBlockIndex_targets `{CryptoOps} s block p s' hash : index_inv s -> hashPrevBlock block <> header_GetHash block ->
  targets_ok p (mapBlockIndex s) -> target_ok p (hdr_nBits block) -> AddToBlockIndex s block = Ok (s', hash) ->
  targets_ok p (mapBlockIndex s').
Proof.
  intros Hs Hprev Ht Hb Hadd. destruct (mapBlockIndex s !! header_GetHash block) as [b|] eqn:E.
  { unfold AddToBlockIndex in Hadd. rewrite E in Hadd. by injection Hadd as <- <-. }
  destruct (AddToBlockIndex_new s block Hs E Hprev (proj1 Hb)) as (b & s2 & ? & Hadd2 & Em & _ & _ & _ & _ & _ & Eb & _).
  rewrite Hadd in Hadd2. injection Hadd2 as <- _. intros q c Hq. rewrite Em in Hq.
  apply lookup_insert_Some in Hq as [[_ <-]|[_ Hq]]; [by rewrite Eb|by eapply Ht].
Qed.

(** ** Correctness *)

(** The main network retargets at every block. *)
Definition is_main (p : Params) : Prop := p = main_base \/ p = main_digishield \/ p = main_auxpow.

Lemma is_main_ok p height : is_main p -> pow_limit_ok p /\ DifficultyAdjustmentInterval p = 1 /\ retarget_ok height p /\
  timespan_limits height p = (41, 81) /\ nPowTargetTimespan p = 54 /\ powLimit p = 2 ^ 236 - 1 /\
  fPowAllowMinDifficultyBlocks p = false.
Proof.
  intros [->|[->| ->]]; (split_and!; [by vm_compute|done| |done|done|done|done]);
    unfold retarget_ok; split_and!; by vm_compute.
Qed.

Lemma mainnet_first m q b : tree_ok m -> m !! q = Some b -> exists bf, m !! default q (pprev b) = Some bf /\
  nHeight bf = nHeight b - (if nHeight b =? 0 then 0 else 1) /\ ancestor m q (nHeight bf) (default q (pprev b)).
Proof.
  intros Hm Hq. destruct (Hm q b Hq) as (H0 & _ & Hlink). unfold linked in Hlink. destruct (pprev b) as [r|] eqn:Ep; cbn [default].
  - destruct Hlink as (br & ? & Hr & Eh & _). exists br. destruct (Hm r br Hr) as [? _]. split_and!; [done| |].
    + destruct (Z.eqb_spec (nHeight b) 0); lia.
    + apply (ancestor_prev m Hm q b r); [done|done|by apply ancestor_refl].
  - exists b. split_and!; [done|destruct Hlink as [-> _]; done|by apply ancestor_refl].
Qed.

Lemma mainnet_next m p q b bf pblock : is_main p -> tree_ok m -> m !! q = Some b -> m !! default q (pprev b) = Some bf ->
  nHeight bf = nHeight b - (if nHeight b =? 0 then 0 else 1) -> ancestor m q (nHeight bf) (default q (pprev b)) ->
  GetNextWorkRequired m (Some q) pblock p =
    retarget (nBits b) (modulated_timespan (nHeight b + 1) (nTime b - nTime bf) p) p.
Proof.
  intros Hp Hm Hq Hbf Ehf Ha. destruct (is_main_ok p (nHeight b + 1) Hp) as (Hlim & Hint & _ & _ & _ & _ & Hmin).
  destruct (Hm q b Hq) as [H0 _]. destruct (Hm _ _ Hbf) as [Hf0 _].
  unfold GetNextWorkRequired. rewrite GetCompact_limit by done. cbn [mbind result_bind].
  rewrite (deref_ok _ _ _ Hq). cbn [mbind result_bind]. unfold AllowDigishieldMinDifficultyForBlock. rewrite Hmin, Hint.
  replace (if 1000 <=? nHeight b then 1 else 1) with 1 by (by destruct (1000 <=? nHeight b)). rewrite Z.rem_1_r. cbn [negb Z.eqb].
  rewrite reject_false by (apply Z.ltb_ge; destruct (Z.eqb_spec (nHeight b + 1) 1); cbn [negb]; lia).
  replace (nHeight b - _) with (nHeight bf).
  2: { rewrite Ehf. destruct (Z.eqb_spec (nHeight b) 0), (Z.eqb_spec (nHeight b + 1) 1); cbn [negb]; lia. }
  destruct (GetAncestor_in _ Hm q b (nHeight bf) Hq) as (f & -> & Hf); [split; [done|]; rewrite Ehf; case_match; lia|].
  cbn [mbind result_bind]. rewrite (ancestor_unique _ _ _ _ _ Hf Ha), (deref_ok _ _ _ Hbf). done.
Qed.

(** A number below [2 ^ 256] as the target its encoding stands for. *)
Lemma encode_target v : 0 <= v < M256 ->
  exists t, SetCompact (compact_exp v * 2 ^ 24 + compact_mant v) = (t, false, false) /\ val t <= v /\ (v - val t) * 2 ^ 15 <= v.
Proof.
  intros Hv. destruct (compact_value_encode v Hv) as (Hc & Hs & Hle & Happ & _).
  set (c := compact_exp v * 2 ^ 24 + compact_mant v) in *.
  destruct (SetCompact_spec c Hc) as (t & Hset & Wt & Vt). pose proof (compact_value_bound c Hc) as [Hc0 _].
  rewrite Z.mod_small in Vt by lia. rewrite Hs, andb_false_r, (proj2 (Z.leb_gt M256 _)) in Hset by lia.
  exists t. rewrite Vt. by split_and!.
Qed.

(** on the main network every block retargets from the time since its
    predecessor.  The new target is the old one times the filtered timespan,
    which lies between 41 and 81, over 54, capped at the limit: computed in
    256 bits without overflow and rounded down to a compact number. *)
Theorem mainnet_retarget s p q b pblock : is_main p -> index_inv s -> targets_ok p (mapBlockIndex s) ->
  mapBlockIndex s !! q = Some b ->
  exists bf n v c t, mapBlockIndex s !! default q (pprev b) = Some bf /\
    n = Z.max 41 (Z.min 81 (54 + Z.quot (nTime b - nTime bf - 54) 8)) /\
    v = Z.min (powLimit p) (compact_value (nBits b) * n / 54) /\
    GetNextWorkRequired (mapBlockIndex s) (Some q) pblock p = Ok c /\
    SetCompact c = (t, false, false) /\ val t <= v /\ (v - val t) * 2 ^ 15 <= v.
Proof.
  intros Hp [Hm _] Ht Hq. destruct (is_main_ok p (nHeight b + 1) Hp) as (Hlim & _ & Hr & Hl & Hspan & _ & _).
  destruct (mainnet_first _ q b Hm Hq) as (bf & Hbf & Ehf & Ha).
  pose proof (mainnet_next _ p q b bf pblock Hp Hm Hq Hbf Ehf Ha) as Hnext. pose proof (Ht q b Hq) as Hbits.
  pose proof (modulated_timespan_bounds (nHeight b + 1) (nTime b - nTime bf) p Hr) as Hmod.
  assert (modulated_timespan (nHeight b + 1) (nTime b - nTime bf) p =
    Z.max 41 (Z.min 81 (54 + Z.quot (nTime b - nTime bf - 54) 8))) as En.
  { unfold modulated_timespan. rewrite Hl, Hspan.
    assert (fDigishieldDifficultyCalculation p = true) as -> by (destruct Hp as [->|[->| ->]]; done). split_ifs; lia. }
  rewrite Hl, En in *. cbn [fst snd] in Hmod. set (n := Z.max 41 _) in *. destruct Hr as (Ht0 & _ & _ & Hov).
  rewrite Hl in Hov. cbn [snd] in Hov. rewrite retarget_spec in Hnext by (done || lia || (destruct Hlim; nia)).
  rewrite Hspan in Hnext. set (v := Z.min (powLimit p) _) in Hnext.
  destruct (encode_target v) as (t & Hset & Hle & Happ).
  { destruct Hlim, Hbits as (_ & _ & Hb). unfold v. split; [apply Z.min_glb; [lia|apply Z.div_pos; lia]|lia]. }
  exists bf, n, v. eexists. exists t. split; [exact Hbf|]. split; [reflexivity|]. split; [reflexivity|].
  split; [exact Hnext|]. split; [exact Hset|]. split; [exact Hle|exact Happ].
Qed.

Lemma CheckProofOfWork_iff hash bits p : pow_limit_ok p -> in_u32 bits -> 0 <= hash < M256 ->
  CheckProofOfWork hash bits p = true <->
  exists t, SetCompact bits = (t, false, false) /\ 0 < val t <= powLimit p /\ hash <= val t.
Proof.
  intros Hl Hb Hh. rewrite CheckProofOfWork_spec by done. destruct (SetCompact_spec bits Hb) as (t & E & Wt & Vt).
  rewrite E. destruct Hl as [Hl0 Hl]. pose proof (compact_value_bound bits Hb) as [H0 _]. set (v := compact_value bits) in *.
  rewrite !andb_true_iff, negb_true_iff, Z.ltb_lt, !Z.leb_le. split.
  - intros [[[Hs Hpos] Hle] Hhash]. exists t. rewrite Z.mod_small in Vt by lia.
    rewrite Hs, andb_false_r, (proj2 (Z.leb_gt M256 v)), Vt by lia. split_and!; (done || lia).
  - intros (t' & [= <- Hneg Hov] & Hpos & Hle). apply Z.leb_gt in Hov. rewrite Z.mod_small in Vt by lia.
    rewrite Vt in *. rewrite (proj2 (Z.eqb_neq v 0)) in Hneg by lia. split_and!; (done || lia).
Qed.

(** a hash proves the work claimed by [nBits] exactly when the compact
    target is positive, does not overflow, is not above the limit, and the
    hash, read as a number, does not exceed it. *)
Theorem CheckProofOfWork_correct hash bits p : pow_limit_ok p -> in_u32 bits -> 0 <= hash < M256 ->
  CheckProofOfWork hash bits p = true <->
  exists t, SetCompact bits = (t, false, false) /\ 0 < val t <= powLimit p /\ hash <= val t.
Proof. apply CheckProofOfWork_iff. Qed.

(** The coins of the blocks below height [n]. *)
Fixpoint issued (p : Params) (n : nat) : Z :=
  match n with O => 0 | S n' => issued p n' + GetKubuBlockSubsidy (Z.of_nat n') p end.

Lemma subsidy_steps h p : 0 < nSubsidyHalvingInterval p -> 0 <= h ->
  let i := nSubsidyHalvingInterval p in
  GetKubuBlockSubsidy h p =
    if h <? i then 48 * COIN else if h <? 2 * i then 24 * COIN else if h <? 3 * i then 12 * COIN
    else if h <? 4 * i then 6 * COIN else 2 * COIN.
Proof.
  intros Hi Hh. cbn zeta. unfold GetKubuBlockSubsidy. set (i := nSubsidyHalvingInterval p) in *.
  rewrite Z.quot_div_nonneg by lia. pose proof (Z.div_mod h i ltac:(lia)). pose proof (Z.mod_pos_bound h i Hi).
  assert (forall k, (h / i =? k) = (k * i <=? h) && (h <? (k + 1) * i)) as E.
  { intros k. destruct (Z.eqb_spec (h / i) k) as [<-|]; symmetry.
    - apply andb_true_iff. split; [apply Z.leb_le; lia|apply Z.ltb_lt; lia].
    - apply andb_false_iff. destruct (Z.lt_trichotomy k (h / i)) as [|[|]]; [right; apply Z.ltb_ge|lia|left; apply Z.leb_gt]; nia. }
  rewrite !E. split_ifs; nia.
Qed.

(** The blocks of interval [k] below height [n], and those after the fourth. *)
Definition blocks_in (i k n : Z) : Z := Z.max 0 (Z.min (n - k * i) i).
Definition blocks_after (i n : Z) : Z := Z.max 0 (n - 4 * i).

Lemma blocks_in_succ i k n : 0 < i ->
  blocks_in i k (n + 1) = blocks_in i k n + (if (k * i <=? n) && (n <? k * i + i) then 1 else 0).
Proof. intros Hi. unfold blocks_in. generalize (k * i). intros z. split_ifs; lia. Qed.
Lemma blocks_after_succ i n : blocks_after i (n + 1) = blocks_after i n + (if 4 * i <=? n then 1 else 0).
Proof. unfold blocks_after. split_ifs; lia. Qed.

Lemma issued_spec p n : 0 < nSubsidyHalvingInterval p ->
  let i := nSubsidyHalvingInterval p in
  let z := Z.of_nat n in
  issued p n = (48 * blocks_in i 0 z + 24 * blocks_in i 1 z + 12 * blocks_in i 2 z + 6 * blocks_in i 3 z
    + 2 * blocks_after i z) * COIN.
Proof.
  intros Hi. cbn zeta. induction n as [|n IH].
  - cbn [issued]. unfold blocks_in, blocks_after. rewrite !Z.min_l, !Z.max_l by lia. done.
  - cbn [issued]. rewrite IH, subsidy_steps by lia. rewrite Nat2Z.inj_succ. unfold Z.succ.
    rewrite !blocks_in_succ, blocks_after_succ by done.
    generalize (blocks_in (nSubsidyHalvingInterval p) 0 (Z.of_nat n)) (blocks_in (nSubsidyHalvingInterval p) 1 (Z.of_nat n))
      (blocks_in (nSubsidyHalvingInterval p) 2 (Z.of_nat n)) (blocks_in (nSubsidyHalvingInterval p) 3 (Z.of_nat n))
      (blocks_after (nSubsidyHalvingInterval p) (Z.of_nat n)). intros.
    unfold COIN. split_ifs; lia.
Qed.

Lemma issued_within p n : nSubsidyHalvingInterval p = 1168000 -> issued p n <= MAX_MONEY <-> Z.of_nat n <= 352112000.
Proof. intros E. rewrite issued_spec, E by lia. unfold blocks_in, blocks_after, MAX_MONEY, COIN. lia. Qed.

(** the coins created by the subsidies of the first [n] blocks: 48, 24, 12
    and 6 coins a block in the first four intervals and 2 from then on.  On
    the main network they stay within [MAX_MONEY] for more than 352 million
    blocks. *)
Theorem issued_supply p n : 0 < nSubsidyHalvingInterval p ->
  let i := nSubsidyHalvingInterval p in
  let z := Z.of_nat n in
  issued p n = (48 * blocks_in i 0 z + 24 * blocks_in i 1 z + 12 * blocks_in i 2 z + 6 * blocks_in i 3 z
    + 2 * blocks_after i z) * COIN /\
  (i = 1168000 -> (issued p n <= MAX_MONEY <-> z <= 352112000)).
Proof.
  intros Hi. split; [by apply issued_spec|]. by apply issued_within.
Qed.

(** ** Examples *)

Module PowExample.
Import BlockIndex.Example.

Definition main_header (prev nonce time : Z) : CPureBlockHeader := mkHeader 1 prev 0 time 0x1e0ffff0 nonce.
Definition main_headers : list CPureBlockHeader := [main_header 0 1 1000; main_header 1 2 1054; main_header 2 3 1400].
Definition main_tree : BlockTree := fold_left demo_add main_headers (mkTree ∅ None ∅).

Lemma main_tree_ok : index_inv main_tree /\ targets_ok main_base (mapBlockIndex main_tree).
Proof.
  unfold main_tree.
  assert (Forall (fun h => hashPrevBlock h <> header_GetHash h /\ target_ok main_base (hdr_nBits h)) main_headers) as Hh.
  { repeat (apply Forall_cons; split; [split; [vm_compute; discriminate|split_and!; by vm_compute]|]). constructor. }
  assert (targets_ok main_base (mapBlockIndex (mkTree ∅ None ∅))) as H0 by (intros q b Hq; inversion Hq).
  revert H0. generalize index_inv_empty.
  generalize (mkTree ∅ None ∅). induction Hh as [|h l [Hp Hb] _ IH]; intros s Hs Ht; [done|].
  cbn [fold_left]. unfold demo_add at 2 4.
  destruct (AddToBlockIndex_spec s h Hs Hp (proj1 Hb)) as (s' & b & E & Hs' & _). rewrite E.
  apply IH; [done|]. by apply (AddToBlockIndex_targets s h main_base s' (header_GetHash h)).
Qed.

Lemma mainnet_retarget_witness : exists c t,
  GetNextWorkRequired (mapBlockIndex main_tree) (Some 2) (main_header 2 3 1400) main_base = Ok c /\
  SetCompact c = (t, false, false) /\ val t <= compact_value 0x1e0ffff0 * 54 / 54.
Proof.
  destruct main_tree_ok as [Hi Ht].
  destruct (mapBlockIndex main_tree !! 2) as [b|] eqn:Hb; [|vm_compute in Hb; discriminate].
  destruct (mainnet_retarget main_tree main_base 2 b (main_header 2 3 1400) (or_introl eq_refl) Hi Ht Hb)
    as (bf & n & v & c & t & Hbf & Hn & Hv & Hc & Hset & Hle & _).
  exists c, t. split; [exact Hc|]. split; [exact Hset|].
  vm_compute in Hb. injection Hb as <-. vm_compute in Hbf. injection Hbf as <-.
  assert (v = compact_value 0x1e0ffff0 * 54 / 54) as <-; [|exact Hle]. rewrite Hv, Hn. by vm_compute.
Defined.

Lemma CheckProofOfWork_correct_witness : CheckProofOfWork 5 0x1e0ffff0 main_base = true /\
  exists t, SetCompact 0x1e0ffff0 = (t, false, false) /\ 0 < val t <= powLimit main_base /\ 5 <= val t.
Proof.
  assert (pow_limit_ok main_base) as Hl by (by vm_compute). assert (in_u32 0x1e0ffff0) as Hb by (by vm_compute).
  assert (CheckProofOfWork 5 0x1e0ffff0 main_base = true) as E by (by vm_compute). split; [exact E|].
  apply (CheckProofOfWork_correct 5 0x1e0ffff0 main_base Hl Hb); [split; [discriminate|reflexivity]|exact E].
Defined.

Lemma issued_supply_witness : issued main_base 3 = 144 * COIN.
Proof.
  destruct (issued_supply main_base 3 ltac:(cbn; lia)) as [E _]. rewrite E. by vm_compute.
Defined.

End PowExample.
