(* ===== verification/NicknameOp.v ===== *)
(** * Nickname operations in scripts ([src/src/nicknameop.h], [nicknameop.cpp])

    An operation is a payload behind [OP_RETURN].  [AddressOps] stands for the
    address class; the [reason] of a failure is the one written when the
    caller's string is empty. *)

From S2P Require Import Prelude Nicknames Serialize Script Base58.
Open Scope Z_scope.
Open Scope reader_scope.
Open Scope kubu_scope.

(** ** Data *)

(** [OTHER raw]: an [enum class : uint8_t] holds every byte. *)
Inductive NicknameOpType :=
| NONE | REGISTER | UPDATE | TRANSFER | RENEW | RELEASE | CLAIM_BOND
| OTHER (raw : Z).

#[export] Instance NicknameOpType_eq_dec : EqDecision NicknameOpType.
Proof. solve_decision. Defined.

(** [static_cast<uint8_t>(type)] and back. *)
Definition op_byte (type : NicknameOpType) : Z :=
  match type with
  | NONE => 0 | REGISTER => 1 | UPDATE => 2 | TRANSFER => 3
  | RENEW => 4 | RELEASE => 5 | CLAIM_BOND => 6 | OTHER raw => raw
  end.
Definition op_of_byte (z : Z) : NicknameOpType :=
  if z =? 0 then NONE else if z =? 1 then REGISTER else if z =? 2 then UPDATE
  else if z =? 3 then TRANSFER else if z =? 4 then RENEW else if z =? 5 then RELEASE
  else if z =? 6 then CLAIM_BOND else OTHER z.

Record NicknameOperation := mkOperation {
  op_type : NicknameOpType;
  op_nickname : string;
  op_ownerPubKey : bytes;
  op_payoutAddress : string;
  op_newOwnerPubKey : bytes;
}.

Definition empty_operation : NicknameOperation := mkOperation NONE EmptyString [] EmptyString [].

Definition KUBU_NICKNAME_MAGIC : bytes := [x4b; x4e; x41; x31].
Definition DEST_PKH : byte := x01.
Definition DEST_SH : byte := x02.

Section Operations.
Context `{AddressOps}.

(** ** Destinations *)

Definition EncodeDestinationBytes (address : string) : result bytes :=
  match address_parse address with
  | None => Err "invalid payout address"
  | Some (CKeyID keyID) => Ok (DEST_PKH :: ToByteVector keyID)
  | Some (CScriptID scriptID) => Ok (DEST_SH :: ToByteVector scriptID)
  | Some CNoDestination => Err "unsupported payout destination type"
  end.

Definition DecodeDestinationBytes (encoded : bytes) : result string :=
  reject negb (len encoded =? 21) with "invalid compact destination payload";
  match encoded with
  | t :: hash =>
      if bool_decide (t = DEST_PKH) then Ok (address_print (CKeyID (uint160_of hash)))
      else if bool_decide (t = DEST_SH) then Ok (address_print (CScriptID (uint160_of hash)))
      else Err "unknown compact destination type"
  | [] => Err "unknown compact destination type"
  end.

(** ** Building *)

Definition is_op (type t : NicknameOpType) : bool := bool_decide (type = t).

Definition BuildNicknameOpScript (operation : NicknameOperation) : result bytes :=
  let type := op_type operation in
  let normalized := Nicknames.NormalizeNickname (op_nickname operation) in
  _ ← Nicknames.IsValidNormalizedNickname normalized;
  payoutBytes ← (if is_op type REGISTER || is_op type UPDATE
                 then EncodeDestinationBytes (op_payoutAddress operation) else Ok []);
  reject (is_op type REGISTER && negb (len (op_ownerPubKey operation) =? COMPRESSED_SIZE)) ||
         (is_op type TRANSFER && negb (len (op_newOwnerPubKey operation) =? COMPRESSED_SIZE))
    with "nickname operations currently require compressed pubkeys";
  let payload := KUBU_NICKNAME_MAGIC ++ ser_writedata8 (op_byte type) ++ Serialize normalized in
  payload ← (match type with
             | REGISTER => Ok (payload ++ Serialize (op_ownerPubKey operation) ++ Serialize payoutBytes)
             | UPDATE => Ok (payload ++ Serialize payoutBytes)
             | TRANSFER => Ok (payload ++ Serialize (op_newOwnerPubKey operation))
             | RENEW | RELEASE | CLAIM_BOND => Ok payload
             | NONE | OTHER _ => Err "unknown nickname operation type"
             end);
  reject MAX_OP_RETURN_RELAY <? len payload
    with "nickname operation exceeds current OP_RETURN relay limit";
  Ok (push_opcode OP_RETURN ++ push_data payload).

(** ** Extracting *)

(** [ReadBytes]: the field, and the stream after it. *)
Definition ReadBytes (ss : bytes) (maxSize : Z) : result (bytes * bytes) :=
  match Unserialize ss with
  | (Err _, _) => Err "failed to deserialize nickname operation field"
  | (Ok tmp, ss') => reject maxSize <? len tmp with "nickname operation field exceeds limit"; Ok (tmp, ss')
  end.

(** [ReadBytes] of a compressed key, with the message of its caller. *)
Definition ReadPubKey (ss : bytes) (msg : string) : result (bytes * bytes) :=
  '(key, ss') ← ReadBytes ss COMPRESSED_SIZE;
  reject negb (len key =? COMPRESSED_SIZE) with msg;
  Ok (key, ss').

(** The fields after the name. *)
Definition read_fields (type : NicknameOpType) (nickname : string) (ss : bytes) : result NicknameOperation :=
  match type with
  | REGISTER =>
      '(key, ss1) ← ReadPubKey ss "register operation requires compressed owner pubkey";
      '(payoutBytes, _) ← ReadBytes ss1 21;
      address ← DecodeDestinationBytes payoutBytes;
      Ok (mkOperation type nickname key address [])
  | UPDATE =>
      '(payoutBytes, _) ← ReadBytes ss 21;
      address ← DecodeDestinationBytes payoutBytes;
      Ok (mkOperation type nickname [] address [])
  | TRANSFER =>
      '(key, _) ← ReadPubKey ss "transfer operation requires compressed new owner pubkey";
      Ok (mkOperation type nickname [] EmptyString key)
  | RENEW | RELEASE | CLAIM_BOND => Ok (mkOperation type nickname [] EmptyString [])
  | NONE | OTHER _ => Err "unknown nickname operation type"
  end.

(** The payload behind the push. *)
Definition read_payload (pushed : bytes) : result NicknameOperation :=
  match read 4 pushed with
  | (Err _, _) => Err "nickname payload is truncated"
  | (Ok magic, s1) =>
      reject negb (bool_decide (magic = KUBU_NICKNAME_MAGIC)) with "nickname payload magic mismatch";
      match ser_readdata8 s1 with
      | (Err _, _) => Err "nickname payload is malformed"
      | (Ok opType, s2) =>
          match Unserialize s2 with
          | (Err _, _) => Err "nickname payload is malformed"
          | (Ok nickname, s3) =>
              _ ← Nicknames.IsValidNormalizedNickname nickname;
              read_fields (op_of_byte opType) nickname s3
          end
      end
  end.

Definition ExtractNicknameOperation (script : bytes) : result NicknameOperation :=
  match GetOp2 script with
  | None => Err "script is not an OP_RETURN nickname operation"
  | Some (opcode, _, pc) =>
      reject negb (opcode =? OP_RETURN) with "script is not an OP_RETURN nickname operation";
      match GetOp2 pc with
      | Some (_, pushed, []) => read_payload pushed
      | _ => Err "nickname operation must contain a single pushed payload"
      end
  end.

Definition NicknameOpTypeToString (type : NicknameOpType) : string :=
  match type with
  | REGISTER => "NAME_REGISTER" | UPDATE => "NAME_UPDATE" | TRANSFER => "NAME_TRANSFER"
  | RENEW => "NAME_RENEW" | RELEASE => "NAME_RELEASE" | CLAIM_BOND => "NAME_CLAIM_BOND"
  | NONE | OTHER _ => "NONE"
  end.

(** ** What an operation has to satisfy *)

Definition known_type (type : NicknameOpType) : bool :=
  match type with NONE | OTHER _ => false | _ => true end.
Definition has_owner (type : NicknameOpType) : bool := match type with REGISTER => true | _ => false end.
Definition has_payout (type : NicknameOpType) : bool :=
  match type with REGISTER | UPDATE => true | _ => false end.
Definition has_new_owner (type : NicknameOpType) : bool := match type with TRANSFER => true | _ => false end.

(** The inputs [BuildNicknameOpScript] accepts. *)
Record buildable (op : NicknameOperation) : Prop := {
  b_type : known_type (op_type op) = true;
  b_name : Nicknames.nickname_wf (Nicknames.NormalizeNickname (op_nickname op));
  b_owner : has_owner (op_type op) = true -> len (op_ownerPubKey op) = 33;
  b_payout : has_payout (op_type op) = true -> is_Some (address_parse (op_payoutAddress op));
  b_new_owner : has_new_owner (op_type op) = true -> len (op_newOwnerPubKey op) = 33;
}.

(** The address as the class prints it. *)
Definition reprint (address : string) : string :=
  match address_parse address with Some dest => address_print dest | None => EmptyString end.

(** The operation with its name normalised, its address reprinted and the
    fields its type does not use cleared. *)
Definition canonical (op : NicknameOperation) : NicknameOperation :=
  let type := op_type op in
  mkOperation type (Nicknames.NormalizeNickname (op_nickname op))
    (if has_owner type then op_ownerPubKey op else [])
    (if has_payout type then reprint (op_payoutAddress op) else EmptyString)
    (if has_new_owner type then op_newOwnerPubKey op else []).

(** The payload of an operation whose payout is encoded as [payoutBytes]. *)
Definition payload_of (op : NicknameOperation) (payoutBytes : bytes) : bytes :=
  KUBU_NICKNAME_MAGIC ++ ser_writedata8 (op_byte (op_type op)) ++
  Serialize (Nicknames.NormalizeNickname (op_nickname op)) ++
  (if has_owner (op_type op) then Serialize (op_ownerPubKey op) else []) ++
  (if has_payout (op_type op) then Serialize payoutBytes else []) ++
  (if has_new_owner (op_type op) then Serialize (op_newOwnerPubKey op) else []).

End Operations.

(** ** Lemmas *)

Section Lemmas.
Context `{AddressCodec}.

Lemma op_of_byte_byte type : known_type type = true -> op_of_byte (op_byte type) = type.
Proof. by destruct type. Qed.

Lemma encode_decode_destination address dest :
  address_parse address = Some dest ->
  exists encoded, EncodeDestinationBytes address = Ok encoded /\ len encoded = 21 /\
    DecodeDestinationBytes encoded = Ok (address_print dest).
Proof.
  intros E. pose proof (address_parse_id _ _ E) as Hid.
  assert (Hl : forall t id, len (t :: ToByteVector id) = 21)
    by (intros t id; unfold len, ToByteVector; cbn [length]; by rewrite length_le_bytes).
  unfold EncodeDestinationBytes, DecodeDestinationBytes, whenever. rewrite E.
  destruct dest as [|id|id]; [done|..]; eexists; (split; [done|]); (split; [apply Hl|]);
    rewrite Hl; cbn -[ToByteVector]; unfold uint160_of, ToByteVector; by rewrite le_value_bytes_id.
Qed.

Lemma DecodeDestinationBytes_inv encoded address :
  DecodeDestinationBytes encoded = Ok address -> exists dest, id_ok dest /\ address = address_print dest.
Proof.
  unfold DecodeDestinationBytes, whenever. destruct (Z.eqb_spec (len encoded) 21) as [Hl|]; cbn [negb]; [|done].
  destruct encoded as [|t hash]; [done|].
  assert (Hr : 0 <= uint160_of hash < 256 ^ 20).
  { pose proof (le_value_range hash) as Hr. unfold len in Hl. cbn in Hl.
    by replace (length hash) with 20%nat in Hr by lia. }
  repeat case_bool_decide; intros [= <-]; eexists; (split; [|reflexivity]); exact Hr.
Qed.

(** The bytes of a field of at most [MAX_SIZE] bytes. *)
Lemma ReadBytes_app v rest maxSize :
  len v <= maxSize -> maxSize <= MAX_SIZE -> ReadBytes (Serialize v ++ rest) maxSize = Ok (v, rest).
Proof.
  intros Hv Hm. unfold ReadBytes, len in *. rewrite (unserialize_serialize (wf := fun v : bytes => Z.of_nat (length v) <= MAX_SIZE)) by lia.
  unfold whenever, len. by rewrite (proj2 (Z.ltb_ge _ _)).
Qed.

Lemma ReadBytes_inv ss maxSize v ss' : ReadBytes ss maxSize = Ok (v, ss') -> len v <= maxSize.
Proof.
  unfold ReadBytes, whenever. destruct (Unserialize ss) as [[tmp|] s1]; [|done].
  destruct (Z.ltb_spec maxSize (len tmp)); [done|]. by intros [= <- <-].
Qed.

Lemma ReadPubKey_app v rest msg : len v = 33 -> ReadPubKey (Serialize v ++ rest) msg = Ok (v, rest).
Proof.
  intros Hv. unfold ReadPubKey, COMPRESSED_SIZE. rewrite ReadBytes_app by (unfold MAX_SIZE; lia).
  cbn [mbind result_bind]. by rewrite Hv.
Qed.

Lemma ReadPubKey_inv ss msg v ss' : ReadPubKey ss msg = Ok (v, ss') -> len v = 33.
Proof.
  unfold ReadPubKey, whenever. destruct (ReadBytes ss COMPRESSED_SIZE) as [[k s]|]; [|done].
  cbn [mbind result_bind]. destruct (Z.eqb_spec (len k) COMPRESSED_SIZE); cbn [negb]; [|done]. by intros [= <- <-].
Qed.

Lemma len_Serialize_bytes (v : bytes) : len v <= 252 -> len (Serialize v) = 1 + len v.
Proof.
  intros Hv. cbn [Serialize Serializable_bytes]. unfold WriteCompactSize. fold (len v).
  rewrite (proj2 (Z.ltb_lt _ _)) by lia. rewrite len_app. unfold ser_writedata8. by rewrite len_le_bytes.
Qed.

Lemma len_Serialize_string (s : string) :
  (String.length s <= 252)%nat -> len (Serialize s) = 1 + Z.of_nat (String.length s).
Proof.
  intros Hs. cbn [Serialize Serializable_string]. unfold WriteCompactSize.
  rewrite (proj2 (Z.ltb_lt _ _)) by lia. rewrite len_app. unfold ser_writedata8. rewrite len_le_bytes.
  unfold len. by rewrite length_bytes_of_string.
Qed.

(** The payload is read back up to its fields. *)
Lemma read_payload_app type name fields :
  known_type type = true -> Nicknames.nickname_wf name ->
  read_payload (KUBU_NICKNAME_MAGIC ++ ser_writedata8 (op_byte type) ++ Serialize name ++ fields) =
  read_fields type name fields.
Proof.
  intros Ht Hn. unfold read_payload. rewrite read_app by done. unfold whenever.
  rewrite bool_decide_eq_true_2 by done. cbn [negb].
  unfold ser_readdata8, ser_writedata8. rewrite ser_readdata_app by (destruct type; done || (cbn; lia)).
  rewrite (unserialize_serialize (wf := fun s : string => Z.of_nat (String.length s) <= MAX_SIZE))
    by (destruct Hn as [Hl _ _ _ _ _]; unfold MAX_SIZE; lia).
  rewrite (proj2 (Nicknames.IsValidNormalizedNickname_wf name) Hn). cbn [mbind result_bind].
  by rewrite op_of_byte_byte.
Qed.

Lemma ExtractNicknameOperation_push payload :
  len payload < 2 ^ 32 ->
  ExtractNicknameOperation (push_opcode OP_RETURN ++ push_data payload) = read_payload payload.
Proof.
  intros Hp. unfold ExtractNicknameOperation. rewrite GetOp2_push_opcode by done. unfold whenever.
  change (OP_RETURN =? OP_RETURN) with true. cbn [negb].
  rewrite <- (app_nil_r (push_data payload)), GetOp2_push_data by done. done.
Qed.

Lemma payload_len op payoutBytes :
  buildable op -> (has_payout (op_type op) = true -> len payoutBytes = 21) ->
  len (payload_of op payoutBytes) <= 78.
Proof.
  intros [_ [Hl _ _ _ _ _] Ho _ Hn] Hp. unfold payload_of. rewrite !len_app.
  rewrite len_Serialize_string by lia. unfold ser_writedata8. rewrite len_le_bytes.
  change (len KUBU_NICKNAME_MAGIC) with 4.
  destruct (op_type op); cbn [has_owner has_payout has_new_owner] in *; change (len []) with 0;
    rewrite ?len_Serialize_bytes by (rewrite ?Ho, ?Hp, ?Hn by done; lia);
    rewrite ?Ho, ?Hp, ?Hn by done; lia.
Qed.

(** The cases of the operation types folded into the payload. *)
Lemma Build_cases op :
  BuildNicknameOpScript op =
  (_ ← Nicknames.IsValidNormalizedNickname (Nicknames.NormalizeNickname (op_nickname op));
   pb ← (if has_payout (op_type op) then EncodeDestinationBytes (op_payoutAddress op) else Ok []);
   reject (has_owner (op_type op) && negb (len (op_ownerPubKey op) =? 33)) ||
          (has_new_owner (op_type op) && negb (len (op_newOwnerPubKey op) =? 33))
     with "nickname operations currently require compressed pubkeys";
   reject negb (known_type (op_type op)) with "unknown nickname operation type";
   reject 83 <? len (payload_of op pb) with "nickname operation exceeds current OP_RETURN relay limit";
   Ok (push_opcode OP_RETURN ++ push_data (payload_of op pb))).
Proof.
  unfold BuildNicknameOpScript, COMPRESSED_SIZE, MAX_OP_RETURN_RELAY, payload_of.
  destruct (Nicknames.IsValidNormalizedNickname _) as [[]|]; [|done]. cbn [mbind result_bind].
  replace (is_op (op_type op) REGISTER || is_op (op_type op) UPDATE) with (has_payout (op_type op)) by by destruct (op_type op).
  replace (is_op (op_type op) REGISTER) with (has_owner (op_type op)) by by destruct (op_type op).
  replace (is_op (op_type op) TRANSFER) with (has_new_owner (op_type op)) by by destruct (op_type op).
  destruct (if has_payout (op_type op) then _ else _) as [pb|]; [|done]. cbn [mbind result_bind].
  unfold whenever. destruct (_ || _); [done|].
  destruct (op_type op); cbn [has_owner has_payout has_new_owner known_type negb mbind result_bind];
    rewrite ?app_nil_r, <- ?app_assoc; done.
Qed.

Lemma Build_ok op :
  buildable op ->
  exists payload, BuildNicknameOpScript op = Ok (push_opcode OP_RETURN ++ push_data payload) /\
    len payload <= 78 /\ read_payload payload = Ok (canonical op).
Proof.
  intros Hb. pose proof Hb as [Ht Hname Ho Hp Hn].
  assert (Hpay : exists pb, (if has_payout (op_type op) then EncodeDestinationBytes (op_payoutAddress op) else Ok []) = Ok pb /\
    (has_payout (op_type op) = true -> len pb = 21 /\ DecodeDestinationBytes pb = Ok (reprint (op_payoutAddress op)))).
  { destruct (has_payout (op_type op)); [|by exists []].
    destruct (Hp eq_refl) as [dest Ed]. destruct (encode_decode_destination _ _ Ed) as (pb & E1 & E2 & E3).
    exists pb. unfold reprint. by rewrite Ed. }
  destruct Hpay as (pb & Epb & Hpb). exists (payload_of op pb).
  pose proof (payload_len op pb Hb ltac:(intros; by apply Hpb)) as Hlen. split_and!; [|done|].
  - rewrite Build_cases, (proj2 (Nicknames.IsValidNormalizedNickname_wf _) Hname).
    cbn [mbind result_bind]. rewrite Epb. cbn [mbind result_bind]. unfold whenever.
    rewrite Ht, (proj2 (Z.ltb_ge _ _)) by lia. cbn [negb].
    destruct (has_owner (op_type op)); [rewrite Ho by done|]; (destruct (has_new_owner (op_type op)); [rewrite Hn by done|]; done).
  - unfold payload_of. rewrite read_payload_app by done. unfold canonical, read_fields.
    destruct (op_type op) eqn:Et; cbn in Ht, Ho, Hn, Hpb; try done;
      cbn [has_owner has_payout has_new_owner app]; try destruct (Hpb eq_refl) as [E1 E2].
    + rewrite ReadPubKey_app by auto. cbn [mbind result_bind].
      rewrite ReadBytes_app by (unfold MAX_SIZE; lia). cbn [mbind result_bind]. by rewrite E2.
    + rewrite ReadBytes_app by (unfold MAX_SIZE; lia). cbn [mbind result_bind]. by rewrite E2.
    + rewrite <- (app_nil_r (Serialize _)), ReadPubKey_app by auto. done.
Qed.

Lemma Build_inv op script : BuildNicknameOpScript op = Ok script -> buildable op.
Proof.
  rewrite Build_cases. unfold whenever.
  destruct (Nicknames.IsValidNormalizedNickname _) as [[]|] eqn:Ev; [|done].
  apply Nicknames.IsValidNormalizedNickname_wf in Ev. cbn [mbind result_bind].
  destruct (if has_payout (op_type op) then _ else _) as [pb|] eqn:Ep; [|done]. cbn [mbind result_bind].
  destruct (_ || _) eqn:Ek; [done|]. destruct (known_type (op_type op)) eqn:Et; [|done]. intros _.
  apply orb_false_elim in Ek as [E1 E2]. split; [done|done|..]; intros Eh; rewrite Eh in *.
  - by apply negb_false_iff, Z.eqb_eq in E1.
  - unfold EncodeDestinationBytes in Ep. destruct (address_parse _); [by eexists|done].
  - by apply negb_false_iff, Z.eqb_eq in E2.
Qed.

Lemma read_fields_inv type name ss op :
  Nicknames.nickname_wf name -> read_fields type name ss = Ok op -> buildable op /\ canonical op = op.
Proof.
  intros Hn. assert (En : Nicknames.NormalizeNickname name = name) by (apply Nicknames.NormalizeNickname_allowed, Hn).
  assert (Hbase : forall key address key', known_type type = true ->
    (has_owner type = true -> len key = 33) -> (has_owner type = false -> key = []) ->
    (has_payout type = true -> exists dest, id_ok dest /\ address = address_print dest) ->
    (has_payout type = false -> address = EmptyString) ->
    (has_new_owner type = true -> len key' = 33) -> (has_new_owner type = false -> key' = []) ->
    buildable (mkOperation type name key address key') /\
    canonical (mkOperation type name key address key') = mkOperation type name key address key').
  { intros key address key' Ht Ho Ho' Hp Hp' Hk Hk'. split.
    - split; cbn [op_type op_nickname op_ownerPubKey op_payoutAddress op_newOwnerPubKey]; auto; [by rewrite En|]. intros Eh. destruct (Hp Eh) as (dest & Hid & ->).
      rewrite address_parse_print by done. by eexists.
    - unfold canonical; cbn [op_type op_nickname op_ownerPubKey op_payoutAddress op_newOwnerPubKey]. rewrite En. f_equal.
      + destruct (has_owner type); [done|by rewrite Ho'].
      + destruct (has_payout type); [|by rewrite Hp']. destruct (Hp eq_refl) as (dest & Hid & ->).
        unfold reprint. by rewrite address_parse_print.
      + destruct (has_new_owner type); [done|by rewrite Hk']. }
  unfold read_fields. destruct type; try done; intros E.
  - destruct (ReadPubKey ss _) as [[key ss1]|] eqn:Ek; [|done]. apply ReadPubKey_inv in Ek.
    cbn [mbind result_bind] in E. destruct (ReadBytes ss1 21) as [[pb ss2]|]; [|done]. cbn [mbind result_bind] in E.
    destruct (DecodeDestinationBytes pb) as [a|] eqn:Ea; [|done]. apply DecodeDestinationBytes_inv in Ea.
    injection E as <-. by apply Hbase.
  - destruct (ReadBytes ss 21) as [[pb ss2]|]; [|done]. cbn [mbind result_bind] in E.
    destruct (DecodeDestinationBytes pb) as [a|] eqn:Ea; [|done]. apply DecodeDestinationBytes_inv in Ea.
    injection E as <-. by apply Hbase.
  - destruct (ReadPubKey ss _) as [[key ss1]|] eqn:Ek; [|done]. apply ReadPubKey_inv in Ek.
    injection E as <-. by apply Hbase.
  - injection E as <-. by apply Hbase.
  - injection E as <-. by apply Hbase.
  - injection E as <-. by apply Hbase.
Qed.

Lemma Extract_inv script op :
  ExtractNicknameOperation script = Ok op -> buildable op /\ canonical op = op.
Proof.
  unfold ExtractNicknameOperation, whenever. destruct (GetOp2 script) as [[[o d] pc]|]; [|done].
  destruct (negb _); [done|]. destruct (GetOp2 pc) as [[[o' pushed] [|]]|]; try done.
  unfold read_payload, whenever. destruct (read 4 pushed) as [[magic|] s1]; [|done].
  destruct (negb _); [done|]. destruct (ser_readdata8 s1) as [[t|] s2]; [|done].
  destruct (Unserialize s2) as [[name|] s3]; [|done].
  destruct (Nicknames.IsValidNormalizedNickname name) as [[]|] eqn:Ev; [|done].
  cbn [mbind result_bind]. apply read_fields_inv. by apply Nicknames.IsValidNormalizedNickname_wf.
Qed.

End Lemmas.

(** ** Properties *)

(** C30: an operation is built into a script exactly when its name normalises
    to a valid nickname, its type is known, its keys are compressed and its
    payout address parses; the script is then within the data-output relay
    limit, is an unspendable null-data script, and reads back as the operation
    in canonical form. *)
Theorem BuildNicknameOpScript_correct `{AddressCodec} `{CryptoOps} (op : NicknameOperation) :
  (buildable op ->
   exists script, BuildNicknameOpScript op = Ok script /\
     ExtractNicknameOperation script = Ok (canonical op) /\
     len script <= MAX_OP_RETURN_RELAY /\
     Solver script = (true, Some TX_NULL_DATA, []) /\ IsUnspendable script = true) /\
  (forall script, BuildNicknameOpScript op = Ok script -> buildable op).
Proof.
  split; [|apply Build_inv]. intros (payload & E & Hl & Er)%Build_ok. eexists; split; [exact E|].
  rewrite ExtractNicknameOperation_push by lia. split_and!; [done| |apply Solver_null_data; lia..].
  rewrite len_app, len_push_data by lia. change (len (push_opcode OP_RETURN)) with 1. unfold MAX_OP_RETURN_RELAY.
  destruct (len payload <? 76); lia.
Qed.

Lemma BuildNicknameOpScript_correct_witness :
  let ops := {| Hash160 := fun _ => 0; Sha256 := fun v => le_value (take 7 v); secp256k1_ec_pubkey_parse := fun _ => true |} in
  let addr := base58_ops (H := ops) main_prefixes in
  exists script,
    BuildNicknameOpScript (H := addr) (mkOperation RENEW " @Alice " [] EmptyString []) = Ok script /\
    ExtractNicknameOperation (H := addr) script = Ok (mkOperation RENEW "alice" [] EmptyString []).
Proof.
  intros ops addr.
  assert (codec : @AddressCodec addr) by (apply base58_codec; by vm_compute).
  destruct (proj1 (BuildNicknameOpScript_correct (H1 := ops) (mkOperation RENEW " @Alice " [] EmptyString [])))
    as (script & E & Ex & _).
  - split; [done| |done..]. apply Nicknames.IsValidNormalizedNickname_wf. by vm_compute.
  - exists script. split; [exact E|]. rewrite Ex. by vm_compute.
Defined.

(** C39: what is extracted from any script is well formed and canonical: the
    name is a valid nickname in normal form, the type is known, keys have 33
    bytes, the payout address is one the node prints, and unused fields are
    empty; so rebuilding and extracting it again gives the same operation. *)
Theorem ExtractNicknameOperation_sound `{AddressCodec} (script : bytes) (op : NicknameOperation) :
  ExtractNicknameOperation script = Ok op ->
  buildable op /\ canonical op = op /\ Nicknames.nickname_wf (op_nickname op) /\
  exists script', BuildNicknameOpScript op = Ok script' /\ ExtractNicknameOperation script' = Ok op.
Proof.
  intros [Hb Hc]%Extract_inv. split_and!; [done|done| |].
  - rewrite <- Hc. apply Hb.
  - destruct (Build_ok op Hb) as (payload & E & Hl & Er). eexists; split; [exact E|].
    rewrite ExtractNicknameOperation_push by lia. by rewrite Er, Hc.
Qed.

Lemma ExtractNicknameOperation_sound_witness :
  let ops := {| Hash160 := fun _ => 0; Sha256 := fun v => le_value (take 7 v); secp256k1_ec_pubkey_parse := fun _ => true |} in
  let addr := base58_ops (H := ops) main_prefixes in
  Nicknames.nickname_wf "alice".
Proof.
  intros ops addr.
  assert (codec : @AddressCodec addr) by (apply base58_codec; by vm_compute).
  apply (ExtractNicknameOperation_sound
    [x6a; x0b; x4b; x4e; x41; x31; x05; x05; x61; x6c; x69; x63; x65]
    (mkOperation RELEASE "alice" [] EmptyString [])).
  by vm_compute.
Defined.
