(* ===== verification/Transaction.v ===== *)
(** * Transactions and undo records
      ([src/src/primitives/transaction.h], [primitives/block.h], [undo.h])

    A transaction carries the hash that the class computes when it is built
    (see [TxSerialize]). *)

From S2P Require Import Prelude Serialize Script.
Open Scope Z_scope.
Open Scope reader_scope.

Record COutPoint := mkOutPoint { op_hash : Z; op_n : Z }.

#[export] Instance COutPoint_eq_dec : EqDecision COutPoint.
Proof. solve_decision. Defined.
#[export] Instance COutPoint_countable : Countable COutPoint.
Proof.
  refine (inj_countable' (fun o => (op_hash o, op_n o)) (fun '(h, n) => mkOutPoint h n) _).
  by intros [].
Defined.

Definition null_outpoint : COutPoint := mkOutPoint 0 UINT32_MAX.
Definition outpoint_IsNull (o : COutPoint) : bool := (op_hash o =? 0) && (op_n o =? UINT32_MAX).

(** [base_blob::GetHex]: the bytes from the last to the first, as pairs of hexadecimal digits. *)
Definition hex_digit (n : Z) : byte := nth (Z.to_nat n) (bytes_of_string "0123456789abcdef") x00.
Definition hex_byte (b : byte) : bytes := [hex_digit (ub b / 16); hex_digit (ub b mod 16)].
Definition uint256_GetHex (z : Z) : string :=
  string_of_bytes (reverse (le_bytes 32 z) ≫= hex_byte).

(** [memcmp] on two byte strings of one length, and lexicographic order in general. *)
Fixpoint bytes_compare (a b : bytes) : comparison :=
  match a, b with
  | [], [] => Eq
  | [], _ :: _ => Lt
  | _ :: _, [] => Gt
  | x :: a', y :: b' => match ub x ?= ub y with Eq => bytes_compare a' b' | c => c end
  end.

(** [operator<] on outpoints, as the order of [std::map]. *)
Definition outpoint_compare (a b : COutPoint) : comparison :=
  match bytes_compare (le_bytes 32 (op_hash a)) (le_bytes 32 (op_hash b)) with
  | Eq => op_n a ?= op_n b
  | c => c
  end.
Definition outpoint_le (a b : COutPoint) : Prop := outpoint_compare a b <> Gt.
#[export] Instance outpoint_le_dec a b : Decision (outpoint_le a b).
Proof. unfold outpoint_le. apply _. Defined.

#[export] Instance Serializable_COutPoint : Serializable COutPoint := {
  Serialize o := Serialize_blob 32 (op_hash o) ++ Serialize_uint32 (op_n o);
  Unserialize := h <-- Unserialize_blob 32 ;; n <-- Unserialize_uint32 ;; rret (mkOutPoint h n)
}.

(** [scriptWitness] is the stack of the [CScriptWitness]. *)
Record CTxIn := mkTxIn { prevout : COutPoint; scriptSig : bytes; nSequence : Z; scriptWitness : list bytes }.

Definition SEQUENCE_FINAL : Z := 0xffffffff.
Definition SEQUENCE_LOCKTIME_DISABLE_FLAG : Z := Z.shiftl 1 31.
Definition SEQUENCE_LOCKTIME_TYPE_FLAG : Z := Z.shiftl 1 22.
Definition SEQUENCE_LOCKTIME_MASK : Z := 0x0000ffff.

Record CTxOut := mkTxOut { nValue : Z; scriptPubKey : bytes }.
#[export] Instance CTxOut_eq_dec : EqDecision CTxOut.
Proof. solve_decision. Defined.
Record CTransaction := mkTransaction { tx_hash : Z; tx_nVersion : Z; vin : list CTxIn; vout : list CTxOut; nLockTime : Z }.

Definition IsCoinBase (tx : CTransaction) : bool :=
  match vin tx with
  | [txin] => outpoint_IsNull (prevout txin)
  | _ => false
  end.

(** Undo records: the outputs a transaction spent, in the order of its inputs,
    each with the height, version and kind of its transaction if it was the
    last output of it to be spent. *)
Record CTxInUndo := mkTxInUndo { txout : CTxOut; undo_fCoinBase : bool; undo_nHeight : Z; undo_nVersion : Z }.
(** The constructor with its default arguments. *)
Definition CTxInUndo_of (o : CTxOut) : CTxInUndo := mkTxInUndo o false 0 0.
Record CTxUndo := mkTxUndo { vprevout : list CTxInUndo }.
Record CBlockUndo := mkBlockUndo { vtxundo : list CTxUndo }.
Record CBlock := mkBlock { vtx : list CTransaction }.

(** ** Lemmas *)

#[export] Instance SerializeOk_COutPoint :
  SerializeOk COutPoint (fun o => 0 <= op_hash o < 256 ^ 32 /\ in_u32 (op_n o)).
Proof.
  intros [h n] rest [Hh Hn]. cbn [op_hash op_n Serialize Unserialize Serializable_COutPoint] in *.
  rewrite <- app_assoc. rewrite (rbind_Ok _ _ _ h (Serialize_uint32 n ++ rest)) by by apply Unserialize_blob_app.
  rewrite (rbind_Ok _ _ _ n rest); [done|]. unfold Unserialize_uint32, Serialize_uint32, ser_readdata32, ser_writedata32.
  apply ser_readdata_app; [done|]. unfold in_u32 in Hn. change (256 ^ Z.of_nat 4) with (2 ^ 32). lia.
Qed.
