(* ===== verification/TxSerialize.v ===== *)
(** * The format and the hashes of transactions
      ([src/src/primitives/transaction.h], [transaction.cpp])

    The basic format, the extended format with witnesses, and what is hashed
    for an identifier.  [fAllowWitness] stands for the stream's version
    without [SERIALIZE_TRANSACTION_NO_WITNESS]. *)

From S2P Require Import Prelude Serialize Script Base58 Money Header Transaction.
Open Scope Z_scope.
Open Scope kubu_scope.
Open Scope reader_scope.

Definition WITNESS_SCALE_FACTOR : Z := 4.
Definition CURRENT_VERSION : Z := 1.

#[export] Instance Serializable_CTxIn : Serializable CTxIn := {
  Serialize i := Serialize (prevout i) ++ Serialize (scriptSig i) ++ Serialize_uint32 (nSequence i);
  Unserialize := o <-- Unserialize ;; s <-- Unserialize ;; q <-- Unserialize_uint32 ;; rret (mkTxIn o s q [])
}.

#[export] Instance Serializable_CTxOut : Serializable CTxOut := {
  Serialize o := Serialize_int64 (nValue o) ++ Serialize (scriptPubKey o);
  Unserialize := v <-- Unserialize_int64 ;; s <-- Unserialize ;; rret (mkTxOut v s)
}.

Definition txout_null : CTxOut := mkTxOut (-1) [].
Definition IsDust (o : CTxOut) (dustLimit : Z) : bool :=
  if IsUnspendable (scriptPubKey o) then false else nValue o <? dustLimit.

Record CMutableTransaction := mkMutable {
  mtx_nVersion : Z;
  mtx_vin : list CTxIn;
  mtx_vout : list CTxOut;
  mtx_nLockTime : Z
}.

Definition HasWitness (ins : list CTxIn) : bool := existsb (fun i => negb (bool_decide (scriptWitness i = []))) ins.

Definition SerializeTransaction (fAllowWitness : bool) (tx : CMutableTransaction) : bytes :=
  let flags := if fAllowWitness && HasWitness (mtx_vin tx) then 1 else 0 in
  Serialize_int32 (mtx_nVersion tx)
  ++ (if negb (flags =? 0) then Serialize_vector (A := CTxIn) [] ++ ser_writedata8 flags else [])
  ++ Serialize_vector (mtx_vin tx) ++ Serialize_vector (mtx_vout tx)
  ++ (if negb (Z.land flags 1 =? 0) then concat ((fun i => Serialize_vector (scriptWitness i)) <$> mtx_vin tx) else [])
  ++ Serialize_uint32 (mtx_nLockTime tx).

Definition set_witness (i : CTxIn) (w : list bytes) : CTxIn := mkTxIn (prevout i) (scriptSig i) (nSequence i) w.
Fixpoint read_witnesses (ins : list CTxIn) : Reader (list CTxIn) :=
  match ins with
  | [] => rret []
  | i :: ins' => w <-- Unserialize_vector ;; l <-- read_witnesses ins' ;; rret (set_witness i w :: l)
  end.

Definition UnserializeTransaction (fAllowWitness : bool) : Reader CMutableTransaction :=
  version <-- Unserialize_int32 ;;
  vin <-- Unserialize_vector ;;
  body <-- (if bool_decide (vin = []) && fAllowWitness then
              flags <-- ser_readdata8 ;;
              if negb (flags =? 0) then
                vin <-- Unserialize_vector ;; vout <-- Unserialize_vector ;; rret (flags, vin, vout)
              else rret (flags, vin, [])
            else vout <-- Unserialize_vector ;; rret (0, vin, vout)) ;;
  let '(flags, vin, vout) := body in
  wit <-- (if negb (Z.land flags 1 =? 0) && fAllowWitness then
             vin <-- read_witnesses vin ;; rret (Z.lxor flags 1, vin)
           else rret (flags, vin)) ;;
  let '(flags, vin) := wit in
  if negb (flags =? 0) then rthrow "Unknown transaction optional data"
  else locktime <-- Unserialize_uint32 ;; rret (mkMutable version vin vout locktime).

Definition CMutableTransaction_of (tx : CTransaction) : CMutableTransaction :=
  mkMutable (tx_nVersion tx) (vin tx) (vout tx) (nLockTime tx).

Section Hashes.
Context `{CryptoOps}.

Definition mutable_GetHash (tx : CMutableTransaction) : Z := Hash (SerializeTransaction false tx).
Definition CTransaction_of (tx : CMutableTransaction) : CTransaction :=
  mkTransaction (mutable_GetHash tx) (mtx_nVersion tx) (mtx_vin tx) (mtx_vout tx) (mtx_nLockTime tx).
Definition GetWitnessHash (tx : CTransaction) : Z :=
  if negb (HasWitness (vin tx)) then tx_hash tx
  else Hash (SerializeTransaction true (CMutableTransaction_of tx)).

End Hashes.

(** ** Sizes *)

Definition GetTotalSize (tx : CTransaction) : Z := len (SerializeTransaction true (CMutableTransaction_of tx)).
Definition GetTransactionWeight (tx : CTransaction) : Z :=
  len (SerializeTransaction false (CMutableTransaction_of tx)) * (WITNESS_SCALE_FACTOR - 1) + GetTotalSize tx.
Definition CalculateModifiedSize (tx : CTransaction) (nTxSize : Z) : Z :=
  let nTxSize := if nTxSize =? 0 then (GetTransactionWeight tx + WITNESS_SCALE_FACTOR - 1) / WITNESS_SCALE_FACTOR else nTxSize in
  fold_left (fun n i => let offset := 41 + Z.min 110 (len (scriptSig i)) in if offset <? n then n - offset else n) (vin tx) nTxSize.

(** ** Round trip *)

Definition txin_wf (i : CTxIn) : Prop :=
  (0 <= op_hash (prevout i) < 256 ^ 32 /\ in_u32 (op_n (prevout i))) /\
  Z.of_nat (length (scriptSig i)) <= MAX_SIZE /\ in_u32 (nSequence i).
Definition witness_wf (i : CTxIn) : Prop :=
  Z.of_nat (length (scriptWitness i)) <= MAX_SIZE /\ Forall (fun v => Z.of_nat (length v) <= MAX_SIZE) (scriptWitness i).
Definition txout_wf (o : CTxOut) : Prop := in_i64 (nValue o) /\ Z.of_nat (length (scriptPubKey o)) <= MAX_SIZE.
Definition tx_wf (tx : CMutableTransaction) : Prop :=
  in_i32 (mtx_nVersion tx) /\ in_u32 (mtx_nLockTime tx) /\
  Z.of_nat (length (mtx_vin tx)) <= MAX_SIZE /\ Z.of_nat (length (mtx_vout tx)) <= MAX_SIZE /\
  Forall txin_wf (mtx_vin tx) /\ Forall witness_wf (mtx_vin tx) /\ Forall txout_wf (mtx_vout tx).

Definition strip_witness (ins : list CTxIn) : list CTxIn := (fun i => set_witness i []) <$> ins.

Lemma Unserialize_txin_app i rest : txin_wf i -> Unserialize (Serialize i ++ rest) = (Ok (set_witness i []), rest).
Proof.
  intros (Ho & Hs & Hq). cbn [Serialize Unserialize Serializable_CTxIn]. rewrite <- !app_assoc.
  erewrite rbind_Ok by by apply unserialize_serialize. erewrite rbind_Ok by by apply unserialize_serialize.
  by erewrite rbind_Ok by by apply Unserialize_uint32_app.
Qed.

#[export] Instance SerializeOk_CTxOut : SerializeOk CTxOut txout_wf.
Proof.
  intros [v s] rest [Hv Hs]. cbn [Serialize Unserialize Serializable_CTxOut nValue scriptPubKey] in *. rewrite <- app_assoc.
  erewrite rbind_Ok by by apply Unserialize_int64_app. by erewrite rbind_Ok by by apply unserialize_serialize.
Qed.

Lemma unserialize_vin_app ins rest :
  Z.of_nat (length ins) <= MAX_SIZE -> Forall txin_wf ins ->
  Unserialize_vector (Serialize_vector ins ++ rest) = (Ok (strip_witness ins), rest).
Proof.
  intros Hl Hwf. unfold Unserialize_vector, Serialize_vector. rewrite <- app_assoc.
  erewrite rbind_Ok by (apply ReadCompactSize_app; lia). rewrite u32_size, Nat2Z.id by lia. clear Hl.
  induction Hwf as [|i ins Hi Hins IH]; [done|]. cbn [length fmap list_fmap concat unserialize_n]. rewrite <- app_assoc.
  erewrite rbind_Ok by by apply Unserialize_txin_app. by erewrite rbind_Ok by exact IH.
Qed.

Lemma read_witnesses_app ins rest :
  Forall witness_wf ins ->
  read_witnesses (strip_witness ins) (concat ((fun i => Serialize_vector (scriptWitness i)) <$> ins) ++ rest) = (Ok ins, rest).
Proof.
  induction 1 as [|i ins [Hl Hi] Hins IH]; [done|]. cbn [strip_witness fmap list_fmap concat read_witnesses]. rewrite <- app_assoc.
  erewrite rbind_Ok by (by apply (Unserialize_vector_app (fun v : bytes => Z.of_nat (length v) <= MAX_SIZE))).
  erewrite rbind_Ok by exact IH. by destruct i.
Qed.

Lemma strip_witness_none ins : HasWitness ins = false -> strip_witness ins = ins.
Proof.
  induction ins as [|i ins IH]; [done|]. cbn [HasWitness existsb strip_witness fmap list_fmap].
  intros [Hi Hins]%orb_false_elim. zbool. f_equal; [|by apply IH]. destruct i. cbn in Hi. by subst.
Qed.
Lemma strip_witness_nil ins : strip_witness ins = [] <-> ins = [].
Proof. by destruct ins. Qed.

Lemma UnserializeTransaction_app (fAllowWitness : bool) (tx : CMutableTransaction) (rest : bytes) :
  tx_wf tx -> (fAllowWitness = true -> mtx_vin tx = [] -> mtx_vout tx = []) ->
  UnserializeTransaction fAllowWitness (SerializeTransaction fAllowWitness tx ++ rest) =
  (Ok (if fAllowWitness then tx
       else mkMutable (mtx_nVersion tx) (strip_witness (mtx_vin tx)) (mtx_vout tx) (mtx_nLockTime tx)), rest).
Proof.
  destruct tx as [v ins outs lt]. cbn [mtx_nVersion mtx_vin mtx_vout mtx_nLockTime].
  intros (Hv & Hlt & Hni & Hno & Hi & Hw & Ho) Hmarker.
  cbn [mtx_nVersion mtx_vin mtx_vout mtx_nLockTime] in *.
  unfold SerializeTransaction, UnserializeTransaction. cbn [mtx_nVersion mtx_vin mtx_vout mtx_nLockTime]. rewrite <- !app_assoc.
  erewrite rbind_Ok by by apply Unserialize_int32_app.
  destruct (fAllowWitness && HasWitness ins) eqn:Ew.
  - apply andb_prop in Ew as [-> Ew]. change (negb (1 =? 0)) with true. cbn iota. rewrite <- !app_assoc.
    erewrite rbind_Ok by by apply (unserialize_vin_app []). cbn [strip_witness fmap list_fmap].
    rewrite bool_decide_eq_true_2 by done. cbn [andb].
    erewrite rbind_Ok.
    2:{ erewrite rbind_Ok by (apply (ser_readdata_app 1); lia). cbn [Z.eqb negb].
        erewrite rbind_Ok by by apply unserialize_vin_app.
        erewrite rbind_Ok by by apply (Unserialize_vector_app txout_wf). done. }
    cbn beta iota zeta. change (negb (Z.land 1 1 =? 0)) with true. cbn [andb].
    erewrite rbind_Ok. 2:{ by erewrite rbind_Ok by by apply read_witnesses_app. }
    cbn beta iota zeta. change (negb (Z.lxor 1 1 =? 0)) with false. cbn iota. by erewrite rbind_Ok by by apply Unserialize_uint32_app.
  - change (negb (0 =? 0)) with false. change (negb (Z.land 0 1 =? 0)) with false. cbn [app].
    erewrite rbind_Ok by by apply unserialize_vin_app.
    destruct (bool_decide (strip_witness ins = []) && fAllowWitness) eqn:Ed.
    + apply andb_prop in Ed as [Ed%bool_decide_eq_true ->]. apply strip_witness_nil in Ed as ->. rewrite (Hmarker eq_refl eq_refl).
      erewrite rbind_Ok. 2:{ erewrite rbind_Ok by (apply (ser_readdata_app 1 1 0); lia). cbn. done. }
      cbn beta iota zeta. change (negb (Z.land 0 1 =? 0)) with false. cbn [andb]. erewrite rbind_Ok by done. cbn beta iota zeta. change (negb (0 =? 0)) with false. cbn iota.
      by erewrite rbind_Ok by by apply Unserialize_uint32_app.
    + erewrite rbind_Ok. 2:{ by erewrite rbind_Ok by by apply (Unserialize_vector_app txout_wf). }
      cbn beta iota zeta. change (negb (Z.land 0 1 =? 0)) with false. cbn [andb]. erewrite rbind_Ok by done. cbn beta iota zeta. change (negb (0 =? 0)) with false. cbn iota.
      erewrite rbind_Ok by by apply Unserialize_uint32_app. unfold rret. do 3 f_equal.
      destruct fAllowWitness; [|done]. cbn [andb] in Ew. by rewrite strip_witness_none.
Qed.

(** a transaction read from what was written is the transaction, with its
    witnesses in the extended format and without them in the basic one,
    unless it has outputs and no inputs, which the extended format cannot tell
    from its own marker. *)
Theorem transaction_roundtrip (fAllowWitness : bool) (tx : CMutableTransaction) (rest : bytes) :
  tx_wf tx -> (fAllowWitness = true -> mtx_vin tx = [] -> mtx_vout tx = []) ->
  UnserializeTransaction fAllowWitness (SerializeTransaction fAllowWitness tx ++ rest) =
  (Ok (if fAllowWitness then tx
       else mkMutable (mtx_nVersion tx) (strip_witness (mtx_vin tx)) (mtx_vout tx) (mtx_nLockTime tx)), rest).
Proof. apply UnserializeTransaction_app. Qed.

Module TxExample.

Definition demo_tx : CMutableTransaction :=
  mkMutable 2 [mkTxIn (mkOutPoint 7 1) [x51] 0xffffffff []; mkTxIn (mkOutPoint 8 0) [] 5 [[x01]; [x02; x03]]]
    [mkTxOut 1000 [x76; xa9]; mkTxOut 0 []] 99.

Lemma transaction_roundtrip_witness :
  UnserializeTransaction true (SerializeTransaction true demo_tx ++ [xff]) = (Ok demo_tx, [xff]).
Proof.
  apply (transaction_roundtrip true demo_tx [xff]); [|done].
  repeat first [split | constructor | (cbn; unfold in_i32, in_u32, in_i64, MAX_SIZE; lia)].
Defined.

(** The identifier does not cover the witness, the witness hash does. *)
Example witness_not_in_txid :
  let stripped := mkMutable 2 (strip_witness (mtx_vin demo_tx)) (mtx_vout demo_tx) 99 in
  SerializeTransaction false demo_tx = SerializeTransaction false stripped /\
  SerializeTransaction true demo_tx <> SerializeTransaction true stripped.
Proof. split; [reflexivity|discriminate]. Qed.

End TxExample.
