(* ===== verification/Interpreter.v ===== *)
(** * The script interpreter ([src/src/script/interpreter.h], [interpreter.cpp],
      [script_error.h], [FindAndDelete] of [script.h])

    A stack is the list of its elements from the top down, [vfExec] likewise.
    An iterator is the suffix it points to.  The signature checker is a record
    of the three virtual functions; the transaction checker is in [SigHash].
    A failed evaluation carries the [ScriptError] that the code stores; an
    exception thrown inside [EvalScript] is caught there and is
    [SCRIPT_ERR_UNKNOWN_ERROR]. *)

From S2P Require Import Prelude Script DerSignature Base58.
Open Scope Z_scope.

(** ** Opcodes *)

Definition OP_1NEGATE : Z := 0x4f.
Definition OP_RESERVED : Z := 0x50.
Definition OP_NOP : Z := 0x61.
Definition OP_IF : Z := 0x63.
Definition OP_NOTIF : Z := 0x64.
Definition OP_ELSE : Z := 0x67.
Definition OP_ENDIF : Z := 0x68.
Definition OP_VERIFY : Z := 0x69.
Definition OP_TOALTSTACK : Z := 0x6b.
Definition OP_FROMALTSTACK : Z := 0x6c.
Definition OP_2DROP : Z := 0x6d.
Definition OP_2DUP : Z := 0x6e.
Definition OP_3DUP : Z := 0x6f.
Definition OP_2OVER : Z := 0x70.
Definition OP_2ROT : Z := 0x71.
Definition OP_2SWAP : Z := 0x72.
Definition OP_IFDUP : Z := 0x73.
Definition OP_DEPTH : Z := 0x74.
Definition OP_DROP : Z := 0x75.
Definition OP_NIP : Z := 0x77.
Definition OP_OVER : Z := 0x78.
Definition OP_PICK : Z := 0x79.
Definition OP_ROLL : Z := 0x7a.
Definition OP_ROT : Z := 0x7b.
Definition OP_SWAP : Z := 0x7c.
Definition OP_TUCK : Z := 0x7d.
Definition OP_CAT : Z := 0x7e.
Definition OP_SUBSTR : Z := 0x7f.
Definition OP_LEFT : Z := 0x80.
Definition OP_RIGHT : Z := 0x81.
Definition OP_SIZE : Z := 0x82.
Definition OP_INVERT : Z := 0x83.
Definition OP_AND : Z := 0x84.
Definition OP_OR : Z := 0x85.
Definition OP_XOR : Z := 0x86.
Definition OP_1ADD : Z := 0x8b.
Definition OP_1SUB : Z := 0x8c.
Definition OP_2MUL : Z := 0x8d.
Definition OP_2DIV : Z := 0x8e.
Definition OP_NEGATE : Z := 0x8f.
Definition OP_ABS : Z := 0x90.
Definition OP_NOT : Z := 0x91.
Definition OP_0NOTEQUAL : Z := 0x92.
Definition OP_ADD : Z := 0x93.
Definition OP_SUB : Z := 0x94.
Definition OP_MUL : Z := 0x95.
Definition OP_DIV : Z := 0x96.
Definition OP_MOD : Z := 0x97.
Definition OP_LSHIFT : Z := 0x98.
Definition OP_RSHIFT : Z := 0x99.
Definition OP_BOOLAND : Z := 0x9a.
Definition OP_BOOLOR : Z := 0x9b.
Definition OP_NUMEQUAL : Z := 0x9c.
Definition OP_NUMEQUALVERIFY : Z := 0x9d.
Definition OP_NUMNOTEQUAL : Z := 0x9e.
Definition OP_LESSTHAN : Z := 0x9f.
Definition OP_GREATERTHAN : Z := 0xa0.
Definition OP_LESSTHANOREQUAL : Z := 0xa1.
Definition OP_GREATERTHANOREQUAL : Z := 0xa2.
Definition OP_MIN : Z := 0xa3.
Definition OP_MAX : Z := 0xa4.
Definition OP_WITHIN : Z := 0xa5.
Definition OP_RIPEMD160 : Z := 0xa6.
Definition OP_SHA1 : Z := 0xa7.
Definition OP_SHA256 : Z := 0xa8.
Definition OP_HASH256 : Z := 0xaa.
Definition OP_CODESEPARATOR : Z := 0xab.
Definition OP_NOP1 : Z := 0xb0.
Definition OP_CHECKLOCKTIMEVERIFY : Z := 0xb1.
Definition OP_CHECKSEQUENCEVERIFY : Z := 0xb2.
Definition OP_NOP4 : Z := 0xb3.
Definition OP_NOP5 : Z := 0xb4.
Definition OP_NOP6 : Z := 0xb5.
Definition OP_NOP7 : Z := 0xb6.
Definition OP_NOP8 : Z := 0xb7.
Definition OP_NOP9 : Z := 0xb8.
Definition OP_NOP10 : Z := 0xb9.

Definition MAX_SCRIPT_ELEMENT_SIZE : Z := 520.
Definition MAX_OPS_PER_SCRIPT : Z := 201.

(** ** Flags *)

Definition SIGHASH_ALL : Z := 1.
Definition SIGHASH_NONE : Z := 2.
Definition SIGHASH_SINGLE : Z := 3.
Definition SIGHASH_ANYONECANPAY : Z := 0x80.

Definition SCRIPT_VERIFY_NONE : Z := 0.
Definition SCRIPT_VERIFY_P2SH : Z := Z.shiftl 1 0.
Definition SCRIPT_VERIFY_STRICTENC : Z := Z.shiftl 1 1.
Definition SCRIPT_VERIFY_DERSIG : Z := Z.shiftl 1 2.
Definition SCRIPT_VERIFY_LOW_S : Z := Z.shiftl 1 3.
Definition SCRIPT_VERIFY_NULLDUMMY : Z := Z.shiftl 1 4.
Definition SCRIPT_VERIFY_SIGPUSHONLY : Z := Z.shiftl 1 5.
Definition SCRIPT_VERIFY_MINIMALDATA : Z := Z.shiftl 1 6.
Definition SCRIPT_VERIFY_DISCOURAGE_UPGRADABLE_NOPS : Z := Z.shiftl 1 7.
Definition SCRIPT_VERIFY_CLEANSTACK : Z := Z.shiftl 1 8.
Definition SCRIPT_VERIFY_CHECKLOCKTIMEVERIFY : Z := Z.shiftl 1 9.
Definition SCRIPT_VERIFY_CHECKSEQUENCEVERIFY : Z := Z.shiftl 1 10.
Definition SCRIPT_VERIFY_WITNESS : Z := Z.shiftl 1 11.
Definition SCRIPT_VERIFY_DISCOURAGE_UPGRADABLE_WITNESS_PROGRAM : Z := Z.shiftl 1 12.
Definition SCRIPT_VERIFY_MINIMALIF : Z := Z.shiftl 1 13.
Definition SCRIPT_VERIFY_NULLFAIL : Z := Z.shiftl 1 14.
Definition SCRIPT_VERIFY_WITNESS_PUBKEYTYPE : Z := Z.shiftl 1 15.

(** [flags & mask] in a condition. *)
Definition has (flags mask : Z) : bool := negb (Z.land flags mask =? 0).

Inductive SigVersion := SIGVERSION_BASE | SIGVERSION_WITNESS_V0.
#[export] Instance SigVersion_eq_dec : EqDecision SigVersion.
Proof. solve_decision. Defined.

(** ** Errors *)

Inductive ScriptError :=
| SCRIPT_ERR_UNKNOWN_ERROR
| SCRIPT_ERR_EVAL_FALSE
| SCRIPT_ERR_OP_RETURN
| SCRIPT_ERR_SCRIPT_SIZE
| SCRIPT_ERR_PUSH_SIZE
| SCRIPT_ERR_OP_COUNT
| SCRIPT_ERR_STACK_SIZE
| SCRIPT_ERR_SIG_COUNT
| SCRIPT_ERR_PUBKEY_COUNT
| SCRIPT_ERR_VERIFY
| SCRIPT_ERR_EQUALVERIFY
| SCRIPT_ERR_CHECKMULTISIGVERIFY
| SCRIPT_ERR_CHECKSIGVERIFY
| SCRIPT_ERR_NUMEQUALVERIFY
| SCRIPT_ERR_BAD_OPCODE
| SCRIPT_ERR_DISABLED_OPCODE
| SCRIPT_ERR_INVALID_STACK_OPERATION
| SCRIPT_ERR_INVALID_ALTSTACK_OPERATION
| SCRIPT_ERR_UNBALANCED_CONDITIONAL
| SCRIPT_ERR_NEGATIVE_LOCKTIME
| SCRIPT_ERR_UNSATISFIED_LOCKTIME
| SCRIPT_ERR_SIG_HASHTYPE
| SCRIPT_ERR_SIG_DER
| SCRIPT_ERR_MINIMALDATA
| SCRIPT_ERR_SIG_PUSHONLY
| SCRIPT_ERR_SIG_HIGH_S
| SCRIPT_ERR_SIG_NULLDUMMY
| SCRIPT_ERR_PUBKEYTYPE
| SCRIPT_ERR_CLEANSTACK
| SCRIPT_ERR_MINIMALIF
| SCRIPT_ERR_SIG_NULLFAIL
| SCRIPT_ERR_DISCOURAGE_UPGRADABLE_NOPS
| SCRIPT_ERR_DISCOURAGE_UPGRADABLE_WITNESS_PROGRAM
| SCRIPT_ERR_WITNESS_PROGRAM_WRONG_LENGTH
| SCRIPT_ERR_WITNESS_PROGRAM_WITNESS_EMPTY
| SCRIPT_ERR_WITNESS_PROGRAM_MISMATCH
| SCRIPT_ERR_WITNESS_MALLEATED
| SCRIPT_ERR_WITNESS_MALLEATED_P2SH
| SCRIPT_ERR_WITNESS_UNEXPECTED
| SCRIPT_ERR_WITNESS_PUBKEYTYPE.
#[export] Instance ScriptError_eq_dec : EqDecision ScriptError.
Proof. solve_decision. Defined.

(** [return true] with the value of the out-parameters, [return false] with
    the stored error, and a failed assertion. *)
Inductive outcome (A : Type) : Type :=
| Success (a : A)
| Failure (e : ScriptError)
| AssertionFailed.
Arguments Success {A} a.
Arguments Failure {A} e.
Arguments AssertionFailed {A}.

#[export] Instance outcome_ret : MRet outcome := fun A a => Success a.
#[export] Instance outcome_bind : MBind outcome := fun A B f r =>
  match r with Success a => f a | Failure e => Failure e | AssertionFailed => AssertionFailed end.

(** [if (b) return set_error(serror, e);] in front of [k]. *)
Definition fail_if {A} (b : bool) (e : ScriptError) (k : outcome A) : outcome A := if b then Failure e else k.
(** [assert(b);] in front of [k]. *)
Definition assert_that {A} (b : bool) (k : outcome A) : outcome A := if b then k else AssertionFailed.

Declare Scope script_scope.
Delimit Scope script_scope with script.
Notation "'fails' b 'as' e ; k" := (fail_if b e k)
  (at level 200, b at level 199, e at level 199, k at level 200,
   format "'[v' 'fails'  b  'as'  e ; '/' k ']'") : script_scope.
Open Scope script_scope.

(** ** The checker and the hash functions that only scripts use *)

Record BaseSignatureChecker := mkChecker {
  CheckSig : bytes -> bytes -> bytes -> SigVersion -> bool;
  CheckLockTime : Z -> bool;
  CheckSequence : Z -> bool
}.
(** The checker of the base class. *)
Definition base_checker : BaseSignatureChecker := mkChecker (fun _ _ _ _ => false) (fun _ => false) (fun _ => false).

Class ScriptHashOps := { Ripemd160 : bytes -> Z; Sha1 : bytes -> Z }.

(** ** Values *)

Fixpoint CastToBool (vch : bytes) : bool :=
  match vch with
  | [] => false
  | b :: vch' => if negb (ub b =? 0) then negb (bool_decide (vch' = []) && (ub b =? 0x80)) else CastToBool vch'
  end.

Definition vchFalse : bytes := [].
Definition vchTrue : bytes := [x01].
Definition vch_bool (b : bool) : bytes := if b then vchTrue else vchFalse.

Definition CheckMinimalPush (data : bytes) (opcode : Z) : bool :=
  if len data =? 0 then opcode =? OP_0
  else if (len data =? 1) && (1 <=? byte_at data 0) && (byte_at data 0 <=? 16) then opcode =? OP_1 + (byte_at data 0 - 1)
  else if (len data =? 1) && (byte_at data 0 =? 0x81) then opcode =? OP_1NEGATE
  else if len data <=? 75 then opcode =? len data
  else if len data <=? 255 then opcode =? OP_PUSHDATA1
  else if len data <=? 65535 then opcode =? OP_PUSHDATA2
  else true.

(** [CScriptNum(vch, fRequireMinimal, nMaxNumSize)], with the exception caught. *)
Definition script_num (vch : bytes) (fRequireMinimal : bool) (nMaxNumSize : Z) : outcome Z :=
  match CScriptNum_of vch fRequireMinimal nMaxNumSize with Ok n => Success n | Err _ => Failure SCRIPT_ERR_UNKNOWN_ERROR end.

(** ** [FindAndDelete] *)

Definition starts_with (b pc : bytes) : bool := bool_decide (take (length b) pc = b).
Fixpoint skip_matches (fuel : nat) (b pc : bytes) (nFound : Z) : bytes * Z :=
  match fuel with
  | O => (pc, nFound)
  | S fuel' => if starts_with b pc then skip_matches fuel' b (drop (length b) pc) (nFound + 1) else (pc, nFound)
  end.
(** The [do] loop from [pc]; every round but the last consumes an operation. *)
Fixpoint delete_loop (fuel : nat) (b pc result : bytes) (nFound : Z) : bytes * Z * bytes :=
  let '(pc2, nFound) := skip_matches (length pc) b pc nFound in
  match fuel, GetOp2 pc2 with
  | S fuel', Some (_, _, pc') => delete_loop fuel' b pc' (result ++ take (length pc2 - length pc') pc2) nFound
  | _, _ => (result, nFound, pc2)
  end.
Definition FindAndDelete (script b : bytes) : bytes :=
  if bool_decide (b = []) then script
  else
    let '(result, nFound, pc2) := delete_loop (length script) b script [] 0 in
    if 0 <? nFound then result ++ pc2 else script.

(** ** Encodings of keys and signatures *)

Definition IsCompressedOrUncompressedPubKey (vchPubKey : bytes) : bool :=
  if len vchPubKey <? 33 then false
  else if byte_at vchPubKey 0 =? 0x04 then len vchPubKey =? 65
  else if (byte_at vchPubKey 0 =? 0x02) || (byte_at vchPubKey 0 =? 0x03) then len vchPubKey =? 33
  else false.

Definition IsCompressedPubKey (vchPubKey : bytes) : bool :=
  if negb (len vchPubKey =? 33) then false
  else negb (negb (byte_at vchPubKey 0 =? 0x02) && negb (byte_at vchPubKey 0 =? 0x03)).

Definition IsDefinedHashtypeSignature (vchSig : bytes) : bool :=
  if len vchSig =? 0 then false
  else
    let nHashType := Z.land (last_byte vchSig) (Z.lnot SIGHASH_ANYONECANPAY) in
    negb ((nHashType <? SIGHASH_ALL) || (SIGHASH_SINGLE <? nHashType)).

Section Interpreter.
Context `{CryptoOps} `{SignatureOps} `{ScriptHashOps}.

Definition IsLowDERSignature (vchSig : bytes) : outcome unit :=
  fails negb (IsValidSignatureEncoding vchSig) as SCRIPT_ERR_SIG_DER ;
  fails negb (CheckLowS (take (length vchSig - 1) vchSig)) as SCRIPT_ERR_SIG_HIGH_S ;
  Success tt.

Section Flags.
Context (flags : Z).

Definition CheckSignatureEncoding (vchSig : bytes) : outcome unit :=
  if len vchSig =? 0 then Success tt
  else
    fails has flags (Z.lor (Z.lor SCRIPT_VERIFY_DERSIG SCRIPT_VERIFY_LOW_S) SCRIPT_VERIFY_STRICTENC)
          && negb (IsValidSignatureEncoding vchSig) as SCRIPT_ERR_SIG_DER ;
    _ ← (if has flags SCRIPT_VERIFY_LOW_S then IsLowDERSignature vchSig else Success tt);
    fails has flags SCRIPT_VERIFY_STRICTENC && negb (IsDefinedHashtypeSignature vchSig) as SCRIPT_ERR_SIG_HASHTYPE ;
    Success tt.

Context (checker : BaseSignatureChecker) (sigversion : SigVersion).

Definition CheckPubKeyEncoding (vchPubKey : bytes) : outcome unit :=
  fails has flags SCRIPT_VERIFY_STRICTENC && negb (IsCompressedOrUncompressedPubKey vchPubKey) as SCRIPT_ERR_PUBKEYTYPE ;
  fails has flags SCRIPT_VERIFY_WITNESS_PUBKEYTYPE && bool_decide (sigversion = SIGVERSION_WITNESS_V0)
        && negb (IsCompressedPubKey vchPubKey) as SCRIPT_ERR_WITNESS_PUBKEYTYPE ;
  Success tt.

Definition fRequireMinimal : bool := has flags SCRIPT_VERIFY_MINIMALDATA.
Definition num (vch : bytes) : outcome Z := script_num vch fRequireMinimal 4.

(** ** The state of an evaluation *)

Record Machine := mkMachine {
  stack : list bytes;
  altstack : list bytes;
  vfExec : list bool;
  pbegincodehash : bytes;
  nOpCount : Z
}.
Definition with_stack (m : Machine) (st : list bytes) : Machine :=
  mkMachine st (altstack m) (vfExec m) (pbegincodehash m) (nOpCount m).

Definition stack_error {A} : outcome A := Failure SCRIPT_ERR_INVALID_STACK_OPERATION.

(** ** Control *)

Definition check_locktime_verify (st : list bytes) : outcome unit :=
  if negb (has flags SCRIPT_VERIFY_CHECKLOCKTIMEVERIFY) then
    fails has flags SCRIPT_VERIFY_DISCOURAGE_UPGRADABLE_NOPS as SCRIPT_ERR_DISCOURAGE_UPGRADABLE_NOPS ; Success tt
  else
    match st with
    | [] => stack_error
    | top :: _ =>
        nLockTime ← script_num top fRequireMinimal 5;
        fails nLockTime <? 0 as SCRIPT_ERR_NEGATIVE_LOCKTIME ;
        fails negb (CheckLockTime checker nLockTime) as SCRIPT_ERR_UNSATISFIED_LOCKTIME ;
        Success tt
    end.

(** [CTxIn::SEQUENCE_LOCKTIME_DISABLE_FLAG], bit 31. *)
Definition check_sequence_verify (st : list bytes) : outcome unit :=
  if negb (has flags SCRIPT_VERIFY_CHECKSEQUENCEVERIFY) then
    fails has flags SCRIPT_VERIFY_DISCOURAGE_UPGRADABLE_NOPS as SCRIPT_ERR_DISCOURAGE_UPGRADABLE_NOPS ; Success tt
  else
    match st with
    | [] => stack_error
    | top :: _ =>
        nSequence ← script_num top fRequireMinimal 5;
        fails nSequence <? 0 as SCRIPT_ERR_NEGATIVE_LOCKTIME ;
        if negb (Z.land nSequence (Z.shiftl 1 31) =? 0) then Success tt
        else
          fails negb (CheckSequence checker nSequence) as SCRIPT_ERR_UNSATISFIED_LOCKTIME ;
          Success tt
    end.

(** [OP_IF] and [OP_NOTIF]: the value pushed to [vfExec] and the stack. *)
Definition enter_conditional (opcode : Z) (fExec : bool) (st : list bytes) : outcome (bool * list bytes) :=
  if fExec then
    match st with
    | [] => Failure SCRIPT_ERR_UNBALANCED_CONDITIONAL
    | vch :: st' =>
        fails bool_decide (sigversion = SIGVERSION_WITNESS_V0) && has flags SCRIPT_VERIFY_MINIMALIF
              && ((1 <? len vch) || (len vch =? 1) && negb (byte_at vch 0 =? 1)) as SCRIPT_ERR_MINIMALIF ;
        Success (if opcode =? OP_NOTIF then negb (CastToBool vch) else CastToBool vch, st')
    end
  else Success (false, st).

(** ** Stack operations

    [None] for an opcode of another group. *)

Definition stack_op (opcode : Z) (st : list bytes) : option (outcome (list bytes)) :=
  if opcode =? OP_2DROP then Some match st with _ :: _ :: st' => Success st' | _ => stack_error end
  else if opcode =? OP_2DUP then Some match st with x2 :: x1 :: st' => Success (x2 :: x1 :: st) | _ => stack_error end
  else if opcode =? OP_3DUP then
    Some match st with x3 :: x2 :: x1 :: _ => Success (x3 :: x2 :: x1 :: st) | _ => stack_error end
  else if opcode =? OP_2OVER then
    Some match st with _ :: _ :: x2 :: x1 :: _ => Success (x2 :: x1 :: st) | _ => stack_error end
  else if opcode =? OP_2ROT then
    Some match st with
         | x6 :: x5 :: x4 :: x3 :: x2 :: x1 :: st' => Success (x2 :: x1 :: x6 :: x5 :: x4 :: x3 :: st')
         | _ => stack_error
         end
  else if opcode =? OP_2SWAP then
    Some match st with x4 :: x3 :: x2 :: x1 :: st' => Success (x2 :: x1 :: x4 :: x3 :: st') | _ => stack_error end
  else if opcode =? OP_IFDUP then
    Some match st with x :: _ => Success (if CastToBool x then x :: st else st) | _ => stack_error end
  else if opcode =? OP_DEPTH then Some (Success (scriptnum_serialize (Z.of_nat (length st)) :: st))
  else if opcode =? OP_DROP then Some match st with _ :: st' => Success st' | _ => stack_error end
  else if opcode =? OP_DUP then Some match st with x :: _ => Success (x :: st) | _ => stack_error end
  else if opcode =? OP_NIP then Some match st with x2 :: _ :: st' => Success (x2 :: st') | _ => stack_error end
  else if opcode =? OP_OVER then Some match st with _ :: x1 :: _ => Success (x1 :: st) | _ => stack_error end
  else if (opcode =? OP_PICK) || (opcode =? OP_ROLL) then
    Some match st with
         | top :: _ :: _ =>
             n ← num top;
             let st' := tail st in
             let n := getint n in
             fails (n <? 0) || (Z.of_nat (length st') <=? n) as SCRIPT_ERR_INVALID_STACK_OPERATION ;
             let vch := default [] (st' !! Z.to_nat n) in
             Success (vch :: if opcode =? OP_ROLL then take (Z.to_nat n) st' ++ drop (S (Z.to_nat n)) st' else st')
         | _ => stack_error
         end
  else if opcode =? OP_ROT then
    Some match st with x3 :: x2 :: x1 :: st' => Success (x1 :: x3 :: x2 :: st') | _ => stack_error end
  else if opcode =? OP_SWAP then Some match st with x2 :: x1 :: st' => Success (x1 :: x2 :: st') | _ => stack_error end
  else if opcode =? OP_TUCK then Some match st with x2 :: x1 :: st' => Success (x2 :: x1 :: x2 :: st') | _ => stack_error end
  else if opcode =? OP_SIZE then
    Some match st with x :: _ => Success (scriptnum_serialize (len x) :: st) | _ => stack_error end
  else if (opcode =? OP_EQUAL) || (opcode =? OP_EQUALVERIFY) then
    Some match st with
         | vch2 :: vch1 :: st' =>
             let fEqual := bool_decide (vch1 = vch2) in
             if opcode =? OP_EQUALVERIFY then fails negb fEqual as SCRIPT_ERR_EQUALVERIFY ; Success st'
             else Success (vch_bool fEqual :: st')
         | _ => stack_error
         end
  else None.

(** ** Numeric operations *)

Definition unary_op (opcode bn : Z) : Z :=
  if opcode =? OP_1ADD then bn + 1
  else if opcode =? OP_1SUB then bn - 1
  else if opcode =? OP_NEGATE then - bn
  else if opcode =? OP_ABS then (if bn <? 0 then - bn else bn)
  else if opcode =? OP_NOT then Z.b2z (bn =? 0)
  else Z.b2z (negb (bn =? 0)).
Definition is_unary (opcode : Z) : bool :=
  (opcode =? OP_1ADD) || (opcode =? OP_1SUB) || (opcode =? OP_NEGATE) || (opcode =? OP_ABS)
  || (opcode =? OP_NOT) || (opcode =? OP_0NOTEQUAL).

Definition binary_op (opcode bn1 bn2 : Z) : Z :=
  if opcode =? OP_ADD then bn1 + bn2
  else if opcode =? OP_SUB then bn1 - bn2
  else if opcode =? OP_BOOLAND then Z.b2z (negb (bn1 =? 0) && negb (bn2 =? 0))
  else if opcode =? OP_BOOLOR then Z.b2z (negb (bn1 =? 0) || negb (bn2 =? 0))
  else if opcode =? OP_NUMEQUAL then Z.b2z (bn1 =? bn2)
  else if opcode =? OP_NUMEQUALVERIFY then Z.b2z (bn1 =? bn2)
  else if opcode =? OP_NUMNOTEQUAL then Z.b2z (negb (bn1 =? bn2))
  else if opcode =? OP_LESSTHAN then Z.b2z (bn1 <? bn2)
  else if opcode =? OP_GREATERTHAN then Z.b2z (bn2 <? bn1)
  else if opcode =? OP_LESSTHANOREQUAL then Z.b2z (bn1 <=? bn2)
  else if opcode =? OP_GREATERTHANOREQUAL then Z.b2z (bn2 <=? bn1)
  else if opcode =? OP_MIN then (if bn1 <? bn2 then bn1 else bn2)
  else (if bn2 <? bn1 then bn1 else bn2).
Definition is_binary (opcode : Z) : bool :=
  (opcode =? OP_ADD) || (opcode =? OP_SUB) || (opcode =? OP_BOOLAND) || (opcode =? OP_BOOLOR)
  || (opcode =? OP_NUMEQUAL) || (opcode =? OP_NUMEQUALVERIFY) || (opcode =? OP_NUMNOTEQUAL) || (opcode =? OP_LESSTHAN)
  || (opcode =? OP_GREATERTHAN) || (opcode =? OP_LESSTHANOREQUAL) || (opcode =? OP_GREATERTHANOREQUAL)
  || (opcode =? OP_MIN) || (opcode =? OP_MAX).

Definition numeric_op (opcode : Z) (st : list bytes) : option (outcome (list bytes)) :=
  if is_unary opcode then
    Some match st with
         | top :: st' => bn ← num top; Success (scriptnum_serialize (unary_op opcode bn) :: st')
         | _ => stack_error
         end
  else if is_binary opcode then
    Some match st with
         | top2 :: top1 :: st' =>
             bn1 ← num top1; bn2 ← num top2;
             let vch := scriptnum_serialize (binary_op opcode bn1 bn2) in
             if opcode =? OP_NUMEQUALVERIFY
             then fails negb (CastToBool vch) as SCRIPT_ERR_NUMEQUALVERIFY ; Success st'
             else Success (vch :: st')
         | _ => stack_error
         end
  else if opcode =? OP_WITHIN then
    Some match st with
         | top3 :: top2 :: top1 :: st' =>
             bn1 ← num top1; bn2 ← num top2; bn3 ← num top3;
             Success (vch_bool ((bn2 <=? bn1) && (bn1 <? bn3)) :: st')
         | _ => stack_error
         end
  else None.

(** ** Hashes and signatures *)

Definition is_hash (opcode : Z) : bool :=
  (opcode =? OP_RIPEMD160) || (opcode =? OP_SHA1) || (opcode =? OP_SHA256) || (opcode =? OP_HASH160) || (opcode =? OP_HASH256).
Definition hash_op (opcode : Z) (vch : bytes) : bytes :=
  if opcode =? OP_RIPEMD160 then le_bytes 20 (Ripemd160 vch)
  else if opcode =? OP_SHA1 then le_bytes 20 (Sha1 vch)
  else if opcode =? OP_SHA256 then le_bytes 32 (Sha256 vch)
  else if opcode =? OP_HASH160 then le_bytes 20 (Hash160 vch)
  else le_bytes 32 (Hash vch).

Definition drop_signature (scriptCode vchSig : bytes) : bytes :=
  if bool_decide (sigversion = SIGVERSION_BASE) then FindAndDelete scriptCode (push_data vchSig) else scriptCode.

(** [OP_CHECKSIG] and [OP_CHECKSIGVERIFY] *)
Definition check_sig (opcode : Z) (scriptCode : bytes) (st : list bytes) : outcome (list bytes) :=
  match st with
  | vchPubKey :: vchSig :: st' =>
      let scriptCode := drop_signature scriptCode vchSig in
      _ ← CheckSignatureEncoding vchSig;
      _ ← CheckPubKeyEncoding vchPubKey;
      let fSuccess := CheckSig checker vchSig vchPubKey scriptCode sigversion in
      fails negb fSuccess && has flags SCRIPT_VERIFY_NULLFAIL && negb (len vchSig =? 0) as SCRIPT_ERR_SIG_NULLFAIL ;
      if opcode =? OP_CHECKSIGVERIFY
      then fails negb fSuccess as SCRIPT_ERR_CHECKSIGVERIFY ; Success st'
      else Success (vch_bool fSuccess :: st')
  | _ => stack_error
  end.

(** The [while (fSuccess && nSigsCount > 0)] loop on the signatures and keys
    that are left; there are never fewer keys than signatures. *)
Fixpoint multisig_loop (scriptCode : bytes) (keys sigs : list bytes) : outcome bool :=
  match sigs, keys with
  | [], _ => Success true
  | _, [] => Success false
  | vchSig :: sigs', vchPubKey :: keys' =>
      _ ← CheckSignatureEncoding vchSig;
      _ ← CheckPubKeyEncoding vchPubKey;
      let sigs := if CheckSig checker vchSig vchPubKey scriptCode sigversion then sigs' else sigs in
      if (length keys' <? length sigs)%nat then Success false else multisig_loop scriptCode keys' sigs
  end.

(** The [while (i-- > 1)] loop: [n] elements are popped. *)
Fixpoint multisig_cleanup (n : nat) (fSuccess : bool) (ikey2 : Z) (st : list bytes) : outcome (list bytes) :=
  match n, st with
  | O, _ => Success st
  | S _, [] => Failure SCRIPT_ERR_UNKNOWN_ERROR
  | S n', top :: st' =>
      fails negb fSuccess && has flags SCRIPT_VERIFY_NULLFAIL && (ikey2 =? 0) && negb (len top =? 0) as SCRIPT_ERR_SIG_NULLFAIL ;
      multisig_cleanup n' fSuccess (if 0 <? ikey2 then ikey2 - 1 else ikey2) st'
  end.

(** [OP_CHECKMULTISIG] and [OP_CHECKMULTISIGVERIFY]: the stack and [nOpCount]. *)
Definition check_multisig (opcode : Z) (scriptCode : bytes) (ops : Z) (st : list bytes) : outcome (list bytes * Z) :=
  match st with
  | [] => stack_error
  | top :: _ =>
      n ← num top;
      let nKeysCount := getint n in
      fails (nKeysCount <? 0) || (MAX_PUBKEYS_PER_MULTISIG <? nKeysCount) as SCRIPT_ERR_PUBKEY_COUNT ;
      let ops := ops + nKeysCount in
      fails MAX_OPS_PER_SCRIPT <? ops as SCRIPT_ERR_OP_COUNT ;
      let i := nKeysCount + 2 in
      fails Z.of_nat (length st) <? i as SCRIPT_ERR_INVALID_STACK_OPERATION ;
      n ← num (default [] (st !! Z.to_nat (i - 1)));
      let nSigsCount := getint n in
      fails (nSigsCount <? 0) || (nKeysCount <? nSigsCount) as SCRIPT_ERR_SIG_COUNT ;
      let i := i + 1 + nSigsCount in
      fails Z.of_nat (length st) <? i as SCRIPT_ERR_INVALID_STACK_OPERATION ;
      let keys := take (Z.to_nat nKeysCount) (drop 1 st) in
      let sigs := take (Z.to_nat nSigsCount) (drop (Z.to_nat (nKeysCount + 2)) st) in
      let scriptCode := fold_left drop_signature sigs scriptCode in
      fSuccess ← multisig_loop scriptCode keys sigs;
      st ← multisig_cleanup (Z.to_nat (i - 1)) fSuccess (nKeysCount + 2) st;
      match st with
      | [] => stack_error
      | dummy :: st' =>
          fails has flags SCRIPT_VERIFY_NULLDUMMY && negb (len dummy =? 0) as SCRIPT_ERR_SIG_NULLDUMMY ;
          if opcode =? OP_CHECKMULTISIGVERIFY
          then fails negb fSuccess as SCRIPT_ERR_CHECKMULTISIGVERIFY ; Success (st', ops)
          else Success (vch_bool fSuccess :: st', ops)
      end
  end.

(** ** One opcode

    The [switch]; [pc] is the iterator after the opcode. *)

Definition is_small_int (opcode : Z) : bool := (opcode =? OP_1NEGATE) || ((OP_1 <=? opcode) && (opcode <=? OP_16)).
Definition is_upgradable_nop (opcode : Z) : bool := (opcode =? OP_NOP1) || ((OP_NOP4 <=? opcode) && (opcode <=? OP_NOP10)).

Definition exec_op (opcode : Z) (fExec : bool) (pc : bytes) (m : Machine) : outcome Machine :=
  if is_small_int opcode then Success (with_stack m (scriptnum_serialize (opcode - (OP_1 - 1)) :: stack m))
  else if opcode =? OP_NOP then Success m
  else if opcode =? OP_CHECKLOCKTIMEVERIFY then _ ← check_locktime_verify (stack m); Success m
  else if opcode =? OP_CHECKSEQUENCEVERIFY then _ ← check_sequence_verify (stack m); Success m
  else if is_upgradable_nop opcode then
    fails has flags SCRIPT_VERIFY_DISCOURAGE_UPGRADABLE_NOPS as SCRIPT_ERR_DISCOURAGE_UPGRADABLE_NOPS ; Success m
  else if (opcode =? OP_IF) || (opcode =? OP_NOTIF) then
    r ← enter_conditional opcode fExec (stack m);
    Success (mkMachine r.2 (altstack m) (r.1 :: vfExec m) (pbegincodehash m) (nOpCount m))
  else if opcode =? OP_ELSE then
    match vfExec m with
    | [] => Failure SCRIPT_ERR_UNBALANCED_CONDITIONAL
    | b :: vf => Success (mkMachine (stack m) (altstack m) (negb b :: vf) (pbegincodehash m) (nOpCount m))
    end
  else if opcode =? OP_ENDIF then
    match vfExec m with
    | [] => Failure SCRIPT_ERR_UNBALANCED_CONDITIONAL
    | _ :: vf => Success (mkMachine (stack m) (altstack m) vf (pbegincodehash m) (nOpCount m))
    end
  else if opcode =? OP_VERIFY then
    match stack m with
    | [] => stack_error
    | top :: st => fails negb (CastToBool top) as SCRIPT_ERR_VERIFY ; Success (with_stack m st)
    end
  else if opcode =? OP_RETURN then Failure SCRIPT_ERR_OP_RETURN
  else if opcode =? OP_TOALTSTACK then
    match stack m with
    | [] => stack_error
    | top :: st => Success (mkMachine st (top :: altstack m) (vfExec m) (pbegincodehash m) (nOpCount m))
    end
  else if opcode =? OP_FROMALTSTACK then
    match altstack m with
    | [] => Failure SCRIPT_ERR_INVALID_ALTSTACK_OPERATION
    | top :: alt => Success (mkMachine (top :: stack m) alt (vfExec m) (pbegincodehash m) (nOpCount m))
    end
  else match stack_op opcode (stack m) with Some r => st ← r; Success (with_stack m st) | None =>
       match numeric_op opcode (stack m) with Some r => st ← r; Success (with_stack m st) | None =>
    if is_hash opcode then
      match stack m with
      | [] => stack_error
      | vch :: st => Success (with_stack m (hash_op opcode vch :: st))
      end
    else if opcode =? OP_CODESEPARATOR then Success (mkMachine (stack m) (altstack m) (vfExec m) pc (nOpCount m))
    else if (opcode =? OP_CHECKSIG) || (opcode =? OP_CHECKSIGVERIFY) then
      st ← check_sig opcode (pbegincodehash m) (stack m); Success (with_stack m st)
    else if (opcode =? OP_CHECKMULTISIG) || (opcode =? OP_CHECKMULTISIGVERIFY) then
      r ← check_multisig opcode (pbegincodehash m) (nOpCount m) (stack m);
      Success (mkMachine r.1 (altstack m) (vfExec m) (pbegincodehash m) r.2)
    else Failure SCRIPT_ERR_BAD_OPCODE
  end end.

Definition is_disabled (opcode : Z) : bool :=
  (opcode =? OP_CAT) || (opcode =? OP_SUBSTR) || (opcode =? OP_LEFT) || (opcode =? OP_RIGHT) || (opcode =? OP_INVERT)
  || (opcode =? OP_AND) || (opcode =? OP_OR) || (opcode =? OP_XOR) || (opcode =? OP_2MUL) || (opcode =? OP_2DIV)
  || (opcode =? OP_MUL) || (opcode =? OP_DIV) || (opcode =? OP_MOD) || (opcode =? OP_LSHIFT) || (opcode =? OP_RSHIFT).

(** ** The loop *)

(** The body of the [while] loop: the next iterator and state. *)
Definition eval_step (pc : bytes) (m : Machine) : outcome (bytes * Machine) :=
  let fExec := forallb id (vfExec m) in
  match GetOp2 pc with
  | None => Failure SCRIPT_ERR_BAD_OPCODE
  | Some (opcode, vchPushValue, pc) =>
      fails MAX_SCRIPT_ELEMENT_SIZE <? len vchPushValue as SCRIPT_ERR_PUSH_SIZE ;
      let ops := if OP_16 <? opcode then nOpCount m + 1 else nOpCount m in
      fails (OP_16 <? opcode) && (MAX_OPS_PER_SCRIPT <? ops) as SCRIPT_ERR_OP_COUNT ;
      fails is_disabled opcode as SCRIPT_ERR_DISABLED_OPCODE ;
      let m := mkMachine (stack m) (altstack m) (vfExec m) (pbegincodehash m) ops in
      m ← (if fExec && (0 <=? opcode) && (opcode <=? OP_PUSHDATA4) then
             fails fRequireMinimal && negb (CheckMinimalPush vchPushValue opcode) as SCRIPT_ERR_MINIMALDATA ;
             Success (with_stack m (vchPushValue :: stack m))
           else if fExec || ((OP_IF <=? opcode) && (opcode <=? OP_ENDIF)) then exec_op opcode fExec pc m
           else Success m);
      fails (1000 <? Z.of_nat (length (stack m) + length (altstack m))) as SCRIPT_ERR_STACK_SIZE ;
      Success (pc, m)
  end.

(** Every operation consumes a byte: the length of the script is fuel enough. *)
Fixpoint eval_loop (fuel : nat) (pc : bytes) (m : Machine) : outcome Machine :=
  match pc, fuel with
  | [], _ => Success m
  | _, O => AssertionFailed
  | _, S fuel' => r ← eval_step pc m; eval_loop fuel' r.1 r.2
  end.

Definition EvalScript (st : list bytes) (script : bytes) : outcome (list bytes) :=
  fails MAX_SCRIPT_SIZE <? len script as SCRIPT_ERR_SCRIPT_SIZE ;
  m ← eval_loop (length script) script (mkMachine st [] [] script 0);
  fails negb (bool_decide (vfExec m = [])) as SCRIPT_ERR_UNBALANCED_CONDITIONAL ;
  Success (stack m).

End Flags.

(** ** Whole inputs *)

Section Verify.
Context (flags : Z) (checker : BaseSignatureChecker).

(** The end of [VerifyWitnessProgram]: the script on the stack of the witness. *)
Definition eval_witness (st : list bytes) (scriptPubKey : bytes) : outcome unit :=
  fails existsb (fun v => MAX_SCRIPT_ELEMENT_SIZE <? len v) st as SCRIPT_ERR_PUSH_SIZE ;
  st ← EvalScript flags checker SIGVERSION_WITNESS_V0 st scriptPubKey;
  match st with
  | [top] => fails negb (CastToBool top) as SCRIPT_ERR_EVAL_FALSE ; Success tt
  | _ => Failure SCRIPT_ERR_EVAL_FALSE
  end.

(** A witness is the vector of its elements, the last one on top. *)
Definition VerifyWitnessProgram (witness : list bytes) (witversion : Z) (program : bytes) : outcome unit :=
  if witversion =? 0 then
    if len program =? 32 then
      match reverse witness with
      | [] => Failure SCRIPT_ERR_WITNESS_PROGRAM_WITNESS_EMPTY
      | scriptPubKey :: st =>
          fails negb (bool_decide (le_bytes 32 (Sha256 scriptPubKey) = program)) as SCRIPT_ERR_WITNESS_PROGRAM_MISMATCH ;
          eval_witness st scriptPubKey
      end
    else if len program =? 20 then
      fails negb (length witness =? 2)%nat as SCRIPT_ERR_WITNESS_PROGRAM_MISMATCH ;
      eval_witness (reverse witness)
        (push_opcode OP_DUP ++ push_opcode OP_HASH160 ++ push_data program ++ push_opcode OP_EQUALVERIFY ++ push_opcode OP_CHECKSIG)
    else Failure SCRIPT_ERR_WITNESS_PROGRAM_WRONG_LENGTH
  else
    fails has flags SCRIPT_VERIFY_DISCOURAGE_UPGRADABLE_WITNESS_PROGRAM as SCRIPT_ERR_DISCOURAGE_UPGRADABLE_WITNESS_PROGRAM ;
    Success tt.

(** [stack.resize(1)] keeps the bottom element. *)
Definition resize1 (st : list bytes) : list bytes := [default [] (last st)].

Definition top_is_true (st : list bytes) : bool := match st with top :: _ => CastToBool top | [] => false end.

(** A witness program at [script]: whether there was one, and the stack. *)
Definition run_witness (witness : list bytes) (script : bytes) (malleated : bool) (e : ScriptError) (st : list bytes)
    : outcome (bool * list bytes) :=
  if has flags SCRIPT_VERIFY_WITNESS then
    match IsWitnessProgram script with
    | Some (witnessversion, witnessprogram) =>
        fails malleated as e ;
        _ ← VerifyWitnessProgram witness witnessversion witnessprogram;
        Success (true, resize1 st)
    | None => Success (false, st)
    end
  else Success (false, st).

Definition VerifyScript (scriptSig scriptPubKey : bytes) (witness : list bytes) : outcome unit :=
  fails has flags SCRIPT_VERIFY_SIGPUSHONLY && negb (IsPushOnly scriptSig) as SCRIPT_ERR_SIG_PUSHONLY ;
  stackCopy ← EvalScript flags checker SIGVERSION_BASE [] scriptSig;
  st ← EvalScript flags checker SIGVERSION_BASE stackCopy scriptPubKey;
  fails negb (top_is_true st) as SCRIPT_ERR_EVAL_FALSE ;
  bare ← run_witness witness scriptPubKey (negb (len scriptSig =? 0)) SCRIPT_ERR_WITNESS_MALLEATED st;
  r ← (if has flags SCRIPT_VERIFY_P2SH && IsPayToScriptHash scriptPubKey then
         fails negb (IsPushOnly scriptSig) as SCRIPT_ERR_SIG_PUSHONLY ;
         match stackCopy with
         | [] => AssertionFailed
         | pubKey2 :: st =>
             st ← EvalScript flags checker SIGVERSION_BASE st pubKey2;
             fails negb (top_is_true st) as SCRIPT_ERR_EVAL_FALSE ;
             w ← run_witness witness pubKey2 (negb (bool_decide (scriptSig = push_data pubKey2))) SCRIPT_ERR_WITNESS_MALLEATED_P2SH st;
             Success (bare.1 || w.1, w.2)
         end
       else Success bare);
  let '(hadWitness, st) := r : bool * list bytes in
  _ ← (if has flags SCRIPT_VERIFY_CLEANSTACK then
         assert_that (has flags SCRIPT_VERIFY_P2SH)
         (assert_that (has flags SCRIPT_VERIFY_WITNESS)
         (fails negb (length st =? 1)%nat as SCRIPT_ERR_CLEANSTACK ; Success tt))
       else Success tt);
  if has flags SCRIPT_VERIFY_WITNESS then
    assert_that (has flags SCRIPT_VERIFY_P2SH)
    (fails negb hadWitness && negb (bool_decide (witness = [])) as SCRIPT_ERR_WITNESS_UNEXPECTED ; Success tt)
  else Success tt.

End Verify.

(** ** Counting signature operations in witnesses *)

Definition WitnessSigOps (witversion : Z) (witprogram : bytes) (witness : list bytes) : Z :=
  if witversion =? 0 then
    if len witprogram =? 20 then 1
    else if (len witprogram =? 32) && negb (bool_decide (witness = [])) then GetSigOpCount true (default [] (last witness))
    else 0
  else 0.

Definition CountWitnessSigOps (scriptSig scriptPubKey : bytes) (witness : list bytes) (flags : Z) : outcome Z :=
  if negb (has flags SCRIPT_VERIFY_WITNESS) then Success 0
  else
    assert_that (has flags SCRIPT_VERIFY_P2SH)
    (Success
      match IsWitnessProgram scriptPubKey with
      | Some (v, p) => WitnessSigOps v p witness
      | None =>
          if IsPayToScriptHash scriptPubKey && IsPushOnly scriptSig then
            match IsWitnessProgram (default [] (last_push_loop (length scriptSig) scriptSig [])) with
            | Some (v, p) => WitnessSigOps v p witness
            | None => 0
            end
          else 0
      end).

End Interpreter.
