(* ===== verification/ScriptRules.v ===== *)
(** * Rules of script evaluation
      (about [src/src/script/interpreter.cpp])

    That flags only restrict what is accepted, that evaluation stays within
    its limits, and what the standard output scripts demand of their
    spenders. *)

From S2P Require Import Prelude Script DerSignature Base58 Interpreter.
Open Scope Z_scope.
Open Scope script_scope.

(** ** Outcomes ordered by what succeeds *)

Definition outcome_le {A} (r1 r2 : outcome A) : Prop := forall a, r1 = Success a -> r2 = Success a.
Notation "r1 ≼ r2" := (outcome_le r1 r2) (at level 70) : script_scope.

Create HintDb outcome discriminated.
#[export] Hint Constants Opaque : outcome.

Lemma outcome_le_refl {A} (r : outcome A) : r ≼ r.
Proof. intros a. done. Qed.
Lemma outcome_le_failure {A} e (r : outcome A) : Failure e ≼ r.
Proof. intros a. done. Qed.
Lemma outcome_le_bind {A B} (m1 m2 : outcome A) (f1 f2 : A -> outcome B) :
  m1 ≼ m2 -> (forall a, f1 a ≼ f2 a) -> (m1 ≫= f1) ≼ (m2 ≫= f2).
Proof. intros Hm Hf b. destruct m1 as [a| |]; [|done|done]. cbn. intros E. rewrite (Hm a eq_refl). by apply Hf. Qed.
Lemma outcome_le_fail_if {A} b1 b2 e1 e2 (k1 k2 : outcome A) :
  (b2 = true -> b1 = true) -> k1 ≼ k2 -> fail_if b1 e1 k1 ≼ fail_if b2 e2 k2.
Proof. intros Hb Hk a. unfold fail_if. destruct b1; [done|]. destruct b2; [by specialize (Hb eq_refl)|apply Hk]. Qed.
Lemma outcome_le_if {A} (b : bool) (x1 x2 y1 y2 : outcome A) : x1 ≼ x2 -> y1 ≼ y2 -> (if b then x1 else y1) ≼ (if b then x2 else y2).
Proof. by destruct b. Qed.
#[export] Hint Extern 0 (outcome_le ?r ?r) => apply outcome_le_refl : outcome.
#[export] Hint Resolve outcome_le_failure outcome_le_bind outcome_le_fail_if outcome_le_if : outcome.

Lemma bind_success {A B} (m : outcome A) (f : A -> outcome B) b : m ≫= f = Success b <-> exists a, m = Success a /\ f a = Success b.
Proof. destruct m; cbn; naive_solver. Qed.
Lemma fail_if_success {A} b e (k : outcome A) a : fail_if b e k = Success a <-> b = false /\ k = Success a.
Proof. unfold fail_if. destruct b; naive_solver. Qed.
Lemma assert_success {A} b (k : outcome A) a : assert_that b k = Success a <-> b = true /\ k = Success a.
Proof. unfold assert_that. destruct b; naive_solver. Qed.

(** Go through a computation that succeeded. *)
Ltac inv_success :=
  repeat match goal with
  | H : _ ≫= _ = Success _ |- _ => let a := fresh "a" in let E := fresh "E" in apply bind_success in H as (a & E & H)
  | H : fail_if _ _ _ = Success _ |- _ => let E := fresh "E" in apply fail_if_success in H as [E H]
  | H : assert_that _ _ = Success _ |- _ => let E := fresh "E" in apply assert_success in H as [E H]
  | H : Success _ = Success _ |- _ => injection H as H; subst
  | H : Failure _ = Success _ |- _ => discriminate H
  | H : AssertionFailed = Success _ |- _ => discriminate H
  end.

(** ** Fewer flags accept more *)

(** [flags' & flags == flags']: the flags of [flags'] are among those of [flags]. *)
Definition subflags (flags' flags : Z) : Prop := Z.land flags' flags = flags'.

Lemma has_mono flags' flags mask : subflags flags' flags -> has flags' mask = true -> has flags mask = true.
Proof.
  unfold subflags, has. intros Hs. rewrite !negb_true_iff, !Z.eqb_neq. intros Hn E. apply Hn.
  rewrite <- Hs, <- Z.land_assoc, E. apply Z.land_0_r.
Qed.

(** The two opcodes that were upgraded are not refused as upgradable by the
    weaker rules while the stronger ones know them. *)
Definition upgrades_known (flags flags' : Z) : Prop :=
  has flags' SCRIPT_VERIFY_DISCOURAGE_UPGRADABLE_NOPS = true ->
  (has flags SCRIPT_VERIFY_CHECKLOCKTIMEVERIFY = true -> has flags' SCRIPT_VERIFY_CHECKLOCKTIMEVERIFY = true) /\
  (has flags SCRIPT_VERIFY_CHECKSEQUENCEVERIFY = true -> has flags' SCRIPT_VERIFY_CHECKSEQUENCEVERIFY = true).

(** The combinations the assertions of [VerifyScript] allow. *)
Definition flags_wf (flags : Z) : Prop :=
  (has flags SCRIPT_VERIFY_CLEANSTACK = true -> has flags SCRIPT_VERIFY_WITNESS = true) /\
  (has flags SCRIPT_VERIFY_WITNESS = true -> has flags SCRIPT_VERIFY_P2SH = true).

Section Restrict.
Context `{CryptoOps} `{SignatureOps} `{ScriptHashOps}.
Context (flags flags' : Z) (checker : BaseSignatureChecker).
Context (Hsub : subflags flags' flags) (Hknown : upgrades_known flags flags').

Lemma has_weaker mask : has flags' mask = true -> has flags mask = true.
Proof. by apply has_mono. Qed.
Lemma has_weaker_and mask (b : bool) : has flags' mask && b = true -> has flags mask && b = true.
Proof. intros [Hm Hb]%andb_prop. by rewrite (has_weaker _ Hm), Hb. Qed.
#[local] Hint Resolve has_weaker has_weaker_and : outcome.

Lemma script_num_le vch n : script_num vch (fRequireMinimal flags) n ≼ script_num vch (fRequireMinimal flags') n.
Proof.
  intros a. unfold script_num, CScriptNum_of, fRequireMinimal. destruct (n <? len vch); [done|].
  destruct (has flags' SCRIPT_VERIFY_MINIMALDATA) eqn:E'; [by rewrite (has_weaker _ E')|]. cbn [andb].
  by destruct (has flags _ && _ && _ && _).
Qed.
Lemma num_le vch : num flags vch ≼ num flags' vch.
Proof. apply script_num_le. Qed.

Lemma CheckSignatureEncoding_le sig : CheckSignatureEncoding flags sig ≼ CheckSignatureEncoding flags' sig.
Proof.
  unfold CheckSignatureEncoding. destruct (len sig =? 0); [auto with outcome|].
  apply outcome_le_fail_if; [auto with outcome|]. apply outcome_le_bind; [|intros; auto with outcome].
  destruct (has flags' SCRIPT_VERIFY_LOW_S) eqn:E'; [rewrite (has_weaker _ E'); auto with outcome|].
  intros []. done.
Qed.
Lemma CheckPubKeyEncoding_le v key : CheckPubKeyEncoding flags v key ≼ CheckPubKeyEncoding flags' v key.
Proof.
  unfold CheckPubKeyEncoding. apply outcome_le_fail_if; [auto with outcome|]. rewrite <- !andb_assoc. auto with outcome.
Qed.
#[local] Hint Resolve script_num_le num_le CheckSignatureEncoding_le CheckPubKeyEncoding_le : outcome.

Lemma check_locktime_verify_le st : check_locktime_verify flags checker st ≼ check_locktime_verify flags' checker st.
Proof.
  unfold check_locktime_verify.
  destruct (has flags' SCRIPT_VERIFY_CHECKLOCKTIMEVERIFY) eqn:E'; [rewrite (has_weaker _ E')|]; cbn [negb];
    [destruct st; auto 7 with outcome|].
  destruct (has flags SCRIPT_VERIFY_CHECKLOCKTIMEVERIFY) eqn:E; cbn [negb]; [|auto with outcome].
  intros [] _. unfold fail_if. destruct (has flags' SCRIPT_VERIFY_DISCOURAGE_UPGRADABLE_NOPS) eqn:En; [|done].
  destruct (Hknown En) as [Hk _]. by rewrite (Hk E) in E'.
Qed.
Lemma check_sequence_verify_le st : check_sequence_verify flags checker st ≼ check_sequence_verify flags' checker st.
Proof.
  unfold check_sequence_verify.
  destruct (has flags' SCRIPT_VERIFY_CHECKSEQUENCEVERIFY) eqn:E'; [rewrite (has_weaker _ E')|]; cbn [negb];
    [destruct st; auto 9 with outcome|].
  destruct (has flags SCRIPT_VERIFY_CHECKSEQUENCEVERIFY) eqn:E; cbn [negb]; [|auto with outcome].
  intros [] _. unfold fail_if. destruct (has flags' SCRIPT_VERIFY_DISCOURAGE_UPGRADABLE_NOPS) eqn:En; [|done].
  destruct (Hknown En) as [_ Hk]. by rewrite (Hk E) in E'.
Qed.
#[local] Hint Resolve check_locktime_verify_le check_sequence_verify_le : outcome.

Lemma enter_conditional_le v opcode fExec st : enter_conditional flags v opcode fExec st ≼ enter_conditional flags' v opcode fExec st.
Proof.
  unfold enter_conditional. destruct fExec, st; auto with outcome. apply outcome_le_fail_if; [|auto with outcome].
  intros [[Hv Hf]%andb_prop Hm]%andb_prop. by rewrite Hv, Hm, (has_weaker _ Hf).
Qed.

(** The groups of operations are compared under the same opcode. *)
Definition group_le (r1 r2 : option (outcome (list bytes))) : Prop :=
  match r1, r2 with Some a, Some b => a ≼ b | None, None => True | _, _ => False end.
Lemma stack_op_le opcode st : group_le (stack_op flags opcode st) (stack_op flags' opcode st).
Proof.
  unfold stack_op. repeat (case_match; [by cbn; auto with outcome|]); try done.
  repeat case_match; cbn; auto with outcome.
Qed.
Lemma numeric_op_le opcode st : group_le (numeric_op flags opcode st) (numeric_op flags' opcode st).
Proof. unfold numeric_op. repeat case_match; cbn; auto 9 with outcome. Qed.

Lemma check_sig_le v opcode code st : check_sig flags checker v opcode code st ≼ check_sig flags' checker v opcode code st.
Proof.
  unfold check_sig. destruct st as [|key [|sig st]]; [auto with outcome..|].
  apply outcome_le_bind; [auto with outcome|]. intros []. apply outcome_le_bind; [auto with outcome|]. intros [].
  apply outcome_le_fail_if; [|auto with outcome].
  intros [[Hc Hf]%andb_prop Hn]%andb_prop. by rewrite Hc, Hn, (has_weaker _ Hf).
Qed.

Lemma multisig_loop_le v code keys sigs : multisig_loop flags checker v code keys sigs ≼ multisig_loop flags' checker v code keys sigs.
Proof. revert sigs. induction keys as [|key keys IH]; intros [|sig sigs]; cbn [multisig_loop]; auto with outcome. Qed.
Lemma multisig_cleanup_le n ok ikey2 st : multisig_cleanup flags n ok ikey2 st ≼ multisig_cleanup flags' n ok ikey2 st.
Proof.
  revert ikey2 st. induction n as [|n IH]; intros ikey2 [|top st]; cbn [multisig_cleanup]; auto with outcome.
  apply outcome_le_fail_if; [|apply IH].
  intros [[[Hc Hf]%andb_prop Hk]%andb_prop Hn]%andb_prop. by rewrite Hc, Hk, Hn, (has_weaker _ Hf).
Qed.
#[local] Hint Resolve check_sig_le multisig_loop_le multisig_cleanup_le enter_conditional_le : outcome.

Lemma check_multisig_le v opcode code ops st :
  check_multisig flags checker v opcode code ops st ≼ check_multisig flags' checker v opcode code ops st.
Proof.
  unfold check_multisig. destruct st as [|top st]; [auto with outcome|].
  apply outcome_le_bind; [auto with outcome|]. intros n. do 3 (apply outcome_le_fail_if; [done|]).
  apply outcome_le_bind; [auto with outcome|]. intros k. do 2 (apply outcome_le_fail_if; [done|]).
  apply outcome_le_bind; [auto with outcome|]. intros ok. apply outcome_le_bind; [auto with outcome|].
  intros [|dummy st']; auto with outcome.
Qed.
#[local] Hint Resolve check_multisig_le : outcome.

Lemma exec_op_le v opcode fExec pc m : exec_op flags checker v opcode fExec pc m ≼ exec_op flags' checker v opcode fExec pc m.
Proof.
  unfold exec_op. do 12 (case_match; [auto 7 with outcome|]).
  pose proof (stack_op_le opcode (stack m)) as Hs. pose proof (numeric_op_le opcode (stack m)) as Hn. unfold group_le in *.
  destruct (stack_op flags opcode (stack m)), (stack_op flags' opcode (stack m)); try done; [auto with outcome|].
  destruct (numeric_op flags opcode (stack m)), (numeric_op flags' opcode (stack m)); try done; [auto with outcome|].
  auto 7 with outcome.
Qed.
#[local] Hint Resolve exec_op_le : outcome.

Lemma eval_step_le v pc m : eval_step flags checker v pc m ≼ eval_step flags' checker v pc m.
Proof.
  unfold eval_step. destruct (GetOp2 pc) as [[[opcode vch] pc']|]; [|auto with outcome].
  do 3 (apply outcome_le_fail_if; [done|]). apply outcome_le_bind; [|intros; apply outcome_le_refl].
  apply outcome_le_if; [|apply outcome_le_if; [apply exec_op_le|apply outcome_le_refl]].
  apply outcome_le_fail_if; [apply has_weaker_and|apply outcome_le_refl].
Qed.

Lemma eval_loop_le v fuel pc m : eval_loop flags checker v fuel pc m ≼ eval_loop flags' checker v fuel pc m.
Proof.
  revert pc m. induction fuel as [|fuel IH]; intros [|b pc] m; cbn [eval_loop]; [apply outcome_le_refl..|].
  apply outcome_le_bind; [apply eval_step_le|intros r; apply IH].
Qed.

Lemma EvalScript_le v st script : EvalScript flags checker v st script ≼ EvalScript flags' checker v st script.
Proof.
  unfold EvalScript. apply outcome_le_fail_if; [done|]. apply outcome_le_bind; [apply eval_loop_le|intros m; apply outcome_le_refl].
Qed.
#[local] Hint Resolve EvalScript_le : outcome.

Lemma eval_witness_le st script : eval_witness flags checker st script ≼ eval_witness flags' checker st script.
Proof.
  unfold eval_witness. apply outcome_le_fail_if; [done|]. apply outcome_le_bind; [apply EvalScript_le|intros; apply outcome_le_refl].
Qed.
#[local] Hint Resolve eval_witness_le : outcome.

Lemma VerifyWitnessProgram_le w v p : VerifyWitnessProgram flags checker w v p ≼ VerifyWitnessProgram flags' checker w v p.
Proof.
  unfold VerifyWitnessProgram. destruct (v =? 0); [|auto with outcome].
  destruct (len p =? 32); [|auto with outcome]. destruct (reverse w); auto with outcome.
Qed.

Lemma run_witness_le w script mall e st :
  has flags' SCRIPT_VERIFY_WITNESS = true -> run_witness flags checker w script mall e st ≼ run_witness flags' checker w script mall e st.
Proof.
  intros Hw. unfold run_witness. rewrite Hw, (has_weaker _ Hw). destruct (IsWitnessProgram script) as [[v p]|]; [|auto with outcome].
  auto using VerifyWitnessProgram_le with outcome.
Qed.

Lemma VerifyScript_le scriptSig scriptPubKey witness :
  flags_wf flags' -> VerifyScript flags checker scriptSig scriptPubKey witness ≼ VerifyScript flags' checker scriptSig scriptPubKey witness.
Proof.
  intros [Hclean Hp2sh]. unfold VerifyScript.
  apply outcome_le_fail_if; [auto with outcome|]. apply outcome_le_bind; [auto with outcome|]. intros copy.
  apply outcome_le_bind; [auto with outcome|]. intros st. apply outcome_le_fail_if; [done|].
  destruct (has flags' SCRIPT_VERIFY_WITNESS) eqn:Ew.
  - rewrite (Hp2sh eq_refl), (has_weaker _ Ew), (has_weaker _ (Hp2sh eq_refl)). cbn [assert_that].
    apply outcome_le_bind; [by apply run_witness_le|]. intros bare. apply outcome_le_bind.
    + apply outcome_le_if; [|auto with outcome]. apply outcome_le_fail_if; [done|]. destruct copy; [auto with outcome|].
      apply outcome_le_bind; [auto with outcome|]. intros st'. apply outcome_le_fail_if; [done|].
      apply outcome_le_bind; [by apply run_witness_le|auto with outcome].
    + intros [had st']. apply outcome_le_bind; [|auto with outcome].
      destruct (has flags' SCRIPT_VERIFY_CLEANSTACK) eqn:Ec; [rewrite (has_weaker _ Ec); auto with outcome|]. intros []. done.
  - assert (has flags' SCRIPT_VERIFY_CLEANSTACK = false) as Ec by (destruct (has flags' SCRIPT_VERIFY_CLEANSTACK); [by specialize (Hclean eq_refl)|done]).
    assert (forall script mall e s, run_witness flags' checker witness script mall e s = Success (false, s)) as Hrw
      by (intros; unfold run_witness; by rewrite Ew).
    rewrite Ec, Hrw. intros [] Hv. cbn [mbind outcome_bind].
    apply bind_success in Hv as (bare & _ & Hv). apply bind_success in Hv as (r & Hv & _).
    destruct (has flags' SCRIPT_VERIFY_P2SH) eqn:Ep; [rewrite (has_weaker _ Ep) in Hv|done].
    cbn [andb] in *. destruct (IsPayToScriptHash scriptPubKey); [|done].
    apply fail_if_success in Hv as [-> Hv]. destruct copy as [|key2 st2]; [done|]. cbn [fail_if].
    apply bind_success in Hv as (st3 & He & Hv). rewrite (EvalScript_le _ _ _ _ He). cbn [mbind outcome_bind].
    apply fail_if_success in Hv as [-> _]. cbn [fail_if]. by rewrite Hrw.
Qed.

End Restrict.

(** ** Limits *)

Definition small (v : bytes) : Prop := len v <= MAX_SCRIPT_ELEMENT_SIZE.

Record machine_ok (m : Machine) : Prop := {
  ok_stack : Forall small (stack m);
  ok_altstack : Forall small (altstack m);
  ok_depth : (length (stack m) + length (altstack m) <= 1000)%nat;
  ok_ops : nOpCount m <= MAX_OPS_PER_SCRIPT
}.

Lemma length_abs_digits fuel a : (length (abs_digits fuel a) <= fuel)%nat.
Proof. revert a. induction fuel as [|fuel IH]; intros a; cbn [abs_digits]; [done|]. case_match; cbn [length]; [lia|]. specialize (IH (Z.shiftr a 8)). lia. Qed.
Lemma small_serialize n : small (scriptnum_serialize n).
Proof.
  unfold small, scriptnum_serialize, len, MAX_SCRIPT_ELEMENT_SIZE. pose proof (length_abs_digits 8 (u64 (if n <? 0 then - n else n))).
  repeat case_match; cbn [length]; unfold set_last; rewrite ?length_app, ?length_take; cbn [length]; lia.
Qed.
Lemma small_bool b : small (vch_bool b).
Proof. by destruct b. Qed.
Lemma small_hash `{CryptoOps} `{ScriptHashOps} opcode v : small (hash_op opcode v).
Proof. unfold small, hash_op, len. repeat case_match; by rewrite length_le_bytes. Qed.
#[local] Hint Resolve small_serialize small_bool small_hash : core.

(** Unfold what is known of the elements of a stack. *)
Ltac elements := repeat match goal with H : Forall _ (_ :: _) |- _ => apply Forall_cons in H as [? H] end;
  rewrite ?Forall_cons; split_and?; auto.

Section Limits.
Context `{CryptoOps} `{SignatureOps} `{ScriptHashOps}.
Context (flags : Z) (checker : BaseSignatureChecker) (v : SigVersion).

Lemma stack_op_small opcode st st' : stack_op flags opcode st = Some (Success st') -> Forall small st -> Forall small st'.
Proof.
  intros Hop Hst. unfold stack_op, stack_error in Hop.
  repeat case_match; try discriminate; injection Hop as Hop; inv_success; simplify_eq; elements.
  all: try (apply Forall_app; split; [apply Forall_take|apply Forall_drop]; by elements).
  all: match goal with |- small (default [] (?l !! ?i)) => destruct (l !! i) eqn:E'; [|done] end.
  all: apply list_elem_of_lookup_2 in E'; cbn; rewrite elem_of_cons in E'; destruct E' as [->|E']; [done|]; by eapply Forall_forall in E'.
Qed.

Lemma numeric_op_small opcode st st' : numeric_op flags opcode st = Some (Success st') -> Forall small st -> Forall small st'.
Proof.
  intros Hop Hst. unfold numeric_op, stack_error in Hop.
  repeat case_match; try discriminate; injection Hop as Hop; inv_success; simplify_eq; elements.
Qed.

Lemma check_sig_small opcode code st st' : check_sig flags checker v opcode code st = Success st' -> Forall small st -> Forall small st'.
Proof. unfold check_sig, stack_error. intros Hop Hst. repeat case_match; inv_success; elements. Qed.

Lemma multisig_cleanup_small n ok k st st' : multisig_cleanup flags n ok k st = Success st' -> Forall small st -> Forall small st'.
Proof.
  revert k st. induction n as [|n IH]; intros k st; cbn [multisig_cleanup]; [intros [= <-]; done|].
  destruct st as [|top st]; [done|]. intros Hop Hst. inv_success. elements. by eapply IH.
Qed.

Lemma check_multisig_small opcode code ops st st' ops' :
  check_multisig flags checker v opcode code ops st = Success (st', ops') ->
  Forall small st -> Forall small st' /\ ops' <= MAX_OPS_PER_SCRIPT.
Proof.
  unfold check_multisig, stack_error. intros Hop Hst. destruct st as [|top st]; [done|]. inv_success.
  destruct a2 as [|dummy st2]; [done|]. apply multisig_cleanup_small in E7; [|done].
  repeat case_match; inv_success; zbool; elements; lia.
Qed.

Lemma enter_conditional_small opcode fExec st r :
  enter_conditional flags v opcode fExec st = Success r -> Forall small st -> Forall small r.2.
Proof. unfold enter_conditional. intros Hop Hst. repeat case_match; inv_success; by elements. Qed.

Lemma exec_op_ok opcode fExec pc m m' :
  exec_op flags checker v opcode fExec pc m = Success m' ->
  Forall small (stack m) -> Forall small (altstack m) -> nOpCount m <= MAX_OPS_PER_SCRIPT ->
  Forall small (stack m') /\ Forall small (altstack m') /\ nOpCount m' <= MAX_OPS_PER_SCRIPT.
Proof.
  intros Hop Hs Ha Hc. unfold exec_op, stack_error, with_stack in Hop.
  repeat case_match; inv_success; cbn [stack altstack nOpCount]; split_and?; try done; elements.
  all: try (by eapply check_sig_small); try (by eapply stack_op_small); try (by eapply numeric_op_small).
  - by eapply enter_conditional_small.
  - destruct a as [st ops]. by eapply check_multisig_small.
  - destruct a as [st ops]. by eapply check_multisig_small.
Qed.

Lemma eval_step_ok pc m pc' m' : eval_step flags checker v pc m = Success (pc', m') -> machine_ok m -> machine_ok m'.
Proof.
  unfold eval_step. intros Hop [Hs Ha Hd Hc]. destruct (GetOp2 pc) as [[[opcode vch] pc1]|]; [|done]. inv_success.
  assert (Forall small (stack m') /\ Forall small (altstack m') /\ nOpCount m' <= MAX_OPS_PER_SCRIPT) as (Hs' & Ha' & Hc').
  { assert ((if OP_16 <? opcode then nOpCount m + 1 else nOpCount m) <= MAX_OPS_PER_SCRIPT) as Hops
      by (destruct (OP_16 <? opcode); [cbn [andb] in E0; zbool; lia|done]).
    destruct (forallb id (vfExec m) && (0 <=? opcode) && (opcode <=? OP_PUSHDATA4)).
    - inv_success. cbn. rewrite Forall_cons. unfold small at 1. apply Z.ltb_ge in E. by split_and!.
    - destruct (forallb id (vfExec m) || _); [by apply exec_op_ok in E2|]. by inv_success. }
  split; [done|done| |done]. match goal with H : (1000 <? _) = false |- _ => apply Z.ltb_ge in H end. lia.
Qed.

End Limits.

(** The loop of [EvalScript] as steps between iterator and state. *)
Definition script_step `{CryptoOps} `{SignatureOps} `{ScriptHashOps} flags checker v (s s' : bytes * Machine) : Prop :=
  s.1 <> [] /\ eval_step flags checker v s.1 s.2 = Success s'.

Section Loop.
Context `{CryptoOps} `{SignatureOps} `{ScriptHashOps}.
Context (flags : Z) (checker : BaseSignatureChecker) (v : SigVersion).

Lemma eval_step_progress pc m pc' m' : eval_step flags checker v pc m = Success (pc', m') -> (length pc' < length pc)%nat.
Proof.
  unfold eval_step. destruct (GetOp2 pc) as [[[opcode vch] pc1]|] eqn:Eg; [|done]. intros Hs. inv_success.
  by apply GetOp2_progress in Eg as [Hl _].
Qed.

Lemma eval_loop_fuel f1 f2 pc m : (length pc <= f1)%nat -> (length pc <= f2)%nat ->
  eval_loop flags checker v f1 pc m = eval_loop flags checker v f2 pc m.
Proof.
  revert f2 pc m. induction f1 as [|f1 IH]; intros [|f2] [|b pc] m H1' H2'; cbn [length] in *; try lia; try done. cbn [eval_loop].
  destruct (eval_step flags checker v (b :: pc) m) as [[pc' m']| |] eqn:E; [|done|done]. cbn.
  apply eval_step_progress in E. cbn [length] in E. apply IH; lia.
Qed.

Lemma eval_loop_steps fuel pc m m' : eval_loop flags checker v fuel pc m = Success m' -> rtc (script_step flags checker v) (pc, m) ([], m').
Proof.
  revert pc m. induction fuel as [|fuel IH]; intros [|b pc] m; cbn [eval_loop]; try done; [by intros [= <-]..|].
  intros Hl. apply bind_success in Hl as ([pc1 m1] & Hs & Hl). eapply rtc_l; [|by apply IH]. by split.
Qed.
End Loop.

(** No operation fails an assertion. *)
Definition never_asserts {A} (r : outcome A) : Prop := r <> AssertionFailed.
Lemma asserts_bind {A B} (m : outcome A) (f : A -> outcome B) : never_asserts m -> (forall a, never_asserts (f a)) -> never_asserts (m ≫= f).
Proof. destruct m; cbn; [auto|done|done]. Qed.
Lemma asserts_fail_if {A} b e (k : outcome A) : never_asserts k -> never_asserts (fail_if b e k).
Proof. by destruct b. Qed.
Lemma asserts_if {A} (b : bool) (x y : outcome A) : never_asserts x -> never_asserts y -> never_asserts (if b then x else y).
Proof. by destruct b. Qed.
Lemma asserts_success {A} (a : A) : never_asserts (Success a).
Proof. done. Qed.
Lemma asserts_failure {A} e : never_asserts (A := A) (Failure e).
Proof. done. Qed.
#[export] Hint Resolve asserts_bind asserts_fail_if asserts_if asserts_success asserts_failure : outcome.

Section Total.
Context `{CryptoOps} `{SignatureOps} `{ScriptHashOps}.
Context (flags : Z) (checker : BaseSignatureChecker) (v : SigVersion).

Lemma asserts_script_num vch b n : never_asserts (script_num vch b n).
Proof. unfold script_num. by destruct (CScriptNum_of vch b n). Qed.
Lemma asserts_encodings sig key : never_asserts (CheckSignatureEncoding flags sig) /\ never_asserts (CheckPubKeyEncoding flags v key).
Proof. unfold CheckSignatureEncoding, CheckPubKeyEncoding, IsLowDERSignature. split; auto 9 with outcome. Qed.
#[local] Hint Extern 1 (never_asserts (script_num _ _ _)) => apply asserts_script_num : outcome.
#[local] Hint Extern 1 (never_asserts (num _ _)) => apply asserts_script_num : outcome.
#[local] Hint Extern 1 (never_asserts (CheckSignatureEncoding _ _)) => apply asserts_encodings; exact [] : outcome.
#[local] Hint Extern 1 (never_asserts (CheckPubKeyEncoding _ _ _)) => apply (asserts_encodings []) : outcome.
#[local] Hint Extern 2 (never_asserts stack_error) => done : outcome.

Lemma asserts_locktimes st : never_asserts (check_locktime_verify flags checker st) /\ never_asserts (check_sequence_verify flags checker st).
Proof. unfold check_locktime_verify, check_sequence_verify. split; destruct st; auto 9 with outcome. Qed.
Lemma asserts_conditional opcode fExec st : never_asserts (enter_conditional flags v opcode fExec st).
Proof. unfold enter_conditional. destruct fExec, st; auto with outcome. Qed.
Lemma asserts_stack_op opcode st r : stack_op flags opcode st = Some r -> never_asserts r.
Proof. unfold stack_op. repeat case_match; intros [= <-]; auto 9 with outcome. Qed.
Lemma asserts_numeric_op opcode st r : numeric_op flags opcode st = Some r -> never_asserts r.
Proof. unfold numeric_op. repeat case_match; intros [= <-]; auto 9 with outcome. Qed.
Lemma asserts_check_sig opcode code st : never_asserts (check_sig flags checker v opcode code st).
Proof. unfold check_sig. destruct st as [|key [|sig st]]; auto 9 with outcome. Qed.
Lemma asserts_multisig_loop code keys sigs : never_asserts (multisig_loop flags checker v code keys sigs).
Proof. revert sigs. induction keys as [|key keys IH]; intros [|sig sigs]; cbn [multisig_loop]; auto 9 with outcome. Qed.
Lemma asserts_multisig_cleanup n ok k st : never_asserts (multisig_cleanup flags n ok k st).
Proof. revert k st. induction n as [|n IH]; intros k [|top st]; cbn [multisig_cleanup]; auto with outcome. Qed.
Lemma asserts_check_multisig opcode code ops st : never_asserts (check_multisig flags checker v opcode code ops st).
Proof.
  unfold check_multisig. destruct st as [|top st]; [done|].
  apply asserts_bind; [auto with outcome|intros n]. do 3 apply asserts_fail_if.
  apply asserts_bind; [auto with outcome|intros k]. do 2 apply asserts_fail_if.
  apply asserts_bind; [apply asserts_multisig_loop|intros ok]. apply asserts_bind; [apply asserts_multisig_cleanup|].
  intros [|dummy st']; auto with outcome.
Qed.

Lemma asserts_exec_op opcode fExec pc m : never_asserts (exec_op flags checker v opcode fExec pc m).
Proof.
  pose proof (asserts_locktimes (stack m)) as [H1' H2']. pose proof (asserts_conditional opcode fExec (stack m)).
  pose proof (asserts_check_sig opcode (pbegincodehash m) (stack m)).
  pose proof (asserts_check_multisig opcode (pbegincodehash m) (nOpCount m) (stack m)).
  unfold exec_op. repeat case_match; try done; try by apply asserts_fail_if.
  all: apply asserts_bind; try done; first [by eapply asserts_stack_op|by eapply asserts_numeric_op].
Qed.

Lemma asserts_eval_step pc m : never_asserts (eval_step flags checker v pc m).
Proof.
  unfold eval_step. destruct (GetOp2 pc) as [[[opcode vch] pc1]|]; [|done]. do 3 apply asserts_fail_if.
  apply asserts_bind; [|auto with outcome]. apply asserts_if; [auto with outcome|]. apply asserts_if; [apply asserts_exec_op|done].
Qed.

Lemma EvalScript_total st script : never_asserts (EvalScript flags checker v st script).
Proof.
  unfold EvalScript. apply asserts_fail_if, asserts_bind; [|auto with outcome]. generalize (mkMachine st [] [] script 0). intros m.
  assert (length script <= length script)%nat as Hf by done. revert Hf. generalize (length script) at 2 3. intros fuel.
  revert script m. induction fuel as [|fuel IH]; intros [|b pc] m Hf; cbn [eval_loop length] in *; try done; [lia|].
  pose proof (asserts_eval_step (b :: pc) m) as Hs. destruct (eval_step flags checker v (b :: pc) m) as [[pc' m']| |] eqn:E; [|done|done].
  cbn. apply IH. apply eval_step_progress in E. cbn [length] in E. lia.
Qed.
End Total.

(** ** Policy

    The rules of relay ([policy.h]) and those a peer is punished for breaking
    ([standard.h]). *)

Definition MANDATORY_SCRIPT_VERIFY_FLAGS : Z := SCRIPT_VERIFY_P2SH.
Definition STANDARD_SCRIPT_VERIFY_FLAGS : Z :=
  foldl Z.lor MANDATORY_SCRIPT_VERIFY_FLAGS
    [SCRIPT_VERIFY_DERSIG; SCRIPT_VERIFY_STRICTENC; SCRIPT_VERIFY_MINIMALDATA; SCRIPT_VERIFY_NULLDUMMY;
     SCRIPT_VERIFY_DISCOURAGE_UPGRADABLE_NOPS; SCRIPT_VERIFY_CLEANSTACK; SCRIPT_VERIFY_MINIMALIF; SCRIPT_VERIFY_NULLFAIL;
     SCRIPT_VERIFY_CHECKLOCKTIMEVERIFY; SCRIPT_VERIFY_CHECKSEQUENCEVERIFY; SCRIPT_VERIFY_LOW_S; SCRIPT_VERIFY_WITNESS;
     SCRIPT_VERIFY_DISCOURAGE_UPGRADABLE_WITNESS_PROGRAM; SCRIPT_VERIFY_WITNESS_PUBKEYTYPE].
Definition STANDARD_NOT_MANDATORY_VERIFY_FLAGS : Z :=
  Z.land STANDARD_SCRIPT_VERIFY_FLAGS (Z.lnot MANDATORY_SCRIPT_VERIFY_FLAGS).

(** C9: flags only restrict.  An input accepted under some flags is accepted
    under fewer of them, if the fewer are a combination that the assertions of
    [VerifyScript] allow and do not discourage the opcodes of an upgrade that
    only the more of them know; in particular what relay accepts passes the
    mandatory checks, so that the branch of [AcceptToMemoryPool] that reports
    a bug is never taken for its scripts. *)
Theorem flags_only_restrict `{CryptoOps} `{SignatureOps} `{ScriptHashOps} flags flags' checker scriptSig scriptPubKey w :
  subflags flags' flags -> upgrades_known flags flags' -> flags_wf flags' ->
  (VerifyScript flags checker scriptSig scriptPubKey w = Success tt -> VerifyScript flags' checker scriptSig scriptPubKey w = Success tt) /\
  (VerifyScript STANDARD_SCRIPT_VERIFY_FLAGS checker scriptSig scriptPubKey w = Success tt ->
   VerifyScript MANDATORY_SCRIPT_VERIFY_FLAGS checker scriptSig scriptPubKey w = Success tt).
Proof.
  intros Hs Hu Hw. split; intros Hv; eapply VerifyScript_le; try eassumption; [reflexivity|done|split; done].
Qed.

(** C17: the evaluation of a script ends without a failed assertion, and in
    every state it can reach from a stack within the limits, and so in its
    result, no element is longer than 520 bytes, the two stacks together hold
    at most 1000 elements, and at most 201 operations have been counted, the
    keys of multisignatures included. *)
Theorem evaluation_within_limits `{CryptoOps} `{SignatureOps} `{ScriptHashOps} flags checker v script st :
  Forall (fun e => len e <= MAX_SCRIPT_ELEMENT_SIZE) st -> (length st <= 1000)%nat ->
  EvalScript flags checker v st script <> AssertionFailed /\
  (forall pc m, rtc (script_step flags checker v) (script, mkMachine st [] [] script 0) (pc, m) ->
    Forall (fun e => len e <= MAX_SCRIPT_ELEMENT_SIZE) (stack m ++ altstack m) /\
    (length (stack m) + length (altstack m) <= 1000)%nat /\ nOpCount m <= MAX_OPS_PER_SCRIPT) /\
  (forall st', EvalScript flags checker v st script = Success st' ->
    Forall (fun e => len e <= MAX_SCRIPT_ELEMENT_SIZE) st' /\ (length st' <= 1000)%nat).
Proof.
  intros Hst Hlen. split; [apply EvalScript_total|].
  assert (forall s, rtc (script_step flags checker v) (script, mkMachine st [] [] script 0) s -> machine_ok s.2) as Hinv.
  { intros s Hs. assert (machine_ok (script, mkMachine st [] [] script 0).2) as Hok by (split; cbn; [done|done|lia|done]).
    induction Hs as [|s1 s2 s3 [_ Hstep] _ IH]; [done|]. apply IH. destruct s2 as [pc2 m2]. by eapply eval_step_ok. }
  split.
  - intros pc m Hs. apply Hinv in Hs as [Hs1 Hs2 Hs3 Hs4]. split; [by apply Forall_app|done].
  - intros st' He. unfold EvalScript in He. inv_success. apply eval_loop_steps, Hinv in E0 as [Hs1 Hs2 Hs3 Hs4]. cbn in *. split; [done|lia].
Qed.

Module RulesExample.

#[export] Instance demo_crypto : CryptoOps := {|
  Hash160 := fun v => le_value v mod 2 ^ 160;
  Sha256 := fun v => le_value v mod 2 ^ 256;
  secp256k1_ec_pubkey_parse := fun _ => true
|}.
#[export] Instance demo_hashes : ScriptHashOps := {| Ripemd160 := fun v => le_value v mod 2 ^ 160; Sha1 := fun v => le_value v mod 2 ^ 160 |}.
#[export] Instance demo_signatures : SignatureOps := {|
  secp256k1_ecdsa_signature_parse_compact := fun _ => true;
  secp256k1_ecdsa_signature_normalize := fun v => (false, v);
  secp256k1_ecdsa_verify := fun v hash _ => le_value (reverse (take 32 v)) =? hash
|}.

(** [OP_1], spending [OP_DUP OP_EQUAL]. *)
Lemma flags_only_restrict_witness :
  let rules := Z.lor SCRIPT_VERIFY_P2SH SCRIPT_VERIFY_DERSIG in
  VerifyScript rules base_checker [x51] [x76; x87] [] = Success tt /\
  VerifyScript MANDATORY_SCRIPT_VERIFY_FLAGS base_checker [x51] [x76; x87] [] = Success tt.
Proof.
  destruct (flags_only_restrict STANDARD_SCRIPT_VERIFY_FLAGS (Z.lor SCRIPT_VERIFY_P2SH SCRIPT_VERIFY_DERSIG) base_checker [x51] [x76; x87] [])
    as [H1 H2]; [reflexivity|done|split; done|]. split; [apply H1|apply H2]; reflexivity.
Defined.

(** An opcode that the weaker rules discourage and the stronger ones know. *)
Example unknown_upgrade :
  let old := SCRIPT_VERIFY_DISCOURAGE_UPGRADABLE_NOPS in
  let new := Z.lor old SCRIPT_VERIFY_CHECKLOCKTIMEVERIFY in
  let checker := mkChecker (fun _ _ _ _ => false) (fun _ => true) (fun _ => false) in
  VerifyScript new checker [x51] [xb1] [] = Success tt /\ VerifyScript old checker [x51] [xb1] [] <> Success tt.
Proof. split; [reflexivity|discriminate]. Qed.

Lemma evaluation_within_limits_witness :
  EvalScript SCRIPT_VERIFY_P2SH base_checker SIGVERSION_BASE [[x01]] [x76; x87] = Success [[x01]] /\ len [x01] <= MAX_SCRIPT_ELEMENT_SIZE.
Proof.
  destruct (evaluation_within_limits SCRIPT_VERIFY_P2SH base_checker SIGVERSION_BASE [x76; x87] [[x01]]) as (_ & _ & Hr).
  - constructor; [|constructor]. vm_compute. discriminate.
  - cbn. lia.
  - destruct (Hr [[x01]] eq_refl) as [Hf _]. split; [reflexivity|]. by inversion Hf.
Defined.

End RulesExample.
