(* ===== verification/SpendRules.v ===== *)
(** * What the standard outputs demand of a spender
      (about [VerifyScript] of [src/src/script/interpreter.cpp] and the
      scripts of [src/src/script/standard.cpp])

    The evaluation of the four scripts that pay to one key, symbolically, for
    every scriptSig. *)

From S2P Require Import Prelude Script DerSignature Base58 Interpreter ScriptRules.
Open Scope Z_scope.
Open Scope script_scope.

(** ** Stepping through a script *)

Section Steps.
Context `{CryptoOps} `{SignatureOps} `{ScriptHashOps}.
Context (flags : Z) (checker : BaseSignatureChecker) (v : SigVersion).

Definition eval_from (pc : bytes) (m : Machine) : outcome Machine := eval_loop flags checker v (length pc) pc m.

Lemma eval_from_step pc m : pc <> [] -> eval_from pc m = eval_step flags checker v pc m ≫= fun r => eval_from r.1 r.2.
Proof.
  destruct pc as [|b pc]; [done|]. intros _. unfold eval_from at 1. cbn [length eval_loop].
  destruct (eval_step flags checker v (b :: pc) m) as [[pc' m']| |] eqn:E; [|done|done]. cbn. unfold eval_from.
  apply eval_step_progress in E. cbn [length] in E. apply eval_loop_fuel; lia.
Qed.

Definition bump (m : Machine) : Machine := mkMachine (stack m) (altstack m) (vfExec m) (pbegincodehash m) (nOpCount m + 1).

Definition check_depth (m : Machine) (k : outcome Machine) : outcome Machine :=
  fails (1000 <? Z.of_nat (length (stack m) + length (altstack m))) as SCRIPT_ERR_STACK_SIZE ; k.

Lemma eval_opcode op rest m : OP_16 < op < 256 -> is_disabled op = false -> vfExec m = [] -> nOpCount m < MAX_OPS_PER_SCRIPT ->
  eval_from (push_opcode op ++ rest) m =
    exec_op flags checker v op true rest (bump m) ≫= fun m' => check_depth m' (eval_from rest m').
Proof.
  intros Hop Hd Hv Hn. rewrite eval_from_step by done. unfold eval_step. rewrite Hv. cbn [forallb].
  unfold OP_16 in *. rewrite GetOp2_push_opcode by (unfold OP_PUSHDATA4; lia).
  change (MAX_SCRIPT_ELEMENT_SIZE <? len []) with false. cbn [fail_if]. rewrite (proj2 (Z.ltb_lt 96 op)) by lia. cbn [andb].
  rewrite (proj2 (Z.ltb_ge _ _)) by lia. cbn [fail_if]. rewrite Hd. cbn [fail_if andb orb].
  rewrite (proj2 (Z.leb_gt op OP_PUSHDATA4)) by (unfold OP_PUSHDATA4; lia). rewrite andb_false_r. unfold bump.
  replace (mkMachine (stack m) (altstack m) [] (pbegincodehash m) (nOpCount m + 1))
    with (mkMachine (stack m) (altstack m) (vfExec m) (pbegincodehash m) (nOpCount m + 1)) by by rewrite Hv.
  destruct (exec_op _ _ _ _ _ _ _) as [m'| |]; [|done|done]. cbn. unfold check_depth, fail_if. by destruct (1000 <? _).
Qed.

Lemma eval_data data rest m : len data <= MAX_SCRIPT_ELEMENT_SIZE -> vfExec m = [] ->
  eval_from (push_data data ++ rest) m =
    fails fRequireMinimal flags && negb (CheckMinimalPush data (push_code data)) as SCRIPT_ERR_MINIMALDATA ;
    check_depth (with_stack m (data :: stack m)) (eval_from rest (with_stack m (data :: stack m))).
Proof.
  intros Hl Hv. unfold MAX_SCRIPT_ELEMENT_SIZE in *.
  assert (push_data data ++ rest <> []) as Hne by (unfold push_data; repeat case_match; done).
  rewrite eval_from_step by done. unfold eval_step. rewrite Hv. cbn [forallb]. rewrite GetOp2_push_data by lia.
  pose proof (push_code_range data) as Hc. unfold OP_PUSHDATA4, OP_16, MAX_SCRIPT_ELEMENT_SIZE in *.
  rewrite (proj2 (Z.ltb_ge _ _)) by lia. cbn [fail_if]. rewrite (proj2 (Z.ltb_ge 96 _)) by lia. cbn [andb fail_if].
  assert (is_disabled (push_code data) = false) as ->.
  { unfold is_disabled, OP_CAT, OP_SUBSTR, OP_LEFT, OP_RIGHT, OP_INVERT, OP_AND, OP_OR, OP_XOR, OP_2MUL, OP_2DIV, OP_MUL, OP_DIV, OP_MOD,
      OP_LSHIFT, OP_RSHIFT. rewrite !orb_false_iff, !Z.eqb_neq. lia. }
  cbn [fail_if]. rewrite (proj2 (Z.leb_le 0 _)), (proj2 (Z.leb_le _ 78)) by lia. cbn [andb]. unfold check_depth, fail_if, with_stack.
  destruct (fRequireMinimal flags && _); [done|]. cbn. rewrite Hv. by destruct (1000 <? _).
Qed.

(** The operations of the standard scripts. *)
Lemma exec_dup pc m : exec_op flags checker v OP_DUP true pc m =
  match stack m with x :: st => Success (with_stack m (x :: x :: st)) | [] => stack_error end.
Proof. unfold exec_op. cbn. by destruct (stack m). Qed.
Lemma exec_hash160 pc m : exec_op flags checker v OP_HASH160 true pc m =
  match stack m with x :: st => Success (with_stack m (le_bytes 20 (Hash160 x) :: st)) | [] => stack_error end.
Proof. unfold exec_op. cbn. by destruct (stack m). Qed.
Lemma exec_equal pc m : exec_op flags checker v OP_EQUAL true pc m =
  match stack m with x2 :: x1 :: st => Success (with_stack m (vch_bool (bool_decide (x1 = x2)) :: st)) | _ => stack_error end.
Proof. unfold exec_op. cbn. by destruct (stack m) as [|? [|? ?]]. Qed.
Lemma exec_equalverify pc m : exec_op flags checker v OP_EQUALVERIFY true pc m =
  match stack m with
  | x2 :: x1 :: st => fails negb (bool_decide (x1 = x2)) as SCRIPT_ERR_EQUALVERIFY ; Success (with_stack m st)
  | _ => stack_error
  end.
Proof. unfold exec_op. cbn. destruct (stack m) as [|? [|? ?]]; [done..|]. unfold fail_if. cbn. by destruct (negb _). Qed.
Lemma exec_checksig pc m : exec_op flags checker v OP_CHECKSIG true pc m =
  check_sig flags checker v OP_CHECKSIG (pbegincodehash m) (stack m) ≫= fun st => Success (with_stack m st).
Proof. reflexivity. Qed.

Lemma check_depth_success m k m' : check_depth m k = Success m' -> k = Success m'.
Proof. unfold check_depth. intros Hd. by inv_success. Qed.

(** ** Pay to a key *)

Definition p2pkh (h : bytes) : bytes :=
  push_opcode OP_DUP ++ push_opcode OP_HASH160 ++ push_data h ++ push_opcode OP_EQUALVERIFY ++ push_opcode OP_CHECKSIG.

(** What [OP_CHECKSIG] accepts. *)
Definition signed (code key sig : bytes) : Prop :=
  CheckSignatureEncoding flags sig = Success tt /\ CheckPubKeyEncoding flags v key = Success tt /\
  CheckSig checker sig key (drop_signature v code sig) v = true.

Lemma check_sig_true code key sig st st' :
  check_sig flags checker v OP_CHECKSIG code (key :: sig :: st) = Success st' -> top_is_true st' = true ->
  signed code key sig /\ st' = vchTrue :: st.
Proof.
  unfold check_sig. change (OP_CHECKSIG =? OP_CHECKSIGVERIFY) with false. cbn iota. intros Hc Ht. inv_success.
  cbn in Ht. unfold signed. destruct a, a0. by destruct (CheckSig checker sig key _ v).
Qed.

Lemma eval_checksig_true m m' :
  eval_from (push_opcode OP_CHECKSIG) m = Success m' -> vfExec m = [] -> nOpCount m < MAX_OPS_PER_SCRIPT ->
  top_is_true (stack m') = true ->
  exists key sig st, stack m = key :: sig :: st /\ signed (pbegincodehash m) key sig /\ stack m' = vchTrue :: st.
Proof.
  intros He Hv Hn Ht. rewrite <- (app_nil_r (push_opcode OP_CHECKSIG)) in He.
  rewrite eval_opcode in He by done. rewrite exec_checksig in He. inv_success. apply check_depth_success in He.
  unfold eval_from in He. cbn in He. injection He as <-. cbn in Ht, E0 |- *.
  destruct (stack m) as [|key [|sig st]]; [done..|]. apply check_sig_true in E0 as [Hs ->]; [|done]. by exists key, sig, st.
Qed.

Lemma eval_p2pkh h st st' : len h = 20 ->
  EvalScript flags checker v st (p2pkh h) = Success st' -> top_is_true st' = true ->
  exists key sig rest, st = key :: sig :: rest /\ le_bytes 20 (Hash160 key) = h /\ signed (p2pkh h) key sig /\ st' = vchTrue :: rest.
Proof.
  intros Hh He Ht. unfold EvalScript in He. inv_success. fold (eval_from (p2pkh h) (mkMachine st [] [] (p2pkh h) 0)) in E0.
  unfold p2pkh in E0 at 1. rewrite eval_opcode, exec_dup in E0 by done. cbn [stack bump] in E0.
  destruct st as [|key st]; [done|]. cbn [mbind outcome_bind] in E0. apply check_depth_success in E0.
  rewrite eval_opcode, exec_hash160 in E0 by done. cbn [stack bump with_stack mbind outcome_bind] in E0. apply check_depth_success in E0.
  rewrite eval_data in E0 by (done || (unfold MAX_SCRIPT_ELEMENT_SIZE; lia)). apply fail_if_success in E0 as [_ E0]. apply check_depth_success in E0.
  rewrite eval_opcode, exec_equalverify in E0 by done. cbn [stack bump with_stack mbind outcome_bind] in E0. inv_success.
  apply check_depth_success in E0. apply eval_checksig_true in E0 as (key' & sig & rest & Est & Hs & Hst); [|done|done|done].
  cbn in Est, Hs. injection Est as -> ->. exists key', sig, rest. zbool. by rewrite Hst.
Qed.

Lemma eval_p2pk key st st' : len key <= MAX_SCRIPT_ELEMENT_SIZE ->
  EvalScript flags checker v st (GetScriptForRawPubKey key) = Success st' -> top_is_true st' = true ->
  exists sig rest, st = sig :: rest /\ signed (GetScriptForRawPubKey key) key sig /\ st' = vchTrue :: rest.
Proof.
  intros Hk He Ht. unfold EvalScript in He. inv_success.
  fold (eval_from (GetScriptForRawPubKey key) (mkMachine st [] [] (GetScriptForRawPubKey key) 0)) in E0.
  unfold GetScriptForRawPubKey in E0 at 1. rewrite eval_data in E0 by done. inv_success. apply check_depth_success in E0.
  apply eval_checksig_true in E0 as (key' & sig & rest & Est & Hs & Hst); [|done|done|done].
  cbn in Est, Hs. injection Est as <- ->. exists sig, rest. by rewrite Hst.
Qed.

End Steps.

(** ** Whole inputs *)

Section Inputs.
Context `{CryptoOps} `{SignatureOps} `{ScriptHashOps}.
Context (flags : Z) (checker : BaseSignatureChecker).

Lemma run_witness_success w script mall e st r :
  run_witness flags checker w script mall e st = Success r -> has flags SCRIPT_VERIFY_WITNESS = true ->
  forall v p, IsWitnessProgram script = Some (v, p) -> VerifyWitnessProgram flags checker w v p = Success tt.
Proof.
  intros Hr Hw v p Hp. unfold run_witness in Hr. rewrite Hw, Hp in Hr. inv_success. by destruct a.
Qed.

(** The evaluations behind an accepted input. *)
Lemma VerifyScript_success scriptSig spk w : VerifyScript flags checker scriptSig spk w = Success tt ->
  exists copy st, EvalScript flags checker SIGVERSION_BASE [] scriptSig = Success copy /\
    EvalScript flags checker SIGVERSION_BASE copy spk = Success st /\ top_is_true st = true /\
    (has flags SCRIPT_VERIFY_WITNESS = true -> forall v p, IsWitnessProgram spk = Some (v, p) ->
       VerifyWitnessProgram flags checker w v p = Success tt) /\
    (has flags SCRIPT_VERIFY_P2SH = true -> IsPayToScriptHash spk = true -> exists key2 st2, copy = key2 :: st2 /\
       (has flags SCRIPT_VERIFY_WITNESS = true -> forall v p, IsWitnessProgram key2 = Some (v, p) ->
          VerifyWitnessProgram flags checker w v p = Success tt)).
Proof.
  intros Hv. unfold VerifyScript in Hv. apply fail_if_success in Hv as [_ Hv].
  apply bind_success in Hv as (copy & Ec & Hv). apply bind_success in Hv as (st & Es & Hv). apply fail_if_success in Hv as [Et Hv].
  apply bind_success in Hv as (bare & Eb & Hv). apply bind_success in Hv as (r & Er & _).
  exists copy, st. split_and!; [done|done|by apply negb_false_iff|by eapply run_witness_success|].
  intros Hp Hsh. rewrite Hp, Hsh in Er. cbn [andb] in Er. apply fail_if_success in Er as [_ Er].
  destruct copy as [|key2 st2]; [done|]. exists key2, st2. split; [done|].
  apply bind_success in Er as (st3 & _ & Er). apply fail_if_success in Er as [_ Er]. apply bind_success in Er as (r2 & Er2 & _).
  by eapply run_witness_success.
Qed.

Lemma IsWitnessProgram_keyhash h : len h = 20 -> IsWitnessProgram (push_opcode OP_0 ++ push_data h) = Some (0, h).
Proof.
  intros Hh. unfold len in Hh. assert (length h = 20%nat) as Hl by lia.
  do 20 (destruct h as [|? h]; [discriminate Hl|]). destruct h; [reflexivity|discriminate Hl].
Qed.

(** A witness key hash is spent by a signature in the witness. *)
Lemma witness_keyhash_signed w h : len h = 20 -> VerifyWitnessProgram flags checker w 0 h = Success tt ->
  exists key sig, le_bytes 20 (Hash160 key) = h /\ w = [sig; key] /\ signed flags checker SIGVERSION_WITNESS_V0 (p2pkh h) key sig.
Proof.
  intros Hh. unfold VerifyWitnessProgram. change (0 =? 0) with true. rewrite Hh. change (20 =? 32) with false. change (20 =? 20) with true.
  cbn iota. fold (p2pkh h). unfold eval_witness. intros Hv. inv_success. destruct a as [|top [|]]; [done| |done]. inv_success.
  apply eval_p2pkh in E1 as (key & sig & rest & Er & Hk & Hs & Est); [|done|cbn; by apply negb_false_iff].
  injection Est as -> <-. exists key, sig. split; [done|]. split; [|done]. apply (f_equal reverse) in Er. by rewrite reverse_involutive in Er.
Qed.

(** The script that pays to the hash of a script, on the stack it is given. *)
Lemma eval_p2sh id st st' : EvalScript flags checker SIGVERSION_BASE st (GetScriptForDestination (CScriptID id)) = Success st' ->
  top_is_true st' = true -> exists script rest, st = script :: rest /\ le_bytes 20 (Hash160 script) = ToByteVector id.
Proof.
  intros He Ht. unfold EvalScript in He. inv_success.
  fold (eval_from flags checker SIGVERSION_BASE (GetScriptForDestination (CScriptID id)) (mkMachine st [] [] (GetScriptForDestination (CScriptID id)) 0)) in E0.
  cbn [GetScriptForDestination] in E0. rewrite eval_opcode, exec_hash160 in E0 by done. cbn [stack bump] in E0.
  destruct st as [|script st]; [done|]. cbn [mbind outcome_bind] in E0. apply check_depth_success in E0.
  rewrite eval_data in E0 by (done || (unfold ToByteVector; rewrite len_le_bytes; unfold MAX_SCRIPT_ELEMENT_SIZE; lia)).
  apply fail_if_success in E0 as [_ E0]. apply check_depth_success in E0.
  rewrite <- (app_nil_r (push_opcode OP_EQUAL)) in E0. rewrite eval_opcode, exec_equal in E0 by done.
  cbn [stack bump with_stack mbind outcome_bind] in E0. apply check_depth_success in E0. unfold eval_from in E0. cbn in E0.
  injection E0 as <-. cbn in Ht. exists script, st. split; [done|]. 
  destruct (decide (le_bytes 20 (Hash160 script) = ToByteVector id)) as [E'|E']; [done|]. by rewrite bool_decide_eq_false_2 in Ht.
Qed.

Lemma IsPayToScriptHash_id id : IsPayToScriptHash (GetScriptForDestination (CScriptID id)) = true.
Proof.
  unfold GetScriptForDestination, push_data, ToByteVector. rewrite !len_le_bytes. assert (length (le_bytes 20 id) = 20%nat) as Hl by apply length_le_bytes.
  destruct (le_bytes 20 id) as [|x0 h]; [done|]. do 19 (destruct h as [|? h]; [discriminate Hl|]). destruct h; [reflexivity|discriminate Hl].
Qed.

End Inputs.

(** ** An honest spender *)

Section Honest.
Context `{CryptoOps} `{SignatureOps} `{ScriptHashOps}.
Context (flags : Z) (checker : BaseSignatureChecker).

Lemma minimal_push data : 2 <= len data <= 65535 -> CheckMinimalPush data (push_code data) = true.
Proof.
  intros Hl. unfold CheckMinimalPush, push_code, OP_PUSHDATA1. rewrite !(proj2 (Z.eqb_neq (len data) _)) by lia. cbn [andb].
  split_ifs; try lia; apply Z.eqb_refl.
Qed.

(** Pushing data of two bytes or more onto a stack with room. *)
Lemma eval_push v data rest m : 2 <= len data <= MAX_SCRIPT_ELEMENT_SIZE -> vfExec m = [] ->
  (length (stack m) + length (altstack m) < 1000)%nat ->
  eval_from flags checker v (push_data data ++ rest) m = eval_from flags checker v rest (with_stack m (data :: stack m)).
Proof.
  unfold MAX_SCRIPT_ELEMENT_SIZE. intros Hl Hv Hd. rewrite eval_data by (done || (unfold MAX_SCRIPT_ELEMENT_SIZE; lia)).
  rewrite minimal_push by lia. rewrite andb_false_r. unfold check_depth. cbn [fail_if stack altstack with_stack length].
  by rewrite (proj2 (Z.ltb_ge _ _)) by lia.
Qed.

Lemma EvalScript_from v st script : len script <= MAX_SCRIPT_SIZE ->
  EvalScript flags checker v st script = eval_from flags checker v script (mkMachine st [] [] script 0) ≫= fun m =>
    fails negb (bool_decide (vfExec m = [])) as SCRIPT_ERR_UNBALANCED_CONDITIONAL ; Success (stack m).
Proof. intros Hl. unfold EvalScript. by rewrite (proj2 (Z.ltb_ge _ _)). Qed.

Lemma eval_pushes sig key : 2 <= len sig <= 255 -> 2 <= len key <= 255 ->
  EvalScript flags checker SIGVERSION_BASE [] (push_data sig ++ push_data key) = Success [key; sig].
Proof.
  intros Hs Hk. rewrite EvalScript_from.
  2:{ rewrite len_app, !len_push_data by lia. unfold MAX_SCRIPT_SIZE. split_ifs; lia. }
  rewrite eval_push by (done || (unfold MAX_SCRIPT_ELEMENT_SIZE; lia) || (cbn; lia)).
  rewrite <- (app_nil_r (push_data key)). rewrite eval_push by (done || (unfold MAX_SCRIPT_ELEMENT_SIZE; lia) || (cbn; lia)).
  reflexivity.
Qed.

Lemma eval_p2pkh_signed v h sig key : len h = 20 -> le_bytes 20 (Hash160 key) = h -> signed flags checker v (p2pkh h) key sig ->
  EvalScript flags checker v [key; sig] (p2pkh h) = Success [vchTrue].
Proof.
  intros Hh Hk (Hse & Hke & Hsig). rewrite EvalScript_from.
  2:{ unfold p2pkh, push_opcode. rewrite !len_app, len_push_data, Hh by lia. vm_compute. discriminate. }
  assert (forall m k, (length (stack m) + length (altstack m) <= 1000)%nat -> check_depth m k = k) as Hd.
  { intros m k Hm. unfold check_depth. by rewrite (proj2 (Z.ltb_ge _ _)) by lia. }
  unfold p2pkh at 1. rewrite eval_opcode, exec_dup by done. cbn [mbind outcome_bind stack bump with_stack]. rewrite Hd by (cbn; lia).
  rewrite eval_opcode, exec_hash160 by done. cbn [mbind outcome_bind stack bump with_stack]. rewrite Hd by (cbn; lia).
  rewrite eval_push by (done || (unfold MAX_SCRIPT_ELEMENT_SIZE; lia) || (cbn; lia)).
  rewrite eval_opcode, exec_equalverify by done. cbn [mbind outcome_bind stack bump with_stack].
  rewrite bool_decide_eq_true_2 by done. cbn [negb fail_if mbind outcome_bind]. rewrite Hd by (cbn; lia).
  rewrite <- (app_nil_r (push_opcode OP_CHECKSIG)). rewrite eval_opcode, exec_checksig by done.
  unfold check_sig. cbn [stack bump pbegincodehash with_stack]. rewrite Hse, Hke, Hsig. reflexivity.
Qed.

Lemma IsPushOnly_pushes sig key : 2 <= len sig <= 255 -> 2 <= len key <= 255 -> IsPushOnly (push_data sig ++ push_data key) = true.
Proof.
  intros Hs Hk. unfold IsPushOnly. pose proof (push_code_range sig) as Hc. pose proof (push_code_range key) as Hc'. unfold OP_PUSHDATA4 in *.
  assert (exists n, length (push_data sig ++ push_data key) = S (S n)) as [n ->].
  { exists (length (push_data sig ++ push_data key) - 2)%nat. rewrite length_app.
    pose proof (len_push_data sig ltac:(lia)) as E1. pose proof (len_push_data key ltac:(lia)) as E2. unfold len in *. split_ifs; lia. }
  assert (push_data sig ++ push_data key <> [] /\ push_data key <> []) as [Hn1 Hn2] by (unfold push_data; repeat case_match; done).
  pose proof (GetOp2_push_data sig (push_data key) ltac:(lia)) as G1. pose proof (GetOp2_push_data key [] ltac:(lia)) as G2. rewrite app_nil_r in G2.
  cbn [push_only_loop]. destruct (push_data sig ++ push_data key) as [|b l]; [done|]. rewrite G1, (proj2 (Z.ltb_ge _ _)) by (unfold OP_16; lia).
  cbn [push_only_loop]. destruct (push_data key) as [|b' l']; [done|]. rewrite G2, (proj2 (Z.ltb_ge _ _)) by (unfold OP_16; lia). by destruct n.
Qed.

Lemma p2pkh_plain h : len h = 20 -> IsWitnessProgram (p2pkh h) = None /\ IsPayToScriptHash (p2pkh h) = false.
Proof.
  intros Hh. unfold len in Hh. assert (length h = 20%nat) as Hl by lia.
  do 20 (destruct h as [|? h]; [discriminate Hl|]). destruct h; [split; reflexivity|discriminate Hl].
Qed.

End Honest.

(** C13: an output that pays to a key hash is spent by the holder of the key.
    Under any flags, whatever the scriptSig is, acceptance means that it left a
    key with that hash and a signature that the checker accepts for this key
    and this script; and a scriptSig that pushes such a signature and such a
    key is accepted. *)
Theorem P2PKH_spent_by_key_holder `{CryptoOps} `{SignatureOps} `{ScriptHashOps} flags checker id scriptSig w :
  let script := GetScriptForDestination (CKeyID id) in
  (VerifyScript flags checker scriptSig script w = Success tt ->
   exists key sig, le_bytes 20 (Hash160 key) = ToByteVector id /\
     CheckSig checker sig key (FindAndDelete script (push_data sig)) SIGVERSION_BASE = true) /\
  (forall key sig, flags_wf flags -> 2 <= len sig <= 255 -> 2 <= len key <= 255 -> le_bytes 20 (Hash160 key) = ToByteVector id ->
   CheckSignatureEncoding flags sig = Success tt -> CheckPubKeyEncoding flags SIGVERSION_BASE key = Success tt ->
   CheckSig checker sig key (FindAndDelete script (push_data sig)) SIGVERSION_BASE = true ->
   VerifyScript flags checker (push_data sig ++ push_data key) script [] = Success tt).
Proof.
  cbv zeta. change (GetScriptForDestination (CKeyID id)) with (p2pkh (ToByteVector id)).
  assert (len (ToByteVector id) = 20) as Hl by apply len_le_bytes. split.
  - intros Hv. apply VerifyScript_success in Hv as (copy & st & _ & He & Ht & _).
    apply eval_p2pkh in He as (key & sig & rest & _ & Hk & (_ & _ & Hs) & _); [|done|done]. by exists key, sig.
  - intros key sig [Hclean Hwit] Hsl Hkl Hk Hse Hke Hs. unfold VerifyScript.
    rewrite IsPushOnly_pushes by done. rewrite andb_false_r. cbn [fail_if]. rewrite eval_pushes by done. cbn [mbind outcome_bind].
    assert (signed flags checker SIGVERSION_BASE (p2pkh (ToByteVector id)) key sig) as Hsg by (split_and!; [done|done|exact Hs]).
    rewrite eval_p2pkh_signed by done. cbn [mbind outcome_bind top_is_true fail_if CastToBool vchTrue].
    destruct (p2pkh_plain (ToByteVector id) Hl) as [Hw Hp]. unfold run_witness. rewrite Hw, Hp, !andb_false_r.
    destruct (has flags SCRIPT_VERIFY_WITNESS); [rewrite (Hwit eq_refl)|]; cbn; [by destruct (has flags SCRIPT_VERIFY_CLEANSTACK)|].
    destruct (has flags SCRIPT_VERIFY_CLEANSTACK); [by specialize (Hclean eq_refl)|done].
Qed.

Module SpendExample.
Import RulesExample.

Definition demo_key : bytes := x02 :: replicate 32 x07.
Definition demo_sig : bytes := [x30; x06; x02; x01; x01; x02; x01; x01; x01].
Definition demo_id : Z := Hash160 demo_key.
(** A checker that knows one signature. *)
Definition demo_checker : BaseSignatureChecker :=
  mkChecker (fun sig key _ _ => bool_decide (sig = demo_sig /\ key = demo_key)) (fun _ => false) (fun _ => false).

Lemma P2PKH_spent_by_key_holder_witness :
  VerifyScript STANDARD_SCRIPT_VERIFY_FLAGS demo_checker (push_data demo_sig ++ push_data demo_key) (GetScriptForDestination (CKeyID demo_id)) []
  = Success tt.
Proof.
  destruct (P2PKH_spent_by_key_holder STANDARD_SCRIPT_VERIFY_FLAGS demo_checker demo_id [] []) as [_ H].
  apply H; [split; done|vm_compute; split; discriminate|vm_compute; split; discriminate|reflexivity..].
Defined.

End SpendExample.
