(* ===== verification/SigHash.v ===== *)
(** * What a signature signs
      ([SignatureHash] and [TransactionSignatureChecker] of
      [src/src/script/interpreter.cpp])

    The two digest algorithms with their hash types, and the checker that
    [VerifyScript] is given for an input of a transaction. *)

From S2P Require Import Prelude Serialize Script DerSignature Base58 Header Transaction TxSerialize Interpreter.
Open Scope Z_scope.

Definition LOCKTIME_THRESHOLD : Z := 500000000.

(** [nHashType & 0x1f] *)
Definition base_type (nHashType : Z) : Z := Z.land nHashType 0x1f.
Definition fAnyoneCanPay (nHashType : Z) : bool := negb (Z.land nHashType SIGHASH_ANYONECANPAY =? 0).
Definition fHashSingle (nHashType : Z) : bool := base_type nHashType =? SIGHASH_SINGLE.
Definition fHashNone (nHashType : Z) : bool := base_type nHashType =? SIGHASH_NONE.

(** ** The script code without its code separators *)

(** The operations before the first that does not parse, each with its bytes,
    and what follows them. *)
Fixpoint script_ops (fuel : nat) (it : bytes) : list (Z * bytes) * bytes :=
  match fuel with
  | O => ([], it)
  | S fuel' =>
      match GetOp2 it with
      | None => ([], it)
      | Some (opcode, _, it') =>
          let r := script_ops fuel' it' in ((opcode, take (length it - length it') it) :: r.1, r.2)
      end
  end.

(** The iterator a failed [GetOp] leaves: after the opcode and, when it is
    there, the length of the push. *)
Definition failed_at (it : bytes) : bytes :=
  match it with
  | [] => []
  | b :: it' =>
      if (ub b =? OP_PUSHDATA1) && (1 <=? len it') then drop 1 it'
      else if (ub b =? OP_PUSHDATA2) && (2 <=? len it') then drop 2 it'
      else if (ub b =? OP_PUSHDATA4) && (4 <=? len it') then drop 4 it'
      else it'
  end.

(** The pieces between separators are written as the loop meets the next
    separator; the last piece ends where the loop stopped. *)
Definition SerializeScriptCode (scriptCode : bytes) : bytes :=
  let '(ops, rest) := script_ops (length scriptCode) scriptCode in
  let kept := filter (fun o => o.1 <> OP_CODESEPARATOR) ops in
  WriteCompactSize (len scriptCode - Z.of_nat (length ops - length kept))
  ++ concat (snd <$> kept) ++ take (length rest - length (failed_at rest)) rest.

(** ** The legacy digest *)

Section Legacy.
Context (txTo : CTransaction) (scriptCode : bytes) (nIn : nat) (nHashType : Z).

Definition SerializeInput (nInput : nat) : bytes :=
  let nInput := if fAnyoneCanPay nHashType then nIn else nInput in
  match vin txTo !! nInput with
  | None => []
  | Some txin =>
      Serialize (prevout txin)
      ++ (if negb (nInput =? nIn)%nat then Serialize (A := bytes) [] else SerializeScriptCode scriptCode)
      ++ (if negb (nInput =? nIn)%nat && (fHashSingle nHashType || fHashNone nHashType)
          then Serialize_int32 0 else Serialize_uint32 (nSequence txin))
  end.

Definition SerializeOutput (nOutput : nat) : bytes :=
  if fHashSingle nHashType && negb (nOutput =? nIn)%nat then Serialize txout_null
  else match vout txTo !! nOutput with Some o => Serialize o | None => [] end.

Definition signature_inputs : nat := if fAnyoneCanPay nHashType then 1 else length (vin txTo).
Definition signature_outputs : nat :=
  if fHashNone nHashType then 0 else if fHashSingle nHashType then nIn + 1 else length (vout txTo).

Definition CTransactionSignatureSerializer : bytes :=
  Serialize_int32 (tx_nVersion txTo)
  ++ WriteCompactSize (Z.of_nat signature_inputs) ++ concat (SerializeInput <$> seq 0 signature_inputs)
  ++ WriteCompactSize (Z.of_nat signature_outputs) ++ concat (SerializeOutput <$> seq 0 signature_outputs)
  ++ Serialize_uint32 (nLockTime txTo).
End Legacy.

Section Digest.
Context `{CryptoOps}.

Definition GetPrevoutHash (txTo : CTransaction) : Z := Hash (concat ((fun i => Serialize (prevout i)) <$> vin txTo)).
Definition GetSequenceHash (txTo : CTransaction) : Z := Hash (concat ((fun i => Serialize_uint32 (nSequence i)) <$> vin txTo)).
Definition GetOutputsHash (txTo : CTransaction) : Z := Hash (concat (Serialize <$> vout txTo)).

Record PrecomputedTransactionData := mkTxData { hashPrevouts : Z; hashSequence : Z; hashOutputs : Z }.
Definition precompute (txTo : CTransaction) : PrecomputedTransactionData :=
  mkTxData (GetPrevoutHash txTo) (GetSequenceHash txTo) (GetOutputsHash txTo).

(** The digest of version 0 witnesses; [cache] is a possible precomputation.
    The index is that of an input. *)
Definition witness_preimage (scriptCode : bytes) (txTo : CTransaction) (nIn : nat) (txin : CTxIn) (nHashType amount : Z)
    (cache : option PrecomputedTransactionData) : bytes :=
  let data := default (precompute txTo) cache in
  let all := negb (base_type nHashType =? SIGHASH_SINGLE) && negb (base_type nHashType =? SIGHASH_NONE) in
  let hPrevouts := if negb (fAnyoneCanPay nHashType) then hashPrevouts data else 0 in
  let hSequence := if negb (fAnyoneCanPay nHashType) && all then hashSequence data else 0 in
  let hOutputs := if all then hashOutputs data
                  else if fHashSingle nHashType then
                    match vout txTo !! nIn with Some o => Hash (Serialize o) | None => 0 end
                  else 0 in
  Serialize_int32 (tx_nVersion txTo) ++ Serialize_blob 32 hPrevouts ++ Serialize_blob 32 hSequence
  ++ Serialize (prevout txin) ++ Serialize scriptCode ++ Serialize_int64 amount ++ Serialize_uint32 (nSequence txin)
  ++ Serialize_blob 32 hOutputs ++ Serialize_uint32 (nLockTime txTo) ++ Serialize_int32 nHashType.

(** [None] is an input index out of range with the witness digest. *)
Definition SignatureHash (scriptCode : bytes) (txTo : CTransaction) (nIn : nat) (nHashType amount : Z) (sigversion : SigVersion)
    (cache : option PrecomputedTransactionData) : option Z :=
  match sigversion with
  | SIGVERSION_WITNESS_V0 =>
      match vin txTo !! nIn with
      | None => None
      | Some txin => Some (Hash (witness_preimage scriptCode txTo nIn txin nHashType amount cache))
      end
  | SIGVERSION_BASE =>
      if (length (vin txTo) <=? nIn)%nat then Some 1
      else if fHashSingle nHashType && (length (vout txTo) <=? nIn)%nat then Some 1
      else Some (Hash (CTransactionSignatureSerializer txTo scriptCode nIn nHashType ++ Serialize_int32 nHashType))
  end.

(** ** The checker of an input *)

Context `{SignatureOps}.

Definition tx_CheckSig (txTo : CTransaction) (nIn : nat) (amount : Z) (txdata : option PrecomputedTransactionData)
    (vchSigIn vchPubKey scriptCode : bytes) (sigversion : SigVersion) : bool :=
  let pubkey := CPubKey vchPubKey in
  if negb (IsValid pubkey) then false
  else if len vchSigIn =? 0 then false
  else
    let nHashType := last_byte vchSigIn in
    let vchSig := take (length vchSigIn - 1) vchSigIn in
    match SignatureHash scriptCode txTo nIn nHashType amount sigversion txdata with
    | None => false
    | Some sighash => pubkey_Verify pubkey sighash vchSig
    end.

(** The input index is that of an input, as every caller's is. *)
Definition tx_CheckLockTime (txTo : CTransaction) (nIn : nat) (n : Z) : bool :=
  if negb ((nLockTime txTo <? LOCKTIME_THRESHOLD) && (n <? LOCKTIME_THRESHOLD)
           || (LOCKTIME_THRESHOLD <=? nLockTime txTo) && (LOCKTIME_THRESHOLD <=? n)) then false
  else if nLockTime txTo <? n then false
  else match vin txTo !! nIn with
       | Some txin => negb (SEQUENCE_FINAL =? nSequence txin)
       | None => false
       end.

Definition tx_CheckSequence (txTo : CTransaction) (nIn : nat) (n : Z) : bool :=
  match vin txTo !! nIn with
  | None => false
  | Some txin =>
      let txToSequence := nSequence txin in
      if u32 (tx_nVersion txTo) <? 2 then false
      else if negb (Z.land txToSequence SEQUENCE_LOCKTIME_DISABLE_FLAG =? 0) then false
      else
        let nLockTimeMask := Z.lor SEQUENCE_LOCKTIME_TYPE_FLAG SEQUENCE_LOCKTIME_MASK in
        let txToSequenceMasked := Z.land txToSequence nLockTimeMask in
        let nSequenceMasked := Z.land n nLockTimeMask in
        if negb ((txToSequenceMasked <? SEQUENCE_LOCKTIME_TYPE_FLAG) && (nSequenceMasked <? SEQUENCE_LOCKTIME_TYPE_FLAG)
                 || (SEQUENCE_LOCKTIME_TYPE_FLAG <=? txToSequenceMasked) && (SEQUENCE_LOCKTIME_TYPE_FLAG <=? nSequenceMasked))
        then false
        else negb (txToSequenceMasked <? nSequenceMasked)
  end.

Definition TransactionSignatureChecker (txTo : CTransaction) (nIn : nat) (amount : Z) (txdata : option PrecomputedTransactionData)
    : BaseSignatureChecker :=
  mkChecker (tx_CheckSig txTo nIn amount txdata) (tx_CheckLockTime txTo nIn) (tx_CheckSequence txTo nIn).

End Digest.

(** ** What is committed to *)

(** What both digests with [SIGHASH_ALL] are meant to fix. *)
Definition same_payment (tx1 tx2 : CTransaction) : Prop :=
  tx_nVersion tx1 = tx_nVersion tx2 /\ (prevout <$> vin tx1) = (prevout <$> vin tx2) /\
  (nSequence <$> vin tx1) = (nSequence <$> vin tx2) /\ vout tx1 = vout tx2 /\ nLockTime tx1 = nLockTime tx2.

(** Neither [SIGHASH_NONE] nor [SIGHASH_SINGLE] nor [SIGHASH_ANYONECANPAY]. *)
Definition signs_all (nHashType : Z) : Prop :=
  fAnyoneCanPay nHashType = false /\ fHashSingle nHashType = false /\ fHashNone nHashType = false.

(** The script code that is signed: every operation but the separators. *)
Definition signed_code (scriptCode : bytes) : bytes :=
  concat (snd <$> filter (fun o => o.1 <> OP_CODESEPARATOR) (script_ops (length scriptCode) scriptCode).1).
Definition script_parses (scriptCode : bytes) : Prop := (script_ops (length scriptCode) scriptCode).2 = [].

(** The transaction that the legacy digest writes. *)
Definition signing_view (tx : CTransaction) (scriptCode : bytes) (nIn : nat) : CMutableTransaction :=
  mkMutable (tx_nVersion tx)
    (imap (fun j txin => mkTxIn (prevout txin) (if (j =? nIn)%nat then signed_code scriptCode else []) (nSequence txin) []) (vin tx))
    (vout tx) (nLockTime tx).

Lemma script_ops_concat fuel it : concat (snd <$> (script_ops fuel it).1) ++ (script_ops fuel it).2 = it.
Proof.
  revert it. induction fuel as [|fuel IH]; intros it; [done|]. cbn [script_ops].
  destruct (GetOp2 it) as [[[op v] it']|] eqn:E; [|done]. cbn [fst snd fmap list_fmap concat]. rewrite <- app_assoc, IH.
  apply GetOp2_progress in E as [Hl [pre ->]]. rewrite length_app, Nat.add_sub, take_app_length. done.
Qed.

Lemma separator_byte fuel it o : o ∈ (script_ops fuel it).1 -> o.1 = OP_CODESEPARATOR -> length o.2 = 1%nat.
Proof.
  revert it. induction fuel as [|fuel IH]; intros it; [by intros ?%elem_of_nil|]. cbn [script_ops].
  destruct (GetOp2 it) as [[[op v] it']|] eqn:E; [|by intros ?%elem_of_nil]. cbn [fst].
  rewrite elem_of_cons. intros [->|Ho]; [|by eapply IH]. cbn. intros ->. destruct it as [|b it]; [done|]. cbn [GetOp2] in E.
  assert (it' = it) as ->.
  { destruct (Z.leb_spec (ub b) OP_PUSHDATA4) as [Hle|Hgt]; [|by injection E]. exfalso. unfold OP_PUSHDATA4, OP_CODESEPARATOR in *.
    repeat case_match; try done; unfold take_data in E; repeat case_match; try done; injection E as E1 _ _; lia. }
  cbn [length]. rewrite Nat.sub_succ_l, Nat.sub_diag by lia. done.
Qed.

Lemma length_concat_filter (P : Z * bytes -> Prop) `{!forall o, Decision (P o)} ops :
  (forall o, o ∈ ops -> ~ P o -> length o.2 = 1%nat) ->
  (length (concat (snd <$> ops)) = length (concat (snd <$> filter P ops)) + (length ops - length (filter P ops)))%nat /\
  (length (filter P ops) <= length ops)%nat.
Proof.
  induction ops as [|o ops IH]; [done|]. intros Hone. destruct IH as [IH1 IH2]; [intros; apply Hone; [by right|done]|].
  rewrite filter_cons. destruct (decide (P o)) as [Hp|Hp]; cbn [fmap list_fmap concat length]; rewrite !length_app; [lia|].
  rewrite (Hone o) by (done || left). lia.
Qed.

Lemma SerializeScriptCode_parses code : script_parses code -> SerializeScriptCode code = Serialize (signed_code code).
Proof.
  unfold script_parses, SerializeScriptCode, signed_code. intros Hp.
  pose proof (script_ops_concat (length code) code) as Hc. pose proof (separator_byte (length code) code) as Hb.
  destruct (script_ops (length code) code) as [ops rest]. cbn [fst snd] in *. subst rest. cbn [length]. rewrite app_nil_r in Hc.
  destruct (length_concat_filter (fun o => o.1 <> OP_CODESEPARATOR) ops) as [H1 H2].
  { intros o Ho Hn. apply (Hb o Ho). destruct (decide (o.1 = OP_CODESEPARATOR)); [done|tauto]. }
  rewrite Hc in H1. cbn [Serialize Serializable_bytes take]. rewrite app_nil_r. f_equal. f_equal. unfold len. lia.
Qed.

Lemma concat_map_seq {A B} (f : nat -> list B) (g : nat -> A -> list B) (l : list A) :
  (forall j a, l !! j = Some a -> f j = g j a) -> concat (f <$> seq 0 (length l)) = concat (imap g l).
Proof.
  intros Hf. f_equal. apply list_eq. intros j. rewrite list_lookup_fmap, list_lookup_imap.
  destruct (l !! j) as [a|] eqn:E.
  - rewrite lookup_seq_lt by by eapply lookup_lt_Some. cbn. f_equal. by apply Hf.
  - rewrite lookup_seq_ge by by apply lookup_ge_None. done.
Qed.

Lemma legacy_inputs tx code nIn nHashType : signs_all nHashType -> script_parses code ->
  concat (SerializeInput tx code nIn nHashType <$> seq 0 (length (vin tx))) = concat (Serialize <$> mtx_vin (signing_view tx code nIn)).
Proof.
  intros (Ha & Hs & Hn) Hp. cbn [mtx_vin signing_view]. rewrite fmap_imap. apply concat_map_seq. intros j a Hj.
  unfold SerializeInput. rewrite Ha, Hs, Hn, Hj, SerializeScriptCode_parses by done. cbn [orb]. rewrite andb_false_r.
  cbn [compose Serialize Serializable_CTxIn prevout scriptSig nSequence]. by destruct (j =? nIn)%nat.
Qed.

Lemma legacy_outputs tx nIn nHashType : signs_all nHashType ->
  concat (SerializeOutput tx nIn nHashType <$> seq 0 (length (vout tx))) = concat (Serialize <$> vout tx).
Proof.
  intros (Ha & Hs & Hn). rewrite (concat_map_seq _ (fun _ o => Serialize o)).
  - f_equal. apply list_eq. intros j. by rewrite list_lookup_imap, list_lookup_fmap.
  - intros j o Hj. unfold SerializeOutput. by rewrite Hs, Hj.
Qed.

Lemma legacy_view tx code nIn nHashType : signs_all nHashType -> script_parses code ->
  CTransactionSignatureSerializer tx code nIn nHashType = SerializeTransaction false (signing_view tx code nIn).
Proof.
  intros Hall Hp. pose proof (legacy_inputs tx code nIn nHashType Hall Hp) as Hi. pose proof (legacy_outputs tx nIn nHashType Hall) as Ho.
  destruct Hall as (Ha & Hs & Hn). unfold CTransactionSignatureSerializer, SerializeTransaction, signature_inputs, signature_outputs.
  rewrite Ha, Hs, Hn, Hi, Ho. cbn [andb]. change (negb (0 =? 0)) with false. change (negb (Z.land 0 1 =? 0)) with false.
  unfold Serialize_vector. cbn [signing_view mtx_nVersion mtx_vin mtx_vout mtx_nLockTime app]. rewrite length_imap. by rewrite <- !app_assoc.
Qed.

(** A code that can be read back is determined by the concatenation of its words. *)
Lemma concat_code_inj {A} (enc : A -> bytes) (r : Reader A) (wf : A -> Prop) (l1 l2 : list A) :
  (forall a rest, wf a -> r (enc a ++ rest) = (Ok a, rest)) -> (forall a, enc a <> []) ->
  Forall wf l1 -> Forall wf l2 -> concat (enc <$> l1) = concat (enc <$> l2) -> l1 = l2.
Proof.
  intros Hr Hne. revert l2. induction l1 as [|a l1 IH]; intros [|b l2] H1 H2 E; cbn [fmap list_fmap concat] in E.
  - done.
  - symmetry in E. apply app_eq_nil in E as [E _]. by apply Hne in E.
  - apply app_eq_nil in E as [E _]. by apply Hne in E.
  - apply Forall_cons in H1 as [Ha H1], H2 as [Hb H2]. pose proof (Hr a (concat (enc <$> l1)) Ha) as Ea.
    rewrite E, Hr in Ea by done. injection Ea as -> E'. f_equal. by apply IH.
Qed.

(** A transaction whose fields have the widths of their types. *)
Definition tx_fields_wf (tx : CTransaction) : Prop :=
  in_i32 (tx_nVersion tx) /\ in_u32 (nLockTime tx) /\
  Z.of_nat (length (vin tx)) <= MAX_SIZE /\ Z.of_nat (length (vout tx)) <= MAX_SIZE /\
  Forall (fun i => (0 <= op_hash (prevout i) < 256 ^ 32 /\ in_u32 (op_n (prevout i))) /\ in_u32 (nSequence i)) (vin tx) /\
  Forall txout_wf (vout tx).

Lemma signing_view_wf tx code nIn : tx_fields_wf tx -> Z.of_nat (length (signed_code code)) <= MAX_SIZE -> tx_wf (signing_view tx code nIn).
Proof.
  intros (Hv & Hl & Hi & Ho & Hin & Hout) Hc. unfold tx_wf, signing_view. cbn [mtx_nVersion mtx_vin mtx_vout mtx_nLockTime].
  rewrite length_imap. split_and!; try done.
  - apply Forall_lookup. intros j i. rewrite list_lookup_imap. destruct (vin tx !! j) as [x|] eqn:E; [|done]. intros [= <-].
    eapply Forall_lookup in Hin as [Hp Hs]; [|done]. unfold txin_wf. cbn. split_and!; try done; try apply Hp; try apply Hs.
    destruct (j =? nIn)%nat; [done|]. cbn. unfold MAX_SIZE. lia.
  - apply Forall_lookup. intros j i. rewrite list_lookup_imap. destruct (vin tx !! j) as [x|]; [|done]. intros [= <-].
    split; [cbn; unfold MAX_SIZE; lia|constructor].
Qed.

Lemma imap_fields (f g : nat -> CTxIn -> bytes) (l1 l2 : list CTxIn) :
  imap (fun j i => mkTxIn (prevout i) (f j i) (nSequence i) []) l1 = imap (fun j i => mkTxIn (prevout i) (g j i) (nSequence i) []) l2 ->
  (prevout <$> l1) = (prevout <$> l2) /\ (nSequence <$> l1) = (nSequence <$> l2) /\
  forall j a b, l1 !! j = Some a -> l2 !! j = Some b -> f j a = g j b.
Proof.
  intros E. assert (forall j, (fun i => mkTxIn (prevout i) (f j i) (nSequence i) []) <$> l1 !! j
    = (fun i => mkTxIn (prevout i) (g j i) (nSequence i) []) <$> l2 !! j) as Hj.
  { intros j. apply (f_equal (fun l => l !! j)) in E. by rewrite !list_lookup_imap in E. }
  split_and!.
  - apply list_eq. intros j. rewrite !list_lookup_fmap. specialize (Hj j). destruct (l1 !! j), (l2 !! j); cbn in *; congruence.
  - apply list_eq. intros j. rewrite !list_lookup_fmap. specialize (Hj j). destruct (l1 !! j), (l2 !! j); cbn in *; congruence.
  - intros j a b Ha Hb. specialize (Hj j). rewrite Ha, Hb in Hj. cbn in Hj. congruence.
Qed.

Lemma int32_inj a b : in_i32 a -> in_i32 b -> Serialize_int32 a = Serialize_int32 b -> a = b.
Proof.
  intros Ha Hb E. pose proof (Unserialize_int32_app a [] Ha) as E1. rewrite E, Unserialize_int32_app in E1 by done. congruence.
Qed.
Lemma int64_inj a b : in_i64 a -> in_i64 b -> Serialize_int64 a = Serialize_int64 b -> a = b.
Proof.
  intros Ha Hb E. pose proof (Unserialize_int64_app a [] Ha) as E1. rewrite E, Unserialize_int64_app in E1 by done. congruence.
Qed.
Lemma uint32_inj a b : in_u32 a -> in_u32 b -> Serialize_uint32 a = Serialize_uint32 b -> a = b.
Proof.
  intros Ha Hb E. pose proof (Unserialize_uint32_app a [] Ha) as E1. rewrite E, Unserialize_uint32_app in E1 by done. congruence.
Qed.
Lemma blob_inj w a b : 0 <= a < 256 ^ Z.of_nat w -> 0 <= b < 256 ^ Z.of_nat w -> Serialize_blob w a = Serialize_blob w b -> a = b.
Proof.
  intros Ha Hb E. pose proof (Unserialize_blob_app w a [] Ha) as E1. rewrite E, Unserialize_blob_app in E1 by done. congruence.
Qed.
Lemma bytes_ser_inj (a b r1 r2 : bytes) : Z.of_nat (length a) <= MAX_SIZE -> Z.of_nat (length b) <= MAX_SIZE ->
  Serialize a ++ r1 = Serialize b ++ r2 -> a = b /\ r1 = r2.
Proof.
  intros Ha Hb E. pose proof (SerializeOk_bytes a r1 Ha) as E1. rewrite E, (SerializeOk_bytes b r2 Hb) in E1. by simplify_eq.
Qed.
Lemma length_outpoint (o : COutPoint) : length (Serialize o) = 36%nat.
Proof. cbn [Serialize Serializable_COutPoint]. rewrite length_app. unfold Serialize_blob, Serialize_uint32, ser_writedata32. by rewrite !length_le_bytes. Qed.

Section Commits.
Context `{CryptoOps}.

(** The strings that a digest hashes. *)
Definition hashed_strings (code : bytes) (tx : CTransaction) (nIn : nat) (txin : CTxIn) (nHashType amount : Z) (v : SigVersion) : list bytes :=
  match v with
  | SIGVERSION_BASE => [CTransactionSignatureSerializer tx code nIn nHashType ++ Serialize_int32 nHashType]
  | SIGVERSION_WITNESS_V0 =>
      [concat ((fun i => Serialize (prevout i)) <$> vin tx); concat ((fun i => Serialize_uint32 (nSequence i)) <$> vin tx);
       concat (Serialize <$> vout tx); witness_preimage code tx nIn txin nHashType amount None]
  end.

Context (tx1 tx2 : CTransaction) (in1 in2 : CTxIn) (c1 c2 : bytes) (nIn : nat) (nHashType a1 a2 : Z).
Context (Hwf1 : tx_fields_wf tx1) (Hwf2 : tx_fields_wf tx2) (Hall : signs_all nHashType).
Context (Hc1 : Z.of_nat (length c1) <= MAX_SIZE) (Hc2 : Z.of_nat (length c2) <= MAX_SIZE).
Context (Hin1 : vin tx1 !! nIn = Some in1) (Hin2 : vin tx2 !! nIn = Some in2).

Lemma signed_code_length c : script_parses c -> Z.of_nat (length c) <= MAX_SIZE -> Z.of_nat (length (signed_code c)) <= MAX_SIZE.
Proof.
  unfold script_parses, signed_code. intros Hp Hl. pose proof (script_ops_concat (length c) c) as Hc. rewrite Hp, app_nil_r in Hc.
  destruct (length_concat_filter (fun o => o.1 <> OP_CODESEPARATOR) (script_ops (length c) c).1) as [E _].
  { intros o Ho Hn. apply (separator_byte (length c) c o Ho). destruct (decide (o.1 = OP_CODESEPARATOR)); [done|tauto]. }
  rewrite Hc in E. lia.
Qed.

Lemma legacy_commits : script_parses c1 -> script_parses c2 ->
  CTransactionSignatureSerializer tx1 c1 nIn nHashType ++ Serialize_int32 nHashType =
  CTransactionSignatureSerializer tx2 c2 nIn nHashType ++ Serialize_int32 nHashType ->
  same_payment tx1 tx2 /\ signed_code c1 = signed_code c2.
Proof.
  intros Hp1 Hp2 E. rewrite !legacy_view in E by done.
  pose proof (UnserializeTransaction_app false (signing_view tx1 c1 nIn) (Serialize_int32 nHashType)
    ltac:(apply signing_view_wf; [done|by apply signed_code_length]) ltac:(done)) as E1.
  rewrite E, UnserializeTransaction_app in E1; [|apply signing_view_wf; [done|by apply signed_code_length]|done].
  injection E1 as Ev Ei Eo El. unfold strip_witness, signing_view in Ei. cbn [mtx_vin] in Ei. rewrite !fmap_imap in Ei.
  symmetry in Ei. apply (imap_fields (fun j _ => if (j =? nIn)%nat then signed_code c1 else []) (fun j _ => if (j =? nIn)%nat then signed_code c2 else []))
    in Ei as (Hp & Hq & Hs).
  split; [by split_and!|]. specialize (Hs nIn in1 in2 Hin1 Hin2). by rewrite Nat.eqb_refl in Hs.
Qed.
Context (Hsha : forall s, 0 <= Sha256 s < 256 ^ 32) (Ha1 : in_i64 a1) (Ha2 : in_i64 a2).

Lemma prevouts_inj : concat ((fun i => Serialize (prevout i)) <$> vin tx1) = concat ((fun i => Serialize (prevout i)) <$> vin tx2) ->
  (prevout <$> vin tx1) = (prevout <$> vin tx2).
Proof.
  destruct Hwf1 as (_ & _ & _ & _ & Hi1 & _), Hwf2 as (_ & _ & _ & _ & Hi2 & _). intros E.
  apply (concat_code_inj Serialize Unserialize (fun o => 0 <= op_hash o < 256 ^ 32 /\ in_u32 (op_n o))).
  - apply SerializeOk_COutPoint.
  - intros o Eo. apply (f_equal length) in Eo. by rewrite length_outpoint in Eo.
  - apply Forall_fmap. eapply Forall_impl; [exact Hi1|]. by intros i [? _].
  - apply Forall_fmap. eapply Forall_impl; [exact Hi2|]. by intros i [? _].
  - by rewrite <- !list_fmap_compose.
Qed.
Lemma sequences_inj : concat ((fun i => Serialize_uint32 (nSequence i)) <$> vin tx1) = concat ((fun i => Serialize_uint32 (nSequence i)) <$> vin tx2) ->
  (nSequence <$> vin tx1) = (nSequence <$> vin tx2).
Proof.
  destruct Hwf1 as (_ & _ & _ & _ & Hi1 & _), Hwf2 as (_ & _ & _ & _ & Hi2 & _). intros E.
  apply (concat_code_inj Serialize_uint32 Unserialize_uint32 in_u32); [apply Unserialize_uint32_app|done| | |].
  - apply Forall_fmap. eapply Forall_impl; [exact Hi1|]. by intros i [_ ?].
  - apply Forall_fmap. eapply Forall_impl; [exact Hi2|]. by intros i [_ ?].
  - by rewrite <- !list_fmap_compose.
Qed.
Lemma outputs_inj : concat (Serialize <$> vout tx1) = concat (Serialize <$> vout tx2) -> vout tx1 = vout tx2.
Proof.
  destruct Hwf1 as (_ & _ & _ & _ & _ & Ho1), Hwf2 as (_ & _ & _ & _ & _ & Ho2).
  apply (concat_code_inj Serialize Unserialize txout_wf); [apply SerializeOk_CTxOut| |done|done].
  intros o Eo. apply (f_equal length) in Eo. cbn [Serialize Serializable_CTxOut] in Eo. rewrite length_app in Eo.
  unfold Serialize_int64, ser_writedata64 in Eo. rewrite length_le_bytes in Eo. cbn [length] in Eo. lia.
Qed.

Lemma Hash_range s : 0 <= Hash s < 256 ^ Z.of_nat 32.
Proof. apply Hsha. Qed.

(** The fields of the witness digest, one after the other. *)
Lemma witness_fields : witness_preimage c1 tx1 nIn in1 nHashType a1 None = witness_preimage c2 tx2 nIn in2 nHashType a2 None ->
  tx_nVersion tx1 = tx_nVersion tx2 /\ GetPrevoutHash tx1 = GetPrevoutHash tx2 /\ GetSequenceHash tx1 = GetSequenceHash tx2 /\
  GetOutputsHash tx1 = GetOutputsHash tx2 /\ nLockTime tx1 = nLockTime tx2 /\ c1 = c2 /\ a1 = a2.
Proof.
  destruct Hall as (Ha & Hs & Hn). unfold witness_preimage. unfold fHashSingle, fHashNone in Hs, Hn. rewrite Ha, Hs, Hn.
  cbn [negb andb default hashPrevouts hashSequence hashOutputs precompute].
  destruct Hwf1 as (Hv1 & Hl1 & _), Hwf2 as (Hv2 & Hl2 & _). intros E.
  apply app_inj_1 in E as [Ev E]; [|done]. apply app_inj_1 in E as [Ep E]; [|by rewrite !length_le_bytes]. apply app_inj_1 in E as [Eq E]; [|by rewrite !length_le_bytes].
  apply app_inj_1 in E as [_ E]; [|by rewrite !length_outpoint]. apply bytes_ser_inj in E as [Ec E]; [|done|done].
  apply app_inj_1 in E as [Eam E]; [|done]. apply app_inj_1 in E as [_ E]; [|done]. apply app_inj_1 in E as [Eo E]; [|by rewrite !length_le_bytes].
  apply app_inj_1 in E as [El _]; [|done].
  apply int32_inj in Ev; [|done|done]. apply int64_inj in Eam; [|done|done]. apply uint32_inj in El; [|done|done].
  apply blob_inj in Ep; [|apply Hash_range|apply Hash_range]. apply blob_inj in Eq; [|apply Hash_range|apply Hash_range].
  apply blob_inj in Eo; [|apply Hash_range|apply Hash_range]. by split_and!.
Qed.
End Commits.

(** C16: a signature with [SIGHASH_ALL] fixes the payment.  If the digests of
    two transactions for one input position are equal, and the strings that
    were hashed do not collide, then version, spent outputs, sequence numbers,
    outputs and lock time of the two are equal, and so are the signed script
    and, in a witness, the amount; a signature cannot be moved to another
    payment. *)
Theorem signature_commits `{CryptoOps} (tx1 tx2 : CTransaction) (in1 in2 : CTxIn) (c1 c2 : bytes) (nIn : nat) (nHashType a1 a2 : Z) (v : SigVersion) :
  (forall s, 0 <= Sha256 s < 256 ^ 32) -> tx_fields_wf tx1 -> tx_fields_wf tx2 -> signs_all nHashType ->
  Z.of_nat (length c1) <= MAX_SIZE -> Z.of_nat (length c2) <= MAX_SIZE -> script_parses c1 -> script_parses c2 ->
  in_i64 a1 -> in_i64 a2 -> vin tx1 !! nIn = Some in1 -> vin tx2 !! nIn = Some in2 ->
  (forall s t, s ∈ hashed_strings c1 tx1 nIn in1 nHashType a1 v -> t ∈ hashed_strings c2 tx2 nIn in2 nHashType a2 v ->
     Hash s = Hash t -> s = t) ->
  SignatureHash c1 tx1 nIn nHashType a1 v None = SignatureHash c2 tx2 nIn nHashType a2 v None ->
  same_payment tx1 tx2 /\ signed_code c1 = signed_code c2 /\ (v = SIGVERSION_WITNESS_V0 -> c1 = c2 /\ a1 = a2).
Proof.
  intros Hsha Hwf1 Hwf2 Hall Hc1 Hc2 Hp1 Hp2 Ha1 Ha2 Hin1 Hin2 Hcol. destruct v; unfold SignatureHash; cbn [hashed_strings] in Hcol.
  - pose proof Hall as (_ & -> & _). cbn [andb]. pose proof (lookup_lt_Some _ _ _ Hin1). pose proof (lookup_lt_Some _ _ _ Hin2).
    rewrite !(proj2 (Nat.leb_gt _ _)) by done. intros [= E]. apply Hcol in E; [|by left|by left].
    eapply legacy_commits in E as [Hs Hcode]; [|eassumption..]. by split_and!.
  - rewrite Hin1, Hin2. intros [= E]. apply Hcol in E; [|do 3 right; left..].
    eapply witness_fields in E as (Ev & Ep & Eq & Eo & El & -> & ->); [|eassumption..].
    split; [|by split_and!]. unfold GetPrevoutHash, GetSequenceHash, GetOutputsHash in *.
    apply Hcol in Ep; [|left..]. apply Hcol in Eq; [|right; left..]. apply Hcol in Eo; [|do 2 right; left..].
    split_and!; [done|by apply prevouts_inj|by apply sequences_inj|by apply outputs_inj|done].
Qed.

Module SigHashExample.

#[export] Instance demo_crypto : CryptoOps := {|
  Hash160 := fun v => le_value v mod 2 ^ 160;
  Sha256 := fun v => (le_value v * 7919 + 13) mod (2 ^ 251 - 9);
  secp256k1_ec_pubkey_parse := fun _ => true
|}.

Definition demo_tx (witness : list bytes) : CTransaction :=
  mkTransaction 1 2 [mkTxIn (mkOutPoint 7 1) [x51] 5 witness] [mkTxOut 1000 [x51]] 0.
(** [OP_CODESEPARATOR OP_CHECKSIG] *)
Definition demo_code : bytes := [xab; xac].

Lemma demo_wf w : tx_fields_wf (demo_tx w).
Proof. repeat first [split | constructor | (cbn; unfold in_i32, in_u32, in_i64, MAX_SIZE; lia)]. Qed.

Lemma signature_commits_witness : same_payment (demo_tx []) (demo_tx [[x01]]) /\ signed_code demo_code = signed_code demo_code.
Proof.
  destruct (signature_commits (demo_tx []) (demo_tx [[x01]]) (mkTxIn (mkOutPoint 7 1) [x51] 5 []) (mkTxIn (mkOutPoint 7 1) [x51] 5 [[x01]])
              demo_code demo_code 0 SIGHASH_ALL 50 50 SIGVERSION_BASE) as (Hs & Hc & _).
  - intros s. cbn [Sha256 demo_crypto]. pose proof (Z.mod_pos_bound (le_value s * 7919 + 13) (2 ^ 251 - 9) eq_refl) as Hb.
    assert (2 ^ 251 - 9 < 256 ^ 32) as Hlt by reflexivity. lia.
  - apply demo_wf.
  - apply demo_wf.
  - repeat split.
  - cbn. unfold MAX_SIZE. lia.
  - cbn. unfold MAX_SIZE. lia.
  - reflexivity.
  - reflexivity.
  - unfold in_i64. lia.
  - unfold in_i64. lia.
  - reflexivity.
  - reflexivity.
  - intros s t Hs Ht _. cbn [hashed_strings] in Hs, Ht. apply list_elem_of_singleton in Hs, Ht. rewrite Hs, Ht. reflexivity.
  - reflexivity.
  - split; [exact Hs|exact Hc].
Defined.

(** The separator is not signed, and [SIGHASH_NONE] leaves the outputs open. *)
Example separator_not_signed : signed_code demo_code = [xac].
Proof. reflexivity. Qed.
Example none_leaves_outputs_open :
  let other := mkTransaction 2 2 (vin (demo_tx [])) [mkTxOut 5 [x00]] 0 in
  SignatureHash demo_code (demo_tx []) 0 SIGHASH_NONE 50 SIGVERSION_BASE None
  = SignatureHash demo_code other 0 SIGHASH_NONE 50 SIGVERSION_BASE None.
Proof. reflexivity. Qed.

End SigHashExample.
