(* ===== verification/Compressor.v ===== *)
(** * Compressed outputs
      ([src/src/compressor.h], [compressor.cpp], [CPubKey::Decompress] of
      [pubkey.cpp], [CDataStream::ignore] of [streams.h])

    The form in which unspent outputs are stored.  The group operations on
    public keys belong to a library; what they promise is a class. *)

From S2P Require Import Prelude Nicknames Serialize Script Transaction.
Open Scope Z_scope.
Open Scope kubu_scope.
Open Scope reader_scope.

(** ** Amounts *)

(** The loop that divides by ten, at most nine times; [k] is what is left of the nine. *)
Fixpoint strip_tens (k : nat) (n e : Z) : Z * Z :=
  match k with
  | O => (n, e)
  | S k' => if n mod 10 =? 0 then strip_tens k' (n / 10) (e + 1) else (n, e)
  end.

Definition CompressAmount (n : Z) : result Z :=
  if n =? 0 then Ok 0
  else
    let '(n, e) := strip_tens 9 n 0 in
    if e <? 9 then
      let d := n mod 10 in
      reject negb ((1 <=? d) && (d <=? 9)) with "assertion d >= 1 && d <= 9 failed" ;
      Ok (u64 (1 + (n / 10 * 9 + d - 1) * 10 + e))
    else Ok (u64 (1 + (n - 1) * 10 + 9)).

Fixpoint times_ten (e : nat) (n : Z) : Z :=
  match e with
  | O => n
  | S e' => times_ten e' (u64 (n * 10))
  end.

Definition DecompressAmount (x : Z) : Z :=
  if x =? 0 then 0
  else
    let x := x - 1 in
    let e := x mod 10 in
    let x := x / 10 in
    let n := if e <? 9 then u64 (x / 9 * 10 + (x mod 9 + 1)) else u64 (x + 1) in
    times_ten (Z.to_nat e) n.

(** ** Scripts *)

(** [secp256k1_ec_pubkey_parse] followed by [secp256k1_ec_pubkey_serialize]
    in the uncompressed form. *)
Class PubKeyOps `{CryptoOps} := { secp256k1_uncompressed : bytes -> bytes }.

(** The [x] coordinate and the parity of [y] determine a point of the curve,
    and serialising is the inverse of parsing. *)
Class PubKeyLaws `{PubKeyOps} : Prop := {
  uncompressed_of_compressed x y : length x = 32%nat -> length y = 32%nat ->
    secp256k1_ec_pubkey_parse (u8 4 :: x ++ y) = true ->
    let compressed := u8 (2 + byte_at y 31 mod 2) :: x in
    secp256k1_ec_pubkey_parse compressed = true /\ secp256k1_uncompressed compressed = u8 4 :: x ++ y
}.

Section Scripts.
Context `{PubKeyOps}.

Definition pubkey_Decompress (pubkey : bytes) : option bytes :=
  if negb (IsValid pubkey) then None
  else if negb (secp256k1_ec_pubkey_parse pubkey) then None
  else Some (CPubKey (secp256k1_uncompressed pubkey)).

Definition nSpecialScripts : Z := 6.

Definition IsToKeyID (script : bytes) : option bytes :=
  if (len script =? 25) && (byte_at script 0 =? OP_DUP) && (byte_at script 1 =? OP_HASH160) && (byte_at script 2 =? 20)
     && (byte_at script 23 =? OP_EQUALVERIFY) && (byte_at script 24 =? OP_CHECKSIG)
  then Some (take 20 (drop 3 script)) else None.

Definition IsToScriptID (script : bytes) : option bytes :=
  if (len script =? 23) && (byte_at script 0 =? OP_HASH160) && (byte_at script 1 =? 20) && (byte_at script 22 =? OP_EQUAL)
  then Some (take 20 (drop 2 script)) else None.

Definition IsToPubKey (script : bytes) : option bytes :=
  if (len script =? 35) && (byte_at script 0 =? 33) && (byte_at script 34 =? OP_CHECKSIG)
     && ((byte_at script 1 =? 2) || (byte_at script 1 =? 3))
  then Some (CPubKey (take 33 (drop 1 script)))
  else if (len script =? 67) && (byte_at script 0 =? 65) && (byte_at script 66 =? OP_CHECKSIG) && (byte_at script 1 =? 4)
  then
    let pubkey := CPubKey (take 65 (drop 1 script)) in
    if IsFullyValid pubkey then Some pubkey else None
  else None.

Definition Compress (script : bytes) : option bytes :=
  match IsToKeyID script with
  | Some keyID => Some (u8 0 :: keyID)
  | None =>
      match IsToScriptID script with
      | Some scriptID => Some (u8 1 :: scriptID)
      | None =>
          match IsToPubKey script with
          | Some pubkey =>
              let h := byte_at pubkey 0 in
              if (h =? 2) || (h =? 3) then Some (u8 h :: take 32 (drop 1 pubkey))
              else if h =? 4 then Some (u8 (Z.lor 4 (Z.land (byte_at pubkey 64) 1)) :: take 32 (drop 1 pubkey))
              else None
          | None => None
          end
      end
  end.

Definition GetSpecialSize (nSize : Z) : Z :=
  if (nSize =? 0) || (nSize =? 1) then 20
  else if (nSize =? 2) || (nSize =? 3) || (nSize =? 4) || (nSize =? 5) then 32
  else 0.

(** The new script; [None] leaves the old one. *)
Definition Decompress (nSize : Z) (input : bytes) : result (option bytes) :=
  if nSize =? 0 then
    Ok (Some ([u8 OP_DUP; u8 OP_HASH160; u8 20] ++ take 20 input ++ [u8 OP_EQUALVERIFY; u8 OP_CHECKSIG]))
  else if nSize =? 1 then Ok (Some ([u8 OP_HASH160; u8 20] ++ take 20 input ++ [u8 OP_EQUAL]))
  else if (nSize =? 2) || (nSize =? 3) then Ok (Some ([u8 33; u8 nSize] ++ take 32 input ++ [u8 OP_CHECKSIG]))
  else if (nSize =? 4) || (nSize =? 5) then
    match pubkey_Decompress (CPubKey (u8 (nSize - 2) :: take 32 input)) with
    | None => Ok None
    | Some pubkey =>
        reject negb (len pubkey =? 65) with "assertion pubkey.size() == 65 failed" ;
        Ok (Some ([u8 65] ++ pubkey ++ [u8 OP_CHECKSIG]))
    end
  else Ok None.

Definition script_Serialize (script : bytes) : bytes :=
  match Compress script with
  | Some compr => compr
  | None => WriteVarInt (u32 (len script + nSpecialScripts)) ++ script
  end.

(** [CDataStream::ignore] on the unread bytes. *)
Definition ignore (nSize : Z) : Reader unit := fun s =>
  let n := i32 nSize in
  if n <? 0 then (Err "CDataStream::ignore(): nSize negative", s)
  else if len s <? n then (Err "CDataStream::ignore(): end of data", s)
  else (Ok tt, drop (Z.to_nat n) s).

Definition rlift {A} (r : result A) : Reader A := fun s => (r, s).

(** [script] is the value of the object that is read into. *)
Definition script_Unserialize (script : bytes) : Reader bytes :=
  nSize <-- ReadVarInt u32 ;;
  if nSize <? nSpecialScripts then
    vch <-- read (GetSpecialSize nSize) ;;
    r <-- rlift (Decompress nSize vch) ;;
    rret (default script r)
  else
    let nSize := nSize - nSpecialScripts in
    if MAX_SCRIPT_SIZE <? nSize then
      _ <-- ignore nSize ;; rret (script ++ push_opcode OP_RETURN)
    else read nSize.

Definition txout_Serialize (txout : CTxOut) : result bytes :=
  nVal ← CompressAmount (u64 (nValue txout));
  Ok (WriteVarInt nVal ++ script_Serialize (scriptPubKey txout)).
Definition txout_Unserialize (txout : CTxOut) : Reader CTxOut :=
  nVal <-- ReadVarInt u64 ;;
  script <-- script_Unserialize (scriptPubKey txout) ;;
  rret (mkTxOut (i64 (DecompressAmount nVal)) script).

End Scripts.

(** ** Lemmas *)

Lemma strip_tens_spec k n e n' e' : 0 < n -> strip_tens k n e = (n', e') ->
  0 < n' /\ e <= e' <= e + Z.of_nat k /\ n = n' * 10 ^ (e' - e) /\ (e' < e + Z.of_nat k -> n' mod 10 <> 0).
Proof.
  revert n e. induction k as [|k IH]; intros n e Hn; cbn [strip_tens].
  { intros [= <- <-]. replace (e - e) with 0 by lia. split_and!; lia. }
  destruct (Z.eqb_spec (n mod 10) 0) as [Hm|Hm].
  - intros Hk. pose proof (Z.div_mod n 10 ltac:(lia)) as Hd. destruct (IH (n / 10) (e + 1) ltac:(lia) Hk) as (H1 & H2 & H3 & H4).
    split_and!; [done|lia|lia| |lia]. replace (e' - e) with (Z.succ (e' - (e + 1))) by lia. rewrite Z.pow_succ_r by lia. lia.
  - intros [= <- <-]. replace (e - e) with 0 by lia. split_and!; lia.
Qed.

Lemma times_ten_spec e n : 0 <= n -> n * 10 ^ Z.of_nat e < 2 ^ 64 -> times_ten e n = n * 10 ^ Z.of_nat e.
Proof.
  revert n. induction e as [|e IH]; intros n H0 Hn; cbn [times_ten]; [lia|].
  rewrite Nat2Z.inj_succ, Z.pow_succ_r in * by lia. pose proof (Z.pow_pos_nonneg 10 (Z.of_nat e) ltac:(lia) ltac:(lia)).
  rewrite u64_id by (split; nia). rewrite IH by nia. lia.
Qed.

Lemma amount_roundtrip n : 0 <= n <= 2 * 10 ^ 18 -> exists x, CompressAmount n = Ok x /\ in_u64 x /\ DecompressAmount x = n.
Proof.
  intros Hn. unfold CompressAmount. destruct (Z.eqb_spec n 0) as [->|Hnz]; [by exists 0|].
  destruct (strip_tens 9 n 0) as [n' e] eqn:E. apply strip_tens_spec in E as (Hp & He & En & Hlast); [|lia].
  change (Z.of_nat 9) with 9 in *. rewrite Z.sub_0_r in En. pose proof (Z.pow_pos_nonneg 10 e ltac:(lia) ltac:(lia)) as Hpow.
  assert (n' <= n) by nia. destruct (Z.ltb_spec e 9) as [He9|He9].
  - specialize (Hlast ltac:(lia)). pose proof (Z.div_mod n' 10 ltac:(lia)) as Hd. pose proof (Z.mod_pos_bound n' 10 ltac:(lia)).
    rewrite reject_false by (apply negb_false_iff, andb_true_iff; split; apply Z.leb_le; lia).
    set (q := n' / 10) in *. set (d := n' mod 10) in *.
    assert (in_u64 (1 + (q * 9 + d - 1) * 10 + e)) as Hr by (split; lia). rewrite u64_id by done. eexists. split_and!; [done|done|].
    unfold DecompressAmount. rewrite (proj2 (Z.eqb_neq _ 0)) by lia.
    replace (1 + (q * 9 + d - 1) * 10 + e - 1) with (e + (q * 9 + d - 1) * 10) by lia.
    rewrite Z.mod_add, Z.div_add, (Z.mod_small e), (Z.div_small e), (proj2 (Z.ltb_lt e 9)) by lia.
    replace (0 + (q * 9 + d - 1)) with ((d - 1) + q * 9) by lia.
    rewrite Z.mod_add, Z.div_add, (Z.mod_small (d - 1)), (Z.div_small (d - 1)) by lia.
    replace ((0 + q) * 10 + (d - 1 + 1)) with n' by lia. rewrite u64_id by (split; lia).
    rewrite times_ten_spec by (rewrite ?Z2Nat.id by lia; lia). rewrite Z2Nat.id by lia. lia.
  - assert (e = 9) as -> by lia. assert (in_u64 (1 + (n' - 1) * 10 + 9)) as Hr by (split; nia).
    rewrite u64_id by done. eexists. split_and!; [done|done|]. unfold DecompressAmount. rewrite (proj2 (Z.eqb_neq _ 0)) by lia.
    replace (1 + (n' - 1) * 10 + 9 - 1) with (9 + (n' - 1) * 10) by lia. rewrite Z.mod_add, Z.div_add by lia.
    change (9 mod 10) with 9. change (9 / 10) with 0. change (9 <? 9) with false. cbn iota. replace (0 + (n' - 1) + 1) with n' by lia.
    rewrite u64_id by (split; lia). rewrite times_ten_spec; change (Z.of_nat (Z.to_nat 9)) with 9; lia.
Qed.

Lemma byte_lookup (s : bytes) i v : byte_at s i = v -> (i < length s)%nat -> s !! i = Some (u8 v).
Proof.
  intros <- Hi. unfold byte_at. destruct (s !! i) as [b|] eqn:E; [by rewrite u8_ub|]. apply lookup_ge_None in E. lia.
Qed.

Section Roundtrip.
Context `{PubKeyLaws}.

(** What each form of script looks like. *)
Lemma IsToKeyID_Some s k : IsToKeyID s = Some k ->
  length k = 20%nat /\ s = [u8 OP_DUP; u8 OP_HASH160; u8 20] ++ k ++ [u8 OP_EQUALVERIFY; u8 OP_CHECKSIG].
Proof.
  unfold IsToKeyID. destruct (_ && _) eqn:E; [|done]. intros [= <-]. rewrite !andb_true_iff, !Z.eqb_eq in E.
  destruct E as (((((El & E0) & E1) & E2) & E3) & E4). unfold len in El. split; [rewrite length_take, length_drop; lia|].
  apply byte_lookup in E0, E1, E2, E3, E4; try lia. rewrite <- (take_drop 3 s) at 1.
  rewrite (take_S_r _ _ _ E2), (take_S_r _ _ _ E1), (take_S_r _ _ _ E0), take_0. cbn [app]. do 3 f_equal.
  rewrite <- (take_drop 20 (drop 3 s)) at 1. f_equal. rewrite drop_drop. change (3 + 20)%nat with 23%nat.
  rewrite (drop_S _ _ _ E3), (drop_S _ _ _ E4). by rewrite drop_ge by lia.
Qed.
Lemma IsToScriptID_Some s k : IsToScriptID s = Some k ->
  length k = 20%nat /\ s = [u8 OP_HASH160; u8 20] ++ k ++ [u8 OP_EQUAL].
Proof.
  unfold IsToScriptID. destruct (_ && _) eqn:E; [|done]. intros [= <-]. rewrite !andb_true_iff, !Z.eqb_eq in E.
  destruct E as (((El & E0) & E1) & E2). unfold len in El. split; [rewrite length_take, length_drop; lia|].
  apply byte_lookup in E0, E1, E2; try lia. rewrite <- (take_drop 2 s) at 1.
  rewrite (take_S_r _ _ _ E1), (take_S_r _ _ _ E0), take_0. cbn [app]. do 2 f_equal.
  rewrite <- (take_drop 20 (drop 2 s)) at 1. f_equal. rewrite drop_drop. change (2 + 20)%nat with 22%nat.
  rewrite (drop_S _ _ _ E2). by rewrite drop_ge by lia.
Qed.

(** A script that pushes a key of [n + 1] bytes and checks its signature. *)
Lemma push_key_split s n k h : length s = (n + 3)%nat -> s !! 0%nat = Some (u8 k) -> s !! 1%nat = Some (u8 h) ->
  s !! (n + 2)%nat = Some (u8 OP_CHECKSIG) -> exists x, length x = n /\ s = u8 k :: u8 h :: x ++ [u8 OP_CHECKSIG].
Proof.
  intros Hl E0 E1 E2. destruct s as [|a [|b s]]; [done|done|]. cbn in E0, E1. injection E0 as ->. injection E1 as ->.
  exists (take n s). cbn [length] in Hl. split; [rewrite length_take; lia|]. do 2 f_equal. rewrite <- (take_drop n s) at 1. f_equal.
  replace (n + 2)%nat with (S (S n)) in E2 by lia. cbn in E2. rewrite (drop_S _ _ _ E2). by rewrite drop_ge by lia.
Qed.

Lemma CPubKey_id h x : GetLen h = Z.of_nat (S (length x)) -> 0 <= h < 256 -> CPubKey (u8 h :: x) = u8 h :: x.
Proof.
  intros Hl Hh. unfold CPubKey. rewrite ub_u8, Z.mod_small, Hl by lia. unfold len. cbn [length]. rewrite Z.eqb_refl.
  by rewrite (proj2 (Z.eqb_neq _ 0)) by lia.
Qed.

Lemma IsToPubKey_Some s k : IsToPubKey s = Some k ->
  (exists h x, (h = 2 \/ h = 3) /\ length x = 32%nat /\ k = u8 h :: x /\ s = [u8 33] ++ k ++ [u8 OP_CHECKSIG]) \/
  (exists x y, length x = 32%nat /\ length y = 32%nat /\ k = u8 4 :: x ++ y /\ s = [u8 65] ++ k ++ [u8 OP_CHECKSIG] /\
    secp256k1_ec_pubkey_parse k = true).
Proof.
  unfold IsToPubKey. destruct (_ && _) eqn:E.
  - intros [= <-]. left. rewrite !andb_true_iff, orb_true_iff, !Z.eqb_eq in E. destruct E as (((El & E0) & E2) & E1).
    unfold len in El. apply byte_lookup in E0, E2; try lia.
    assert (exists h, (h = 2 \/ h = 3) /\ s !! 1%nat = Some (u8 h)) as (h & Hh & Eh)
      by (destruct E1 as [E1|E1]; apply byte_lookup in E1; try lia; eauto).
    destruct (push_key_split s 32 33 h ltac:(lia) E0 Eh E2) as (x & Hx & ->). exists h, x.
    cbn [drop take]. rewrite take_app_length' by (cbn; lia).
    assert (CPubKey (u8 h :: x) = u8 h :: x) as -> by (apply CPubKey_id; [rewrite Hx; by destruct Hh as [-> | ->]|lia]).
    by split_and!.
  - clear E. destruct (_ && _) eqn:E; [|done]. rewrite !andb_true_iff, !Z.eqb_eq in E. destruct E as (((El & E0) & E2) & E1).
    unfold len in El. apply byte_lookup in E0, E1, E2; try lia.
    destruct (push_key_split s 64 65 4 ltac:(lia) E0 E1 E2) as (z & Hz & ->). cbn [drop take]. rewrite take_app_length' by (cbn; lia).
    rewrite CPubKey_id by (rewrite ?Hz; done || lia). destruct (IsFullyValid _) eqn:Ev; [|done]. intros [= <-]. right.
    unfold IsFullyValid in Ev. apply andb_true_iff in Ev as [_ Ev]. exists (take 32 z), (drop 32 z). rewrite take_drop.
    split_and!; [rewrite length_take; lia|rewrite length_drop; lia|done|done|done].
Qed.

Lemma small_varint h s : 0 <= h < 6 -> ReadVarInt u32 (u8 h :: s) = (Ok h, s).
Proof.
  intros Hh. assert (h = 0 \/ h = 1 \/ h = 2 \/ h = 3 \/ h = 4 \/ h = 5) as Hc by lia.
  destruct Hc as [->|[->|[->|[->|[->| ->]]]]]; reflexivity.
Qed.

(** Each special form is decompressed to the script it came from. *)
Lemma Compress_Some s out : Compress s = Some out -> exists h x, 0 <= h < 6 /\ out = u8 h :: x /\
  Z.of_nat (length x) = GetSpecialSize h /\ Decompress h x = Ok (Some s).
Proof.
  unfold Compress. destruct (IsToKeyID s) as [k|] eqn:E1.
  { intros [= <-]. apply IsToKeyID_Some in E1 as [Hk ->]. exists 0, k. split_and!; [lia|lia|done|by rewrite Hk|].
    unfold Decompress. cbn [Z.eqb]. by rewrite take_ge by lia. }
  destruct (IsToScriptID s) as [k|] eqn:E2.
  { intros [= <-]. apply IsToScriptID_Some in E2 as [Hk ->]. exists 1, k. split_and!; [lia|lia|done|by rewrite Hk|].
    unfold Decompress. cbn [Z.eqb Pos.eqb]. by rewrite take_ge by lia. }
  destruct (IsToPubKey s) as [k|] eqn:E3; [|done].
  apply IsToPubKey_Some in E3 as [(h & x & Hh & Hx & -> & ->)|(x & y & Hx & Hy & -> & -> & Hparse)].
  - assert (byte_at (u8 h :: x) 0 = h) as -> by (cbn; rewrite ub_u8; by destruct Hh as [-> | ->]). cbn [drop]. rewrite drop_0, (take_ge x) by lia.
    intros Eo. exists h, x. assert (out = u8 h :: x) as -> by (destruct Hh as [-> | ->]; cbn in Eo; congruence).
    split_and!; [lia|lia|done|rewrite Hx; by destruct Hh as [-> | ->]|].
    destruct Hh as [-> | ->]; unfold Decompress; cbn [Z.eqb Pos.eqb orb]; by rewrite take_ge by lia.
  - change (byte_at (u8 4 :: x ++ y) 0) with 4. cbn [drop Z.eqb Pos.eqb orb]. rewrite drop_0, take_app_length' by lia. intros [= <-].
    assert (byte_at (u8 4 :: x ++ y) 64 = byte_at y 31) as ->.
    { unfold byte_at. change ((u8 4 :: x ++ y) !! 64%nat) with ((x ++ y) !! 63%nat). rewrite lookup_app_r by lia. by rewrite Hx. }
    rewrite (Z.land_ones _ 1) by lia. change (2 ^ 1) with 2. set (par := byte_at y 31 mod 2).
    assert (par = 0 \/ par = 1) as Hpar by (pose proof (Z.mod_pos_bound (byte_at y 31) 2 ltac:(lia)); lia).
    assert (Z.lor 4 par = 4 + par) as -> by (by destruct Hpar as [-> | ->]).
    destruct (uncompressed_of_compressed x y Hx Hy Hparse) as [Hp Hu]. fold par in Hp, Hu.
    exists (4 + par), x. split_and!; [lia|lia|done|rewrite Hx; by destruct Hpar as [-> | ->]|].
    assert (Decompress (4 + par) x = match pubkey_Decompress (CPubKey (u8 (2 + par) :: x)) with
      | None => Ok None
      | Some pubkey => reject negb (len pubkey =? 65) with "assertion pubkey.size() == 65 failed" ; Ok (Some ([u8 65] ++ pubkey ++ [u8 OP_CHECKSIG]))
      end) as ->.
    { unfold Decompress. rewrite (take_ge x 32) by lia. by destruct Hpar as [-> | ->]. }
    rewrite CPubKey_id by (rewrite ?Hx; destruct Hpar as [-> | ->]; done || lia).
    unfold pubkey_Decompress. rewrite Hp, Hu. unfold IsValid, len. cbn [length]. rewrite (proj2 (Z.ltb_lt _ _)) by lia. cbn [negb].
    rewrite CPubKey_id by (rewrite ?length_app, ?Hx, ?Hy; done || lia). cbn [length]. by rewrite length_app, Hx, Hy.
Qed.

Lemma script_roundtrip s old rest : len s <= MAX_SCRIPT_SIZE ->
  script_Unserialize old (script_Serialize s ++ rest) = (Ok s, rest).
Proof.
  intros Hl. unfold script_Serialize, script_Unserialize. destruct (Compress s) as [out|] eqn:E.
  - destruct (Compress_Some s out E) as (h & x & Hh & -> & Hx & Hd). cbn [app].
    rewrite (rbind_Ok _ _ _ h (x ++ rest)) by (by apply small_varint). unfold nSpecialScripts. rewrite (proj2 (Z.ltb_lt h 6)) by lia.
    rewrite (rbind_Ok _ _ _ x rest) by (by apply read_app). by rewrite (rbind_Ok _ _ _ (Some s) rest) by (unfold rlift; by rewrite Hd).
  - unfold len, MAX_SCRIPT_SIZE, nSpecialScripts in *. rewrite u32_id by (split; lia). rewrite <- app_assoc.
    rewrite (rbind_Ok _ _ _ (Z.of_nat (length s) + 6) (s ++ rest)).
    2: { apply (varint_roundtrip u32 (2 ^ 32)); try lia. intros z Hz. by apply u32_id. }
    rewrite (proj2 (Z.ltb_ge _ 6)) by lia. rewrite Z.add_simpl_r, (proj2 (Z.ltb_ge 10000 _)) by lia. by apply read_app.
Qed.

Lemma txout_roundtrip txout old rest :
  MoneyRange (nValue txout) = true -> len (scriptPubKey txout) <= MAX_SCRIPT_SIZE ->
  exists bs, txout_Serialize txout = Ok bs /\ txout_Unserialize old (bs ++ rest) = (Ok txout, rest).
Proof.
  intros Hv Hl. destruct txout as [v s]. cbn [nValue scriptPubKey] in *.
  assert (0 <= v <= MAX_MONEY) as Hr by (unfold MoneyRange in Hv; zbool; lia). change MAX_MONEY with (8 * 10 ^ 16) in Hr.
  destruct (amount_roundtrip v ltac:(lia)) as (x & Ex & Hx & Ed). unfold txout_Serialize. cbn [nValue scriptPubKey].
  rewrite u64_id, Ex by (split; lia). cbn [mbind result_bind]. eexists. split; [done|]. unfold txout_Unserialize. rewrite <- app_assoc.
  rewrite (rbind_Ok _ _ _ x (script_Serialize s ++ rest)).
  2: { destruct Hx. apply (varint_roundtrip u64 (2 ^ 64)); try lia. intros z Hz. by apply u64_id. }
  rewrite (rbind_Ok _ _ _ s rest) by (by apply script_roundtrip). unfold rret. rewrite Ed, i64_id by (split; lia). done.
Qed.

(** ** Correctness *)

(** stored outputs are read back.  An output whose amount is money and
    whose script is not too long is written, whatever its script, and reading
    the bytes gives it back and stops after them; the amount code does not
    overflow, and the four special forms of script, uncompressed public keys
    among them, lose nothing. *)
Theorem CTxOutCompressor_roundtrip txout old rest :
  MoneyRange (nValue txout) = true -> len (scriptPubKey txout) <= MAX_SCRIPT_SIZE ->
  exists bs, txout_Serialize txout = Ok bs /\ txout_Unserialize old (bs ++ rest) = (Ok txout, rest).
Proof. apply txout_roundtrip. Qed.

End Roundtrip.

(** ** Examples *)

Module CompressorExample.

(** A curve in which [y] is the parity. *)
Definition demo_y (par : Z) : bytes := replicate 31 x00 ++ [u8 par].
Definition demo_parse (k : bytes) : bool :=
  ((byte_at k 0 =? 2) || (byte_at k 0 =? 3)) && (len k =? 33)
  || (bool_decide (drop 33 k = demo_y 0) || bool_decide (drop 33 k = demo_y 1)).
#[export] Instance demo_crypto : CryptoOps := {|
  Hash160 := fun _ => 0;
  Sha256 := fun _ => 0;
  secp256k1_ec_pubkey_parse := demo_parse
|}.
#[export] Instance demo_keys : PubKeyOps := {|
  secp256k1_uncompressed := fun k => u8 4 :: take 32 (drop 1 k) ++ demo_y (byte_at k 0 - 2)
|}.
#[export] Instance demo_laws : PubKeyLaws.
Proof.
  constructor. intros x y Hx Hy Hp compressed.
  assert (exists par, (par = 0 \/ par = 1) /\ y = demo_y par) as (par & Hpar & ->).
  { cbn in Hp. unfold demo_parse in Hp. change (byte_at (u8 4 :: x ++ y) 0) with 4 in Hp. cbn [Z.eqb Pos.eqb orb andb] in Hp.
    change (drop 33 (u8 4 :: x ++ y)) with (drop 32 (x ++ y)) in Hp. rewrite drop_app_length' in Hp by done.
    apply orb_true_iff in Hp as [Hp|Hp]; apply bool_decide_eq_true in Hp; eauto. }
  assert (compressed = u8 (2 + par) :: x) as -> by (destruct Hpar as [-> | ->]; reflexivity).
  assert (byte_at (u8 (2 + par) :: x) 0 = 2 + par) as E by (cbn; rewrite ub_u8; destruct Hpar as [-> | ->]; reflexivity).
  split.
  - cbn [secp256k1_ec_pubkey_parse demo_crypto]. unfold demo_parse. rewrite E. unfold len. cbn [length]. rewrite Hx.
    destruct Hpar as [-> | ->]; reflexivity.
  - cbn [secp256k1_uncompressed demo_keys]. rewrite E. cbn [drop]. rewrite drop_0, (take_ge x) by lia.
    by replace (2 + par - 2) with par by lia.
Qed.

Definition demo_txout : CTxOut :=
  mkTxOut 4800000000 ([u8 65] ++ (u8 4 :: replicate 32 x07 ++ demo_y 1) ++ [u8 OP_CHECKSIG]).

(** An output to an uncompressed key takes two bytes for the amount and 33 for the script. *)
Lemma CTxOutCompressor_roundtrip_witness : exists bs, txout_Serialize demo_txout = Ok bs /\ length bs = 35%nat /\
  txout_Unserialize (mkTxOut 0 []) (bs ++ [x01]) = (Ok demo_txout, [x01]).
Proof.
  destruct (CTxOutCompressor_roundtrip demo_txout (mkTxOut 0 []) [x01]) as (bs & E & Hr).
  - vm_compute. reflexivity.
  - vm_compute. discriminate.
  - exists bs. split; [exact E|]. split; [|exact Hr]. vm_compute in E. injection E as <-. reflexivity.
Defined.

End CompressorExample.
