(* ===== verification/Coins.v ===== *)
(** * Unspent outputs of one transaction
      ([CCoins] of [src/src/coins.h] and [coins.cpp])

    The outputs of a transaction that are still unspent, with the height,
    version and kind of the transaction; spent outputs are null, and nulls at
    the end are dropped. *)

From S2P Require Import Prelude Serialize Script Transaction TxSerialize.
Open Scope Z_scope.
Open Scope kubu_scope.

Definition txout_IsNull (o : CTxOut) : bool := nValue o =? -1.

Record CCoins := mkCoins { fCoinBase : bool; coins_vout : list CTxOut; coins_nHeight : Z; coins_nVersion : Z }.

Definition coins_empty : CCoins := mkCoins false [] 0 0.
Definition with_vout (c : CCoins) (l : list CTxOut) : CCoins := mkCoins (fCoinBase c) l (coins_nHeight c) (coins_nVersion c).

Definition with_version (coins : CCoins) (v : Z) : CCoins := mkCoins (fCoinBase coins) (coins_vout coins) (coins_nHeight coins) v.

(** [pop_back] while the last output is null, on the reversed list. *)
Fixpoint pop_nulls (rev : list CTxOut) : list CTxOut :=
  match rev with
  | [] => []
  | o :: rev' => if txout_IsNull o then pop_nulls rev' else rev
  end.
Definition cleanup_vout (l : list CTxOut) : list CTxOut := reverse (pop_nulls (reverse l)).
Definition Cleanup (c : CCoins) : CCoins := with_vout c (cleanup_vout (coins_vout c)).

Definition null_unspendable (o : CTxOut) : CTxOut := if IsUnspendable (scriptPubKey o) then txout_null else o.
Definition ClearUnspendable (c : CCoins) : CCoins := Cleanup (with_vout c (null_unspendable <$> coins_vout c)).

Definition FromTx (tx : CTransaction) (nHeightIn : Z) : CCoins :=
  ClearUnspendable (mkCoins (IsCoinBase tx) (vout tx) nHeightIn (tx_nVersion tx)).

Definition IsAvailable (c : CCoins) (nPos : Z) : bool :=
  match coins_vout c !! Z.to_nat nPos with
  | Some o => negb (txout_IsNull o)
  | None => false
  end.
Definition IsPruned (c : CCoins) : bool := forallb txout_IsNull (coins_vout c).

(** [false] and no change, or [true] and the output nulled. *)
Definition Spend (c : CCoins) (nPos : Z) : bool * CCoins :=
  if IsAvailable c nPos then (true, Cleanup (with_vout c (<[Z.to_nat nPos := txout_null]> (coins_vout c)))) else (false, c).

#[export] Instance CCoins_eq_dec : EqDecision CCoins.
Proof. solve_decision. Defined.

(** [operator==] *)
Definition coins_eqb (a b : CCoins) : bool := (IsPruned a && IsPruned b) || bool_decide (a = b).

(** The output at a position, if it is unspent. *)
Definition unspent_at (l : list CTxOut) (i : nat) : option CTxOut :=
  o ← l !! i; if txout_IsNull o then None else Some o.

(** A coins view as the code that uses one sees it: coins by transaction, and
    none where everything is spent. *)
Notation utxos := (gmap Z CCoins).
Definition unspent (c : CCoins) : option CCoins := if IsPruned c then None else Some c.
Definition available (view : utxos) (o : COutPoint) : option CTxOut :=
  c ← view !! op_hash o; unspent_at (coins_vout c) (Z.to_nat (op_n o)).

(** What [Cleanup] leaves: nulls carry no script, and the last output is not null. *)
Definition canonical (l : list CTxOut) : Prop :=
  Forall (fun o => txout_IsNull o = true -> o = txout_null) l /\ (forall o, last l = Some o -> txout_IsNull o = false).

(** ** Lemmas *)

Lemma txout_IsNull_null : txout_IsNull txout_null = true.
Proof. done. Qed.

Lemma cleanup_split l : exists k, l = cleanup_vout l ++ k /\ Forall (fun o => txout_IsNull o = true) k.
Proof.
  unfold cleanup_vout. enough (forall r, exists k, r = k ++ pop_nulls r /\ Forall (fun o => txout_IsNull o = true) k) as Hr.
  { destruct (Hr (reverse l)) as (k & E & Hk). exists (reverse k). split; [|by apply Forall_reverse].
    rewrite <- reverse_app, <- E. by rewrite reverse_involutive. }
  induction r as [|o r (k & E & Hk)]; [by exists []|]. cbn [pop_nulls].
  destruct (txout_IsNull o) eqn:Eo; [|by exists []]. exists (o :: k). split; [cbn; congruence|by constructor].
Qed.

Lemma cleanup_last l o : last (cleanup_vout l) = Some o -> txout_IsNull o = false.
Proof.
  unfold cleanup_vout. rewrite last_reverse. generalize (reverse l) as r. induction r as [|x r IH]; [done|]. cbn [pop_nulls].
  destruct (txout_IsNull x) eqn:Ex; [done|]. cbn. congruence.
Qed.

Lemma unspent_at_null l i : Forall (fun o => txout_IsNull o = true) l -> unspent_at l i = None.
Proof.
  intros Hl. unfold unspent_at. destruct (l !! i) as [o|] eqn:E; [|done]. cbn. rewrite Forall_lookup in Hl. by rewrite (Hl i o E).
Qed.

Lemma unspent_at_app_null l k i : Forall (fun o => txout_IsNull o = true) k -> unspent_at (l ++ k) i = unspent_at l i.
Proof.
  intros Hk. destruct (decide (i < length l)%nat) as [Hi|Hi].
  - unfold unspent_at. by rewrite lookup_app_l.
  - unfold unspent_at at 1. rewrite lookup_app_r by lia. fold (unspent_at k (i - length l)). rewrite unspent_at_null by done.
    unfold unspent_at. by rewrite lookup_ge_None_2 by lia.
Qed.

Lemma unspent_at_cleanup l i : unspent_at (cleanup_vout l) i = unspent_at l i.
Proof. destruct (cleanup_split l) as (k & E & Hk). rewrite E at 2. by rewrite unspent_at_app_null. Qed.

Lemma canonical_cleanup l : Forall (fun o => txout_IsNull o = true -> o = txout_null) l -> canonical (cleanup_vout l).
Proof.
  intros Hl. split; [|apply cleanup_last]. destruct (cleanup_split l) as (k & E & _). rewrite E in Hl. by apply Forall_app in Hl as [? _].
Qed.

(** Canonical lists are determined by their unspent outputs. *)
Lemma canonical_length l1 l2 : canonical l1 -> (forall i, unspent_at l1 i = unspent_at l2 i) -> (length l1 <= length l2)%nat.
Proof.
  intros [_ Hlast] E. destruct (decide (length l1 = 0)%nat) as [->|Hn]; [lia|]. specialize (E (pred (length l1))).
  rewrite last_lookup in Hlast. destruct (lookup_lt_is_Some_2 l1 (pred (length l1))) as [o Ho]; [lia|].
  unfold unspent_at in E. rewrite Ho in E. cbn in E. rewrite (Hlast o Ho) in E.
  destruct (l2 !! pred (length l1)) as [x|] eqn:Ex; [|done]. apply lookup_lt_Some in Ex. lia.
Qed.
Lemma canonical_ext l1 l2 : canonical l1 -> canonical l2 -> (forall i, unspent_at l1 i = unspent_at l2 i) -> l1 = l2.
Proof.
  intros H1 H2 E. pose proof (canonical_length l1 l2 H1 E). pose proof (canonical_length l2 l1 H2 ltac:(done)).
  apply list_eq_same_length with (n := length l1); [lia|lia|]. intros i x y Hi Hx Hy. specialize (E i). unfold unspent_at in E.
  rewrite Hx, Hy in E. cbn in E. destruct H1 as [H1 _], H2 as [H2 _]. rewrite Forall_lookup in H1, H2.
  destruct (txout_IsNull x) eqn:Ex, (txout_IsNull y) eqn:Ey; simplify_eq; [|done]. rewrite (H1 i x), (H2 i y); done.
Qed.

Lemma canonical_nil : canonical [].
Proof. by split; [constructor|]. Qed.
Lemma cleanup_canonical l : canonical l -> cleanup_vout l = l.
Proof.
  intros Hl. apply canonical_ext; [by apply canonical_cleanup, Hl|done|apply unspent_at_cleanup].
Qed.

Lemma Cleanup_canonical c : canonical (coins_vout c) -> Cleanup c = c.
Proof. intros Hc. unfold Cleanup. rewrite cleanup_canonical by done. by destruct c. Qed.

Lemma IsPruned_unspent_at c : IsPruned c = true <-> forall i, unspent_at (coins_vout c) i = None.
Proof.
  unfold IsPruned. rewrite forallb_forall. unfold unspent_at. split.
  - intros Hall i. destruct (coins_vout c !! i) as [o|] eqn:E; [|done]. cbn. rewrite Hall; [done|].
    apply list_elem_of_In. by eapply list_elem_of_lookup_2.
  - intros Hn x Hx. apply list_elem_of_In, list_elem_of_lookup in Hx as [i Hi]. specialize (Hn i). rewrite Hi in Hn. cbn in Hn.
    by destruct (txout_IsNull x).
Qed.
Lemma IsPruned_canonical c : canonical (coins_vout c) -> IsPruned c = true <-> coins_vout c = [].
Proof.
  intros Hc. split; [|unfold IsPruned; by intros ->]. intros Hp. apply canonical_ext; [done|apply canonical_nil|].
  intros i. by rewrite (proj1 (IsPruned_unspent_at c) Hp).
Qed.
Lemma IsPruned_Cleanup c : IsPruned (Cleanup c) = IsPruned c.
Proof.
  apply eq_true_iff_eq. rewrite !IsPruned_unspent_at. cbn. setoid_rewrite unspent_at_cleanup. done.
Qed.
Lemma unspent_Some c c' : unspent c = Some c' <-> c = c' /\ IsPruned c = false.
Proof. unfold unspent. destruct (IsPruned c); naive_solver. Qed.
Lemma unspent_None c : unspent c = None <-> IsPruned c = true.
Proof. unfold unspent. destruct (IsPruned c); naive_solver. Qed.

Lemma IsAvailable_unspent_at c n : IsAvailable c n = true <-> is_Some (unspent_at (coins_vout c) (Z.to_nat n)).
Proof.
  unfold IsAvailable, unspent_at. destruct (coins_vout c !! Z.to_nat n) as [o|]; cbn; [|by split; [|intros []]].
  destruct (txout_IsNull o); cbn; naive_solver eauto.
Qed.

Lemma unspent_at_insert l i o j : (i < length l)%nat ->
  unspent_at (<[i := o]> l) j = if decide (j = i) then (if txout_IsNull o then None else Some o) else unspent_at l j.
Proof.
  intros Hi. unfold unspent_at. destruct (decide (j = i)) as [->|Hn]; [by rewrite list_lookup_insert_eq|by rewrite list_lookup_insert_ne].
Qed.
Lemma unspent_at_length l i o : unspent_at l i = Some o -> (i < length l)%nat.
Proof. unfold unspent_at. destruct (l !! i) eqn:E; [|done]. intros _. by eapply lookup_lt_Some. Qed.

Lemma nulls_insert l i o : Forall (fun o => txout_IsNull o = true -> o = txout_null) l -> (txout_IsNull o = true -> o = txout_null) ->
  Forall (fun o => txout_IsNull o = true -> o = txout_null) (<[i := o]> l).
Proof. intros Hl Ho. by apply Forall_insert. Qed.

(** Spending one output. *)
Lemma Spend_spec c n o c' : canonical (coins_vout c) -> unspent_at (coins_vout c) (Z.to_nat n) = Some o -> Spend c n = (true, c') ->
  canonical (coins_vout c') /\ c' = with_vout c (coins_vout c') /\
  forall j, unspent_at (coins_vout c') j = if decide (j = Z.to_nat n) then None else unspent_at (coins_vout c) j.
Proof.
  intros Hc Ho. unfold Spend. destruct (IsAvailable c n); [|done]. intros [= <-]. unfold Cleanup. cbn [coins_vout with_vout]. split_and!.
  - apply canonical_cleanup, nulls_insert; [apply Hc|done].
  - done.
  - intros j. rewrite unspent_at_cleanup, unspent_at_insert by by eapply unspent_at_length. done.
Qed.

Lemma FromTx_canonical tx h : Forall (fun o => txout_IsNull o = true -> o = txout_null) (vout tx) -> canonical (coins_vout (FromTx tx h)).
Proof.
  intros Hv. cbn. apply canonical_cleanup, Forall_fmap. eapply Forall_impl; [exact Hv|]. intros o Ho. cbn.
  unfold null_unspendable. by destruct (IsUnspendable _).
Qed.
Lemma FromTx_unspent_at tx h i : unspent_at (coins_vout (FromTx tx h)) i =
  o ← unspent_at (vout tx) i; if IsUnspendable (scriptPubKey o) then None else Some o.
Proof.
  unfold FromTx, ClearUnspendable, Cleanup. cbn [coins_vout with_vout]. rewrite unspent_at_cleanup. unfold unspent_at. rewrite list_lookup_fmap. destruct (vout tx !! i) as [o|]; [|done]. cbn.
  unfold null_unspendable. destruct (IsUnspendable (scriptPubKey o)) eqn:E; cbn; [|destruct (txout_IsNull o); cbn; [done|by rewrite E]].
  destruct (txout_IsNull o); cbn; [done|by rewrite E].
Qed.
