(* ===== verification/CoinsSerialize.v ===== *)
(** * The stored form of coins and undo records
      ([src/src/coins.h], [src/src/coins.cpp], [src/src/undo.h])

    Coins are written as a code, a bit mask of the unspent outputs, these
    outputs in compressed form and the height.  What is written is read back,
    but for a negative version, of which the low seven bits remain. *)

From S2P Require Import Prelude Nicknames Serialize Script Money Transaction TxSerialize Compressor Coins.
Open Scope Z_scope.
Open Scope kubu_scope.

(** ** The mask *)

Definition unspent_bit (vout : list CTxOut) (k : nat) : bool :=
  match vout !! k with Some o => negb (txout_IsNull o) | None => false end.

(** Output [2 + 8 * b + i] is bit [i] of byte [b]. *)
Definition mask_used (vout : list CTxOut) (b : nat) : bool := existsb (fun i => unspent_bit vout (2 + b * 8 + i)) (seq 0 8).
Definition chAvail (vout : list CTxOut) (b : nat) : Z :=
  foldl (fun ch i => if unspent_bit vout (2 + b * 8 + i) then Z.lor ch (Z.shiftl 1 (Z.of_nat i)) else ch) 0 (seq 0 8).

(** The loop of [CalcMaskSize]: [b] runs while [2 + b * 8] is an output. *)
Fixpoint mask_loop (fuel : nat) (vout : list CTxOut) (b nLastUsedByte nNonzeroBytes : nat) : nat * nat :=
  match fuel with
  | O => (nLastUsedByte, nNonzeroBytes)
  | S fuel' =>
      if (2 + b * 8 <? length vout)%nat then
        if mask_used vout b then mask_loop fuel' vout (S b) (S b) (S nNonzeroBytes) else mask_loop fuel' vout (S b) nLastUsedByte nNonzeroBytes
      else (nLastUsedByte, nNonzeroBytes)
  end.
Definition CalcMaskSize (vout : list CTxOut) : nat * nat := mask_loop (length vout) vout 0 0 0.

Section Format.
Context `{PubKeyOps}.

Fixpoint serialize_outs (vout : list CTxOut) : result bytes :=
  match vout with
  | [] => Ok []
  | o :: vout' =>
      if txout_IsNull o then serialize_outs vout'
      else b ← txout_Serialize o; rest ← serialize_outs vout'; Ok (b ++ rest)
  end.

(** ** [CCoins] *)

Definition nCode (c : CCoins) (fFirst fSecond : bool) (nMaskCode : nat) : Z :=
  u32 (8 * u32 (Z.of_nat nMaskCode - (if fFirst || fSecond then 0 else 1)) + (if fCoinBase c then 1 else 0) + (if fFirst then 2 else 0) + (if fSecond then 4 else 0)).
Definition Serialize_CCoins (c : CCoins) : result bytes :=
  let '(nMaskSize, nMaskCode) := CalcMaskSize (coins_vout c) in
  let fFirst := unspent_bit (coins_vout c) 0 in
  let fSecond := unspent_bit (coins_vout c) 1 in
  reject negb (fFirst || fSecond || negb (nMaskCode =? 0)%nat) with "assertion failed";
  outs ← serialize_outs (coins_vout c);
  Ok (WriteVarInt (coins_nVersion c) ++ WriteVarInt (nCode c fFirst fSecond nMaskCode) ++
      ((fun b => u8 (chAvail (coins_vout c) b)) <$> seq 0 nMaskSize) ++ outs ++ WriteVarInt (coins_nHeight c)).

Definition mask_bits (ch : Z) : list bool := (fun p => negb (Z.land ch (Z.shiftl 1 (Z.of_nat p)) =? 0)) <$> seq 0 8.
(** Each turn takes a byte, so that the unread bytes bound the loop. *)
Fixpoint read_mask_loop (fuel : nat) (nMaskCode : Z) : Reader (list bool) :=
  if nMaskCode <=? 0 then rret []
  else match fuel with
       | O => rthrow "out of fuel"
       | S fuel' =>
           ch <-- ser_readdata8 ;;
           rest <-- read_mask_loop fuel' (if ch =? 0 then nMaskCode else nMaskCode - 1) ;;
           rret (mask_bits ch ++ rest)
       end.
Definition read_mask (nMaskCode : Z) : Reader (list bool) := fun s => read_mask_loop (S (length s)) nMaskCode s.

Fixpoint read_outs (vAvail : list bool) : Reader (list CTxOut) :=
  match vAvail with
  | [] => rret []
  | f :: vAvail' =>
      o <-- (if f then txout_Unserialize txout_null else rret txout_null) ;;
      rest <-- read_outs vAvail' ;;
      rret (o :: rest)
  end.
Definition Unserialize_CCoins : Reader CCoins :=
  nVersion <-- ReadVarInt i32 ;;
  nCode <-- ReadVarInt u32 ;;
  let vAvail := [negb (Z.land nCode 2 =? 0); negb (Z.land nCode 4 =? 0)] in
  let nMaskCode := u32 (nCode / 8 + (if negb (Z.land nCode 6 =? 0) then 0 else 1)) in
  mask <-- read_mask nMaskCode ;;
  vout <-- read_outs (vAvail ++ mask) ;;
  nHeight <-- ReadVarInt i32 ;;
  rret (Cleanup (mkCoins (negb (Z.land nCode 1 =? 0)) vout nHeight nVersion)).

(** ** Undo records *)

Definition Serialize_CTxInUndo (u : CTxInUndo) : result bytes :=
  o ← txout_Serialize (txout u);
  Ok (WriteVarInt (u32 (undo_nHeight u * 2 + (if undo_fCoinBase u then 1 else 0))) ++
      (if 0 <? undo_nHeight u then WriteVarInt (undo_nVersion u) else []) ++ o).
Definition Unserialize_CTxInUndo : Reader CTxInUndo :=
  nCode <-- ReadVarInt u32 ;;
  nVersion <-- (if 0 <? nCode / 2 then ReadVarInt i32 else rret 0) ;;
  o <-- txout_Unserialize txout_null ;;
  rret (mkTxInUndo o (negb (Z.land nCode 1 =? 0)) (nCode / 2) nVersion).

(** Vectors of elements whose writing can fail. *)
Fixpoint serialize_each {A} (f : A -> result bytes) (l : list A) : result bytes :=
  match l with
  | [] => Ok []
  | a :: l' => b ← f a; rest ← serialize_each f l'; Ok (b ++ rest)
  end.
Definition serialize_vector {A} (f : A -> result bytes) (l : list A) : result bytes :=
  b ← serialize_each f l; Ok (WriteCompactSize (Z.of_nat (length l)) ++ b).
Definition unserialize_vector {A} (f : Reader A) : Reader (list A) :=
  n <-- ReadCompactSize ;; unserialize_n f (Z.to_nat (u32 n)).

Definition Serialize_CTxUndo (u : CTxUndo) : result bytes := serialize_vector Serialize_CTxInUndo (vprevout u).
Definition Unserialize_CTxUndo : Reader CTxUndo := l <-- unserialize_vector Unserialize_CTxInUndo ;; rret (mkTxUndo l).
Definition Serialize_CBlockUndo (u : CBlockUndo) : result bytes := serialize_vector Serialize_CTxUndo (vtxundo u).
Definition Unserialize_CBlockUndo : Reader CBlockUndo := l <-- unserialize_vector Unserialize_CTxUndo ;; rret (mkBlockUndo l).

End Format.

(** ** What storage keeps

    [VARINT] writes one digit of a negative number. *)

Definition stored_version (v : Z) : Z := if v <? 0 then v mod 128 else v.
Definition coins_stored (c : CCoins) : CCoins := with_version c (stored_version (coins_nVersion c)).
Definition undo_stored (u : CTxInUndo) : CTxInUndo := mkTxInUndo (txout u) (undo_fCoinBase u) (undo_nHeight u) (stored_version (undo_nVersion u)).
Definition tx_undo_stored (u : CTxUndo) : CTxUndo := mkTxUndo (undo_stored <$> vprevout u).
Definition block_undo_stored (u : CBlockUndo) : CBlockUndo := mkBlockUndo (tx_undo_stored <$> vtxundo u).

Lemma stored_version_nonneg v : 0 <= v -> stored_version v = v.
Proof. intros Hv. unfold stored_version. by rewrite (proj2 (Z.ltb_ge _ _)) by lia. Qed.
Lemma stored_version_range v : in_i32 v -> 0 <= stored_version v < 2 ^ 31.
Proof. unfold in_i32, stored_version. intros Hv. destruct (Z.ltb_spec v 0); [|lia]. pose proof (Z.mod_pos_bound v 128). lia. Qed.
Lemma stored_version_twice v : stored_version (stored_version v) = stored_version v.
Proof.
  apply stored_version_nonneg. unfold stored_version. destruct (Z.ltb_spec v 0); [|done]. apply Z.mod_pos_bound. lia.
Qed.
Lemma WriteVarInt_stored v : WriteVarInt (stored_version v) = WriteVarInt v.
Proof.
  unfold stored_version. destruct (Z.ltb_spec v 0) as [Hv|]; [|done]. pose proof (Z.mod_pos_bound v 128 ltac:(lia)).
  unfold WriteVarInt. cbn [varint_tmp]. rewrite !(proj2 (Z.leb_le _ _)) by lia. do 4 f_equal. change 127 with (Z.ones 7).
  rewrite !Z.land_ones by lia. apply Z.mod_mod. lia.
Qed.

(** ** The mask, read back *)

Lemma mask_byte (f : nat -> bool) :
  let ch := foldl (fun ch i => if f i then Z.lor ch (Z.shiftl 1 (Z.of_nat i)) else ch) 0 (seq 0 8) in
  mask_bits ch = f <$> seq 0 8 /\ 0 <= ch < 256 /\ (ch =? 0) = negb (existsb f (seq 0 8)).
Proof.
  cbn [seq foldl existsb fmap list_fmap]. destruct (f 0%nat), (f 1%nat), (f 2%nat), (f 3%nat), (f 4%nat), (f 5%nat), (f 6%nat), (f 7%nat);
    split_and!; (reflexivity || discriminate).
Qed.

Lemma mask_used_past vout b : (length vout <= 2 + b * 8)%nat -> mask_used vout b = false.
Proof.
  intros Hb. apply not_true_iff_false. intros (i & Hi & Hu)%existsb_exists. unfold unspent_bit in Hu.
  rewrite lookup_ge_None_2 in Hu by lia. done.
Qed.

(** The bytes of the mask up to the last one used, and how many are used. *)
Fixpoint used_bytes (vout : list CTxOut) (n : nat) : nat :=
  match n with O => 0%nat | S n' => (used_bytes vout n' + if mask_used vout n' then 1 else 0)%nat end.
Definition mask_of (vout : list CTxOut) (n k : nat) : Prop :=
  (forall b, (n <= b)%nat -> mask_used vout b = false) /\ k = used_bytes vout n /\ (n = 0%nat \/ mask_used vout (pred n) = true).

Lemma used_bytes_gap vout l b : (l <= b)%nat -> (forall b', (l <= b' < b)%nat -> mask_used vout b' = false) -> used_bytes vout b = used_bytes vout l.
Proof.
  intros Hl Hu. induction b as [|b IH]; [by replace l with 0%nat by lia|]. destruct (decide (l = S b)) as [->|]; [done|].
  cbn [used_bytes]. rewrite (Hu b) by lia. rewrite IH; [lia|lia|]. intros b' Hb'. apply Hu. lia.
Qed.

Lemma mask_loop_spec fuel vout b l : (length vout <= fuel + (2 + b * 8))%nat -> (l <= b)%nat ->
  (forall b', (l <= b' < b)%nat -> mask_used vout b' = false) -> (l = 0%nat \/ mask_used vout (pred l) = true) ->
  let r := mask_loop fuel vout b l (used_bytes vout l) in mask_of vout r.1 r.2.
Proof.
  revert b l. induction fuel as [|fuel IH]; intros b l Hf Hl Hu Hlast r; subst r; cbn [mask_loop].
  { split_and!; [|done|done]. cbn [fst]. intros b' Hb'. destruct (decide (b' < b)%nat); [apply Hu; lia|apply mask_used_past; lia]. }
  destruct (Nat.ltb_spec (2 + b * 8) (length vout)) as [Hlt|Hge].
  - destruct (mask_used vout b) eqn:E.
    + specialize (IH (S b) (S b)). cbn [used_bytes] in IH. rewrite E, (used_bytes_gap vout l b Hl Hu), Nat.add_1_r in IH.
      apply IH; [lia|lia|lia|by right].
    + apply IH; [lia|lia| |done]. intros b' Hb'. destruct (decide (b' = b)) as [->|]; [done|]. apply Hu. lia.
  - split_and!; [|done|done]. cbn [fst]. intros b' Hb'. destruct (decide (b' < b)%nat); [apply Hu; lia|apply mask_used_past; lia].
Qed.

Lemma CalcMaskSize_spec vout : mask_of vout (CalcMaskSize vout).1 (CalcMaskSize vout).2.
Proof. apply (mask_loop_spec (length vout) vout 0 0); [lia|lia|lia|by left]. Qed.

Lemma used_bytes_bound vout n : (used_bytes vout n <= n)%nat.
Proof. induction n as [|n IH]; cbn [used_bytes]; [lia|]. destruct (mask_used vout n); lia. Qed.
Lemma mask_of_bound vout n k : mask_of vout n k -> (8 * k <= length vout + 8)%nat.
Proof.
  intros (_ & -> & [->|Hlast]); [cbn; lia|]. pose proof (used_bytes_bound vout n).
  destruct (decide (length vout <= 2 + pred n * 8)%nat) as [Hp|]; [by rewrite mask_used_past in Hlast|]. destruct n; cbn in *; lia.
Qed.

(** The bytes of the mask hold the outputs from the third on. *)
Definition mask_bytes (vout : list CTxOut) (n : nat) : list Z := chAvail vout <$> seq 0 n.

Lemma chAvail_spec vout b : mask_bits (chAvail vout b) = unspent_bit vout <$> seq (2 + b * 8) 8 /\ 0 <= chAvail vout b < 256 /\
  (chAvail vout b =? 0) = negb (mask_used vout b).
Proof.
  destruct (mask_byte (fun i => unspent_bit vout (2 + b * 8 + i))) as (H1 & H2 & H3). split_and!; [|apply H2|apply H2|exact H3].
  unfold chAvail. rewrite H1. cbn [seq fmap list_fmap]. repeat (f_equal; try lia).
Qed.

Lemma mask_bits_bytes vout n : mask_bytes vout n ≫= mask_bits = unspent_bit vout <$> seq 2 (8 * n).
Proof.
  unfold mask_bytes. induction n as [|n IH]; [done|]. rewrite seq_S, fmap_app, bind_app, IH. cbn [fmap list_fmap Nat.add].
  rewrite bind_singleton. destruct (chAvail_spec vout n) as (-> & _). rewrite <- fmap_app. f_equal.
  replace (8 * S n)%nat with (8 * n + 8)%nat by lia. rewrite seq_app. f_equal. f_equal. lia.
Qed.

(** How many of the bytes are not zero. *)
Definition nonzero (chs : list Z) : nat := length (filter (fun ch => ch <> 0) chs).

Lemma nonzero_bytes vout n : nonzero (mask_bytes vout n) = used_bytes vout n.
Proof.
  unfold mask_bytes, nonzero. induction n as [|n IH]; [done|]. rewrite seq_S, fmap_app, filter_app, length_app, IH. cbn [used_bytes fmap list_fmap Nat.add].
  destruct (chAvail_spec vout n) as (_ & _ & Hz). rewrite filter_cons, filter_nil. destruct (mask_used vout n); cbn [negb] in Hz.
  - apply Z.eqb_neq in Hz. by rewrite decide_True.
  - apply Z.eqb_eq in Hz. by rewrite decide_False by (intros Hn; by apply Hn).
Qed.

Lemma read_mask_app chs fuel rest : Forall (fun ch => 0 <= ch < 256) chs -> (length chs < fuel)%nat -> (chs = [] \/ last chs <> Some 0) ->
  read_mask_loop fuel (Z.of_nat (nonzero chs)) ((u8 <$> chs) ++ rest) = (Ok (chs ≫= mask_bits), rest).
Proof.
  intros Hr. revert fuel. induction Hr as [|ch chs Hch Hr IH]; intros fuel Hf Hlast; [by destruct fuel|].
  destruct fuel as [|fuel]; [cbn in Hf; lia|]. cbn [length] in Hf.
  assert (chs = [] \/ last chs <> Some 0) as Hl by (destruct Hlast as [|Hl]; [done|]; rewrite last_cons in Hl; destruct (last chs) eqn:E; [right; congruence|left; by apply last_None]).
  assert (0 < Z.of_nat (nonzero (ch :: chs)) /\ (if ch =? 0 then Z.of_nat (nonzero (ch :: chs)) else Z.of_nat (nonzero (ch :: chs)) - 1) = Z.of_nat (nonzero chs))
    as [Hpos Hn].
  { unfold nonzero. rewrite filter_cons. destruct (Z.eqb_spec ch 0) as [->|Hne].
    - rewrite decide_False by (intros Hn; by apply Hn). split; [|done]. destruct Hl as [->|Hl]; [by destruct Hlast|].
      destruct (last chs) as [x|] eqn:Ex; [|apply last_None in Ex; subst; by destruct Hlast as [|Hx]; [|destruct Hx]].
      apply last_Some_elem_of in Ex. assert (x ∈ filter (fun ch => ch <> 0) chs) as Hin by (apply list_elem_of_filter; split; [congruence|done]).
      destruct (filter (fun ch => ch <> 0) chs); [by apply elem_of_nil in Hin|cbn; lia].
    - rewrite decide_True by done. cbn [length]. lia. }
  cbn [read_mask_loop fmap list_fmap app]. rewrite (proj2 (Z.leb_gt _ _)) by lia.
  rewrite (rbind_Ok _ _ _ ch ((u8 <$> chs) ++ rest)).
  2: { apply (ser_readdata_app 1 1 ch); [done|cbn; lia]. }
  rewrite Hn. rewrite (rbind_Ok _ _ _ (chs ≫= mask_bits) rest) by (apply IH; [lia|done]). by rewrite bind_cons.
Qed.

(** ** The outputs, read back *)

Lemma unspent_bit_at vout k : unspent_bit vout k = bool_decide (is_Some (unspent_at vout k)).
Proof.
  unfold unspent_bit, unspent_at. destruct (vout !! k) as [o|]; [|done]. cbn. by destruct (txout_IsNull o).
Qed.

Lemma unspent_outputs vout n : (forall i, (n <= i)%nat -> unspent_at vout i = None) ->
  filter (fun o => txout_IsNull o = false) vout = omap (unspent_at vout) (seq 0 n).
Proof.
  revert n. induction vout as [|o vout IH]; intros n Hn.
  { generalize 0%nat. clear. induction n as [|n IH]; intros k; [done|]. cbn [seq omap list_omap]. apply IH. }
  destruct n as [|n].
  - rewrite filter_cons, decide_False.
    + rewrite (IH 0%nat); [done|]. intros i _. apply (Hn (S i)). lia.
    + specialize (Hn 0%nat ltac:(lia)). unfold unspent_at in Hn. cbn in Hn. by destruct (txout_IsNull o).
  - cbn [seq omap list_omap]. rewrite <- fmap_S_seq, filter_cons.
    assert (omap (unspent_at (o :: vout)) (S <$> seq 0 n) = omap (unspent_at vout) (seq 0 n)) as ->.
    { generalize (seq 0 n). clear. induction l as [|i l IH]; [done|]. cbn [fmap list_fmap omap list_omap].
      change (unspent_at (o :: vout) (S i)) with (unspent_at vout i). destruct (unspent_at vout i); [f_equal|]; exact IH. }
    rewrite <- IH by (intros i Hi; apply (Hn (S i)); lia). unfold unspent_at. cbn. by destruct (txout_IsNull o).
Qed.

Section Roundtrip.
Context `{PubKeyLaws}.

Definition output_ok (o : CTxOut) : Prop := MoneyRange (nValue o) = true /\ len (scriptPubKey o) <= MAX_SCRIPT_SIZE.

Lemma serialize_outs_unspent vout : serialize_outs vout = serialize_outs (filter (fun o => txout_IsNull o = false) vout).
Proof.
  induction vout as [|o vout IH]; [done|]. rewrite filter_cons. cbn [serialize_outs]. destruct (txout_IsNull o) eqn:E; [done|].
  rewrite decide_True by done. cbn [serialize_outs]. rewrite E. by rewrite IH.
Qed.

Lemma read_outs_app (slots : list (option CTxOut)) : Forall (fun o => output_ok o /\ txout_IsNull o = false) (omap id slots) ->
  exists bs, serialize_outs (omap id slots) = Ok bs /\
    forall rest, read_outs ((fun o => bool_decide (is_Some o)) <$> slots) (bs ++ rest) = (Ok (default txout_null <$> slots), rest).
Proof.
  induction slots as [|[o|] slots IH]; intros Hok.
  - by exists [].
  - apply Forall_cons in Hok as [[[Hv Hl] Hn] Hok]. destruct (IH Hok) as (bs & Es & Hr).
    destruct (txout_roundtrip o txout_null [] Hv Hl) as (b & Eb & _). exists (b ++ bs). split.
    { change (omap id (Some o :: slots)) with (o :: omap id slots). cbn [serialize_outs]. rewrite Hn, Eb. cbn [mbind result_bind]. by rewrite Es. }
    intros rest. rewrite <- app_assoc. cbn [fmap list_fmap read_outs]. rewrite bool_decide_eq_true_2 by by eexists.
    destruct (txout_roundtrip o txout_null (bs ++ rest) Hv Hl) as (b' & Eb' & Hb). rewrite Eb in Eb'. injection Eb' as <-.
    rewrite (rbind_Ok _ _ _ o (bs ++ rest) Hb). by rewrite (rbind_Ok _ _ _ _ rest (Hr rest)).
  - destruct (IH Hok) as (bs & Es & Hr). exists bs. split; [exact Es|]. intros rest. cbn [fmap list_fmap read_outs].
    rewrite bool_decide_eq_false_2 by by intros []. rewrite (rbind_Ok _ _ _ txout_null (bs ++ rest)) by done.
    by rewrite (rbind_Ok _ _ _ _ rest (Hr rest)).
Qed.

(** The header code, taken apart. *)
Lemma code_parts k (cb f g : bool) : 0 <= k < 2 ^ 28 ->
  let code := u32 (8 * k + (if cb then 1 else 0) + (if f then 2 else 0) + (if g then 4 else 0)) in
  in_u32 code /\ code / 8 = k /\ negb (Z.land code 1 =? 0) = cb /\ negb (Z.land code 2 =? 0) = f /\ negb (Z.land code 4 =? 0) = g /\
  negb (Z.land code 6 =? 0) = f || g.
Proof.
  intros Hk code. set (r := (if cb then 1 else 0) + (if f then 2 else 0) + (if g then 4 else 0)).
  assert (0 <= r < 8) as Hr by (unfold r; destruct cb, f, g; lia).
  assert (code = 8 * k + r) as -> by (unfold code, r; rewrite u32_id by (unfold in_u32; destruct cb, f, g; lia); lia).
  assert (forall x, 0 <= x < 8 -> Z.land (8 * k + r) x = Z.land r x) as Hland.
  { intros x Hx. assert (Z.land 7 x = x) as <- by (rewrite Z.land_comm; change 7 with (Z.ones 3); rewrite Z.land_ones by lia; apply Z.mod_small; lia).
    rewrite !Z.land_assoc. change 7 with (Z.ones 3). rewrite !Z.land_ones by lia. f_equal. change (2 ^ 3) with 8.
    rewrite Z.add_comm, Z.mul_comm, Z.mod_add by lia. done. }
  split_and!.
  - clearbody r. unfold in_u32. lia.
  - rewrite Z.add_comm, Z.mul_comm, Z.div_add by lia. rewrite Z.div_small by lia. lia.
  - rewrite Hland by lia. unfold r. by destruct cb, f, g.
  - rewrite Hland by lia. unfold r. by destruct cb, f, g.
  - rewrite Hland by lia. unfold r. by destruct cb, f, g.
  - rewrite Hland by lia. unfold r. by destruct cb, f, g.
Qed.

(** Coins that can be stored: tidy, with something unspent, money and scripts
    in range. *)
Definition can_store (c : CCoins) : Prop :=
  canonical (coins_vout c) /\ IsPruned c = false /\ Forall (fun o => txout_IsNull o = false -> output_ok o) (coins_vout c) /\
  in_i32 (coins_nVersion c) /\ 0 <= coins_nHeight c < 2 ^ 31 /\ Z.of_nat (length (coins_vout c)) < 2 ^ 30.

Lemma slots_beyond vout n k : mask_of vout n k -> forall i, (2 + 8 * n <= i)%nat -> unspent_at vout i = None.
Proof.
  intros (Hu & _) i Hi. destruct (unspent_at vout i) eqn:E; [|done]. specialize (Hu ((i - 2) / 8)%nat).
  assert ((i - 2) / 8 * 8 <= i - 2 < (i - 2) / 8 * 8 + 8)%nat as Hd by (pose proof (Nat.div_mod_eq (i - 2) 8); pose proof (Nat.mod_upper_bound (i - 2) 8); lia).
  exfalso. rewrite <- not_true_iff_false in Hu. apply Hu; [lia|]. apply existsb_exists. exists ((i - 2) - (i - 2) / 8 * 8)%nat. split; [apply in_seq; lia|].
  rewrite unspent_bit_at. apply bool_decide_eq_true. replace (2 + (i - 2) / 8 * 8 + _)%nat with i by lia. by rewrite E.
Qed.

Lemma nothing_left vout n k : mask_of vout n k -> unspent_bit vout 0 = false -> unspent_bit vout 1 = false -> n = 0%nat -> forall i, unspent_at vout i = None.
Proof.
  intros Hm E0 E1 -> i. rewrite unspent_bit_at in E0, E1. apply bool_decide_eq_false in E0, E1. destruct i as [|[|i]].
  - by apply eq_None_not_Some.
  - by apply eq_None_not_Some.
  - apply (slots_beyond _ _ _ Hm). lia.
Qed.

(** The slots of the outputs that the mask covers. *)
Lemma all_slots vout n : [unspent_bit vout 0; unspent_bit vout 1] ++ (mask_bytes vout n ≫= mask_bits) =
  (fun o => bool_decide (is_Some o)) <$> (unspent_at vout <$> seq 0 (2 + 8 * n)).
Proof.
  rewrite mask_bits_bytes. change (seq 0 (2 + 8 * n)) with (0%nat :: 1%nat :: seq 2 (8 * n)). rewrite !fmap_cons, !unspent_bit_at. cbn [app]. do 2 f_equal.
  rewrite <- list_fmap_compose. apply list_fmap_ext. intros i k _. apply unspent_bit_at.
Qed.

Lemma slots_unspent vout n i : (forall i, (n <= i)%nat -> unspent_at vout i = None) ->
  unspent_at (default txout_null <$> (unspent_at vout <$> seq 0 n)) i = unspent_at vout i.
Proof.
  intros Hn. unfold unspent_at at 1. rewrite !list_lookup_fmap. destruct (decide (i < n)%nat) as [Hi|Hi].
  - rewrite lookup_seq_lt by done. cbn. destruct (unspent_at vout i) as [o|] eqn:E; [|done]. cbn.
    unfold unspent_at in E. destruct (vout !! i) as [x|]; [|done]. cbn in E. destruct (txout_IsNull x) eqn:Ex; [done|]. injection E as <-. by rewrite Ex.
  - rewrite lookup_seq_ge by lia. cbn. by rewrite Hn by lia.
Qed.

Lemma omap_slots {A B} (f : A -> option B) (l : list A) : omap id (f <$> l) = omap f l.
Proof. induction l as [|x l IH]; [done|]. cbn [fmap list_fmap omap list_omap id]. destruct (f x); [f_equal|]; exact IH. Qed.

(** The mask of coins with something unspent, and how it is read. *)
Lemma mask_nonempty c n k : IsPruned c = false -> mask_of (coins_vout c) n k ->
  unspent_bit (coins_vout c) 0 || unspent_bit (coins_vout c) 1 || negb (k =? 0)%nat = true.
Proof.
  intros Hp Hm. destruct (unspent_bit (coins_vout c) 0) eqn:E0; [done|]. destruct (unspent_bit (coins_vout c) 1) eqn:E1; [done|]. cbn [orb].
  destruct (Nat.eqb_spec k 0) as [->|]; [|done]. exfalso. rewrite <- not_true_iff_false in Hp. apply Hp, IsPruned_unspent_at.
  eapply nothing_left; [exact Hm|done|done|]. destruct Hm as (_ & Hk & [->|Hu]); [done|]. destruct n as [|n]; [done|]. cbn [used_bytes pred] in Hk, Hu.
  rewrite Hu in Hk. lia.
Qed.

Lemma read_mask_bytes vout n k rest : mask_of vout n k ->
  read_mask (Z.of_nat k) ((u8 <$> mask_bytes vout n) ++ rest) = (Ok (mask_bytes vout n ≫= mask_bits), rest).
Proof.
  intros (_ & -> & Hlast). unfold read_mask. rewrite <- nonzero_bytes. apply read_mask_app.
  - unfold mask_bytes. apply Forall_fmap, Forall_forall. intros b _. apply chAvail_spec.
  - rewrite length_app, length_fmap. lia.
  - destruct Hlast as [->|Hu]; [by left|]. destruct n as [|n]; [by left|right]. unfold mask_bytes. rewrite seq_S, fmap_app. change (chAvail vout <$> [(0 + n)%nat]) with [chAvail vout n]. rewrite last_snoc. cbn [pred] in Hu.
    destruct (chAvail_spec vout n) as (_ & _ & Hz). rewrite Hu in Hz. apply Z.eqb_neq in Hz. congruence.
Qed.

Lemma varint_i32 n rest : 0 <= n < 2 ^ 31 -> ReadVarInt i32 (WriteVarInt n ++ rest) = (Ok n, rest).
Proof. intros Hn. apply (varint_roundtrip i32 (2 ^ 31)); try lia. intros z Hz. apply i32_id. unfold in_i32. lia. Qed.
Lemma varint_u32 n rest : in_u32 n -> ReadVarInt u32 (WriteVarInt n ++ rest) = (Ok n, rest).
Proof. intros Hn. unfold in_u32 in Hn. apply (varint_roundtrip u32 (2 ^ 32)); try lia. intros z Hz. by apply u32_id. Qed.

Lemma varint_version v rest : in_i32 v -> ReadVarInt i32 (WriteVarInt v ++ rest) = (Ok (stored_version v), rest).
Proof. intros Hv. rewrite <- WriteVarInt_stored. by apply varint_i32, stored_version_range. Qed.

Lemma coins_roundtrip c rest : can_store c -> exists bs, Serialize_CCoins c = Ok bs /\ Unserialize_CCoins (bs ++ rest) = (Ok (coins_stored c), rest).
Proof.
  intros (Hc & Hp & Ho & Hv & Hh & Hl). unfold Serialize_CCoins. pose proof (CalcMaskSize_spec (coins_vout c)) as Hm.
  destruct (CalcMaskSize (coins_vout c)) as [n k]. cbn [fst snd] in Hm. rewrite (mask_nonempty c n k Hp Hm). cbn [negb].
  pose proof (slots_beyond _ _ _ Hm) as Hbeyond. set (slots := unspent_at (coins_vout c) <$> seq 0 (2 + 8 * n)).
  destruct (read_outs_app slots) as (outs & Eo & Hr).
  { unfold slots. rewrite omap_slots, <- unspent_outputs by done. apply Forall_forall. intros o [Hn Hin]%list_elem_of_filter.
    rewrite Forall_forall in Ho. split; [by apply Ho|done]. }
  rewrite serialize_outs_unspent, (unspent_outputs _ (2 + 8 * n)), <- omap_slots by done. fold slots. rewrite Eo. cbn [mbind result_bind].
  eexists. split; [reflexivity|]. unfold Unserialize_CCoins. rewrite <- !app_assoc.
  rewrite (rbind_Ok _ _ _ _ _ (varint_version _ _ Hv)). set (f := unspent_bit (coins_vout c) 0). set (g := unspent_bit (coins_vout c) 1).
  set (kk := Z.of_nat k - (if f || g then 0 else 1)). pose proof (mask_of_bound _ _ _ Hm) as Hb.
  assert (0 <= kk < 2 ^ 28) as Hkk.
  { pose proof (mask_nonempty c n k Hp Hm) as Hne. fold f g in Hne. unfold kk. destruct (f || g); [lia|]. cbn [orb] in Hne. destruct (Nat.eqb_spec k 0); [done|lia]. }
  unfold nCode. fold kk. rewrite (u32_id kk) by (unfold in_u32; lia).
  destruct (code_parts kk (fCoinBase c) f g Hkk) as (Hcode & Ediv & E1 & E2 & E4 & E6). cbv zeta in *.
  rewrite (rbind_Ok _ _ _ _ _ (varint_u32 _ _ Hcode)). rewrite Ediv, E1, E2, E4, E6.
  assert (u32 (kk + (if f || g then 0 else 1)) = Z.of_nat k) as -> by (rewrite u32_id; unfold kk, in_u32; destruct (f || g); lia).
  replace ((fun b => u8 (chAvail (coins_vout c) b)) <$> seq 0 n) with (u8 <$> mask_bytes (coins_vout c) n) by (unfold mask_bytes; by rewrite <- list_fmap_compose).
  rewrite (rbind_Ok _ _ _ _ _ (read_mask_bytes _ _ _ _ Hm)). unfold f, g. rewrite all_slots. fold slots.
  rewrite (rbind_Ok _ _ _ _ _ (Hr _)), (rbind_Ok _ _ _ _ _ (varint_i32 _ _ Hh)). unfold rret, Cleanup, with_vout. cbn [coins_vout fCoinBase coins_nHeight coins_nVersion].
  assert (cleanup_vout (default txout_null <$> slots) = coins_vout c) as ->; [|done]. apply canonical_ext; [apply canonical_cleanup|done|].
  - unfold slots. apply Forall_fmap, Forall_fmap, Forall_forall. intros i _. cbn. unfold unspent_at. destruct (coins_vout c !! i) as [x|]; [|done]. cbn.
    destruct (txout_IsNull x) eqn:Ex; [done|]. cbn. by rewrite Ex.
  - intros i. rewrite unspent_at_cleanup. by apply slots_unspent.
Qed.

(** ** Undo records, read back *)

(** The record of an input: a height only with the metadata of coins whose last output was spent. *)
Definition can_store_undo (u : CTxInUndo) : Prop :=
  output_ok (txout u) /\ 0 <= undo_nHeight u < 2 ^ 31 /\ in_i32 (undo_nVersion u) /\ (undo_nHeight u = 0 -> undo_nVersion u = 0).

Lemma undo_roundtrip u : can_store_undo u ->
  exists bs, Serialize_CTxInUndo u = Ok bs /\ forall rest, Unserialize_CTxInUndo (bs ++ rest) = (Ok (undo_stored u), rest).
Proof.
  intros ([Hm Hl] & Hh & Hv & Hz). destruct u as [o cb h v]. cbn [txout undo_nHeight undo_nVersion] in *.
  destruct (txout_roundtrip o txout_null [] Hm Hl) as (b & Eb & _). unfold Serialize_CTxInUndo. cbn [txout undo_nHeight undo_nVersion undo_fCoinBase]. rewrite Eb.
  cbn [mbind result_bind]. eexists. split; [reflexivity|]. intros rest. destruct (txout_roundtrip o txout_null rest Hm Hl) as (b' & Eb' & Hb). rewrite Eb in Eb'. injection Eb' as <-.
  unfold Unserialize_CTxInUndo. set (code := h * 2 + (if cb then 1 else 0)). assert (in_u32 code /\ code / 2 = h /\ negb (Z.land code 1 =? 0) = cb) as (Hc & Ed & E1).
  { assert (0 <= (if cb then 1 else 0) < 2) as Hcb by (destruct cb; lia). unfold code, in_u32. split_and!; [lia|lia| |].
    - rewrite Z.add_comm, Z.div_add, Z.div_small by lia. lia.
    - change (Z.land (h * 2 + (if cb then 1 else 0)) 1) with (Z.land (h * 2 + (if cb then 1 else 0)) (Z.ones 1)).
      rewrite Z.land_ones by lia. change (2 ^ 1) with 2. rewrite Z.add_comm, Z.mod_add by lia. by destruct cb. }
  rewrite (u32_id code) by done. rewrite <- !app_assoc, (rbind_Ok _ _ _ _ _ (varint_u32 _ _ Hc)), Ed, E1. destruct (Z.ltb_spec 0 h).
  - rewrite (rbind_Ok _ _ _ _ _ (varint_version _ _ Hv)), (rbind_Ok _ _ _ _ _ Hb). done.
  - cbn [app]. rewrite (rbind_Ok _ _ _ 0 (b ++ rest)) by done. rewrite (rbind_Ok _ _ _ _ _ Hb). unfold rret, undo_stored. cbn [txout undo_fCoinBase undo_nHeight undo_nVersion].
    by rewrite (Hz ltac:(lia)).
Qed.

Lemma vector_roundtrip {A} (P : A -> Prop) (g : A -> A) (f : A -> result bytes) (r : Reader A) l :
  (forall a, P a -> exists bs, f a = Ok bs /\ forall rest, r (bs ++ rest) = (Ok (g a), rest)) -> Forall P l -> Z.of_nat (length l) <= MAX_SIZE ->
  exists bs, serialize_vector f l = Ok bs /\ forall rest, unserialize_vector r (bs ++ rest) = (Ok (g <$> l), rest).
Proof.
  intros Hf Hl Hs. assert (exists bs, serialize_each f l = Ok bs /\ forall rest, unserialize_n r (length l) (bs ++ rest) = (Ok (g <$> l), rest)) as (bs & Eb & Hr).
  { clear Hs. induction Hl as [|a l Ha Hl (bs & Eb & Hr)]; [by exists []|]. destruct (Hf a Ha) as (b & Ea & Hra). exists (b ++ bs).
    cbn [serialize_each length unserialize_n]. rewrite Ea, Eb. cbn [mbind result_bind]. split; [done|]. intros rest.
    rewrite <- app_assoc, (rbind_Ok _ _ _ _ _ (Hra _)), (rbind_Ok _ _ _ _ _ (Hr _)). done. }
  unfold serialize_vector. rewrite Eb. cbn [mbind result_bind]. eexists. split; [reflexivity|]. intros rest. unfold unserialize_vector. rewrite <- app_assoc.
  rewrite (rbind_Ok _ _ _ (Z.of_nat (length l)) (bs ++ rest)) by (apply ReadCompactSize_app; lia). by rewrite u32_size, Nat2Z.id by lia.
Qed.

Definition can_store_tx_undo (u : CTxUndo) : Prop := Forall can_store_undo (vprevout u) /\ Z.of_nat (length (vprevout u)) <= MAX_SIZE.
Definition can_store_block_undo (u : CBlockUndo) : Prop := Forall can_store_tx_undo (vtxundo u) /\ Z.of_nat (length (vtxundo u)) <= MAX_SIZE.

Lemma tx_undo_roundtrip u : can_store_tx_undo u ->
  exists bs, Serialize_CTxUndo u = Ok bs /\ forall rest, Unserialize_CTxUndo (bs ++ rest) = (Ok (tx_undo_stored u), rest).
Proof.
  intros [Hu Hl]. destruct (vector_roundtrip can_store_undo undo_stored Serialize_CTxInUndo Unserialize_CTxInUndo (vprevout u) undo_roundtrip Hu Hl) as (bs & Eb & Hr).
  exists bs. split; [exact Eb|]. intros rest. unfold Unserialize_CTxUndo. by rewrite (rbind_Ok _ _ _ _ _ (Hr rest)).
Qed.

Lemma block_undo_roundtrip u : can_store_block_undo u ->
  exists bs, Serialize_CBlockUndo u = Ok bs /\ forall rest, Unserialize_CBlockUndo (bs ++ rest) = (Ok (block_undo_stored u), rest).
Proof.
  intros [Hu Hl]. destruct (vector_roundtrip can_store_tx_undo tx_undo_stored Serialize_CTxUndo Unserialize_CTxUndo (vtxundo u) tx_undo_roundtrip Hu Hl) as (bs & Eb & Hr).
  exists bs. split; [exact Eb|]. intros rest. unfold Unserialize_CBlockUndo. by rewrite (rbind_Ok _ _ _ _ _ (Hr rest)).
Qed.

(** What was read is written in the same bytes. *)
Lemma undo_stored_bytes u : Serialize_CTxInUndo (undo_stored u) = Serialize_CTxInUndo u.
Proof. unfold Serialize_CTxInUndo, undo_stored. cbn [txout undo_fCoinBase undo_nHeight undo_nVersion]. by rewrite WriteVarInt_stored. Qed.
Lemma serialize_vector_stored {A} (f : A -> result bytes) (g : A -> A) l : (forall a, f (g a) = f a) -> serialize_vector f (g <$> l) = serialize_vector f l.
Proof.
  intros Hg. unfold serialize_vector. rewrite length_fmap. assert (serialize_each f (g <$> l) = serialize_each f l) as ->; [|done].
  induction l as [|a l IH]; [done|]. cbn [fmap list_fmap serialize_each]. by rewrite Hg, IH.
Qed.
Lemma block_undo_stored_bytes u : Serialize_CBlockUndo (block_undo_stored u) = Serialize_CBlockUndo u.
Proof. apply serialize_vector_stored. intros a. apply serialize_vector_stored, undo_stored_bytes. Qed.

(** what the node stores it reads back.  Coins with something unspent are
    written without an assertion failing, whatever their number of outputs and
    whichever are spent, and reading the bytes gives them back and stops after
    them, but for the version if it is negative: the code, the mask, its
    length, which is not written, and the compressed outputs fit together.  So
    do the undo records of a block. *)
Theorem coins_storage_roundtrip (c : CCoins) (u : CBlockUndo) (rest : bytes) : can_store c -> can_store_block_undo u ->
  (exists bs, Serialize_CCoins c = Ok bs /\ Unserialize_CCoins (bs ++ rest) = (Ok (coins_stored c), rest)) /\
  (exists bs, Serialize_CBlockUndo u = Ok bs /\ Unserialize_CBlockUndo (bs ++ rest) = (Ok (block_undo_stored u), rest)).
Proof.
  intros Hc Hu. split; [by apply coins_roundtrip|]. destruct (block_undo_roundtrip u Hu) as (bs & Eb & Hr). by exists bs.
Qed.

End Roundtrip.

(** ** Examples *)

Module StorageExample.
Import CompressorExample.

(** A coinbase whose outputs 4 and 16 are unspent. *)
Definition two_outputs : CCoins :=
  mkCoins true (replicate 4 txout_null ++ [mkTxOut 234925952 [x51]] ++ replicate 11 txout_null ++ [mkTxOut 110397 [x52]]) 120891 1.
Definition one_undo : CBlockUndo := mkBlockUndo [mkTxUndo [mkTxInUndo (mkTxOut 5 [x51]) true 7 1; CTxInUndo_of (mkTxOut 6 [])]].

Example two_outputs_code : CalcMaskSize (coins_vout two_outputs) = (2%nat, 2%nat) /\ nCode two_outputs false false 2 = 9 /\
  (chAvail (coins_vout two_outputs) <$> [0%nat; 1%nat]) = [4; 64].
Proof. split_and!; reflexivity. Qed.

Lemma coins_storage_roundtrip_witness :
  (exists bs, Serialize_CCoins two_outputs = Ok bs /\ Unserialize_CCoins (bs ++ [xff]) = (Ok two_outputs, [xff])) /\
  (exists bs, Serialize_CBlockUndo one_undo = Ok bs /\ Unserialize_CBlockUndo (bs ++ [xff]) = (Ok one_undo, [xff])).
Proof.
  assert (forall v s, MoneyRange v = true -> (length s <= 1)%nat -> output_ok (mkTxOut v s)) as Hok.
  { intros v s Hv Hs. split; [exact Hv|]. unfold len, MAX_SCRIPT_SIZE. cbn [scriptPubKey]. lia. }
  apply (coins_storage_roundtrip two_outputs one_undo [xff]).
  - split.
    { split; [repeat (apply Forall_cons; split; [intros E; (discriminate E || reflexivity)|]); apply Forall_nil; exact I|]. intros o E. injection E as <-. reflexivity. }
    split; [reflexivity|]. split; [|cbn [coins_nVersion coins_nHeight two_outputs coins_vout]; split; [unfold in_i32; lia|]; split; [lia|vm_compute; reflexivity]].
    repeat (apply Forall_cons; split; [intros E; (discriminate E || (apply Hok; [reflexivity|cbn; lia]))|]). apply Forall_nil. exact I.
  - split; [|vm_compute; discriminate]. apply Forall_cons. split; [|apply Forall_nil; exact I]. split; [|vm_compute; discriminate].
    apply Forall_cons. split; [|apply Forall_cons; split; [|apply Forall_nil; exact I]].
    + split; [apply Hok; [reflexivity|cbn; lia]|]. cbn [undo_nHeight undo_nVersion]. unfold in_i32. lia.
    + split; [apply Hok; [reflexivity|cbn; lia]|]. cbn [undo_nHeight undo_nVersion CTxInUndo_of]. unfold in_i32. lia.
Defined.

End StorageExample.
