(* ===== verification/CoinsCache.v ===== *)
(** * Coins views and their caches
      ([src/src/coins.h], [coins.cpp], [CCoinsViewDB] of [txdb.cpp])

    A coins view is anything with the virtual methods of [CCoinsView]; a cache
    is a view over a view, so that caches stack.  Code that uses a cache is a
    program over its three ways to reach coins, run on a cache here and related
    to plain finite maps by [coins_run]: which cache, with which flags, is not
    visible to it. *)

From S2P Require Import Prelude Serialize Script Transaction TxSerialize Compressor Coins CoinsSerialize.
Open Scope Z_scope.
Open Scope kubu_scope.

(** ** Views *)

(** The flags of an entry: it may differ from the parent's, the parent has none or a pruned one. *)
Record CCoinsCacheEntry := mkEntry { entry_coins : CCoins; DIRTY : bool; FRESH : bool }.
Notation CCoinsMap := (gmap Z CCoinsCacheEntry).

(** Reading may fill a cache, so that a view is returned by every method.
    The order in which a map of entries is visited is not specified; it is
    that of [map_to_list]. *)
Class CCoinsView (V : Type) := {
  GetCoins : V -> Z -> V * option CCoins;
  GetBestBlock : V -> V * Z;
  BatchWrite : V -> CCoinsMap -> Z -> result V
}.

(** The database: coins as they are written, by transaction.  A value that
    cannot be read counts as missing ([CDBWrapper::Read]). *)
Record CCoinsViewDB := mkCoinsDB { db_coins : gmap Z bytes; db_best : Z }.

Section Database.
Context `{PubKeyOps}.

Definition read_coins (value : bytes) : option CCoins := match Unserialize_CCoins value with (Ok coins, _) => Some coins | (Err _, _) => None end.
Definition db_GetCoins (db : CCoinsViewDB) (txid : Z) : option CCoins := db_coins db !! txid ≫= read_coins.
Definition db_write (coins : gmap Z bytes) (entry : Z * CCoinsCacheEntry) : result (gmap Z bytes) :=
  if DIRTY entry.2 then
    if IsPruned (entry_coins entry.2) then Ok (delete entry.1 coins)
    else value ← Serialize_CCoins (entry_coins entry.2); Ok (<[entry.1 := value]> coins)
  else Ok coins.
Fixpoint db_writes (coins : gmap Z bytes) (entries : list (Z * CCoinsCacheEntry)) : result (gmap Z bytes) :=
  match entries with
  | [] => Ok coins
  | it :: entries' => coins ← db_write coins it; db_writes coins entries'
  end.
Definition db_BatchWrite (db : CCoinsViewDB) (mapCoins : CCoinsMap) (hashBlock : Z) : result CCoinsViewDB :=
  coins ← db_writes (db_coins db) (map_to_list mapCoins);
  Ok (mkCoinsDB coins (if hashBlock =? 0 then db_best db else hashBlock)).

#[export] Instance CCoinsViewDB_view : CCoinsView CCoinsViewDB := {|
  GetCoins := fun db txid => (db, db_GetCoins db txid);
  GetBestBlock := fun db => (db, db_best db);
  BatchWrite := db_BatchWrite
|}.

End Database.

(** ** The cache *)

Record CCoinsViewCache (B : Type) := mkCache { base : B; hashBlock : Z; cacheCoins : CCoinsMap }.
Arguments mkCache {B}.
Arguments base {B}.
Arguments hashBlock {B}.
Arguments cacheCoins {B}.

Section Cache.
Context {B : Type} `{CCoinsView B}.

Definition CCoinsViewCache_of (b : B) : CCoinsViewCache B := mkCache b 0 ∅.
Definition with_entries (c : CCoinsViewCache B) (m : CCoinsMap) : CCoinsViewCache B := mkCache (base c) (hashBlock c) m.

Definition FetchCoins (c : CCoinsViewCache B) (txid : Z) : CCoinsViewCache B * option CCoinsCacheEntry :=
  match cacheCoins c !! txid with
  | Some e => (c, Some e)
  | None =>
      match GetCoins (base c) txid with
      | (b, None) => (mkCache b (hashBlock c) (cacheCoins c), None)
      | (b, Some tmp) =>
          let e := mkEntry tmp false (IsPruned tmp) in
          (mkCache b (hashBlock c) (<[txid := e]> (cacheCoins c)), Some e)
      end
  end.

Definition AccessCoins (c : CCoinsViewCache B) (txid : Z) : CCoinsViewCache B * option CCoins :=
  let '(c, r) := FetchCoins c txid in (c, entry_coins <$> r).
Definition cache_GetCoins := AccessCoins.
Definition HaveCoins (c : CCoinsViewCache B) (txid : Z) : CCoinsViewCache B * bool :=
  let '(c, r) := FetchCoins c txid in
  (c, match r with Some e => negb (bool_decide (coins_vout (entry_coins e) = [])) | None => false end).
Definition HaveCoinsInCache (c : CCoinsViewCache B) (txid : Z) : bool :=
  bool_decide (is_Some (cacheCoins c !! txid)).

(** The destructor of the modifier, after a change to the coins of an entry. *)
Definition modified (m : CCoinsMap) (txid : Z) (coins : CCoins) (fresh : bool) : CCoinsMap :=
  let coins := Cleanup coins in
  if fresh && IsPruned coins then delete txid m else <[txid := mkEntry coins true fresh]> m.

(** [ModifyCoins], the change [f] made through the modifier, and its
    destructor; the coins before the change are returned. *)
Definition ModifyCoins (c : CCoinsViewCache B) (txid : Z) (f : CCoins -> CCoins) : CCoinsViewCache B * CCoins :=
  let '(b, coins, fresh) :=
    match cacheCoins c !! txid with
    | Some e => (base c, entry_coins e, FRESH e)
    | None =>
        match GetCoins (base c) txid with
        | (b, None) => (b, coins_empty, true)
        | (b, Some coins) => (b, coins, IsPruned coins)
        end
    end in
  (mkCache b (hashBlock c) (modified (cacheCoins c) txid (f coins) fresh), coins).

Definition preexisting : string := "ModifyNewCoins should not find pre-existing coins on a non-coinbase unless they are pruned!".
Definition ModifyNewCoins (c : CCoinsViewCache B) (txid : Z) (coinbase : bool) (coins : CCoins) : result (CCoinsViewCache B) :=
  let e := default (mkEntry coins_empty false false) (cacheCoins c !! txid) in
  reject negb coinbase && negb (IsPruned (entry_coins e)) with preexisting;
  let fresh := if negb coinbase && negb (DIRTY e) then true else FRESH e in
  Ok (with_entries c (modified (cacheCoins c) txid coins fresh)).

Definition SetBestBlock (c : CCoinsViewCache B) (h : Z) : CCoinsViewCache B := mkCache (base c) h (cacheCoins c).
Definition cache_GetBestBlock (c : CCoinsViewCache B) : CCoinsViewCache B * Z :=
  if hashBlock c =? 0 then
    let '(b, h) := GetBestBlock (base c) in (mkCache b h (cacheCoins c), h)
  else (c, hashBlock c).

(** One entry of the child, written to the entries of the parent. *)
Definition misapplied : string := "FRESH flag misapplied to cache entry for base transaction with spendable outputs".
Definition write_entry (us : CCoinsMap) (entry : Z * CCoinsCacheEntry) : result CCoinsMap :=
  let '(txid, it) := entry in
  if DIRTY it then
    match us !! txid with
    | None =>
        if negb (FRESH it && IsPruned (entry_coins it)) then Ok (<[txid := mkEntry (entry_coins it) true (FRESH it)]> us) else Ok us
    | Some itUs =>
        reject FRESH it && negb (IsPruned (entry_coins itUs)) with misapplied;
        if FRESH itUs && IsPruned (entry_coins it) then Ok (delete txid us)
        else Ok (<[txid := mkEntry (entry_coins it) true (FRESH itUs)]> us)
    end
  else Ok us.
Fixpoint write_entries (us : CCoinsMap) (entries : list (Z * CCoinsCacheEntry)) : result CCoinsMap :=
  match entries with
  | [] => Ok us
  | it :: entries' => us ← write_entry us it; write_entries us entries'
  end.
Definition cache_BatchWrite (c : CCoinsViewCache B) (mapCoins : CCoinsMap) (hashBlockIn : Z) : result (CCoinsViewCache B) :=
  us ← write_entries (cacheCoins c) (map_to_list mapCoins);
  Ok (mkCache (base c) hashBlockIn us).

Definition Flush (c : CCoinsViewCache B) : result (CCoinsViewCache B) :=
  b ← BatchWrite (base c) (cacheCoins c) (hashBlock c);
  Ok (mkCache b (hashBlock c) ∅).

Definition Uncache (c : CCoinsViewCache B) (txid : Z) : CCoinsViewCache B :=
  match cacheCoins c !! txid with
  | Some e => if negb (DIRTY e) && negb (FRESH e) then with_entries c (delete txid (cacheCoins c)) else c
  | None => c
  end.

Definition GetCacheSize (c : CCoinsViewCache B) : nat := size (cacheCoins c).

End Cache.

#[export] Instance CCoinsViewCache_view {B} `{CCoinsView B} : CCoinsView (CCoinsViewCache B) := {|
  GetCoins := cache_GetCoins;
  GetBestBlock := cache_GetBestBlock;
  BatchWrite := cache_BatchWrite
|}.

(** ** Programs over a cache *)

Inductive coins_prog (A : Type) : Type :=
| Return (a : A)
| Reject (reason : string)
| Access (txid : Z) (k : option CCoins -> coins_prog A)
| Modify (txid : Z) (f : CCoins -> CCoins) (k : CCoins -> coins_prog A)
| NewCoins (txid : Z) (coinbase : bool) (coins : CCoins) (k : coins_prog A).
Arguments Return {A} a.
Arguments Reject {A} reason.
Arguments Access {A} txid k.
Arguments Modify {A} txid f k.
Arguments NewCoins {A} txid coinbase coins k.

#[export] Instance coins_prog_ret : MRet coins_prog := fun A a => Return a.
#[export] Instance coins_prog_bind : MBind coins_prog := fun A A' g =>
  fix bind p :=
    match p with
    | Return a => g a
    | Reject e => Reject e
    | Access txid k => Access txid (fun o => bind (k o))
    | Modify txid f k => Modify txid f (fun x => bind (k x))
    | NewCoins txid cb coins k => NewCoins txid cb coins (bind k)
    end.

Fixpoint run_cache {B} `{CCoinsView B} {A} (p : coins_prog A) (c : CCoinsViewCache B) : CCoinsViewCache B * result A :=
  match p with
  | Return a => (c, Ok a)
  | Reject e => (c, Err e)
  | Access txid k => let '(c, o) := AccessCoins c txid in run_cache (k o) c
  | Modify txid f k => let '(c, x) := ModifyCoins c txid f in run_cache (k x) c
  | NewCoins txid cb coins k =>
      match ModifyNewCoins c txid cb coins with
      | Ok c => run_cache k c
      | Err e => (c, Err e)
      end
  end.

(** ** What a view holds *)

(** No null output at the end. *)
Definition tidy (c : CCoins) : Prop := forall o, last (coins_vout c) = Some o -> txout_IsNull o = false.

(** The coins of a program run over a plain map.  Where nothing is unspent, the
    program may find no coins or coins whose outputs are all spent.  Creating
    coins over unspent ones, except for a coinbase, has no defined outcome. *)
Definition seen (o : option CCoins) : option CCoins := o ≫= unspent.
Definition set_coins (txid : Z) (c : CCoins) (m : utxos) : utxos := partial_alter (fun _ => unspent c) txid m.

Inductive coins_run {A : Type} : coins_prog A -> utxos -> option (utxos * result A) -> Prop :=
| run_return a m : coins_run (Return a) m (Some (m, Ok a))
| run_reject e m : coins_run (Reject e) m (Some (m, Err e))
| run_access txid k m o r :
    seen o = m !! txid -> (forall x, o = Some x -> tidy x) -> coins_run (k o) m r -> coins_run (Access txid k) m r
| run_modify txid f k m x r :
    unspent x = m !! txid -> tidy x -> coins_run (k x) (set_coins txid (Cleanup (f x)) m) r -> coins_run (Modify txid f k) m r
| run_new txid cb coins k m r :
    cb = true \/ m !! txid = None -> coins_run k (set_coins txid (Cleanup coins) m) r -> coins_run (NewCoins txid cb coins k) m r
| run_overwrite txid coins k m : m !! txid <> None -> coins_run (NewCoins txid false coins k) m None.

(** A program that never creates coins over unspent ones. *)
Definition safe {A} (p : coins_prog A) (m : utxos) : Prop := ~ coins_run p m None.

(** What a batch of entries makes of the coins it is written to, when writing
    keeps [kept] of them. *)
Definition written (kept : CCoins -> CCoins) (e : option CCoinsCacheEntry) (b : option CCoins) : option CCoins :=
  match e with
  | Some e => if DIRTY e then kept <$> unspent (entry_coins e) else b
  | None => b
  end.
Definition batch_ok (m : utxos) (batch : CCoinsMap) : Prop :=
  map_Forall (fun txid e => tidy (entry_coins e) /\ (FRESH e = true -> m !! txid = None)) batch.
(** The coins of a batch that are written. *)
Definition batch_taken (takes : CCoins -> Prop) (batch : CCoinsMap) : Prop :=
  map_Forall (fun _ e => DIRTY e = true -> IsPruned (entry_coins e) = false -> takes (entry_coins e)) batch.

(** Coins that were stored, perhaps: nothing is lost but a negative version. *)
Definition version_kept (v v' : Z) : Prop := v = v' \/ v = stored_version v'.
Definition same_coins (c c' : CCoins) : Prop := exists v, c = with_version c' v /\ version_kept v (coins_nVersion c').

(** The contract of a view: it stands for a map of unspent coins.  A view takes
    what it can write, and keeps of it what it reads back: everything if it is
    a cache, and all but a negative version if it is the database. *)
Class CCoinsViewLaws (V : Type) `{CCoinsView V} := {
  contents : V -> utxos;
  best_block : V -> Z;
  view_ok : V -> Prop;
  kept : CCoins -> CCoins;
  takes : CCoins -> Prop;
  kept_same x : same_coins (kept x) x;
  takes_can_store x : can_store x -> takes x;
  contents_tidy v : view_ok v -> map_Forall (fun _ c => tidy c /\ IsPruned c = false) (contents v);
  GetCoins_law v txid : view_ok v ->
    let '(v', o) := GetCoins v txid in
    view_ok v' /\ contents v' = contents v /\ best_block v' = best_block v /\
    seen o = contents v !! txid /\ (forall x, o = Some x -> tidy x);
  GetBestBlock_law v : view_ok v ->
    let '(v', h) := GetBestBlock v in
    view_ok v' /\ contents v' = contents v /\ best_block v' = best_block v /\ h = best_block v;
  BatchWrite_law v batch h : view_ok v -> batch_ok (contents v) batch -> batch_taken takes batch ->
    exists v', BatchWrite v batch h = Ok v' /\ view_ok v' /\
    (forall txid, contents v' !! txid = written kept (batch !! txid) (contents v !! txid)) /\ (h <> 0 -> best_block v' = h)
}.
Arguments kept V {_ _} x.
Arguments takes V {_ _} x.

(** What a cache holds: its entries over the coins of the base. *)
Definition overlay (e : option CCoinsCacheEntry) (b : option CCoins) : option CCoins :=
  match e with
  | Some e => unspent (entry_coins e)
  | None => b
  end.
Definition cache_contents {B} `{CCoinsViewLaws B} (c : CCoinsViewCache B) : utxos := merge overlay (cacheCoins c) (contents (base c)).
Definition cache_best_block {B} `{CCoinsViewLaws B} (c : CCoinsViewCache B) : Z :=
  if hashBlock c =? 0 then best_block (base c) else hashBlock c.

(** An entry against the coins of the base: it is fresh only where the base
    has nothing unspent, and differs from it only if it is dirty. *)
Definition entry_ok (e : CCoinsCacheEntry) (b : option CCoins) : Prop :=
  tidy (entry_coins e) /\ (FRESH e = true -> b = None) /\ (DIRTY e = false -> unspent (entry_coins e) = b).
Definition cache_ok {B} `{CCoinsViewLaws B} (c : CCoinsViewCache B) : Prop :=
  view_ok (base c) /\ map_Forall (fun txid e => entry_ok e (contents (base c) !! txid)) (cacheCoins c).

(** ** Lemmas *)

Lemma tidy_Cleanup c : tidy (Cleanup c).
Proof. intros o. apply cleanup_last. Qed.
Lemma tidy_empty : tidy coins_empty.
Proof. done. Qed.
Lemma seen_Some x : seen (Some x) = unspent x.
Proof. done. Qed.
Lemma unspent_unspent x y : unspent x = Some y -> unspent y = Some y.
Proof. intros [-> Hp]%unspent_Some. apply unspent_Some. done. Qed.
Lemma tidy_pruned c : tidy c -> IsPruned c = true -> coins_vout c = [].
Proof.
  intros Ht Hp. destruct (last (coins_vout c)) as [o|] eqn:E; [|by apply last_None in E]. specialize (Ht o E).
  unfold IsPruned in Hp. rewrite forallb_forall in Hp. rewrite last_lookup in E.
  rewrite Hp in Ht; [done|]. apply list_elem_of_In. by eapply list_elem_of_lookup_2.
Qed.

Lemma set_coins_lookup txid c m i : set_coins txid c m !! i = if decide (i = txid) then unspent c else m !! i.
Proof. unfold set_coins. destruct (decide (i = txid)) as [->|Hn]; [apply lookup_partial_alter_eq|by apply lookup_partial_alter_ne]. Qed.

Section CacheLemmas.
Context {B : Type} `{CCoinsViewLaws B}.
Implicit Types c : CCoinsViewCache B.

Lemma cache_contents_lookup c txid : cache_contents c !! txid = overlay (cacheCoins c !! txid) (contents (base c) !! txid).
Proof. unfold cache_contents. rewrite lookup_merge. unfold diag_None. by destruct (cacheCoins c !! txid), (contents (base c) !! txid). Qed.

(** Changing one entry, over a base with the same contents. *)
Lemma cache_change c c' txid (r : option CCoins) :
  cache_ok c -> view_ok (base c') -> contents (base c') = contents (base c) ->
  (forall i, i <> txid -> cacheCoins c' !! i = cacheCoins c !! i) ->
  (forall e, cacheCoins c' !! txid = Some e -> entry_ok e (contents (base c) !! txid)) ->
  overlay (cacheCoins c' !! txid) (contents (base c) !! txid) = r ->
  cache_ok c' /\ cache_contents c' = partial_alter (fun _ => r) txid (cache_contents c).
Proof.
  intros [Hb Hc] Hb' Eb Hsame Hnew <-. split.
  - split; [done|]. intros i e Hi. rewrite Eb. destruct (decide (i = txid)) as [->|Hn]; [by apply Hnew|].
    rewrite Hsame in Hi by done. by apply Hc.
  - apply map_eq. intros i. rewrite cache_contents_lookup, Eb. destruct (decide (i = txid)) as [->|Hn].
    + by rewrite lookup_partial_alter_eq.
    + by rewrite lookup_partial_alter_ne, cache_contents_lookup, Hsame.
Qed.

Lemma partial_alter_same (m : utxos) txid : partial_alter (fun _ => m !! txid) txid m = m.
Proof. apply map_eq. intros i. destruct (decide (i = txid)) as [->|Hn]; [by rewrite lookup_partial_alter_eq|by rewrite lookup_partial_alter_ne]. Qed.

Lemma FetchCoins_spec c txid : cache_ok c ->
  let '(c', r) := FetchCoins c txid in
  cache_ok c' /\ cache_contents c' = cache_contents c /\ cache_best_block c' = cache_best_block c /\
  seen (entry_coins <$> r) = cache_contents c !! txid /\ (forall e, r = Some e -> tidy (entry_coins e)).
Proof.
  intros Hok. pose proof Hok as [Hb Hc]. unfold FetchCoins. destruct (cacheCoins c !! txid) as [e|] eqn:E.
  { rewrite cache_contents_lookup, E. split_and!; [done..|]. intros e' [= <-]. apply (Hc txid e E). }
  pose proof (GetCoins_law (base c) txid Hb) as Hg. destruct (GetCoins (base c) txid) as [b [tmp|]]; destruct Hg as (Hb' & Eb & Ebb & Hs & Ht).
  - destruct (cache_change c (mkCache b (hashBlock c) (<[txid := mkEntry tmp false (IsPruned tmp)]> (cacheCoins c))) txid (cache_contents c !! txid)) as [Hok' Ec];
      [done|done|done|intros i Hi; by apply lookup_insert_ne| | |].
    + cbn. rewrite lookup_insert_eq. intros e [= <-]. split_and!; cbn; [by apply Ht| |done].
      intros Hp. rewrite <- Hs. cbn. by apply unspent_None.
    + cbn. rewrite lookup_insert_eq, cache_contents_lookup, E. done.
    + rewrite partial_alter_same in Ec. split_and!; [done|done| | |].
      * unfold cache_best_block. cbn. by rewrite Ebb.
      * rewrite cache_contents_lookup, E. done.
      * intros e [= <-]. by apply Ht.
  - destruct (cache_change c (mkCache b (hashBlock c) (cacheCoins c)) txid (cache_contents c !! txid)) as [Hok' Ec];
      [done|done|done|done|intros e; cbn; by rewrite E|cbn; by rewrite cache_contents_lookup|].
    rewrite partial_alter_same in Ec. split_and!; [done|done| | |done].
    + unfold cache_best_block. cbn. by rewrite Ebb.
    + rewrite cache_contents_lookup, E. done.
Qed.

Lemma modified_spec c b h txid coins fresh :
  cache_ok c -> view_ok b -> contents b = contents (base c) -> (fresh = true -> contents (base c) !! txid = None) ->
  let c' := mkCache b h (modified (cacheCoins c) txid coins fresh) in
  cache_ok c' /\ cache_contents c' = set_coins txid (Cleanup coins) (cache_contents c).
Proof.
  intros Hok Hb' Eb Hf c'. apply cache_change; try done; unfold c', modified; cbn [cacheCoins].
  - intros i Hi. destruct (fresh && _); [by apply lookup_delete_ne|by apply lookup_insert_ne].
  - intros e. destruct (fresh && _); [by rewrite lookup_delete_eq|]. rewrite lookup_insert_eq.
    intros [= <-]. split_and!; [apply tidy_Cleanup|done|done].
  - destruct (fresh && _) eqn:E; [|by rewrite lookup_insert_eq].
    apply andb_prop in E as [-> Hp]. rewrite lookup_delete_eq. cbn. rewrite Hf by done. symmetry. by apply unspent_None.
Qed.

Lemma ModifyCoins_spec c txid f : cache_ok c ->
  let '(c', x) := ModifyCoins c txid f in
  cache_ok c' /\ tidy x /\ unspent x = cache_contents c !! txid /\ cache_contents c' = set_coins txid (Cleanup (f x)) (cache_contents c).
Proof.
  intros Hok. pose proof Hok as [Hb Hc]. unfold ModifyCoins. rewrite cache_contents_lookup.
  destruct (cacheCoins c !! txid) as [e|] eqn:E; cbn [overlay].
  { destruct (Hc txid e E) as (Ht & Hf & _).
    destruct (modified_spec c (base c) (hashBlock c) txid (f (entry_coins e)) (FRESH e)) as [Hok' Ec]; [done..|by split_and!]. }
  pose proof (GetCoins_law (base c) txid Hb) as Hg. destruct (GetCoins (base c) txid) as [b [x|]]; destruct Hg as (Hb' & Eb & _ & Hs & Ht).
  - destruct (modified_spec c b (hashBlock c) txid (f x) (IsPruned x)) as [Hok' Ec]; [done..| |split_and!; [done|by apply Ht|done|done]].
    intros Hp. rewrite <- Hs. by apply unspent_None.
  - destruct (modified_spec c b (hashBlock c) txid (f coins_empty) true) as [Hok' Ec]; [done..|by rewrite <- Hs|by split_and!].
Qed.

Lemma ModifyNewCoins_spec c txid cb coins : cache_ok c -> cb = true \/ cache_contents c !! txid = None ->
  exists c', ModifyNewCoins c txid cb coins = Ok c' /\ cache_ok c' /\ cache_contents c' = set_coins txid (Cleanup coins) (cache_contents c).
Proof.
  intros Hok Hcb. pose proof Hok as [Hb Hc]. unfold ModifyNewCoins. rewrite cache_contents_lookup in Hcb.
  set (e := default _ _). assert (negb cb && negb (IsPruned (entry_coins e)) = false) as ->.
  { destruct Hcb as [->|Hn]; [done|]. destruct cb; [done|]. unfold e. destruct (cacheCoins c !! txid) as [e'|]; [|done].
    cbn in Hn |- *. apply unspent_None in Hn. by rewrite Hn. }
  cbn [whenever]. eexists. split; [reflexivity|]. apply modified_spec; [done..|].
  unfold e. destruct (cacheCoins c !! txid) as [e'|] eqn:E; cbn.
  - destruct (Hc txid e' E) as (_ & Hf & Hd). destruct cb; cbn; [done|]. destruct (DIRTY e'); cbn; [done|]. intros _.
    destruct Hcb as [|Hn]; [done|]. cbn in Hn. by rewrite <- Hd.
  - destruct cb; cbn; [done|]. intros _. by destruct Hcb.
Qed.

(** A program on a cache is a run over the contents of the cache. *)
Lemma run_cache_refines {A} (p : coins_prog A) c : cache_ok c -> safe p (cache_contents c) ->
  let '(c', r) := run_cache p c in cache_ok c' /\ coins_run p (cache_contents c) (Some (cache_contents c', r)).
Proof.
  revert c. induction p as [a|e|txid k IH|txid f k IH|txid cb coins k IH]; intros c Hok Hs; cbn [run_cache].
  - split; [done|constructor].
  - split; [done|constructor].
  - unfold AccessCoins. pose proof (FetchCoins_spec c txid Hok) as Hf. destruct (FetchCoins c txid) as [c1 r1].
    destruct Hf as (Hok1 & Ec & _ & Hseen & Ht).
    assert (forall x, entry_coins <$> r1 = Some x -> tidy x) as Ht' by (destruct r1; cbn; intros x [= <-]; by apply Ht).
    specialize (IH (entry_coins <$> r1) c1 Hok1). rewrite Ec in IH.
    destruct (run_cache (k (entry_coins <$> r1)) c1) as [c' r]. destruct IH as [Hok' Hr].
    { intros Hn. apply Hs. by econstructor. }
    split; [done|]. by econstructor.
  - pose proof (ModifyCoins_spec c txid f Hok) as Hm. destruct (ModifyCoins c txid f) as [c1 x]. destruct Hm as (Hok1 & Ht & Hx & Ec).
    specialize (IH x c1 Hok1). rewrite Ec in IH. destruct (run_cache (k x) c1) as [c' r]. destruct IH as [Hok' Hr].
    { intros Hn. apply Hs. by eapply run_modify. }
    split; [done|]. by eapply run_modify.
  - assert (cb = true \/ cache_contents c !! txid = None) as Hcb.
    { destruct cb; [by left|right]. destruct (cache_contents c !! txid) eqn:E; [|done]. exfalso. apply Hs. apply run_overwrite. by rewrite E. }
    destruct (ModifyNewCoins_spec c txid cb coins Hok Hcb) as (c1 & -> & Hok1 & Ec). specialize (IH c1 Hok1). rewrite Ec in IH.
    destruct (run_cache k c1) as [c' r]. destruct IH as [Hok' Hr].
    { intros Hn. apply Hs. by eapply run_new. }
    split; [done|]. by eapply run_new.
Qed.

Lemma Flush_spec c : cache_ok c -> batch_taken (takes B) (cacheCoins c) ->
  exists c', Flush c = Ok c' /\ cache_ok c' /\ contents (base c') = cache_contents c' /\
  (forall i, cache_contents c' !! i = cache_contents c !! i \/ cache_contents c' !! i = kept B <$> cache_contents c !! i) /\
  (hashBlock c <> 0 -> best_block (base c') = hashBlock c).
Proof.
  intros [Hb Hc] Htk. unfold Flush.
  destruct (BatchWrite_law (base c) (cacheCoins c) (hashBlock c) Hb) as (b & -> & Hb' & Hw & Hh).
  { intros txid e He. destruct (Hc txid e He) as (Ht & Hf & _). done. }
  { exact Htk. }
  assert (forall i, cache_contents (mkCache b (hashBlock c) ∅) !! i = contents b !! i) as Ec.
  { intros i. rewrite cache_contents_lookup. cbn. by rewrite lookup_empty. }
  eexists. split; [reflexivity|]. split_and!; [split; [done|apply map_Forall_empty]| | |done].
  - apply map_eq. intros i. by rewrite Ec.
  - intros i. rewrite Ec, Hw, cache_contents_lookup. destruct (cacheCoins c !! i) as [e|] eqn:E; [|by left]. cbn.
    destruct (Hc i e E) as (_ & _ & Hd). destruct (DIRTY e); [by right|left]. by rewrite Hd.
Qed.

(** Flushed to a view that keeps everything, nothing changes. *)
Lemma Flush_exact c c' : (forall x, kept B x = x) -> (forall x, takes B x) -> cache_ok c -> Flush c = Ok c' ->
  cache_ok c' /\ cache_contents c' = cache_contents c /\ contents (base c') = cache_contents c /\ (hashBlock c <> 0 -> best_block (base c') = hashBlock c).
Proof.
  intros Hk Ht Hc Hf. destruct (Flush_spec c Hc) as (c1 & Hf1 & Hok & Eb & Ec & Hh); [by intros txid e _ _ _|].
  rewrite Hf in Hf1. injection Hf1 as <-. assert (cache_contents c' = cache_contents c) as E; [|split_and!; congruence || done].
  apply map_eq. intros i. destruct (Ec i) as [->| ->]; [done|]. destruct (cache_contents c !! i); cbn; by rewrite ?Hk.
Qed.

Lemma Uncache_spec c txid : cache_ok c -> cache_ok (Uncache c txid) /\ cache_contents (Uncache c txid) = cache_contents c.
Proof.
  intros Hok. unfold Uncache. destruct (cacheCoins c !! txid) as [e|] eqn:E; [|done].
  destruct (negb (DIRTY e) && negb (FRESH e)) eqn:Ef; [|done]. pose proof Hok as [Hb Hc]. apply andb_prop in Ef as [Hd%negb_true_iff _].
  destruct (cache_change c (with_entries c (delete txid (cacheCoins c))) txid (cache_contents c !! txid)) as [Hok' Ec];
    [done|done|done|intros i Hi; by apply lookup_delete_ne|intros e'; cbn; by rewrite lookup_delete_eq| |].
  - cbn. rewrite lookup_delete_eq, cache_contents_lookup, E. cbn. symmetry. by apply (Hc txid e E).
  - by rewrite partial_alter_same in Ec.
Qed.

(** Writing the entries of a child, each key on its own. *)
Lemma write_entry_spec us txid it (m : utxos) :
  map_Forall (fun i e => entry_ok e (m !! i)) us -> tidy (entry_coins it) ->
  (FRESH it = true -> overlay (us !! txid) (m !! txid) = None) ->
  exists us', write_entry us (txid, it) = Ok us' /\ map_Forall (fun i e => entry_ok e (m !! i)) us' /\
  (forall i, i <> txid -> us' !! i = us !! i) /\
  overlay (us' !! txid) (m !! txid) = written id (Some it) (overlay (us !! txid) (m !! txid)).
Proof.
  intros Hus Ht Hf. unfold write_entry, written. rewrite option_fmap_id. destruct (DIRTY it); [|by exists us].
  destruct (us !! txid) as [u|] eqn:Eu; cbn [overlay] in *.
  - assert (FRESH it && negb (IsPruned (entry_coins u)) = false) as ->.
    { destruct (FRESH it); [|done]. specialize (Hf eq_refl). apply unspent_None in Hf. by rewrite Hf. }
    cbn [whenever]. destruct (Hus txid u Eu) as (_ & Hfu & _). destruct (FRESH u && IsPruned (entry_coins it)) eqn:E.
    + apply andb_prop in E as [E1 E2]. eexists. split; [reflexivity|]. split_and!.
      * by apply map_Forall_delete.
      * intros i Hi. by apply lookup_delete_ne.
      * rewrite lookup_delete_eq. cbn. rewrite Hfu by done. symmetry. by apply unspent_None.
    + eexists. split; [reflexivity|]. split_and!.
      * by apply map_Forall_insert_2.
      * intros i Hi. by apply lookup_insert_ne.
      * by rewrite lookup_insert_eq.
  - destruct (FRESH it && IsPruned (entry_coins it)) eqn:E; cbn [negb]; eexists; (split; [reflexivity|]); split_and!; try done.
    + apply andb_prop in E as [E1 E2]. rewrite Eu. cbn. rewrite Hf by done. symmetry. by apply unspent_None.
    + by apply map_Forall_insert_2.
    + intros i Hi. by apply lookup_insert_ne.
    + by rewrite lookup_insert_eq.
Qed.

Lemma write_entries_spec l us (m : utxos) : NoDup l.*1 ->
  map_Forall (fun i e => entry_ok e (m !! i)) us ->
  Forall (fun x => tidy (entry_coins x.2) /\ (FRESH x.2 = true -> overlay (us !! x.1) (m !! x.1) = None)) l ->
  exists us', write_entries us l = Ok us' /\ map_Forall (fun i e => entry_ok e (m !! i)) us' /\
  forall i, overlay (us' !! i) (m !! i) = written id ((list_to_map l : CCoinsMap) !! i) (overlay (us !! i) (m !! i)).
Proof.
  revert us. induction l as [|[txid it] l IH]; intros us Hnd Hus Hl; cbn [write_entries].
  { exists us. split_and!; [done|done|]. intros i. cbn. by rewrite lookup_empty. }
  rewrite fmap_cons, NoDup_cons in Hnd. destruct Hnd as [Hnew Hnd]. apply Forall_cons in Hl as [[Ht Hf] Hl].
  destruct (write_entry_spec us txid it m Hus Ht Hf) as (us1 & -> & Hus1 & Hsame & Ho). cbn [mbind result_bind].
  destruct (IH us1 Hnd Hus1) as (us' & -> & Hus' & Hi).
  { rewrite Forall_forall in Hl |- *. intros [k e] Hx. specialize (Hl _ Hx) as [Ht' Hf']. split; [done|]. cbn in *.
    assert (k <> txid) as Hk. { intros ->. apply Hnew. by apply (list_elem_of_fmap_2 fst _ (txid, e)). }
    by rewrite Hsame. }
  exists us'. split_and!; [done|done|]. intros i. rewrite Hi. cbn. destruct (decide (i = txid)) as [->|Hn].
  - rewrite lookup_insert_eq, not_elem_of_list_to_map_1 by done. done.
  - rewrite lookup_insert_ne, Hsame by done. done.
Qed.

End CacheLemmas.

(** ** Runs of programs *)

Lemma run_return_inv {A} (a : A) m o : coins_run (Return a) m o -> o = Some (m, Ok a).
Proof. by inversion 1. Qed.
Lemma run_reject_inv {A} e m o : coins_run (Reject (A := A) e) m o -> o = Some (m, Err e).
Proof. by inversion 1. Qed.
Lemma run_access_inv {A} txid (k : option CCoins -> coins_prog A) m r : coins_run (Access txid k) m r ->
  exists o, seen o = m !! txid /\ (forall x, o = Some x -> tidy x) /\ coins_run (k o) m r.
Proof. inversion 1; subst. eauto. Qed.
Lemma run_modify_inv {A} txid f (k : CCoins -> coins_prog A) m r : coins_run (Modify txid f k) m r ->
  exists x, unspent x = m !! txid /\ tidy x /\ coins_run (k x) (set_coins txid (Cleanup (f x)) m) r.
Proof. inversion 1; subst. eauto. Qed.
Lemma run_new_inv {A} txid cb coins (k : coins_prog A) m r : coins_run (NewCoins txid cb coins k) m r ->
  (cb = true \/ m !! txid = None) /\ coins_run k (set_coins txid (Cleanup coins) m) r \/ cb = false /\ m !! txid <> None /\ r = None.
Proof. inversion 1; subst; eauto. Qed.

Lemma run_bind {A A'} (p : coins_prog A) (g : A -> coins_prog A') m o : coins_run (p ≫= g) m o ->
  (exists m1 a, coins_run p m (Some (m1, Ok a)) /\ coins_run (g a) m1 o) \/
  (exists m1 e, coins_run p m (Some (m1, Err e)) /\ o = Some (m1, Err e)) \/ coins_run p m None /\ o = None.
Proof.
  revert m. induction p as [a|e|txid k IH|txid f k IH|txid cb coins k IH]; intros m Hr.
  - left. exists m, a. split; [constructor|done].
  - right. left. apply run_reject_inv in Hr. exists m, e. split; [constructor|done].
  - apply run_access_inv in Hr as (x & Hx & Ht & [(m1 & a & Hp & Hg)|[(m1 & e & Hp & He)|[Hp He]]]%IH);
      [left; exists m1, a|right; left; exists m1, e|right; right]; (split; [by econstructor|done]).
  - apply run_modify_inv in Hr as (x & Hx & Ht & [(m1 & a & Hp & Hg)|[(m1 & e & Hp & He)|[Hp He]]]%IH);
      [left; exists m1, a|right; left; exists m1, e|right; right]; (split; [by econstructor|done]).
  - apply run_new_inv in Hr as [[Hc [(m1 & a & Hp & Hg)|[(m1 & e & Hp & He)|[Hp He]]]%IH]|(-> & Hm & ->)];
      [left; exists m1, a|right; left; exists m1, e|right; right|right; right]; (split; [by econstructor|done]).
Qed.
Lemma run_bind_ok {A A'} (p : coins_prog A) (g : A -> coins_prog A') m m' b : coins_run (p ≫= g) m (Some (m', Ok b)) ->
  exists m1 a, coins_run p m (Some (m1, Ok a)) /\ coins_run (g a) m1 (Some (m', Ok b)).
Proof. intros [(m1 & a & Hp & Hg)|[(m1 & e & Hp & He)|[Hp He]]]%run_bind; [by exists m1, a|done|done]. Qed.

(** Programs with one outcome, and those that only read. *)
Definition runs_to {A} (p : coins_prog A) (m m' : utxos) (r : result A) : Prop := forall o, coins_run p m o -> o = Some (m', r).
Definition reads {A} (p : coins_prog A) (m : utxos) (r : result A) : Prop := runs_to p m m r.

Lemma reads_return {A} (a : A) m : reads (Return a) m (Ok a).
Proof. intros o. apply run_return_inv. Qed.
Lemma reads_reject {A} e m : reads (Reject (A := A) e) m (Err e).
Proof. intros o. apply run_reject_inv. Qed.
Lemma runs_bind {A A'} (p : coins_prog A) (g : A -> coins_prog A') m m1 m2 a r :
  runs_to p m m1 (Ok a) -> runs_to (g a) m1 m2 r -> runs_to (p ≫= g) m m2 r.
Proof.
  intros Hp Hg o [(m1' & a1 & Hr & Hg1)|[(m1' & e & Hr & ->)|[Hr ->]]]%run_bind; apply Hp in Hr; simplify_eq. by apply Hg.
Qed.
Lemma runs_modify {A} txid f (k : CCoins -> coins_prog A) m m' r :
  (forall x, unspent x = m !! txid -> tidy x -> runs_to (k x) (set_coins txid (Cleanup (f x)) m) m' r) -> runs_to (Modify txid f k) m m' r.
Proof. intros Hk o (x & Hx & Ht & Hr)%run_modify_inv. by apply (Hk x). Qed.

Fixpoint read_only {A} (p : coins_prog A) : Prop :=
  match p with
  | Return _ | Reject _ => True
  | Access _ k => forall o, read_only (k o)
  | Modify _ _ _ | NewCoins _ _ _ _ => False
  end.
Lemma read_only_run {A} (p : coins_prog A) m o : read_only p -> coins_run p m o -> exists r, o = Some (m, r).
Proof.
  revert m. induction p as [a|e|txid k IH|txid f k IH|txid cb coins k IH]; intros m Hp Hr; [| | |done|done].
  - apply run_return_inv in Hr. eauto.
  - apply run_reject_inv in Hr. eauto.
  - apply run_access_inv in Hr as (x & _ & _ & Hr). by eapply IH.
Qed.
Lemma read_only_bind {A A'} (p : coins_prog A) (g : A -> coins_prog A') : read_only p -> (forall a, read_only (g a)) -> read_only (p ≫= g).
Proof. intros Hp Hg. induction p as [a|e|txid k IH|txid f k IH|txid cb coins k IH]; cbn in *; auto. Qed.
Lemma read_only_if {A} (b : bool) (p q : coins_prog A) : read_only p -> read_only q -> read_only (if b then p else q).
Proof. by destruct b. Qed.

(** A program that begins by reading, on its way to success. *)
Lemma run_read_ok {A A'} (p : coins_prog A) (g : A -> coins_prog A') m m' b : read_only p -> coins_run (p ≫= g) m (Some (m', Ok b)) ->
  exists a, coins_run p m (Some (m, Ok a)) /\ coins_run (g a) m (Some (m', Ok b)).
Proof.
  intros Hp (m1 & a & Hr & Hg)%run_bind_ok. destruct (read_only_run p m _ Hp Hr) as [r [= -> <-]]. by exists a.
Qed.

(** Only the creation of coins can be undefined. *)
Fixpoint no_creation {A} (p : coins_prog A) : Prop :=
  match p with
  | Return _ | Reject _ => True
  | Access _ k => forall o, no_creation (k o)
  | Modify _ _ k => forall x, no_creation (k x)
  | NewCoins _ _ _ _ => False
  end.
Lemma no_creation_safe {A} (p : coins_prog A) m : no_creation p -> safe p m.
Proof.
  revert m. induction p as [a|e|txid k IH|txid f k IH|txid cb coins k IH]; intros m Hp Hr; [| | | |done].
  - by apply run_return_inv in Hr.
  - by apply run_reject_inv in Hr.
  - apply run_access_inv in Hr as (x & _ & _ & Hr). by eapply IH.
  - apply run_modify_inv in Hr as (x & _ & _ & Hr). by eapply IH.
Qed.
Lemma no_creation_bind {A A'} (p : coins_prog A) (g : A -> coins_prog A') : no_creation p -> (forall a, no_creation (g a)) -> no_creation (p ≫= g).
Proof. intros Hp Hg. induction p as [a|e|txid k IH|txid f k IH|txid cb coins k IH]; cbn in *; auto. Qed.
Lemma read_only_safe {A} (p : coins_prog A) m : read_only p -> safe p m.
Proof. intros Hp Hr. by destruct (read_only_run p m None Hp Hr). Qed.
Lemma safe_bind {A A'} (p : coins_prog A) (g : A -> coins_prog A') m : safe p m ->
  (forall m1 a, coins_run p m (Some (m1, Ok a)) -> safe (g a) m1) -> safe (p ≫= g) m.
Proof. intros Hp Hg [(m1 & a & Hr & Hn)|[(m1 & e & Hr & Hn)|[Hr _]]]%run_bind; [by eapply Hg|done|done]. Qed.
Lemma safe_read {A A'} (p : coins_prog A) (g : A -> coins_prog A') m : read_only p ->
  (forall a, coins_run p m (Some (m, Ok a)) -> safe (g a) m) -> safe (p ≫= g) m.
Proof.
  intros Hp Hg. apply safe_bind; [by apply read_only_safe|]. intros m1 a Hr. destruct (read_only_run p m _ Hp Hr) as [r [= -> <-]]. by apply Hg.
Qed.

(** Sequences, read from either side. *)
Lemma run_bind_mono {A A'} (p : coins_prog A) (g g' : A -> coins_prog A') m o :
  (forall a m, coins_run (g a) m o -> coins_run (g' a) m o) -> coins_run (p ≫= g) m o -> coins_run (p ≫= g') m o.
Proof.
  intros Hg. revert m. induction p as [a|e|txid k IH|txid f k IH|txid cb coins k IH]; intros m Hr; cbn in *; [by apply Hg|done|..].
  - apply run_access_inv in Hr as (x & Hx & Ht & Hr). eapply run_access; [done..|]. by apply IH.
  - apply run_modify_inv in Hr as (x & Hx & Ht & Hr). eapply run_modify; [done..|]. by apply IH.
  - apply run_new_inv in Hr as [[Hc Hr]|(-> & Hm & ->)]; [apply run_new; [done|by apply IH]|by apply run_overwrite].
Qed.
Lemma run_assoc {A A' A''} (p : coins_prog A) (g : A -> coins_prog A') (g' : A' -> coins_prog A'') m o :
  coins_run (p ≫= fun a => g a ≫= g') m o -> coins_run ((p ≫= g) ≫= g') m o.
Proof.
  revert m. induction p as [a|e|txid k IH|txid f k IH|txid cb coins k IH]; intros m Hr; cbn in *; [done|done|..].
  - apply run_access_inv in Hr as (x & Hx & Ht & Hr). eapply run_access; [done..|]. by apply IH.
  - apply run_modify_inv in Hr as (x & Hx & Ht & Hr). eapply run_modify; [done..|]. by apply IH.
  - apply run_new_inv in Hr as [[Hc Hr]|(-> & Hm & ->)]; [apply run_new; [done|by apply IH]|by apply run_overwrite].
Qed.

(** Prove that a program only reads, or creates nothing, by its shape. *)
Create HintDb coins discriminated.
#[export] Hint Resolve read_only_bind read_only_if no_creation_bind : coins.
#[export] Hint Extern 1 (read_only (Return _)) => exact I : coins.
#[export] Hint Extern 1 (read_only (Reject _)) => exact I : coins.
#[export] Hint Extern 2 (read_only (match ?x with _ => _ end)) => destruct x : coins.

(** ** The two views *)

Section DatabaseLaws.
Context `{PubKeyLaws}.

(** What the database holds, and that it reads all of it. *)
Definition db_contents (db : CCoinsViewDB) : utxos := omap read_coins (db_coins db).

Lemma read_coins_stored x : can_store x -> exists value, Serialize_CCoins x = Ok value /\ read_coins value = Some (coins_stored x).
Proof.
  intros Hx. destruct (coins_roundtrip x [] Hx) as (bs & Es & Hu). exists bs. split; [done|]. unfold read_coins. rewrite app_nil_r in Hu. by rewrite Hu.
Qed.

Lemma db_writes_spec l coins : NoDup l.*1 -> Forall (fun it => DIRTY it.2 = true -> IsPruned (entry_coins it.2) = false -> can_store (entry_coins it.2)) l ->
  exists coins', db_writes coins l = Ok coins' /\
  forall i, omap read_coins coins' !! i = written coins_stored ((list_to_map l : CCoinsMap) !! i) (omap read_coins coins !! i).
Proof.
  revert coins. induction l as [|[txid it] l IH]; intros coins Hnd Hl; cbn [db_writes].
  { exists coins. split; [done|]. intros i. cbn. by rewrite lookup_empty. }
  rewrite fmap_cons, NoDup_cons in Hnd. destruct Hnd as [Hnew Hnd]. apply Forall_cons in Hl as [Hit Hl]. cbn in Hit.
  assert (exists c1, db_write coins (txid, it) = Ok c1 /\ forall i, omap read_coins c1 !! i =
    if decide (i = txid) then written coins_stored (Some it) (omap read_coins coins !! i) else omap read_coins coins !! i) as (c1 & -> & Hw1).
  { unfold db_write. cbn. destruct (DIRTY it); [|exists coins; split; [done|]; intros i; by destruct (decide _)].
    unfold unspent. destruct (IsPruned (entry_coins it)).
    - eexists. split; [done|]. intros i. rewrite !lookup_omap. destruct (decide (i = txid)) as [->|Hn]; [by rewrite lookup_delete_eq|by rewrite lookup_delete_ne].
    - destruct (read_coins_stored _ (Hit eq_refl eq_refl)) as (value & -> & Hr). eexists. split; [done|]. intros i. rewrite !lookup_omap.
      destruct (decide (i = txid)) as [->|Hn]; [rewrite lookup_insert_eq; exact Hr|by rewrite lookup_insert_ne]. }
  cbn [mbind result_bind]. destruct (IH c1 Hnd Hl) as (c2 & -> & Hw2). exists c2. split; [done|]. intros i. rewrite Hw2, Hw1. cbn [list_to_map foldr uncurry].
  destruct (decide (i = txid)) as [->|Hn]; [by rewrite lookup_insert_eq, not_elem_of_list_to_map_1|by rewrite lookup_insert_ne].
Qed.

Lemma coins_stored_tidy x : tidy x /\ IsPruned x = false -> tidy (coins_stored x) /\ IsPruned (coins_stored x) = false.
Proof. done. Qed.

#[export] Program Instance CCoinsViewDB_laws : CCoinsViewLaws CCoinsViewDB := {|
  contents := db_contents;
  best_block := db_best;
  view_ok := fun db => map_Forall (fun _ c => tidy c /\ IsPruned c = false) (db_contents db);
  kept := coins_stored;
  takes := can_store
|}.
Next Obligation. intros x. exists (stored_version (coins_nVersion x)). split; [done|by right]. Qed.
Next Obligation. done. Qed.
Next Obligation. done. Qed.
Next Obligation.
  intros db txid Hok. cbn. assert (db_contents db !! txid = db_GetCoins db txid) as <-.
  { unfold db_contents, db_GetCoins. by rewrite lookup_omap. }
  split_and!; [done..| |].
  - destruct (db_contents db !! txid) as [c|] eqn:E; [|done]. destruct (Hok txid c E) as [_ Hp]. cbn. by apply unspent_Some.
  - intros x Hx. by apply (Hok txid x).
Qed.
Next Obligation. done. Qed.
Next Obligation.
  intros db batch h Hok Hbatch Htaken. cbn. unfold db_BatchWrite.
  destruct (db_writes_spec (map_to_list batch) (db_coins db)) as (coins & -> & Hw); [apply NoDup_fst_map_to_list| |].
  { apply Forall_forall. intros [txid e] Hx%elem_of_map_to_list. exact (Htaken txid e Hx). }
  rewrite list_to_map_to_list in Hw. eexists. split; [reflexivity|]. split_and!; [|done|].
  - intros txid c. cbn. change (db_contents _ !! txid) with (omap read_coins coins !! txid). rewrite Hw. destruct (batch !! txid) as [e|] eqn:E; cbn; [|apply Hok].
    destruct (DIRTY e); [|apply Hok]. unfold unspent. destruct (IsPruned (entry_coins e)) eqn:Ep; [done|]. intros [= <-].
    apply coins_stored_tidy. split; [by apply (Hbatch txid e)|done].
  - intros Hh. cbn. by rewrite (proj2 (Z.eqb_neq _ _)).
Qed.

Lemma empty_coins_db : view_ok (mkCoinsDB ∅ 0) /\ contents (mkCoinsDB ∅ 0) = ∅.
Proof.
  assert (db_contents (mkCoinsDB ∅ 0) = ∅) as E by apply omap_empty.
  split; [|exact E]. change (map_Forall (fun _ c => tidy c /\ IsPruned c = false) (db_contents (mkCoinsDB ∅ 0))). rewrite E. apply map_Forall_empty.
Qed.

End DatabaseLaws.

#[export] Program Instance CCoinsViewCache_laws {B} `{CCoinsViewLaws B} : CCoinsViewLaws (CCoinsViewCache B) := {|
  contents := cache_contents;
  best_block := cache_best_block;
  view_ok := cache_ok;
  kept := id;
  takes := fun _ => True
|}.
Next Obligation. intros B ?? x. exists (coins_nVersion x). split; [by destruct x|by left]. Qed.
Next Obligation. done. Qed.
Next Obligation.
  intros B ?? c [Hb Hc] txid x. rewrite cache_contents_lookup. destruct (cacheCoins c !! txid) as [e|] eqn:E; cbn.
  - intros [<- Hp]%unspent_Some. split; [|done]. apply (Hc txid e E).
  - intros Hx. by apply (contents_tidy (base c) Hb txid).
Qed.
Next Obligation.
  intros B ?? c txid Hok. cbn. unfold cache_GetCoins, AccessCoins. pose proof (FetchCoins_spec c txid Hok) as Hf.
  destruct (FetchCoins c txid) as [c' r]. destruct Hf as (Hok' & Ec & Eb & Hs & Ht). split_and!; try done.
  destruct r as [e|]; cbn; intros x [= <-]. by apply Ht.
Qed.
Next Obligation.
  intros B ?? c Hok. cbn. unfold cache_GetBestBlock, cache_best_block. destruct (Z.eqb_spec (hashBlock c) 0) as [E|E].
  - pose proof Hok as [Hb Hc]. pose proof (GetBestBlock_law (base c) Hb) as Hg. destruct (GetBestBlock (base c)) as [b h].
    destruct Hg as (Hb' & Ec & Eb & ->). unfold cache_ok, cache_contents. cbn. rewrite Ec, Eb. split_and!; [done|done|done| |done].
    by destruct (best_block (base c) =? 0).
  - split_and!; try done. by rewrite (proj2 (Z.eqb_neq _ _)).
Qed.
Next Obligation.
  intros B ?? c batch h [Hb Hc] Hbatch _. cbn. unfold cache_BatchWrite.
  destruct (write_entries_spec (map_to_list batch) (cacheCoins c) (contents (base c))) as (us & -> & Hus & Hi); [apply NoDup_fst_map_to_list|done| |].
  - apply Forall_forall. intros [txid e] Hx%elem_of_map_to_list. destruct (Hbatch txid e Hx) as [Ht Hf]. split; [done|].
    by rewrite cache_contents_lookup in Hf.
  - eexists. split; [reflexivity|]. split_and!; [by split| |].
    + intros txid. rewrite !cache_contents_lookup. cbn. rewrite Hi. by rewrite list_to_map_to_list.
    + intros Hh. unfold cache_best_block. cbn. by rewrite (proj2 (Z.eqb_neq _ _)).
Qed.

(** ** Properties *)

(** C7: a coins cache is not visible to the code that uses it.  Over any view
    that keeps its contract, as the database and every stack of caches over it
    do, a program that reads, modifies and creates coins gets from the cache
    what a plain map of unspent coins would give, whatever was cached, dirty
    or fresh, and no exception is thrown, provided that it never creates coins
    over unspent ones; flushing the cache gives its contents and its best
    block to the base, without a misapplied flag, and dropping clean entries
    changes nothing.  What is flushed to another cache stays as it is; what is
    flushed to the database, as long as it can be written, is what the database
    reads back. *)
Theorem coins_cache_refines {B} `{CCoinsViewLaws B} {A} (p : coins_prog A) (c : CCoinsViewCache B) (txid : Z) :
  cache_ok c -> safe p (cache_contents c) ->
  (let '(c', r) := run_cache p c in cache_ok c' /\ coins_run p (cache_contents c) (Some (cache_contents c', r))) /\
  (batch_taken (takes B) (cacheCoins c) -> exists c', Flush c = Ok c' /\ cache_ok c' /\ contents (base c') = cache_contents c' /\
     (forall i, cache_contents c' !! i = cache_contents c !! i \/ cache_contents c' !! i = kept B <$> cache_contents c !! i) /\
     ((forall x, kept B x = x) -> cache_contents c' = cache_contents c) /\ (hashBlock c <> 0 -> best_block (base c') = hashBlock c)) /\
  cache_ok (Uncache c txid) /\ cache_contents (Uncache c txid) = cache_contents c.
Proof.
  intros Hok Hs. split_and!; [by apply run_cache_refines| |by apply Uncache_spec..]. intros Ht.
  destruct (Flush_spec c Hok Ht) as (c' & Hf & Hok' & Eb & Ec & Hh). exists c'. split_and!; try done. intros Hk.
  apply map_eq. intros i. destruct (Ec i) as [->| ->]; [done|]. destruct (cache_contents c !! i); cbn; by rewrite ?Hk.
Qed.

(** ** Examples *)

Module CoinsExample.
Import CompressorExample.

(** Two unspent outputs in the database, and two caches over it. *)
Definition demo_coins : CCoins := mkCoins false [mkTxOut 5 [x51]; mkTxOut 6 [x52]] 10 1.
Definition demo_db : CCoinsViewDB :=
  match db_BatchWrite (mkCoinsDB ∅ 0) {[7 := mkEntry demo_coins true false]} 3 with Ok db => db | Err _ => mkCoinsDB ∅ 0 end.
Definition demo_cache : CCoinsViewCache (CCoinsViewCache CCoinsViewDB) := mkCache (CCoinsViewCache_of demo_db) 4 ∅.
(** Output 1 is spent, and coins are created. *)
Definition demo_prog : coins_prog nat :=
  Modify 7 (fun c => (Spend c 1).2) (fun _ => NewCoins 8 false demo_coins (Access 8 (fun o => Return (match o with Some c => length (coins_vout c) | None => 0%nat end)))).

Lemma demo_read : db_contents demo_db = {[7 := demo_coins]}.
Proof. vm_compute. reflexivity. Qed.

Lemma coins_cache_refines_witness :
  (run_cache demo_prog demo_cache).2 = Ok 2%nat /\ cache_contents (Uncache demo_cache 7) = cache_contents demo_cache /\
  exists c', Flush demo_cache = Ok c' /\ cache_contents c' = cache_contents demo_cache /\ cache_best_block (base c') = 4.
Proof.
  assert (cache_ok demo_cache) as Hok.
  { split; [|apply map_Forall_empty]. split; [|apply map_Forall_empty]. cbn [view_ok CCoinsViewDB_laws demo_cache base CCoinsViewCache_of]. rewrite demo_read.
    apply map_Forall_singleton. split; [|reflexivity]. intros o E. injection E as <-. reflexivity. }
  assert (safe demo_prog (cache_contents demo_cache)) as Hs.
  { intros Hr. apply run_modify_inv in Hr as (x & _ & _ & Hr). apply run_new_inv in Hr as [[_ Hr]|(_ & Hn & _)].
    - apply run_access_inv in Hr as (o & _ & _ & Hr). by apply run_return_inv in Hr.
    - apply Hn. rewrite set_coins_lookup, decide_False by done. vm_compute. reflexivity. }
  destruct (coins_cache_refines demo_prog demo_cache 7 Hok Hs) as (_ & (c' & Hf & _ & _ & _ & Hc & Hb) & _ & Hu); [intros i e _ _ _; exact I|].
  split; [vm_compute; reflexivity|]. split; [exact Hu|]. exists c'. split; [exact Hf|]. split; [apply Hc; intros x; reflexivity|]. apply Hb. discriminate.
Defined.

(** The database does not keep a negative version. *)
Example negative_version_lost :
  let coins := with_version demo_coins (-1) in
  coins_nVersion <$> (db ← match db_BatchWrite (mkCoinsDB ∅ 0) {[7 := mkEntry coins true false]} 3 with Ok db => Some db | Err _ => None end; db_GetCoins db 7) = Some 127.
Proof. vm_compute. reflexivity. Qed.

End CoinsExample.
