(* ===== verification/TxVerify.v ===== *)
(** * Checks of a transaction
      ([src/src/validation.cpp], [coins.cpp], [script/script_error.cpp],
      [consensus/consensus.h])

    The checks that need no context, those of lock times, and those against
    the coins a transaction spends, which are programs over a coins view. *)

From S2P Require Import Prelude Nicknames Serialize Script Arith Header BlockIndex Pow Transaction TxSerialize DerSignature Interpreter ScriptRules SigHash Coins CoinsCache.
Open Scope Z_scope.
Open Scope kubu_scope.

Definition MAX_BLOCK_WEIGHT : Z := 4000000.
Definition MAX_BLOCK_BASE_SIZE : Z := 1000000.
Definition MAX_BLOCK_SIGOPS_COST : Z := 80000.
Definition LOCKTIME_VERIFY_SEQUENCE : Z := 1.
Definition LOCKTIME_MEDIAN_TIME_PAST : Z := 2.
Definition SEQUENCE_LOCKTIME_GRANULARITY : Z := 9.

(** ** Without context *)

Fixpoint value_out_loop (outs : list CTxOut) (nValueOut : Z) : result Z :=
  match outs with
  | [] => Ok nValueOut
  | o :: outs' =>
      let nValueOut := i64 (nValueOut + nValue o) in
      reject negb (MoneyRange (nValue o)) || negb (MoneyRange nValueOut) with "GetValueOut: value out of range";
      value_out_loop outs' nValueOut
  end.
Definition GetValueOut (tx : CTransaction) : result Z := value_out_loop (vout tx) 0.

Fixpoint check_outputs (outs : list CTxOut) (nValueOut : Z) : result unit :=
  match outs with
  | [] => Ok tt
  | o :: outs' =>
      reject nValue o <? 0 with "bad-txns-vout-negative";
      reject MAX_MONEY <? nValue o with "bad-txns-vout-toolarge";
      let nValueOut := i64 (nValueOut + nValue o) in
      reject negb (MoneyRange nValueOut) with "bad-txns-txouttotal-toolarge";
      check_outputs outs' nValueOut
  end.
Fixpoint check_duplicates (ins : list CTxIn) (vInOutPoints : gset COutPoint) : result unit :=
  match ins with
  | [] => Ok tt
  | i :: ins' =>
      reject bool_decide (prevout i ∈ vInOutPoints) with "bad-txns-inputs-duplicate";
      check_duplicates ins' ({[prevout i]} ∪ vInOutPoints)
  end.

Definition CheckTransaction (tx : CTransaction) (fCheckDuplicateInputs : bool) : result unit :=
  reject bool_decide (vin tx = []) with "bad-txns-vin-empty";
  reject bool_decide (vout tx = []) with "bad-txns-vout-empty";
  reject MAX_BLOCK_BASE_SIZE <? len (SerializeTransaction false (CMutableTransaction_of tx)) with "bad-txns-oversize";
  _ ← check_outputs (vout tx) 0;
  _ ← (if fCheckDuplicateInputs then check_duplicates (vin tx) ∅ else Ok tt);
  if IsCoinBase tx then
    let scriptSize := match vin tx with i :: _ => len (scriptSig i) | [] => 0 end in
    reject (scriptSize <? 2) || (100 <? scriptSize) with "bad-cb-length";
    Ok tt
  else
    reject existsb (fun i => outpoint_IsNull (prevout i)) (vin tx) with "bad-txns-prevout-null";
    Ok tt.

(** ** Lock times *)

Definition IsFinalTx (tx : CTransaction) (nBlockHeight nBlockTime : Z) : bool :=
  if nLockTime tx =? 0 then true
  else if nLockTime tx <? (if nLockTime tx <? LOCKTIME_THRESHOLD then nBlockHeight else nBlockTime) then true
  else forallb (fun i => nSequence i =? SEQUENCE_FINAL) (vin tx).

(** The loop over the inputs; [prevHeights] has an entry for each of them. *)
Fixpoint sequence_locks (m : BlockMap) (block : Z) (ins : list CTxIn) (prevHeights : list Z) (nMinHeight nMinTime : Z) :
    result (Z * Z * list Z) :=
  match ins, prevHeights with
  | txin :: ins', nCoinHeight :: prevHeights' =>
      if negb (Z.land (nSequence txin) SEQUENCE_LOCKTIME_DISABLE_FLAG =? 0) then
        r ← sequence_locks m block ins' prevHeights' nMinHeight nMinTime;
        Ok (r.1, 0 :: r.2)
      else
        locks ← (if negb (Z.land (nSequence txin) SEQUENCE_LOCKTIME_TYPE_FLAG =? 0) then
                   a ← GetAncestor m block (Z.max (nCoinHeight - 1) 0);
                   match a with
                   | None => Err "null pointer"
                   | Some a =>
                       nCoinTime ← GetMedianTimePast m a;
                       let offset := Z.shiftl (Z.land (nSequence txin) SEQUENCE_LOCKTIME_MASK) SEQUENCE_LOCKTIME_GRANULARITY in
                       Ok (nMinHeight, Z.max nMinTime (nCoinTime + offset - 1))
                   end
                 else Ok (Z.max nMinHeight (nCoinHeight + Z.land (nSequence txin) SEQUENCE_LOCKTIME_MASK - 1), nMinTime));
        r ← sequence_locks m block ins' prevHeights' locks.1 locks.2;
        Ok (r.1, nCoinHeight :: r.2)
  | _, _ => Ok (nMinHeight, nMinTime, [])
  end.
Definition CalculateSequenceLocks (m : BlockMap) (tx : CTransaction) (flags : Z) (prevHeights : list Z) (block : Z) : result (Z * Z * list Z) :=
  reject negb (length prevHeights =? length (vin tx))%nat with "assertion prevHeights->size() == tx.vin.size() failed";
  let fEnforceBIP68 := (2 <=? u32 (tx_nVersion tx)) && negb (Z.land flags LOCKTIME_VERIFY_SEQUENCE =? 0) in
  if negb fEnforceBIP68 then Ok (-1, -1, prevHeights)
  else sequence_locks m block (vin tx) prevHeights (-1) (-1).
Definition EvaluateSequenceLocks (m : BlockMap) (block : Z) (lockPair : Z * Z) : result bool :=
  b ← deref m block;
  match pprev b with
  | None => Err "assertion block.pprev failed"
  | Some q =>
      nBlockTime ← GetMedianTimePast m q;
      Ok (negb ((nHeight b <=? lockPair.1) || (nBlockTime <=? lockPair.2)))
  end.
Definition SequenceLocks (m : BlockMap) (tx : CTransaction) (flags : Z) (prevHeights : list Z) (block : Z) : result bool :=
  r ← CalculateSequenceLocks m tx flags prevHeights block;
  EvaluateSequenceLocks m block r.1.

(** ** Against the coins *)

Definition access (txid : Z) : coins_prog (option CCoins) := Access txid Return.
Definition of_result {A} (r : result A) : coins_prog A := match r with Ok a => Return a | Err e => Reject e end.
Notation "'refuse' b 'with' msg ; k" := (if b then Reject msg else k)
  (at level 200, b at level 199, msg at level 199, k at level 200,
   format "'[v' 'refuse'  b  'with'  msg ; '/' k ']'") : kubu_scope.

Definition assertion_failed : string := "assertion failed".

Definition GetOutputFor (input : CTxIn) : coins_prog CTxOut :=
  coins ← access (op_hash (prevout input));
  match coins with
  | Some c =>
      refuse negb (IsAvailable c (op_n (prevout input))) with assertion_failed;
      Return (default txout_null (coins_vout c !! Z.to_nat (op_n (prevout input))))
  | None => Reject assertion_failed
  end.

Fixpoint value_in_loop (ins : list CTxIn) (nResult : Z) : coins_prog Z :=
  match ins with
  | [] => Return nResult
  | i :: ins' => o ← GetOutputFor i; value_in_loop ins' (i64 (nResult + nValue o))
  end.
Definition GetValueIn (tx : CTransaction) : coins_prog Z :=
  if IsCoinBase tx then Return 0 else value_in_loop (vin tx) 0.

Fixpoint have_inputs_loop (ins : list CTxIn) : coins_prog bool :=
  match ins with
  | [] => Return true
  | i :: ins' =>
      coins ← access (op_hash (prevout i));
      match coins with
      | Some c => if IsAvailable c (op_n (prevout i)) then have_inputs_loop ins' else Return false
      | None => Return false
      end
  end.
Definition HaveInputs (tx : CTransaction) : coins_prog bool :=
  if IsCoinBase tx then Return true else have_inputs_loop (vin tx).

(** *** Signature operations *)

Definition GetLegacySigOpCount (tx : CTransaction) : Z :=
  let nSigOps := foldl (fun n i => u32 (n + GetSigOpCount false (scriptSig i))) 0 (vin tx) in
  foldl (fun n o => u32 (n + GetSigOpCount false (scriptPubKey o))) nSigOps (vout tx).

Fixpoint p2sh_sigops_loop (ins : list CTxIn) (nSigOps : Z) : coins_prog Z :=
  match ins with
  | [] => Return nSigOps
  | i :: ins' =>
      o ← GetOutputFor i;
      p2sh_sigops_loop ins'
        (if IsPayToScriptHash (scriptPubKey o) then u32 (nSigOps + GetSigOpCount_p2sh (scriptPubKey o) (scriptSig i)) else nSigOps)
  end.
Definition GetP2SHSigOpCount (tx : CTransaction) : coins_prog Z :=
  if IsCoinBase tx then Return 0 else p2sh_sigops_loop (vin tx) 0.

Fixpoint witness_sigops_loop (flags : Z) (ins : list CTxIn) (nSigOps : Z) : coins_prog Z :=
  match ins with
  | [] => Return nSigOps
  | i :: ins' =>
      o ← GetOutputFor i;
      match CountWitnessSigOps (scriptSig i) (scriptPubKey o) (scriptWitness i) flags with
      | Success n => witness_sigops_loop flags ins' (nSigOps + n)
      | _ => Reject assertion_failed
      end
  end.
Definition GetTransactionSigOpCost (tx : CTransaction) (flags : Z) : coins_prog Z :=
  let nSigOps := u32 (GetLegacySigOpCount tx * WITNESS_SCALE_FACTOR) in
  if IsCoinBase tx then Return nSigOps
  else
    nSigOps ← (if has flags SCRIPT_VERIFY_P2SH then
                 n ← GetP2SHSigOpCount tx; Return (nSigOps + u32 (n * WITNESS_SCALE_FACTOR))
               else Return nSigOps);
    witness_sigops_loop flags (vin tx) nSigOps.

(** *** Amounts and maturity *)

Fixpoint check_inputs_loop (params : ParamsTree) (nSpendHeight : Z) (ins : list CTxIn) (nValueIn : Z) : coins_prog Z :=
  match ins with
  | [] => Return nValueIn
  | i :: ins' =>
      coins ← access (op_hash (prevout i));
      match coins with
      | None => Reject assertion_failed
      | Some c =>
          refuse fCoinBase c && (nSpendHeight - coins_nHeight c <? nCoinbaseMaturity (GetConsensus params (coins_nHeight c)))
            with "bad-txns-premature-spend-of-coinbase";
          let value := nValue (default txout_null (coins_vout c !! Z.to_nat (op_n (prevout i)))) in
          let nValueIn := i64 (nValueIn + value) in
          refuse negb (MoneyRange value) || negb (MoneyRange nValueIn) with "bad-txns-inputvalues-outofrange";
          check_inputs_loop params nSpendHeight ins' nValueIn
      end
  end.
Definition CheckTxInputs (params : ParamsTree) (tx : CTransaction) (nSpendHeight : Z) : coins_prog unit :=
  have ← HaveInputs tx;
  refuse negb have with "Inputs unavailable";
  nValueIn ← check_inputs_loop params nSpendHeight (vin tx) 0;
  nValueOut ← of_result (GetValueOut tx);
  refuse nValueIn <? nValueOut with "bad-txns-in-belowout";
  let nTxFee := nValueIn - nValueOut in
  refuse nTxFee <? 0 with "bad-txns-fee-negative";
  refuse negb (MoneyRange nTxFee) with "bad-txns-fee-outofrange";
  Return tt.

(** *** Scripts *)

Definition ScriptErrorString (serror : ScriptError) : string :=
  match serror with
  | SCRIPT_ERR_EVAL_FALSE => "Script evaluated without error but finished with a false/empty top stack element"
  | SCRIPT_ERR_VERIFY => "Script failed an OP_VERIFY operation"
  | SCRIPT_ERR_EQUALVERIFY => "Script failed an OP_EQUALVERIFY operation"
  | SCRIPT_ERR_CHECKMULTISIGVERIFY => "Script failed an OP_CHECKMULTISIGVERIFY operation"
  | SCRIPT_ERR_CHECKSIGVERIFY => "Script failed an OP_CHECKSIGVERIFY operation"
  | SCRIPT_ERR_NUMEQUALVERIFY => "Script failed an OP_NUMEQUALVERIFY operation"
  | SCRIPT_ERR_SCRIPT_SIZE => "Script is too big"
  | SCRIPT_ERR_PUSH_SIZE => "Push value size limit exceeded"
  | SCRIPT_ERR_OP_COUNT => "Operation limit exceeded"
  | SCRIPT_ERR_STACK_SIZE => "Stack size limit exceeded"
  | SCRIPT_ERR_SIG_COUNT => "Signature count negative or greater than pubkey count"
  | SCRIPT_ERR_PUBKEY_COUNT => "Pubkey count negative or limit exceeded"
  | SCRIPT_ERR_BAD_OPCODE => "Opcode missing or not understood"
  | SCRIPT_ERR_DISABLED_OPCODE => "Attempted to use a disabled opcode"
  | SCRIPT_ERR_INVALID_STACK_OPERATION => "Operation not valid with the current stack size"
  | SCRIPT_ERR_INVALID_ALTSTACK_OPERATION => "Operation not valid with the current altstack size"
  | SCRIPT_ERR_OP_RETURN => "OP_RETURN was encountered"
  | SCRIPT_ERR_UNBALANCED_CONDITIONAL => "Invalid OP_IF construction"
  | SCRIPT_ERR_NEGATIVE_LOCKTIME => "Negative locktime"
  | SCRIPT_ERR_UNSATISFIED_LOCKTIME => "Locktime requirement not satisfied"
  | SCRIPT_ERR_SIG_HASHTYPE => "Signature hash type missing or not understood"
  | SCRIPT_ERR_SIG_DER => "Non-canonical DER signature"
  | SCRIPT_ERR_MINIMALDATA => "Data push larger than necessary"
  | SCRIPT_ERR_SIG_PUSHONLY => "Only non-push operators allowed in signatures"
  | SCRIPT_ERR_SIG_HIGH_S => "Non-canonical signature: S value is unnecessarily high"
  | SCRIPT_ERR_SIG_NULLDUMMY => "Dummy CHECKMULTISIG argument must be zero"
  | SCRIPT_ERR_MINIMALIF => "OP_IF/NOTIF argument must be minimal"
  | SCRIPT_ERR_SIG_NULLFAIL => "Signature must be zero for failed CHECK(MULTI)SIG operation"
  | SCRIPT_ERR_DISCOURAGE_UPGRADABLE_NOPS => "NOPx reserved for soft-fork upgrades"
  | SCRIPT_ERR_DISCOURAGE_UPGRADABLE_WITNESS_PROGRAM => "Witness version reserved for soft-fork upgrades"
  | SCRIPT_ERR_PUBKEYTYPE => "Public key is neither compressed or uncompressed"
  | SCRIPT_ERR_WITNESS_PROGRAM_WRONG_LENGTH => "Witness program has incorrect length"
  | SCRIPT_ERR_WITNESS_PROGRAM_WITNESS_EMPTY => "Witness program was passed an empty witness"
  | SCRIPT_ERR_WITNESS_PROGRAM_MISMATCH => "Witness program hash mismatch"
  | SCRIPT_ERR_WITNESS_MALLEATED => "Witness requires empty scriptSig"
  | SCRIPT_ERR_WITNESS_MALLEATED_P2SH => "Witness requires only-redeemscript scriptSig"
  | SCRIPT_ERR_WITNESS_UNEXPECTED => "Witness provided for non-witness script"
  | SCRIPT_ERR_WITNESS_PUBKEYTYPE => "Using non-compressed keys in segwit"
  | SCRIPT_ERR_CLEANSTACK | SCRIPT_ERR_UNKNOWN_ERROR => "unknown error"
  end.

Section Checks.
Context `{CryptoOps} `{SignatureOps} `{ScriptHashOps}.

(** The verification of one input; the signature cache answers as the
    verification would and is left out. *)
Record CScriptCheck := mkScriptCheck {
  check_scriptPubKey : bytes;
  check_amount : Z;
  ptxTo : CTransaction;
  check_nIn : nat;
  nFlags : Z
}.
Definition CScriptCheck_of (txFrom : CCoins) (tx : CTransaction) (nIn : nat) (txin : CTxIn) (flags : Z) : CScriptCheck :=
  let o := default txout_null (coins_vout txFrom !! Z.to_nat (op_n (prevout txin))) in
  mkScriptCheck (scriptPubKey o) (nValue o) tx nIn flags.
Definition run_check (check : CScriptCheck) : outcome unit :=
  match vin (ptxTo check) !! check_nIn check with
  | None => AssertionFailed
  | Some txin =>
      VerifyScript (nFlags check)
        (TransactionSignatureChecker (ptxTo check) (check_nIn check) (check_amount check) (Some (precompute (ptxTo check))))
        (scriptSig txin) (check_scriptPubKey check) (scriptWitness txin)
  end.

Definition succeeds {A} (r : outcome A) : bool := match r with Success _ => true | _ => false end.

(** With [pvChecks] the checks are collected for the queue, without they run. *)
Fixpoint script_checks (pvChecks : bool) (flags : Z) (tx : CTransaction) (nIn : nat) (ins : list CTxIn) : coins_prog (list CScriptCheck) :=
  match ins with
  | [] => Return []
  | i :: ins' =>
      coins ← access (op_hash (prevout i));
      match coins with
      | None => Reject assertion_failed
      | Some c =>
          let check := CScriptCheck_of c tx nIn i flags in
          if pvChecks then rest ← script_checks pvChecks flags tx (S nIn) ins'; Return (check :: rest)
          else
            match run_check check with
            | Success _ => script_checks pvChecks flags tx (S nIn) ins'
            | Failure e =>
                let check2 := CScriptCheck_of c tx nIn i (Z.land flags (Z.lnot STANDARD_NOT_MANDATORY_VERIFY_FLAGS)) in
                if has flags STANDARD_NOT_MANDATORY_VERIFY_FLAGS && succeeds (run_check check2)
                then Reject (String.append "non-mandatory-script-verify-flag (" (String.append (ScriptErrorString e) ")"))
                else Reject (String.append "mandatory-script-verify-flag-failed (" (String.append (ScriptErrorString e) ")"))
            | AssertionFailed => Reject assertion_failed
            end
      end
  end.

(** [nSpendHeight] is [GetSpendHeight]: one more than the height of the block the view stands at. *)
Definition CheckInputs (params : ParamsTree) (nSpendHeight : Z) (tx : CTransaction) (fScriptChecks : bool) (flags : Z) (pvChecks : bool) :
    coins_prog (list CScriptCheck) :=
  if IsCoinBase tx then Return []
  else
    _ ← CheckTxInputs params tx nSpendHeight;
    if fScriptChecks then script_checks pvChecks flags tx 0 (vin tx) else Return [].

End Checks.

(** ** These programs only read *)

Lemma access_read_only txid : read_only (access txid).
Proof. by intros o. Qed.
Lemma of_result_read_only {A} (r : result A) : read_only (of_result r).
Proof. by destruct r. Qed.
#[export] Hint Resolve access_read_only of_result_read_only : coins.
Lemma GetOutputFor_read_only i : read_only (GetOutputFor i).
Proof. unfold GetOutputFor. auto 6 with coins. Qed.
#[export] Hint Resolve GetOutputFor_read_only : coins.
Lemma value_in_read_only ins n : read_only (value_in_loop ins n).
Proof. revert n. induction ins; intros n; cbn [value_in_loop]; auto with coins. Qed.
Lemma have_inputs_read_only ins : read_only (have_inputs_loop ins).
Proof. induction ins; cbn [have_inputs_loop]; auto 6 with coins. Qed.
Lemma p2sh_sigops_read_only ins n : read_only (p2sh_sigops_loop ins n).
Proof. revert n. induction ins; intros n; cbn [p2sh_sigops_loop]; auto with coins. Qed.
Lemma witness_sigops_read_only flags ins n : read_only (witness_sigops_loop flags ins n).
Proof. revert n. induction ins; intros n; cbn [witness_sigops_loop]; auto 6 with coins. Qed.
Lemma check_inputs_read_only params h ins n : read_only (check_inputs_loop params h ins n).
Proof. revert n. induction ins; intros n; cbn [check_inputs_loop]; auto 8 with coins. Qed.
#[export] Hint Resolve value_in_read_only have_inputs_read_only p2sh_sigops_read_only witness_sigops_read_only check_inputs_read_only : coins.
Lemma GetValueIn_read_only tx : read_only (GetValueIn tx).
Proof. unfold GetValueIn. auto with coins. Qed.
Lemma HaveInputs_read_only tx : read_only (HaveInputs tx).
Proof. unfold HaveInputs. auto with coins. Qed.
Lemma GetTransactionSigOpCost_read_only tx flags : read_only (GetTransactionSigOpCost tx flags).
Proof. unfold GetTransactionSigOpCost, GetP2SHSigOpCount. auto 8 with coins. Qed.
#[export] Hint Resolve GetValueIn_read_only HaveInputs_read_only GetTransactionSigOpCost_read_only : coins.
Lemma CheckTxInputs_read_only params tx h : read_only (CheckTxInputs params tx h).
Proof. unfold CheckTxInputs. auto 12 with coins. Qed.
Lemma script_checks_read_only `{CryptoOps} `{SignatureOps} `{ScriptHashOps} pv flags tx n ins : read_only (script_checks pv flags tx n ins).
Proof. revert n. induction ins as [|i ins IH]; intros n; cbn [script_checks]; auto 12 with coins. Qed.
#[export] Hint Resolve CheckTxInputs_read_only script_checks_read_only : coins.
Lemma CheckInputs_read_only `{CryptoOps} `{SignatureOps} `{ScriptHashOps} params h tx fs flags pv : read_only (CheckInputs params h tx fs flags pv).
Proof. unfold CheckInputs. auto 8 with coins. Qed.
#[export] Hint Resolve CheckInputs_read_only : coins.
