(* ===== verification/ConnectCoins.v ===== *)
(** * Connecting and disconnecting the coins of a block
      ([UpdateCoins], [ApplyTxInUndo] and the coins part of [ConnectBlock] and
      [DisconnectBlock] of [src/src/validation.cpp])

    Programs over a coins view: a block spends and creates coins and leaves an
    undo record, with which disconnecting it restores them. *)

From S2P Require Import Prelude Nicknames Serialize Script Arith Header BlockIndex Pow Transaction TxSerialize DerSignature Interpreter ScriptRules SigHash Coins CoinsCache TxVerify.
Open Scope Z_scope.
Open Scope kubu_scope.

(** ** One transaction *)

(** The undo record of an output that can be spent. *)
Definition spent_record (coins : CCoins) (nPos : Z) : option CTxInUndo :=
  if IsAvailable coins nPos then
    let o := default txout_null (coins_vout coins !! Z.to_nat nPos) in
    let coins := (Spend coins nPos).2 in
    Some (if bool_decide (coins_vout coins = []) then mkTxInUndo o (fCoinBase coins) (u32 (coins_nHeight coins)) (coins_nVersion coins)
          else CTxInUndo_of o)
  else None.

Fixpoint spend_inputs (ins : list CTxIn) : coins_prog (list CTxInUndo) :=
  match ins with
  | [] => Return []
  | i :: ins' =>
      let nPos := op_n (prevout i) in
      Modify (op_hash (prevout i)) (fun coins => (Spend coins nPos).2)
        (fun coins =>
           match spent_record coins nPos with
           | None => Reject assertion_failed
           | Some undo => rest ← spend_inputs ins'; Return (undo :: rest)
           end)
  end.

Definition UpdateCoins (tx : CTransaction) (nHeight : Z) : coins_prog CTxUndo :=
  vprevout ← (if IsCoinBase tx then Return [] else spend_inputs (vin tx));
  NewCoins (tx_hash tx) (IsCoinBase tx) (FromTx tx nHeight) (Return (mkTxUndo vprevout)).

(** The coins with an output restored, and whether nothing was in the way. *)
Definition cleared (undo : CTxInUndo) (coins : CCoins) : CCoins :=
  if negb (undo_nHeight undo =? 0) then mkCoins (undo_fCoinBase undo) [] (i32 (undo_nHeight undo)) (undo_nVersion undo) else coins.
Definition apply_undo (undo : CTxInUndo) (n : Z) (coins : CCoins) : CCoins :=
  let coins := cleared undo coins in
  let vout := if Z.of_nat (length (coins_vout coins)) <? u32 (n + 1) then resize (Z.to_nat (u32 (n + 1))) txout_null (coins_vout coins)
              else coins_vout coins in
  with_vout coins (<[Z.to_nat n := txout undo]> vout).
Definition undo_is_clean (undo : CTxInUndo) (n : Z) (coins : CCoins) : bool :=
  (if negb (undo_nHeight undo =? 0) then IsPruned coins else negb (IsPruned coins)) && negb (IsAvailable (cleared undo coins) n).
Definition ApplyTxInUndo (undo : CTxInUndo) (out : COutPoint) : coins_prog bool :=
  Modify (op_hash out) (apply_undo undo (op_n out)) (fun coins => Return (undo_is_clean undo (op_n out) coins)).

(** ** Disconnecting *)

(** The outputs of a transaction are checked and removed. *)
Definition remove_outputs (tx : CTransaction) (nHeight : Z) : coins_prog bool :=
  Modify (tx_hash tx) (fun _ => coins_empty)
    (fun coins =>
       let outs := ClearUnspendable coins in
       let outsBlock := FromTx tx nHeight in
       let outs := if coins_nVersion outsBlock <? 0 then with_version outs (coins_nVersion outsBlock) else outs in
       Return (coins_eqb outs outsBlock)).

(** The inputs, from the last to the first. *)
Fixpoint restore_inputs (l : list (CTxIn * CTxInUndo)) (fClean : bool) : coins_prog bool :=
  match l with
  | [] => Return fClean
  | (txin, undo) :: l' => ok ← ApplyTxInUndo undo (prevout txin); restore_inputs l' (fClean && ok)
  end.

(** The transactions with their undo records, from the last to the first; the first has none. *)
Fixpoint disconnect_txs (nHeight : Z) (l : list (CTransaction * option CTxUndo)) (fClean : bool) : coins_prog bool :=
  match l with
  | [] => Return fClean
  | (tx, txundo) :: l' =>
      same ← remove_outputs tx nHeight;
      fClean ← match txundo with
               | None => Return (fClean && same)
               | Some txundo =>
                   refuse negb (length (vprevout txundo) =? length (vin tx))%nat
                     with "DisconnectBlock(): transaction and undo data inconsistent";
                   restore_inputs (reverse (zip (vin tx) (vprevout txundo))) (fClean && same)
               end;
      disconnect_txs nHeight l' fClean
  end.
Definition DisconnectCoins (block : CBlock) (blockUndo : CBlockUndo) (nHeight : Z) : coins_prog bool :=
  refuse negb (length (vtxundo blockUndo) + 1 =? length (vtx block))%nat with "DisconnectBlock(): block and undo data inconsistent";
  disconnect_txs nHeight (reverse (zip (vtx block) (None :: (Some <$> vtxundo blockUndo)))) true.

(** ** Connecting *)

(** What [ConnectBlock] has computed when it comes to the transactions. *)
Record ConnectContext := mkConnectContext {
  c_params : ParamsTree;
  c_index : BlockMap;
  c_pindex : Z;
  c_nHeight : Z;
  c_fEnforceBIP30 : bool;
  c_flags : Z;
  c_nLockTimeFlags : Z;
  c_fScriptChecks : bool;
  c_fThreads : bool
}.

Section Connect.
Context `{CryptoOps} `{SignatureOps} `{ScriptHashOps}.
Context (ctx : ConnectContext).

Fixpoint check_BIP30 (txs : list CTransaction) : coins_prog unit :=
  match txs with
  | [] => Return tt
  | tx :: txs' =>
      coins ← access (tx_hash tx);
      refuse match coins with Some c => negb (IsPruned c) | None => false end with "bad-txns-BIP30";
      check_BIP30 txs'
  end.

Fixpoint prev_heights (ins : list CTxIn) : coins_prog (list Z) :=
  match ins with
  | [] => Return []
  | i :: ins' =>
      coins ← access (op_hash (prevout i));
      match coins with
      | None => Reject "null pointer"
      | Some c => rest ← prev_heights ins'; Return (coins_nHeight c :: rest)
      end
  end.

Definition check_spends (tx : CTransaction) : coins_prog unit :=
  if IsCoinBase tx then Return tt
  else
    have ← HaveInputs tx;
    refuse negb have with "bad-txns-inputs-missingorspent";
    prevheights ← prev_heights (vin tx);
    final ← of_result (SequenceLocks (c_index ctx) tx (c_nLockTimeFlags ctx) prevheights (c_pindex ctx));
    refuse negb final with "bad-txns-nonfinal";
    Return tt.

(** The fee and the script checks of a transaction. *)
Definition check_fee (tx : CTransaction) : coins_prog (Z * list CScriptCheck) :=
  if IsCoinBase tx then Return (0, [])
  else
    valueIn ← GetValueIn tx;
    valueOut ← of_result (GetValueOut tx);
    vChecks ← CheckInputs (c_params ctx) (c_nHeight ctx) tx (c_fScriptChecks ctx) (c_flags ctx) (c_fThreads ctx);
    Return (i64 (valueIn - valueOut), vChecks).

(** The results of the loop: the sum of the fees, the fee, undo record and checks of each transaction. *)
Fixpoint connect_txs (txs : list CTransaction) (nFees nSigOpsCost : Z) : coins_prog (Z * list (Z * CTxUndo * list CScriptCheck)) :=
  match txs with
  | [] => Return (nFees, [])
  | tx :: txs' =>
      _ ← check_spends tx;
      cost ← GetTransactionSigOpCost tx (c_flags ctx);
      let nSigOpsCost := nSigOpsCost + cost in
      refuse MAX_BLOCK_SIGOPS_COST <? nSigOpsCost with "bad-blk-sigops";
      fee ← check_fee tx;
      let nFees := i64 (nFees + fee.1) in
      txundo ← UpdateCoins tx (c_nHeight ctx);
      rest ← connect_txs txs' nFees nSigOpsCost;
      Return (rest.1, (fee.1, txundo, fee.2) :: rest.2)
  end.

Definition ConnectCoins (block : CBlock) : coins_prog (CBlockUndo * list Z) :=
  _ ← (if c_fEnforceBIP30 ctx then check_BIP30 (vtx block) else Return tt);
  r ← connect_txs (vtx block) 0 0;
  let blockReward := i64 (r.1 + GetKubuBlockSubsidy (c_nHeight ctx) (GetConsensus (c_params ctx) (c_nHeight ctx))) in
  match vtx block with
  | [] => Reject "out of range"
  | coinbase :: _ =>
      valueOut ← of_result (GetValueOut coinbase);
      refuse blockReward <? valueOut with "bad-cb-amount";
      refuse negb (forallb (fun check => succeeds (run_check check)) (r.2 ≫= snd)) with "";
      Return (mkBlockUndo (tail ((fun x => x.1.2) <$> r.2)), (fun x => x.1.1) <$> r.2)
  end.

End Connect.
