(* ===== verification/CoinsRules.v ===== *)
(** * Rules of coins
      (about the coins part of [ConnectBlock] and [DisconnectBlock])

    That disconnecting a block restores the coins it was connected to, and
    that blocks create no more than their subsidies. *)

From S2P Require Import Prelude Nicknames Serialize Script Arith Header BlockIndex Pow Transaction TxSerialize DerSignature Interpreter ScriptRules SigHash Coins CoinsCache TxVerify ConnectCoins.
Open Scope Z_scope.
Open Scope kubu_scope.

(** ** Coins of a chain *)

(** Coins as blocks leave them. *)
Definition utxos_ok (m : utxos) : Prop :=
  map_Forall (fun _ c => canonical (coins_vout c) /\ IsPruned c = false /\ 0 < coins_nHeight c < 2 ^ 31 /\
                         Z.of_nat (length (coins_vout c)) < 2 ^ 32) m.

(** A transaction whose fields are in range: the nulls among its outputs, if any, are plain. *)
Definition tx_ok (tx : CTransaction) : Prop :=
  Forall (fun i => 0 <= op_n (prevout i)) (vin tx) /\
  Forall (fun o => txout_IsNull o = true -> o = txout_null) (vout tx) /\ Z.of_nat (length (vout tx)) < 2 ^ 32.

Lemma length_cleanup l : (length (cleanup_vout l) <= length l)%nat.
Proof. destruct (cleanup_split l) as (k & E & _). apply (f_equal length) in E. rewrite length_app in E. lia. Qed.

Lemma set_coins_ok m txid c : utxos_ok m -> canonical (coins_vout c) -> 0 < coins_nHeight c < 2 ^ 31 ->
  Z.of_nat (length (coins_vout c)) < 2 ^ 32 -> utxos_ok (set_coins txid c m).
Proof.
  intros Hm Hc Hh Hl i x. rewrite set_coins_lookup. destruct (decide (i = txid)) as [->|]; [|apply Hm].
  intros [<- Hp]%unspent_Some. done.
Qed.
Lemma set_coins_restore m txid c c' : m !! txid = unspent c -> set_coins txid c (set_coins txid c' m) = m.
Proof.
  intros E. apply map_eq. intros i. rewrite !set_coins_lookup. by destruct (decide (i = txid)) as [->|].
Qed.

(** ** Spending and restoring one output *)

Lemma unspent_at_resize l k j : (length l <= k)%nat -> unspent_at (resize k txout_null l) j = unspent_at l j.
Proof.
  intros Hk. rewrite resize_spec, take_ge by lia. apply unspent_at_app_null. apply Forall_replicate. done.
Qed.

Lemma apply_undo_spec u n c : 0 <= n -> n + 1 < 2 ^ 32 -> txout_IsNull (txout u) = false ->
  Forall (fun o => txout_IsNull o = true -> o = txout_null) (coins_vout (cleared u c)) ->
  let z := Cleanup (apply_undo u n c) in
  canonical (coins_vout z) /\ z = with_vout (cleared u c) (coins_vout z) /\
  forall j, unspent_at (coins_vout z) j = if decide (j = Z.to_nat n) then Some (txout u) else unspent_at (coins_vout (cleared u c)) j.
Proof.
  intros Hn Hn1 Hu Hw z. unfold z, apply_undo, Cleanup. cbn [coins_vout with_vout]. set (w := coins_vout (cleared u c)) in *.
  rewrite (u32_id (n + 1)) by (unfold in_u32; lia). set (l := if Z.of_nat (length w) <? n + 1 then _ else _).
  assert (length w <= length l /\ Z.to_nat n < length l)%nat as [Hlw Hl].
  { unfold l. split_ifs; [rewrite length_resize|]; lia. }
  assert (forall j, unspent_at l j = unspent_at w j) as Hat.
  { intros j. unfold l. split_ifs; [|done]. apply unspent_at_resize. lia. }
  split_and!; [| |].
  - apply canonical_cleanup, nulls_insert; [|by rewrite Hu]. unfold l. split_ifs; [|done]. rewrite resize_spec. apply Forall_app.
    split; [by apply Forall_take|by apply Forall_replicate].
  - done.
  - intros j. rewrite unspent_at_cleanup, unspent_at_insert by done. rewrite Hu, Hat. done.
Qed.

Lemma spent_record_inv x n u : spent_record x n = Some u -> exists o, unspent_at (coins_vout x) (Z.to_nat n) = Some o /\
  txout u = o /\ Spend x n = (true, (Spend x n).2) /\
  u = if bool_decide (coins_vout (Spend x n).2 = []) then mkTxInUndo o (fCoinBase x) (u32 (coins_nHeight x)) (coins_nVersion x) else CTxInUndo_of o.
Proof.
  unfold spent_record. destruct (IsAvailable x n) eqn:E; [|done]. apply IsAvailable_unspent_at in E as E'. destruct E' as [o Ho].
  intros [= <-]. exists o. assert (default txout_null (coins_vout x !! Z.to_nat n) = o) as ->.
  { unfold unspent_at in Ho. destruct (coins_vout x !! Z.to_nat n) as [o'|]; [|done]. cbn in Ho |- *. by destruct (txout_IsNull o'); simplify_eq. }
  assert (Spend x n = (true, (Spend x n).2)) as Es by (unfold Spend; by rewrite E).
  assert (fCoinBase (Spend x n).2 = fCoinBase x /\ coins_nHeight (Spend x n).2 = coins_nHeight x /\ coins_nVersion (Spend x n).2 = coins_nVersion x)
    as (-> & -> & ->) by (unfold Spend; by rewrite E).
  split_and!; try done. by destruct (bool_decide _).
Qed.

(** Coins with an unspent output are those of the map. *)
Lemma unspent_found (m : utxos) h x n o : unspent x = m !! h -> unspent_at (coins_vout x) n = Some o -> m !! h = Some x /\ IsPruned x = false.
Proof.
  intros Hx Ho. assert (IsPruned x = false) as Hp.
  { destruct (IsPruned x) eqn:E; [|done]. rewrite IsPruned_unspent_at in E. by rewrite E in Ho. }
  split; [|done]. rewrite <- Hx. by apply unspent_Some.
Qed.
Lemma unspent_at_nonnull l i o : unspent_at l i = Some o -> txout_IsNull o = false.
Proof. unfold unspent_at. destruct (l !! i) as [o'|]; [|done]. cbn. destruct (txout_IsNull o') eqn:E; [done|]. by intros [= <-]. Qed.

(** What an undo record starts from, and that nothing is in its way. *)
Lemma undo_start x c n o u y :
  canonical (coins_vout c) -> c = with_vout x (coins_vout c) -> 0 < coins_nHeight x < 2 ^ 31 ->
  u = (if bool_decide (coins_vout c = []) then mkTxInUndo o (fCoinBase x) (u32 (coins_nHeight x)) (coins_nVersion x) else CTxInUndo_of o) ->
  unspent_at (coins_vout c) (Z.to_nat n) = None -> unspent y = unspent c ->
  undo_is_clean u n y = true /\ canonical (coins_vout (cleared u y)) /\
  (forall j, unspent_at (coins_vout (cleared u y)) j = unspent_at (coins_vout c) j) /\
  forall l, with_vout (cleared u y) l = with_vout x l.
Proof.
  intros Hc Ec Hh -> Hn Hy. pose proof (IsPruned_canonical c Hc) as Hp. unfold undo_is_clean, cleared.
  destruct (bool_decide_reflect (coins_vout c = [])) as [Eb|Eb].
  - cbn [undo_nHeight undo_fCoinBase undo_nVersion]. rewrite (u32_id (coins_nHeight x)) by (unfold in_u32; lia).
    rewrite (i32_id (coins_nHeight x)) by (unfold in_i32; lia). rewrite (proj2 (Z.eqb_neq _ _)) by lia. cbn [negb].
    rewrite (proj2 (unspent_None c)) in Hy by by apply Hp. apply unspent_None in Hy. rewrite Hy.
    split_and!; [done|apply canonical_nil|intros j; by rewrite Eb|done].
  - assert (IsPruned c = false) as Ep by (destruct (IsPruned c); [by destruct Eb; apply Hp|done]).
    rewrite (proj2 (unspent_Some c c)) in Hy by done. apply unspent_Some in Hy as [-> _].
    cbn [undo_nHeight CTxInUndo_of Z.eqb negb]. rewrite Ep. cbn [negb andb]. split_and!; [|done|done|intros l; by rewrite Ec].
    rewrite negb_true_iff, <- not_true_iff_false, IsAvailable_unspent_at, Hn. by intros [].
Qed.

Lemma spend_step m h n x u : utxos_ok m -> 0 <= n -> unspent x = m !! h -> spent_record x n = Some u ->
  let m1 := set_coins h (Cleanup (Spend x n).2) m in
  utxos_ok m1 /\ runs_to (ApplyTxInUndo u (mkOutPoint h n)) m1 m (Ok true).
Proof.
  intros Hm Hn Hx (o & Ho & Huo & Es & Hu)%spent_record_inv m1. destruct (unspent_found m h x _ o Hx Ho) as [Hmx Hp].
  destruct (Hm h x Hmx) as (Hc & _ & Hh & Hl). set (c' := (Spend x n).2) in *.
  destruct (Spend_spec x n o c' Hc Ho Es) as (Hc' & Ec' & Hat).
  assert (length (coins_vout c') <= length (coins_vout x))%nat as Hlen.
  { unfold c', Spend. destruct (IsAvailable x n); [|done]. unfold Cleanup. cbn [snd coins_vout with_vout].
    etrans; [apply length_cleanup|]. by rewrite length_insert. }
  unfold m1. rewrite (Cleanup_canonical c') by done. split; [apply set_coins_ok; [done|done|by rewrite Ec'|lia]|].
  pose proof (unspent_at_length _ _ _ Ho) as Hnl. pose proof (unspent_at_nonnull _ _ _ Ho) as Hnn.
  apply runs_modify. cbn [op_hash op_n]. intros y Hy Ht. rewrite set_coins_lookup, decide_True in Hy by done.
  destruct (undo_start x c' n o u y) as (Hclean & Hcy & Haty & Hmeta); [done|done|done|done|by rewrite Hat, decide_True|done|].
  rewrite Hclean. assert (Cleanup (apply_undo u n y) = x) as ->.
  { destruct (apply_undo_spec u n y) as (Hcz & -> & Hatz); [done|lia|by rewrite Huo|apply Hcy|]. rewrite Hmeta.
    assert (coins_vout (Cleanup (apply_undo u n y)) = coins_vout x) as ->; [|by destruct x].
    apply canonical_ext; [done|done|]. intros j. rewrite Hatz, Haty, Hat, Huo. by destruct (decide (j = Z.to_nat n)) as [->|]. }
  rewrite set_coins_restore; [apply reads_return|]. by rewrite Hx.
Qed.

(** ** Transactions *)

Lemma restore_inputs_app l1 l2 b m o : coins_run (restore_inputs (l1 ++ l2) b) m o ->
  coins_run (restore_inputs l1 b ≫= restore_inputs l2) m o.
Proof.
  revert b m. induction l1 as [|[i u] l1 IH]; intros b m; [done|]. cbn [app restore_inputs ApplyTxInUndo mbind coins_prog_bind].
  intros (x & Hx & Ht & Hr)%run_modify_inv. eapply run_modify; [done|done|]. by apply IH.
Qed.

Lemma spend_inputs_undo ins m m1 us : coins_run (spend_inputs ins) m (Some (m1, Ok us)) ->
  utxos_ok m -> Forall (fun i => 0 <= op_n (prevout i)) ins ->
  utxos_ok m1 /\ length us = length ins /\ forall b, runs_to (restore_inputs (reverse (zip ins us)) b) m1 m (Ok b).
Proof.
  revert m us. induction ins as [|i ins IH]; intros m us Hr Hm Hi; cbn [spend_inputs] in Hr.
  { apply run_return_inv in Hr as [= -> ->]. split_and!; [done..|]. intros b. apply reads_return. }
  apply run_modify_inv in Hr as (x & Hx & _ & Hr). apply Forall_cons in Hi as [Hn Hi].
  destruct (spent_record x _) as [u|] eqn:Eu; [|by apply run_reject_inv in Hr].
  apply run_bind_ok in Hr as (m2 & rest & Hr & [= -> ->]%run_return_inv).
  destruct (spend_step m (op_hash (prevout i)) (op_n (prevout i)) x u) as [Hm1 Hu]; [done..|].
  destruct (IH _ _ Hr Hm1 Hi) as (Hm' & Hl & Hrest). split_and!; [done|cbn; by rewrite Hl|]. intros b o.
  cbn [zip_with]. rewrite reverse_cons. intros Ho%restore_inputs_app. revert o Ho. eapply runs_bind; [apply Hrest|].
  cbn [restore_inputs]. replace (prevout i) with (mkOutPoint (op_hash (prevout i)) (op_n (prevout i))) by by destruct (prevout i).
  eapply runs_bind; [apply Hu|]. rewrite andb_true_r. apply reads_return.
Qed.

Lemma null_unspendable_twice o : null_unspendable (null_unspendable o) = null_unspendable o.
Proof. unfold null_unspendable at 2 3. destruct (IsUnspendable (scriptPubKey o)) eqn:E; [done|]. unfold null_unspendable. by rewrite E. Qed.
Lemma ClearUnspendable_FromTx tx h : tx_ok tx -> ClearUnspendable (FromTx tx h) = FromTx tx h.
Proof.
  intros (_ & Hv & _). unfold ClearUnspendable.
  assert (null_unspendable <$> coins_vout (FromTx tx h) = coins_vout (FromTx tx h)) as ->.
  { unfold FromTx, ClearUnspendable, Cleanup. cbn [coins_vout with_vout].
    destruct (cleanup_split (null_unspendable <$> vout tx)) as (k & E & _). revert E. generalize (cleanup_vout (null_unspendable <$> vout tx)) as l.
    intros l. generalize (vout tx) as v. induction l as [|o l IH]; intros [|o' v]; cbn; try done.
    intros [= Ho E]. f_equal; [|by eapply IH]. by rewrite <- Ho, null_unspendable_twice. }
  change (with_vout _ _) with (FromTx tx h). by apply Cleanup_canonical, FromTx_canonical.
Qed.

Lemma remove_outputs_undo tx h m : tx_ok tx -> m !! tx_hash tx = None ->
  runs_to (remove_outputs tx h) (set_coins (tx_hash tx) (Cleanup (FromTx tx h)) m) m (Ok true).
Proof.
  intros Htx Hm. pose proof Htx as (_ & Hv & _). rewrite Cleanup_canonical by by apply FromTx_canonical.
  apply runs_modify. intros x Hx Ht. rewrite set_coins_lookup, decide_True in Hx by done.
  assert (coins_eqb (let outs := ClearUnspendable x in
    if coins_nVersion (FromTx tx h) <? 0 then with_version outs (coins_nVersion (FromTx tx h)) else outs) (FromTx tx h) = true) as Eb.
  { cbv zeta. unfold unspent in Hx. destruct (IsPruned (FromTx tx h)) eqn:Ep, (IsPruned x) eqn:Ex; try done.
    - assert (forall v, IsPruned (with_version (ClearUnspendable x) v) = true /\ IsPruned (ClearUnspendable x) = true) as Hc.
      { intros v. assert (coins_vout x = []) as E by by apply tidy_pruned. unfold ClearUnspendable, IsPruned. cbn. by rewrite E. }
      unfold coins_eqb. rewrite Ep. destruct (_ <? 0); by rewrite (proj1 (Hc _)) || rewrite (proj2 (Hc 0)).
    - injection Hx as ->. rewrite ClearUnspendable_FromTx by done. unfold coins_eqb. apply orb_true_iff. right. apply bool_decide_eq_true.
      destruct (_ <? 0); [|done]. by destruct (FromTx tx h). }
  cbv beta zeta in Eb |- *. rewrite Eb. rewrite set_coins_restore; [apply reads_return|done].
Qed.

(** A transaction, undone. *)
Lemma UpdateCoins_undo tx h m m1 u : coins_run (UpdateCoins tx h) m (Some (m1, Ok u)) ->
  utxos_ok m -> tx_ok tx -> 0 < h < 2 ^ 31 -> (IsCoinBase tx = true -> m !! tx_hash tx = None) ->
  utxos_ok m1 /\ exists m', runs_to (remove_outputs tx h) m1 m' (Ok true) /\
  if IsCoinBase tx then m' = m
  else length (vprevout u) = length (vin tx) /\
       forall b, runs_to (restore_inputs (reverse (zip (vin tx) (vprevout u))) b) m' m (Ok b).
Proof.
  intros Hr Hm Htx Hh Hcb. pose proof Htx as (Hi & Hv & Hl). unfold UpdateCoins in Hr. apply run_bind_ok in Hr as (m' & us & Hs & Hr).
  assert (utxos_ok m' /\ if IsCoinBase tx then m' = m else length us = length (vin tx) /\
    forall b, runs_to (restore_inputs (reverse (zip (vin tx) us)) b) m' m (Ok b)) as [Hm' Hu].
  { destruct (IsCoinBase tx); [by apply run_return_inv in Hs as [= -> ->]|]. by apply spend_inputs_undo in Hs as (? & ? & ?). }
  apply run_new_inv in Hr as [[Hnew [= -> ->]%run_return_inv]|(_ & _ & ?)]; [|done].
  assert (m' !! tx_hash tx = None) as Hn.
  { destruct Hnew as [E|]; [|done]. rewrite E in Hu. subst m'. by apply Hcb. }
  split.
  - rewrite Cleanup_canonical by by apply FromTx_canonical. apply set_coins_ok; [done|by apply FromTx_canonical|done|].
    unfold FromTx, ClearUnspendable, Cleanup. cbn [coins_vout with_vout]. pose proof (length_cleanup (null_unspendable <$> vout tx)) as Hle.
    rewrite length_fmap in Hle. lia.
  - exists m'. split; [by apply remove_outputs_undo|done].
Qed.

(** ** Blocks *)

Inductive updates (h : Z) : list CTransaction -> utxos -> list CTxUndo -> utxos -> Prop :=
| updates_nil m : updates h [] m [] m
| updates_cons tx txs m m1 u us m2 :
    coins_run (UpdateCoins tx h) m (Some (m1, Ok u)) -> updates h txs m1 us m2 -> updates h (tx :: txs) m (u :: us) m2.

Lemma disconnect_txs_app h l1 l2 b m o : coins_run (disconnect_txs h (l1 ++ l2) b) m o ->
  coins_run (disconnect_txs h l1 b ≫= disconnect_txs h l2) m o.
Proof.
  revert b m. induction l1 as [|[tx u] l1 IH]; intros b m; [done|]. cbn [app disconnect_txs]. intros Hr.
  apply run_assoc. eapply run_bind_mono; [|exact Hr]. cbn beta. intros same m' Hr'.
  apply run_assoc. eapply run_bind_mono; [|exact Hr']. intros b' m'' Hr''. by apply IH.
Qed.

(** The transactions that are no coinbases, undone from the last to the first. *)
Lemma updates_undo h txs m us m2 : updates h txs m us m2 -> utxos_ok m -> Forall tx_ok txs -> 0 < h < 2 ^ 31 ->
  Forall (fun tx => IsCoinBase tx = false) txs ->
  utxos_ok m2 /\ length us = length txs /\ runs_to (disconnect_txs h (reverse (zip txs (Some <$> us))) true) m2 m (Ok true).
Proof.
  induction 1 as [m|tx txs m m1 u us m2 Hr Hus IH]; intros Hm Htx Hh Hcb.
  { split_and!; [done|done|apply reads_return]. }
  apply Forall_cons in Htx as [Ht Htx]. apply Forall_cons in Hcb as [Hc Hcb].
  destruct (UpdateCoins_undo tx h m m1 u Hr Hm Ht Hh) as (Hm1 & m' & Hrem & Hrest); [by rewrite Hc|]. rewrite Hc in Hrest. destruct Hrest as [Hl Hrest].
  destruct (IH Hm1 Htx Hh Hcb) as (Hm2 & Hlen & Hd). split_and!; [done|cbn; by rewrite Hlen|]. intros o.
  rewrite fmap_cons. cbn [zip_with]. rewrite reverse_cons. intros Ho%disconnect_txs_app. revert o Ho. eapply runs_bind; [exact Hd|].
  cbn [disconnect_txs]. eapply runs_bind; [exact Hrem|]. cbn beta. rewrite Hl, Nat.eqb_refl. cbn [negb andb].
  eapply runs_bind; [apply Hrest|]. apply reads_return.
Qed.

(** Spending adds no coins, and a transaction only its own. *)
Lemma spend_inputs_keeps ins m m1 us : coins_run (spend_inputs ins) m (Some (m1, Ok us)) -> forall i, m !! i = None -> m1 !! i = None.
Proof.
  revert m us. induction ins as [|i ins IH]; intros m us Hr j Hj; cbn [spend_inputs] in Hr; [by apply run_return_inv in Hr as [= -> ->]|].
  apply run_modify_inv in Hr as (x & Hx & _ & Hr). destruct (spent_record x _) as [u|] eqn:Eu; [|by apply run_reject_inv in Hr].
  apply run_bind_ok in Hr as (m2 & rest & Hr & [= -> ->]%run_return_inv). apply (IH _ _ Hr). rewrite set_coins_lookup.
  apply spent_record_inv in Eu as (o & Ho & _). destruct (unspent_found _ _ _ _ _ Hx Ho) as [Hmx _].
  destruct (decide (j = op_hash (prevout i))) as [->|]; [congruence|done].
Qed.

Lemma spend_inputs_length ins m m1 us : coins_run (spend_inputs ins) m (Some (m1, Ok us)) -> length us = length ins.
Proof.
  revert m us. induction ins as [|i ins IH]; intros m us Hr; cbn [spend_inputs] in Hr; [by apply run_return_inv in Hr as [= -> ->]|].
  apply run_modify_inv in Hr as (x & _ & _ & Hr). destruct (spent_record x _) as [u|]; [|by apply run_reject_inv in Hr].
  apply run_bind_ok in Hr as (m2 & rest & Hr & [= -> ->]%run_return_inv). cbn. by rewrite (IH _ _ Hr).
Qed.

Lemma spent_inputs_keeps tx m m1 us : coins_run (if IsCoinBase tx then Return [] else spend_inputs (vin tx)) m (Some (m1, Ok us)) ->
  forall i, m !! i = None -> m1 !! i = None.
Proof. intros Hr. destruct (IsCoinBase tx); [by apply run_return_inv in Hr as [= -> ->]|by eapply spend_inputs_keeps]. Qed.

Lemma UpdateCoins_keeps tx h m m1 u : coins_run (UpdateCoins tx h) m (Some (m1, Ok u)) ->
  forall i, i <> tx_hash tx -> m !! i = None -> m1 !! i = None.
Proof.
  intros (m' & us & Hs & Hr)%run_bind_ok i Hi Hni. apply run_new_inv in Hr as [[_ [= -> ->]%run_return_inv]|(_ & _ & ?)]; [|done].
  rewrite set_coins_lookup, decide_False by done. by eapply spent_inputs_keeps.
Qed.

Lemma updates_keeps h txs m us m2 : updates h txs m us m2 -> forall i, i ∉ tx_hash <$> txs -> m !! i = None -> m2 !! i = None.
Proof.
  induction 1 as [|tx txs m m1 u us m2 Hu _ IH]; intros i Hi Hn; [done|]. rewrite fmap_cons, not_elem_of_cons in Hi.
  destruct Hi as [Hi Hs]. apply IH; [done|]. by eapply UpdateCoins_keeps.
Qed.

(** What holds of all coins and of the new ones, and survives spending, holds
    after; and what it gives of an undo record holds of all of them. *)
Section Kept.
Context (P : Z -> CCoins -> Prop) (Q : CTxInUndo -> Prop).
Hypothesis spend_kept : forall i x n, P i x -> P i (Cleanup (Spend x n).2).
Hypothesis record_kept : forall i x n u, P i x -> spent_record x n = Some u -> Q u.

Lemma set_coins_forall m txid c : map_Forall P m -> P txid c -> map_Forall P (set_coins txid c m).
Proof.
  intros Hm Hc i x. rewrite set_coins_lookup. destruct (decide (i = txid)) as [->|]; [|apply Hm]. unfold unspent. destruct (IsPruned c); [done|]. by intros [= <-].
Qed.
Lemma spend_inputs_forall ins m m1 us : coins_run (spend_inputs ins) m (Some (m1, Ok us)) -> map_Forall P m -> map_Forall P m1 /\ Forall Q us.
Proof.
  revert m us. induction ins as [|i ins IH]; intros m us Hr Hm; cbn [spend_inputs] in Hr; [by apply run_return_inv in Hr as [= -> ->]|].
  apply run_modify_inv in Hr as (x & Hx & _ & Hr). destruct (spent_record x _) as [u|] eqn:Eu; [|by apply run_reject_inv in Hr].
  apply run_bind_ok in Hr as (m3 & rest & Hr & [= -> ->]%run_return_inv). apply spent_record_inv in Eu as Eu'. destruct Eu' as (o & Ho & _).
  destruct (unspent_found _ _ _ _ _ Hx Ho) as [Hmx _]. pose proof (Hm _ _ Hmx) as HP.
  destruct (IH _ _ Hr) as [Hm' Hq]; [by apply set_coins_forall; [|apply spend_kept]|]. split; [done|]. constructor; [by eapply record_kept|done].
Qed.
Lemma updates_forall h txs m us m2 : updates h txs m us m2 -> Forall (fun tx => P (tx_hash tx) (Cleanup (FromTx tx h))) txs -> map_Forall P m ->
  map_Forall P m2 /\ Forall2 (fun tx u => Forall Q (vprevout u) /\ (length (vprevout u) <= length (vin tx))%nat) txs us.
Proof.
  induction 1 as [|tx txs m m1 u us m2 Hu _ IH]; intros Hn Hm; [by split|]. apply Forall_cons in Hn as [Hn Hns].
  apply run_bind_ok in Hu as (m' & us' & Hs & Hr). apply run_new_inv in Hr as [[_ [= -> ->]%run_return_inv]|(_ & _ & ?)]; [|done].
  assert (map_Forall P m' /\ Forall Q us' /\ (length us' <= length (vin tx))%nat) as (Hm' & Hq & Hl).
  { destruct (IsCoinBase tx); [apply run_return_inv in Hs as [= -> ->]; split_and!; [done|done|cbn; lia]|].
    destruct (spend_inputs_forall _ _ _ _ Hs Hm). rewrite (spend_inputs_length _ _ _ _ Hs). by split_and!. }
  destruct (IH Hns) as [Hm2 Hall]; [by apply set_coins_forall|]. split; [done|]. by constructor.
Qed.
End Kept.

Lemma UpdateCoins_safe tx h m : m !! tx_hash tx = None -> safe (UpdateCoins tx h) m.
Proof.
  intros Hn. assert (forall ins, no_creation (spend_inputs ins)) as Hnc.
  { induction ins as [|i ins IH]; [done|]. cbn. intros x. destruct (spent_record _ _); [|done]. by apply no_creation_bind. }
  unfold UpdateCoins. apply safe_bind; [destruct (IsCoinBase tx); by apply no_creation_safe|]. intros m1 us Hr Hnone.
  apply run_new_inv in Hnone as [[_ ?%run_return_inv]|(_ & Hne & _)]; [done|]. apply Hne. by eapply spent_inputs_keeps.
Qed.

(** What is spent is on record, so that the outcome is determined. *)
Lemma spend_inputs_det ins m m1 us m2 vs : coins_run (spend_inputs ins) m (Some (m1, Ok us)) ->
  coins_run (spend_inputs ins) m (Some (m2, Ok vs)) -> m1 = m2 /\ us = vs.
Proof.
  revert m us vs. induction ins as [|i ins IH]; intros m us vs H1 H2; cbn [spend_inputs] in H1, H2.
  { apply run_return_inv in H1 as [= -> ->], H2 as [= -> ->]. done. }
  apply run_modify_inv in H1 as (x & Hx & _ & H1), H2 as (y & Hy & _ & H2).
  destruct (spent_record x _) as [u|] eqn:Eu; [|by apply run_reject_inv in H1]. destruct (spent_record y _) as [v|] eqn:Ev; [|by apply run_reject_inv in H2].
  apply spent_record_inv in Eu as Eu'. destruct Eu' as (ox & Hox & _). apply spent_record_inv in Ev as Ev'. destruct Ev' as (oy & Hoy & _).
  destruct (unspent_found _ _ _ _ _ Hx Hox) as [Hmx _]. destruct (unspent_found _ _ _ _ _ Hy Hoy) as [Hmy _]. simplify_eq.
  apply run_bind_ok in H1 as (m3 & r1 & H1 & [= -> ->]%run_return_inv), H2 as (m4 & r2 & H2 & [= -> ->]%run_return_inv).
  by destruct (IH _ _ _ H1 H2) as [-> ->].
Qed.

Lemma UpdateCoins_det tx h m m1 u m2 v : coins_run (UpdateCoins tx h) m (Some (m1, Ok u)) ->
  coins_run (UpdateCoins tx h) m (Some (m2, Ok v)) -> m1 = m2 /\ u = v.
Proof.
  intros (m3 & us & Hs & Hr)%run_bind_ok (m4 & vs & Ht & Hq)%run_bind_ok.
  assert (m3 = m4 /\ us = vs) as [-> ->].
  { destruct (IsCoinBase tx); [|by eapply spend_inputs_det]. apply run_return_inv in Hs as [= -> ->], Ht as [= -> ->]. done. }
  apply run_new_inv in Hr as [[_ [= -> ->]%run_return_inv]|(_ & _ & ?)]; [|done].
  by apply run_new_inv in Hq as [[_ [= -> ->]%run_return_inv]|(_ & _ & ?)].
Qed.

Lemma updates_det h txs m us m2 vs m3 : updates h txs m us m2 -> updates h txs m vs m3 -> us = vs /\ m2 = m3.
Proof.
  intros Hu. revert vs. induction Hu as [|tx txs m m1 u us m2 Hu _ IH]; intros vs Hv; inversion Hv; subst; [done|].
  match goal with H : coins_run _ m _, Hs : updates _ txs _ _ m3 |- _ => destruct (UpdateCoins_det _ _ _ _ _ _ _ Hu H) as [-> ->]; by destruct (IH _ Hs) as [-> ->] end.
Qed.

Section Blocks.
Context `{CryptoOps} `{SignatureOps} `{ScriptHashOps}.
Context (ctx : ConnectContext).

Lemma prev_heights_read_only ins : read_only (prev_heights ins).
Proof. induction ins; cbn [prev_heights]; auto 7 with coins. Qed.
#[local] Hint Resolve prev_heights_read_only : coins.
Lemma check_spends_read_only tx : read_only (check_spends ctx tx).
Proof. unfold check_spends. auto 12 with coins. Qed.
Lemma check_fee_read_only tx : read_only (check_fee ctx tx).
Proof. unfold check_fee. auto 9 with coins. Qed.
Lemma check_BIP30_read_only txs : read_only (check_BIP30 txs).
Proof. induction txs; cbn [check_BIP30]; auto 7 with coins. Qed.
#[local] Hint Resolve check_spends_read_only check_fee_read_only check_BIP30_read_only : coins.

Lemma check_BIP30_ok txs m u : coins_run (check_BIP30 txs) m (Some (m, Ok u)) -> Forall (fun tx => m !! tx_hash tx = None) txs.
Proof.
  induction txs as [|tx txs IH]; [constructor|]. cbn [check_BIP30]. intros Hr. apply run_access_inv in Hr as (o & Ho & _ & Hr).
  cbn in Hr. destruct o as [c|]; cbn in Ho, Hr.
  - destruct (negb (IsPruned c)) eqn:E; [by apply run_reject_inv in Hr|]. apply negb_false_iff, unspent_None in E.
    constructor; [congruence|by apply IH].
  - constructor; [done|by apply IH].
Qed.

(** One turn of the loop. *)
Lemma connect_txs_inv tx txs f s m m' r : coins_run (connect_txs ctx (tx :: txs) f s) m (Some (m', Ok r)) ->
  exists cost fee m1 u rest,
    coins_run (check_spends ctx tx) m (Some (m, Ok tt)) /\
    coins_run (GetTransactionSigOpCost tx (c_flags ctx)) m (Some (m, Ok cost)) /\ s + cost <= MAX_BLOCK_SIGOPS_COST /\
    coins_run (check_fee ctx tx) m (Some (m, Ok fee)) /\ coins_run (UpdateCoins tx (c_nHeight ctx)) m (Some (m1, Ok u)) /\
    coins_run (connect_txs ctx txs (i64 (f + fee.1)) (s + cost)) m1 (Some (m', Ok rest)) /\ r = (rest.1, (fee.1, u, fee.2) :: rest.2).
Proof.
  cbn [connect_txs]. intros Hr. apply run_read_ok in Hr as ([] & Hs & Hr); [|auto with coins].
  apply run_read_ok in Hr as (cost & Hc & Hr); [|auto with coins]. destruct (_ <? _) eqn:Ec; [by apply run_reject_inv in Hr|].
  apply Z.ltb_ge in Ec. apply run_read_ok in Hr as (fee & Hf & Hr); [|auto with coins]. apply run_bind_ok in Hr as (m1 & u & Hu & Hr).
  apply run_bind_ok in Hr as (m2 & rest & Hrest & [= -> ->]%run_return_inv). exists cost, fee, m1, u, rest. by split_and!.
Qed.

Lemma connect_txs_updates txs f s m m' r : coins_run (connect_txs ctx txs f s) m (Some (m', Ok r)) ->
  updates (c_nHeight ctx) txs m ((fun x => x.1.2) <$> r.2) m'.
Proof.
  revert f s m r. induction txs as [|tx txs IH]; intros f s m r Hr.
  { apply run_return_inv in Hr as [= -> ->]. constructor. }
  apply connect_txs_inv in Hr as (cost & fee & m1 & u & rest & _ & _ & _ & _ & Hu & Hrest & ->). econstructor; [exact Hu|by eapply IH].
Qed.

Lemma connect_txs_safe txs f s m : NoDup (tx_hash <$> txs) -> Forall (fun tx => m !! tx_hash tx = None) txs -> safe (connect_txs ctx txs f s) m.
Proof.
  revert f s m. induction txs as [|tx txs IH]; intros f s m Hnd Hn; [by apply no_creation_safe|].
  rewrite fmap_cons, NoDup_cons in Hnd. destruct Hnd as [Hnew Hnd]. apply Forall_cons in Hn as [Ht Hn].
  pose proof (UpdateCoins_safe tx (c_nHeight ctx) m Ht) as Hsafe. pose proof (UpdateCoins_keeps tx (c_nHeight ctx) m) as Hkeep. cbn [connect_txs].
  apply safe_read; [auto with coins|intros [] _]. apply safe_read; [auto with coins|intros cost _].
  destruct (_ <? _); [by apply no_creation_safe|]. apply safe_read; [auto with coins|intros fee _].
  apply safe_bind; [done|intros m1 u Hu]. apply safe_bind; [|intros m2 rest _; by apply no_creation_safe]. apply IH; [done|].
  rewrite Forall_forall in Hn |- *. intros tx' Htx'. apply (Hkeep _ _ Hu); [|by apply Hn].
  intros E. apply Hnew. rewrite <- E. by apply (list_elem_of_fmap_2 tx_hash).
Qed.

(** The parts of a block that was accepted. *)
Lemma ConnectCoins_inv block m m' undo fees : coins_run (ConnectCoins ctx block) m (Some (m', Ok (undo, fees))) ->
  exists coinbase txs r valueOut, vtx block = coinbase :: txs /\
    (c_fEnforceBIP30 ctx = true -> Forall (fun tx => m !! tx_hash tx = None) (vtx block)) /\
    coins_run (connect_txs ctx (vtx block) 0 0) m (Some (m', Ok r)) /\ GetValueOut coinbase = Ok valueOut /\
    valueOut <= i64 (r.1 + GetKubuBlockSubsidy (c_nHeight ctx) (GetConsensus (c_params ctx) (c_nHeight ctx))) /\
    Forall (fun check => run_check check = Success tt) (r.2 ≫= snd) /\
    undo = mkBlockUndo (tail ((fun x => x.1.2) <$> r.2)) /\ fees = (fun x => x.1.1) <$> r.2.
Proof.
  unfold ConnectCoins. intros Hr. apply run_read_ok in Hr as ([] & Hb & Hr); [|auto with coins].
  apply run_bind_ok in Hr as (m1 & r & Hc & Hr). destruct (vtx block) as [|coinbase txs] eqn:Ev; [by apply run_reject_inv in Hr|].
  destruct (GetValueOut coinbase) as [v|e] eqn:Eo; cbn in Hr; [|by apply run_reject_inv in Hr].
  destruct (_ <? _) eqn:Er in Hr; [by apply run_reject_inv in Hr|]. destruct (negb _) eqn:Es in Hr; [by apply run_reject_inv in Hr|].
  apply run_return_inv in Hr as [= -> -> ->]. exists coinbase, txs, r, v. split_and!; try done.
  - intros E. rewrite E in Hb. by eapply check_BIP30_ok.
  - by apply Z.ltb_ge in Er.
  - apply negb_false_iff in Es. rewrite forallb_forall in Es. apply Forall_forall. intros x Hx. specialize (Es x).
    apply list_elem_of_In in Hx. specialize (Es Hx). by destruct (run_check x) as [[]| |].
Qed.

Lemma ConnectCoins_safe block m : NoDup (tx_hash <$> vtx block) ->
  c_fEnforceBIP30 ctx = true \/ Forall (fun tx => m !! tx_hash tx = None) (vtx block) -> safe (ConnectCoins ctx block) m.
Proof.
  intros Hnd Hb. unfold ConnectCoins. apply safe_read; [auto with coins|]. intros [] Hr. apply safe_bind.
  - apply connect_txs_safe; [done|]. destruct Hb as [E|]; [|done]. rewrite E in Hr. by eapply check_BIP30_ok.
  - intros m1 r _. apply read_only_safe. destruct (vtx block); auto 8 with coins.
Qed.

Lemma DisconnectCoins_safe block undo h m : safe (DisconnectCoins block undo h) m.
Proof.
  apply no_creation_safe. unfold DisconnectCoins. destruct (negb _); [done|]. generalize true.
  assert (forall l b, no_creation (restore_inputs l b)) as Hr.
  { induction l as [|[i u] l IH]; intros b; cbn [restore_inputs]; [done|]. intros x. apply IH. }
  induction (reverse _) as [|[tx u] l IH]; intros b; cbn [disconnect_txs]; [done|].
  apply no_creation_bind; [by intros x|intros same]. apply no_creation_bind; [|done].
  destruct u as [u|]; [|done]. destruct (negb _); [done|apply Hr].
Qed.

(** The block, undone. *)
Lemma disconnect_coins_undo block m m' undo fees :
  coins_run (ConnectCoins ctx block) m (Some (m', Ok (undo, fees))) -> utxos_ok m -> Forall tx_ok (vtx block) -> 0 < c_nHeight ctx < 2 ^ 31 ->
  (forall tx, head (vtx block) = Some tx -> IsCoinBase tx = true /\ m !! tx_hash tx = None) ->
  Forall (fun tx => IsCoinBase tx = false) (tail (vtx block)) ->
  utxos_ok m' /\ runs_to (DisconnectCoins block undo (c_nHeight ctx)) m' m (Ok true).
Proof.
  intros (cb & txs & r & v & Ev & _ & Hc & _ & _ & _ & -> & _)%ConnectCoins_inv Hm Htx Hh Hhead Htail.
  apply connect_txs_updates in Hc. rewrite Ev in *. cbn [head tail] in *. destruct (Hhead cb eq_refl) as [Hcb Hnew].
  apply Forall_cons in Htx as [Hcbok Htx]. set (l := (fun x : Z * CTxUndo * list CScriptCheck => x.1.2) <$> r.2) in *.
  inversion Hc as [|? ? ? m1 u us ? Hu Hus El]; subst. destruct (UpdateCoins_undo cb _ m m1 u Hu Hm Hcbok Hh) as (Hm1 & m0 & Hrem & Hrest); [done|].
  rewrite Hcb in Hrest. subst m0. destruct (updates_undo _ _ _ _ _ Hus Hm1 Htx Hh Htail) as (Hm' & Hlen & Hd). split; [done|].
  unfold DisconnectCoins. rewrite Ev. cbn [tail vtxundo length]. rewrite Hlen, Nat.add_comm, Nat.eqb_refl. cbn [negb]. intros o.
  cbn [zip_with]. rewrite reverse_cons. intros Ho%disconnect_txs_app. revert o Ho. eapply runs_bind; [exact Hd|]. cbn [disconnect_txs].
  eapply runs_bind; [exact Hrem|]. apply reads_return.
Qed.

End Blocks.
