(* ===== verification/CoinsSupply.v ===== *)
(** * The coins in existence
      (about the coins part of [ConnectBlock])

    What a transaction spends is what its undo record holds, and blocks create
    no more than their subsidies. *)

From S2P Require Import Prelude Nicknames Serialize Script Arith Header BlockIndex Pow Transaction TxSerialize DerSignature Interpreter ScriptRules SigHash Coins CoinsCache TxVerify ConnectCoins CoinsRules.
Open Scope Z_scope.
Open Scope kubu_scope.

(** ** Amounts *)

Definition vout_value (l : list CTxOut) : Z := foldr (fun o n => (if txout_IsNull o then 0 else nValue o) + n) 0 l.
Definition coins_value (c : CCoins) : Z := vout_value (coins_vout c).
Definition total_value (m : utxos) : Z := map_fold (fun _ c n => coins_value c + n) 0 m.
Definition zsum (l : list Z) : Z := foldr Z.add 0 l.

Definition value_at (m : utxos) (h : Z) : Z := match m !! h with Some c => coins_value c | None => 0 end.
Definition values_ok (m : utxos) : Prop := map_Forall (fun _ c => Forall (fun o => txout_IsNull o = false -> 0 <= nValue o) (coins_vout c)) m.

Lemma vout_value_app l k : vout_value (l ++ k) = vout_value l + vout_value k.
Proof. unfold vout_value. induction l as [|o l IH]; cbn in *; lia. Qed.
Lemma vout_value_nulls l : Forall (fun o => txout_IsNull o = true) l -> vout_value l = 0.
Proof. unfold vout_value. induction 1 as [|o l Ho _ IH]; cbn; [done|]. rewrite Ho. lia. Qed.
Lemma vout_value_cleanup l : vout_value (cleanup_vout l) = vout_value l.
Proof. destruct (cleanup_split l) as (k & E & Hk). rewrite E at 2. rewrite vout_value_app, (vout_value_nulls k) by done. lia. Qed.
Lemma vout_value_insert l i o : unspent_at l i = Some o -> vout_value (<[i := txout_null]> l) = vout_value l - nValue o.
Proof.
  unfold unspent_at, vout_value. revert i. induction l as [|x l IH]; intros [|i]; cbn; try done.
  - destruct (txout_IsNull x) eqn:E; [done|]. intros [= ->]. lia.
  - intros Hi. rewrite IH by done. lia.
Qed.
Lemma vout_value_nonneg l : Forall (fun o => txout_IsNull o = false -> 0 <= nValue o) l -> 0 <= vout_value l.
Proof. unfold vout_value. induction 1 as [|o l Ho _ IH]; cbn; [done|]. destruct (txout_IsNull o); [|specialize (Ho eq_refl)]; lia. Qed.
Lemma coins_value_pruned c : IsPruned c = true -> coins_value c = 0.
Proof.
  unfold IsPruned. rewrite forallb_forall. intros Hp. apply vout_value_nulls, Forall_forall. intros o Ho. by apply Hp, list_elem_of_In.
Qed.

Lemma total_delete m h : total_value m = value_at m h + total_value (delete h m).
Proof.
  unfold value_at. destruct (m !! h) as [c|] eqn:E.
  - unfold total_value at 1. rewrite (map_fold_delete_L _ _ h c); [done| |done]. intros. lia.
  - by rewrite delete_id.
Qed.
Lemma total_set m h c : total_value (set_coins h c m) = total_value m - value_at m h + coins_value c.
Proof.
  rewrite (total_delete (set_coins h c m) h), (total_delete m h).
  assert (delete h (set_coins h c m) = delete h m) as ->.
  { apply map_eq. intros i. destruct (decide (i = h)) as [->|Hn]; [by rewrite !lookup_delete_eq|].
    rewrite !lookup_delete_ne by done. rewrite set_coins_lookup. by rewrite decide_False. }
  assert (value_at (set_coins h c m) h = coins_value c) as ->; [|lia].
  unfold value_at. rewrite set_coins_lookup, decide_True by done. unfold unspent. destruct (IsPruned c) eqn:E; [|done]. symmetry. by apply coins_value_pruned.
Qed.
Lemma total_nonneg m : values_ok m -> 0 <= total_value m.
Proof.
  intros Hm. unfold total_value. revert Hm. apply (map_fold_weak_ind (fun n m => values_ok m -> 0 <= n)); [done|].
  intros h c m' n Hh IH Hok. apply map_Forall_insert in Hok as [Hc Hok]; [|done]. specialize (IH Hok).
  pose proof (vout_value_nonneg _ Hc). unfold coins_value. lia.
Qed.
Lemma value_at_nonneg m h : values_ok m -> 0 <= value_at m h.
Proof. intros Hm. unfold value_at. destruct (m !! h) as [c|] eqn:E; [|done]. by apply vout_value_nonneg, (Hm h). Qed.

Lemma sum_cons x l : zsum (x :: l) = x + zsum l.
Proof. done. Qed.

Lemma sum_nonneg outs : Forall (fun o => 0 <= nValue o) outs -> 0 <= zsum (nValue <$> outs).
Proof. induction 1 as [|o outs Ho _ IH]; [done|]. rewrite fmap_cons, sum_cons. lia. Qed.

(** ** Spending *)

Lemma values_ok_set m h c : values_ok m -> Forall (fun o => txout_IsNull o = false -> 0 <= nValue o) (coins_vout c) -> values_ok (set_coins h c m).
Proof.
  intros Hm Hc i x. rewrite set_coins_lookup. destruct (decide (i = h)) as [->|]; [|apply Hm]. by intros [<- _]%unspent_Some.
Qed.
Lemma cleanup_Forall (P : CTxOut -> Prop) l : Forall P l -> Forall P (cleanup_vout l).
Proof. destruct (cleanup_split l) as (k & E & _). rewrite E at 1. by intros [? _]%Forall_app. Qed.

Lemma Spend_vout x n o : unspent_at (coins_vout x) (Z.to_nat n) = Some o ->
  coins_vout (Cleanup (Spend x n).2) = cleanup_vout (cleanup_vout (<[Z.to_nat n := txout_null]> (coins_vout x))).
Proof. intros Ho. unfold Spend. by rewrite (proj2 (IsAvailable_unspent_at x n)) by by eexists. Qed.

(** One input: the output was unspent, its value leaves the total, and nothing else becomes available. *)
Lemma spend_one m h n x u : unspent x = m !! h -> spent_record x n = Some u -> values_ok m ->
  let m1 := set_coins h (Cleanup (Spend x n).2) m in
  available m (mkOutPoint h n) = Some (txout u) /\ values_ok m1 /\ total_value m1 = total_value m - nValue (txout u) /\
  forall p o, available m1 p = Some o -> available m p = Some o.
Proof.
  intros Hx (o & Ho & <- & _ & _)%spent_record_inv Hm m1. destruct (unspent_found m h x _ _ Hx Ho) as [Hmx Hp]. split_and!.
  - unfold available. cbn [op_hash op_n]. by rewrite Hmx.
  - apply values_ok_set; [done|]. erewrite Spend_vout by done. do 2 apply cleanup_Forall. apply Forall_insert; [by apply (Hm h)|done].
  - unfold m1. rewrite total_set. unfold value_at. rewrite Hmx. unfold coins_value. erewrite (Spend_vout x n) by done.
    rewrite !vout_value_cleanup. erewrite vout_value_insert by done. lia.
  - intros p o'. unfold available, m1. rewrite set_coins_lookup. destruct (decide (op_hash p = h)) as [->|]; [|done]. rewrite Hmx.
    unfold unspent. destruct (IsPruned (Cleanup (Spend x n).2)); cbn [mbind option_bind]; [done|]. erewrite Spend_vout by done. rewrite !unspent_at_cleanup.
    rewrite unspent_at_insert by by eapply unspent_at_length. by destruct (decide _).
Qed.

Lemma spend_inputs_spec ins m m1 us : coins_run (spend_inputs ins) m (Some (m1, Ok us)) -> values_ok m ->
  Forall2 (fun i u => available m (prevout i) = Some (txout u)) ins us /\ values_ok m1 /\
  total_value m1 = total_value m - zsum ((fun u => nValue (txout u)) <$> us) /\ forall p o, available m1 p = Some o -> available m p = Some o.
Proof.
  revert m us. induction ins as [|i ins IH]; intros m us Hr Hm; cbn [spend_inputs] in Hr.
  { apply run_return_inv in Hr as [= -> ->]. split_and!; [done|done|cbn; lia|done]. }
  apply run_modify_inv in Hr as (x & Hx & _ & Hr). destruct (spent_record x _) as [u|] eqn:Eu; [|by apply run_reject_inv in Hr].
  apply run_bind_ok in Hr as (m2 & rest & Hr & [= -> ->]%run_return_inv).
  destruct (spend_one m (op_hash (prevout i)) _ x u Hx Eu Hm) as (Ha & Hm1 & Et & Hsub).
  destruct (IH _ _ Hr Hm1) as (Hall & Hm2 & Et2 & Hsub2). split_and!; [|done| |].
  - constructor; [by destruct (prevout i)|]. eapply Forall2_impl; [exact Hall|]. intros j v. cbn. apply Hsub.
  - rewrite fmap_cons, sum_cons. lia.
  - intros p o Hp. by apply Hsub, Hsub2.
Qed.

(** ** The amounts the code computes *)

Lemma MoneyRange_iff v : MoneyRange v = true <-> 0 <= v <= MAX_MONEY.
Proof. unfold MoneyRange. rewrite andb_true_iff, !Z.leb_le. done. Qed.

Lemma value_out_spec outs a v : 0 <= a <= MAX_MONEY -> value_out_loop outs a = Ok v ->
  v = a + zsum (nValue <$> outs) /\ Forall (fun o => 0 <= nValue o) outs /\ a <= v <= MAX_MONEY.
Proof.
  revert a. induction outs as [|o outs IH]; intros a Ha; cbn [value_out_loop].
  { intros [= <-]. cbn. split_and!; [lia|constructor|lia..]. }
  intros [Hb Hr]%reject_ok. apply orb_false_iff in Hb as [H1%negb_false_iff%MoneyRange_iff H2%negb_false_iff%MoneyRange_iff].
  rewrite i64_id in * by (unfold in_i64, MAX_MONEY, COIN in *; lia). apply IH in Hr as (-> & Hf & Hv); [|done].
  rewrite fmap_cons, sum_cons. split_and!; [lia|constructor; [lia|done]|lia..].
Qed.
Lemma GetValueOut_spec tx v : GetValueOut tx = Ok v -> v = zsum (nValue <$> vout tx) /\ Forall (fun o => 0 <= nValue o) (vout tx) /\ 0 <= v <= MAX_MONEY.
Proof. intros Hv. apply value_out_spec in Hv as (-> & Hf & Hr); [|unfold MAX_MONEY, COIN; lia]. split_and!; [lia|done|lia..]. Qed.

Lemma FromTx_value tx h : Forall (fun o => 0 <= nValue o) (vout tx) ->
  coins_value (Cleanup (FromTx tx h)) <= zsum (nValue <$> vout tx) /\
  Forall (fun o => txout_IsNull o = false -> 0 <= nValue o) (coins_vout (Cleanup (FromTx tx h))).
Proof.
  intros Hf. unfold FromTx, ClearUnspendable, Cleanup, coins_value. cbn [coins_vout with_vout]. rewrite !vout_value_cleanup. split.
  - unfold vout_value, zsum. induction Hf as [|o l Ho _ IH]; cbn; [lia|]. unfold null_unspendable in *. destruct (IsUnspendable _); cbn; [lia|].
    destruct (txout_IsNull o); lia.
  - do 2 apply cleanup_Forall. apply Forall_fmap. eapply Forall_impl; [exact Hf|]. intros o Ho. cbn. unfold null_unspendable.
    by destruct (IsUnspendable _).
Qed.

Lemma GetOutputFor_ok i m r : coins_run (GetOutputFor i) m (Some (m, Ok r)) -> available m (prevout i) = Some r.
Proof.
  unfold GetOutputFor. intros Hr. apply run_access_inv in Hr as (o & Ho & _ & Hr). cbn in Hr. destruct o as [c|]; [|by apply run_reject_inv in Hr].
  destruct (negb _) eqn:E in Hr; [by apply run_reject_inv in Hr|]. apply run_return_inv in Hr as [= ->].
  apply negb_false_iff, IsAvailable_unspent_at in E as [x Hx]. destruct (unspent_found m _ c _ _ Ho Hx) as [Hm _].
  unfold available. rewrite Hm. cbn. rewrite Hx. unfold unspent_at in Hx. destruct (coins_vout c !! _) as [y|]; [|done].
  cbn in Hx |- *. by destruct (txout_IsNull y).
Qed.

(** The loop of [CheckTxInputs] and that of [GetValueIn], on the outputs the inputs spend. *)
Lemma check_inputs_value params h ins outs m a v : Forall2 (fun i o => available m (prevout i) = Some o) ins outs ->
  coins_run (check_inputs_loop params h ins a) m (Some (m, Ok v)) -> 0 <= a <= MAX_MONEY ->
  v = a + zsum (nValue <$> outs) /\ a <= v <= MAX_MONEY /\ Forall (fun o => 0 <= nValue o) outs.
Proof.
  intros Hall. revert a. induction Hall as [|i o ins outs Ho _ IH]; intros a Hr Ha; cbn [check_inputs_loop] in Hr.
  { apply run_return_inv in Hr as [= ->]. cbn. split_and!; [lia..|constructor]. }
  apply run_access_inv in Hr as (x & Hx & _ & Hr). cbn in Hr. unfold available in Ho. destruct (m !! _) as [c|] eqn:Em; [|done].
  destruct x as [c'|]; [|done]. cbn in Hx. apply unspent_Some in Hx as [-> _]. destruct (_ && _) in Hr; [by apply run_reject_inv in Hr|].
  cbn in Ho. assert (default txout_null (coins_vout c !! Z.to_nat (op_n (prevout i))) = o) as E.
  { unfold unspent_at in Ho. destruct (coins_vout c !! _) as [y|]; [|done]. cbn in Ho |- *. destruct (txout_IsNull y); congruence. }
  rewrite E in Hr. destruct (_ || _) eqn:Eb in Hr; [by apply run_reject_inv in Hr|].
  apply orb_false_iff in Eb as [H1%negb_false_iff%MoneyRange_iff H2%negb_false_iff%MoneyRange_iff].
  rewrite i64_id in * by (unfold in_i64, MAX_MONEY, COIN in *; lia). apply IH in Hr as (-> & Hv & Hf); [|done].
  rewrite fmap_cons, sum_cons. split_and!; [lia..|constructor; [lia|done]].
Qed.
Lemma value_in_value ins outs m a v : Forall2 (fun i o => available m (prevout i) = Some o) ins outs ->
  coins_run (value_in_loop ins a) m (Some (m, Ok v)) -> 0 <= a -> Forall (fun o => 0 <= nValue o) outs ->
  a + zsum (nValue <$> outs) <= MAX_MONEY -> v = a + zsum (nValue <$> outs).
Proof.
  intros Hall. revert a. induction Hall as [|i o ins outs Ho _ IH]; intros a Hr Ha Hf Hb; cbn [value_in_loop] in Hr.
  { apply run_return_inv in Hr as [= ->]. cbn. lia. }
  apply run_read_ok in Hr as (r & Hg & Hr); [|auto with coins]. apply GetOutputFor_ok in Hg. assert (r = o) as -> by congruence.
  apply Forall_cons in Hf as [Hof Hf]. rewrite fmap_cons, sum_cons in *.
  assert (0 <= zsum (nValue <$> outs)) as Hs by by apply sum_nonneg.
  rewrite i64_id in Hr by (unfold in_i64, MAX_MONEY, COIN in *; lia). apply IH in Hr; [lia|lia|done|lia].
Qed.

Section Fees.
Context `{CryptoOps} `{SignatureOps} `{ScriptHashOps}.
Context (ctx : ConnectContext).

(** The fee of a transaction is what its inputs are worth beyond its outputs. *)
Lemma check_fee_spec tx m r outs : IsCoinBase tx = false -> coins_run (check_fee ctx tx) m (Some (m, Ok r)) ->
  Forall2 (fun i o => available m (prevout i) = Some o) (vin tx) outs ->
  r.1 = zsum (nValue <$> outs) - zsum (nValue <$> vout tx) /\ 0 <= r.1 <= MAX_MONEY /\ Forall (fun o => 0 <= nValue o) (vout tx).
Proof.
  intros Hcb Hr Hall. unfold check_fee in Hr. rewrite Hcb in Hr. apply run_read_ok in Hr as (v & Hv & Hr); [|auto with coins].
  destruct (GetValueOut tx) as [vo|] eqn:Eo; cbn in Hr; [|by apply run_reject_inv in Hr]. apply GetValueOut_spec in Eo as (Evo & Hf & Hvo).
  apply run_read_ok in Hr as (checks & Hc & Hr); [|auto with coins]. apply run_return_inv in Hr as [= ->]. unfold CheckInputs in Hc. rewrite Hcb in Hc.
  apply run_read_ok in Hc as ([] & Hc & _); [|auto with coins]. unfold CheckTxInputs in Hc.
  apply run_read_ok in Hc as (have & _ & Hc); [|auto with coins]. destruct (negb have); [by apply run_reject_inv in Hc|].
  apply run_read_ok in Hc as (vi & Hvi & Hc); [|auto with coins]. rewrite Evo in *.
  eapply check_inputs_value in Hvi as (Evi & Hvir & Hof); [|exact Hall|unfold MAX_MONEY, COIN; lia].
  destruct (GetValueOut tx) as [vo'|] eqn:Eo'; cbn in Hc; [|by apply run_reject_inv in Hc]. apply GetValueOut_spec in Eo' as (-> & _ & _).
  destruct (_ <? _) eqn:El in Hc; [by apply run_reject_inv in Hc|]. apply Z.ltb_ge in El.
  unfold GetValueIn in Hv. rewrite Hcb in Hv. eapply value_in_value in Hv; [|exact Hall|lia|done|lia]. cbn [fst].
  rewrite i64_id by (unfold in_i64, MAX_MONEY, COIN in *; lia). split_and!; [lia|lia|lia|done].
Qed.

(** A transaction moves no more than it spends. *)
Lemma UpdateCoins_value tx h m m1 u : coins_run (UpdateCoins tx h) m (Some (m1, Ok u)) -> values_ok m -> Forall (fun o => 0 <= nValue o) (vout tx) ->
  values_ok m1 /\ total_value m1 <= total_value m - zsum ((fun u => nValue (txout u)) <$> vprevout u) + zsum (nValue <$> vout tx) /\
  (IsCoinBase tx = false -> Forall2 (fun i u => available m (prevout i) = Some (txout u)) (vin tx) (vprevout u)) /\ (IsCoinBase tx = true -> vprevout u = []).
Proof.
  intros Hr Hm Hf. unfold UpdateCoins in Hr. apply run_bind_ok in Hr as (m' & us & Hs & Hr).
  assert (values_ok m' /\ total_value m' = total_value m - zsum ((fun u => nValue (txout u)) <$> us) /\
    (IsCoinBase tx = false -> Forall2 (fun i u => available m (prevout i) = Some (txout u)) (vin tx) us) /\ (IsCoinBase tx = true -> us = []))
    as (Hm' & Et & Hall & Hcb).
  { destruct (IsCoinBase tx).
    - apply run_return_inv in Hs as [= -> ->]. split_and!; [done|cbn; lia|done|done].
    - apply spend_inputs_spec in Hs as (Hall & Hm' & Et & _); [|done]. split_and!; done. }
  apply run_new_inv in Hr as [[_ [= -> ->]%run_return_inv]|(_ & _ & ?)]; [|done]. destruct (FromTx_value tx h Hf) as [Hle Hpos].
  split_and!; [by apply values_ok_set| |done|done]. rewrite total_set. pose proof (value_at_nonneg m' (tx_hash tx) Hm'). cbn [vprevout]. lia.
Qed.

Lemma connect_txs_value txs f s m m' r : coins_run (connect_txs ctx txs f s) m (Some (m', Ok r)) -> values_ok m ->
  Forall (fun tx => IsCoinBase tx = false) txs -> 0 <= f -> f + total_value m < 2 ^ 63 ->
  values_ok m' /\ f <= r.1 /\ total_value m' + r.1 <= total_value m + f.
Proof.
  revert f s m r. induction txs as [|tx txs IH]; intros f s m r Hr Hm Hcb Hf Hb.
  { apply run_return_inv in Hr as [= -> ->]. cbn. split_and!; [done|lia|lia]. }
  apply Forall_cons in Hcb as [Hc Hcb]. apply connect_txs_inv in Hr as (cost & fee & m1 & u & rest & _ & _ & _ & Hfee & Hu & Hrest & ->).
  assert (Forall (fun o => 0 <= nValue o) (vout tx)) as Hvo.
  { unfold check_fee in Hfee. rewrite Hc in Hfee. apply run_read_ok in Hfee as (v & _ & Hfee); [|auto with coins].
    destruct (GetValueOut tx) eqn:Eo; cbn in Hfee; [|by apply run_reject_inv in Hfee]. by apply GetValueOut_spec in Eo as (_ & ? & _). }
  apply UpdateCoins_value in Hu as (Hm1 & Et & Hall & _); [|done|done]. specialize (Hall Hc).
  destruct (check_fee_spec tx m fee (txout <$> vprevout u) Hc Hfee) as (Efee & Hfr & _); [by apply Forall2_fmap_r|].
  rewrite <- list_fmap_compose in Efee. unfold compose in Efee. pose proof (total_nonneg m1 Hm1).
  rewrite i64_id in Hrest by (unfold in_i64; lia). apply IH in Hrest as (Hm' & Hle & Ht); [|done|done|lia|lia]. cbn [fst]. split_and!; [done|lia|lia].
Qed.

Lemma subsidy_range h p : 0 < GetKubuBlockSubsidy h p <= 48 * COIN.
Proof. unfold GetKubuBlockSubsidy, COIN. split_ifs; lia. Qed.

(** A block creates no more than its subsidy. *)
Lemma ConnectCoins_value block m m' undo fees : coins_run (ConnectCoins ctx block) m (Some (m', Ok (undo, fees))) -> values_ok m ->
  (forall tx, head (vtx block) = Some tx -> IsCoinBase tx = true) -> Forall (fun tx => IsCoinBase tx = false) (tail (vtx block)) ->
  total_value m <= 2 ^ 62 ->
  values_ok m' /\ total_value m' <= total_value m + GetKubuBlockSubsidy (c_nHeight ctx) (GetConsensus (c_params ctx) (c_nHeight ctx)).
Proof.
  intros (cb & txs & r & v & Ev & _ & Hc & Ho & Hv & _)%ConnectCoins_inv Hm Hhead Htail Hb. rewrite Ev in *. cbn [head tail] in *.
  specialize (Hhead cb eq_refl). apply GetValueOut_spec in Ho as (-> & Hf & Hr). set (subsidy := GetKubuBlockSubsidy _ _) in *.
  assert (0 < subsidy <= 48 * COIN) as Hs by apply subsidy_range.
  apply connect_txs_inv in Hc as (cost & fee & m1 & u & rest & _ & _ & _ & Hfee & Hu & Hrest & ->). cbn [fst] in Hv.
  apply UpdateCoins_value in Hu as (Hm1 & Et & _ & Hnil); [|done|done]. rewrite (Hnil Hhead) in Et. cbn in Et.
  unfold check_fee in Hfee. rewrite Hhead in Hfee. apply run_return_inv in Hfee as [= ->]. cbn [fst] in Hrest. change (i64 (0 + 0)) with 0 in Hrest.
  pose proof (total_nonneg m1 Hm1). unfold MAX_MONEY, COIN in *. apply connect_txs_value in Hrest as (Hm' & Hle & Ht); [|done|done|lia|lia].
  pose proof (total_nonneg m' Hm'). rewrite i64_id in Hv by (unfold in_i64; lia). split; [done|lia].
Qed.

(** The fee of each transaction, from its undo record. *)
Definition fee_of (tx : CTransaction) (u : CTxUndo) : Z :=
  if IsCoinBase tx then 0 else zsum ((fun u => nValue (txout u)) <$> vprevout u) - zsum (nValue <$> vout tx).

Lemma connect_txs_fees txs f s m m' r : coins_run (connect_txs ctx txs f s) m (Some (m', Ok r)) -> values_ok m ->
  Forall (fun tx => Forall (fun o => 0 <= nValue o) (vout tx)) txs ->
  (fun x => x.1.1) <$> r.2 = zip_with fee_of txs ((fun x => x.1.2) <$> r.2).
Proof.
  revert f s m r. induction txs as [|tx txs IH]; intros f s m r Hr Hm Hv.
  { by apply run_return_inv in Hr as [= -> ->]. }
  apply Forall_cons in Hv as [Ht Hv]. apply connect_txs_inv in Hr as (cost & fee & m1 & u & rest & _ & _ & _ & Hfee & Hu & Hrest & ->).
  apply UpdateCoins_value in Hu as (Hm1 & _ & Hall & _); [|done|done]. cbn [snd]. rewrite !fmap_cons. cbn [zip_with fst snd]. f_equal; [|by eapply IH].
  unfold fee_of. destruct (IsCoinBase tx) eqn:Ec.
  - unfold check_fee in Hfee. rewrite Ec in Hfee. by apply run_return_inv in Hfee as [= ->].
  - destruct (check_fee_spec tx m fee (txout <$> vprevout u) Ec Hfee) as (-> & _); [by apply Forall2_fmap_r, Hall|].
    by rewrite <- list_fmap_compose.
Qed.

End Fees.

(** Two runs at the same height leave the same coins, undo records and fees. *)
Lemma ConnectCoins_det `{CryptoOps} `{SignatureOps} `{ScriptHashOps} ctx ctx' block m m1 u1 f1 m2 u2 f2 :
  coins_run (ConnectCoins ctx block) m (Some (m1, Ok (u1, f1))) -> coins_run (ConnectCoins ctx' block) m (Some (m2, Ok (u2, f2))) ->
  c_nHeight ctx = c_nHeight ctx' -> values_ok m -> Forall (fun tx => Forall (fun o => 0 <= nValue o) (vout tx)) (vtx block) ->
  m1 = m2 /\ u1 = u2 /\ f1 = f2.
Proof.
  intros (cb1 & txs1 & r1 & v1 & _ & _ & Hc1 & _ & _ & _ & -> & ->)%ConnectCoins_inv (cb2 & txs2 & r2 & v2 & _ & _ & Hc2 & _ & _ & _ & -> & ->)%ConnectCoins_inv Eh Hm Hv.
  pose proof (connect_txs_fees _ _ _ _ _ _ _ Hc1 Hm Hv) as Ef1. pose proof (connect_txs_fees _ _ _ _ _ _ _ Hc2 Hm Hv) as Ef2.
  apply connect_txs_updates in Hc1, Hc2. rewrite <- Eh in Hc2. destruct (updates_det _ _ _ _ _ _ _ Hc1 Hc2) as [Eu ->].
  rewrite Ef1, Ef2, Eu. done.
Qed.
