(* ===== verification/CoinsVersions.v ===== *)
(** * Coins that were stored, and coins that were not
      (about the coins part of [ConnectBlock] and [DisconnectBlock])

    The database and the undo files do not keep a negative version, so that
    nodes on the same chain may hold the same coins with different versions.
    No rule depends on it: a program over coins that were stored follows the
    program over coins that were not. *)

From S2P Require Import Prelude Nicknames Serialize Script Arith Header BlockIndex Pow Transaction TxSerialize DerSignature Interpreter ScriptRules SigHash.
From S2P Require Import Compressor Coins CoinsSerialize CoinsCache TxVerify ConnectCoins CoinsRules CoinsSupply.
Open Scope Z_scope.
Open Scope kubu_scope.

(** ** The relations *)

Definition same_undo (u u' : CTxInUndo) : Prop :=
  exists v, u = mkTxInUndo (txout u') (undo_fCoinBase u') (undo_nHeight u') v /\ version_kept v (undo_nVersion u').
Definition same_tx_undo (u u' : CTxUndo) : Prop := Forall2 same_undo (vprevout u) (vprevout u').
Definition same_block_undo (u u' : CBlockUndo) : Prop := Forall2 same_tx_undo (vtxundo u) (vtxundo u').
Definition same_utxos (m m' : utxos) : Prop := forall i, option_Forall2 same_coins (m !! i) (m' !! i).

Lemma version_kept_refl v : version_kept v v.
Proof. by left. Qed.
Lemma version_kept_stored v v' : version_kept v v' -> version_kept (stored_version v) v'.
Proof. intros [->| ->]; right; [done|apply stored_version_twice]. Qed.
#[export] Instance same_coins_refl : Reflexive same_coins.
Proof. intros c. exists (coins_nVersion c). split; [by destruct c|by left]. Qed.
#[export] Instance same_utxos_refl : Reflexive same_utxos.
Proof. intros m i. reflexivity. Qed.
#[export] Instance same_undo_refl : Reflexive same_undo.
Proof. intros u. exists (undo_nVersion u). split; [by destruct u|by left]. Qed.

Lemma same_coins_trans_stored c c1 c' : same_coins c c1 -> same_coins c1 c' -> same_coins c c'.
Proof.
  intros (v & -> & Hv) (v1 & -> & Hv1). exists v. split; [done|]. cbn in Hv. destruct Hv as [->| ->]; [done|by apply version_kept_stored].
Qed.
Lemma same_utxos_trans m m1 m' : same_utxos m m1 -> same_utxos m1 m' -> same_utxos m m'.
Proof.
  intros H1 H2 i. specialize (H1 i). specialize (H2 i). destruct H1 as [x y Hxy|]; inversion H2; subst; constructor. by eapply same_coins_trans_stored.
Qed.

(** What storage keeps is the same, and coins with a version that is kept are equal. *)
Lemma same_coins_stored c c' : same_coins c c' -> coins_stored c = coins_stored c'.
Proof. intros (v & -> & [->| ->]); [by destruct c'|]. unfold coins_stored. cbn. by rewrite stored_version_twice. Qed.
Lemma same_coins_eq c c' : same_coins c c' -> 0 <= coins_nVersion c' -> c = c'.
Proof. intros (v & -> & Hv) Hn. rewrite (stored_version_nonneg _ Hn : stored_version _ = _) in Hv || idtac. destruct c'; cbn in *. destruct Hv as [->| ->]; [done|]. by rewrite stored_version_nonneg. Qed.

Lemma same_unspent c c' : same_coins c c' -> option_Forall2 same_coins (unspent c) (unspent c').
Proof. intros Hc. pose proof Hc as (v & -> & _). unfold unspent. change (IsPruned (with_version c' v)) with (IsPruned c'). destruct (IsPruned c'); by constructor. Qed.
Lemma same_set_coins m m' txid c c' : same_utxos m m' -> same_coins c c' -> same_utxos (set_coins txid c m) (set_coins txid c' m').
Proof. intros Hm Hc i. rewrite !set_coins_lookup. destruct (decide (i = txid)); [by apply same_unspent|apply Hm]. Qed.
Lemma same_Cleanup c c' : same_coins c c' -> same_coins (Cleanup c) (Cleanup c').
Proof. intros (v & -> & Hv). by exists v. Qed.
Lemma same_tidy c c' : same_coins c c' -> tidy c -> tidy c'.
Proof. by intros (v & -> & _). Qed.

(** ** Programs that follow one another *)

Inductive follows {A} (R : A -> A -> Prop) : coins_prog A -> coins_prog A -> Prop :=
| follows_return a a' : R a a' -> follows R (Return a) (Return a')
| follows_reject e : follows R (Reject e) (Reject e)
| follows_access txid k k' : follows R (k None) (k' None) -> (forall x x', same_coins x x' -> follows R (k (Some x)) (k' (Some x'))) ->
    follows R (Access txid k) (Access txid k')
| follows_modify txid f f' k k' : (forall x x', same_coins x x' -> same_coins (f x) (f' x')) ->
    (forall x x', same_coins x x' -> follows R (k x) (k' x')) -> follows R (Modify txid f k) (Modify txid f' k')
| follows_new txid cb c c' k k' : same_coins c c' -> follows R k k' -> follows R (NewCoins txid cb c k) (NewCoins txid cb c' k').

Definition result_follows {A} (R : A -> A -> Prop) (r r' : result A) : Prop :=
  match r, r' with Ok a, Ok a' => R a a' | Err e, Err e' => e = e' | _, _ => False end.
Definition outcome_follows {A} (R : A -> A -> Prop) (o o' : option (utxos * result A)) : Prop :=
  match o, o' with
  | Some (m, r), Some (m', r') => same_utxos m m' /\ result_follows R r r'
  | None, None => True
  | _, _ => False
  end.

Lemma follows_run {A} (R : A -> A -> Prop) p p' m m' o : follows R p p' -> same_utxos m m' -> coins_run p m o ->
  exists o', coins_run p' m' o' /\ outcome_follows R o o'.
Proof.
  intros Hp. revert m m' o. induction Hp as [a a' Ha|e|txid k k' _ IHn _ IHs|txid f f' k k' Hf _ IH|txid cb c c' k k' Hc _ IH]; intros m m' o Hm Hr.
  - apply run_return_inv in Hr as ->. eexists. split; [constructor|by split].
  - apply run_reject_inv in Hr as ->. eexists. split; [constructor|by split].
  - apply run_access_inv in Hr as (x & Hx & Ht & Hr). pose proof (Hm txid) as Hi. destruct x as [x|].
    + assert (exists x', seen (Some x') = m' !! txid /\ same_coins x x') as (x' & Hx' & Hs).
      { cbn in Hx. rewrite <- Hx in Hi. unfold unspent in Hi, Hx. destruct (IsPruned x) eqn:Ep; inversion Hi as [? x' Hs Ex Ey|]; subst.
        - exists x. cbn. unfold unspent. by rewrite Ep.
        - exists x'. cbn. split; [|done]. destruct Hs as (v & -> & _). unfold unspent. change (IsPruned x' = false) in Ep. by rewrite Ep. }
      destruct (IHs x x' Hs m m' o Hm Hr) as (o' & Hr' & Ho). exists o'. split; [|done]. eapply run_access; [exact Hx'| |exact Hr'].
      intros y [= <-]. by eapply same_tidy, Ht.
    + destruct (IHn m m' o Hm Hr) as (o' & Hr' & Ho). exists o'. split; [|done]. eapply (run_access _ _ _ None); [|done|exact Hr'].
      cbn in Hx |- *. rewrite <- Hx in Hi. by inversion Hi.
  - apply run_modify_inv in Hr as (x & Hx & Ht & Hr). pose proof (Hm txid) as Hi.
    assert (exists x', unspent x' = m' !! txid /\ same_coins x x') as (x' & Hx' & Hs).
    { rewrite <- Hx in Hi. unfold unspent in Hi. destruct (IsPruned x) eqn:Ep; inversion Hi as [? x' Hs Ex Ey|]; subst.
      - exists x. unfold unspent. by rewrite Ep.
      - exists x'. split; [|done]. destruct Hs as (v & -> & _). unfold unspent. change (IsPruned x' = false) in Ep. by rewrite Ep. }
    destruct (IH x x' Hs (set_coins txid (Cleanup (f x)) m) (set_coins txid (Cleanup (f' x')) m') o) as (o' & Hr' & Ho);
      [by apply same_set_coins, same_Cleanup, Hf|done|]. exists o'. split; [|done]. eapply run_modify; [done|by eapply same_tidy|done].
  - pose proof (Hm txid) as Hi. apply run_new_inv in Hr as [[Hcb Hr]|(-> & Hn & ->)].
    + destruct (IH (set_coins txid (Cleanup c) m) (set_coins txid (Cleanup c') m') o) as (o' & Hr' & Ho); [by apply same_set_coins, same_Cleanup|done|].
      exists o'. split; [|done]. apply run_new; [|done]. destruct Hcb as [|E]; [by left|right]. rewrite E in Hi. by inversion Hi.
    + exists None. split; [|done]. apply run_overwrite. intros E. rewrite E in Hi. by inversion Hi.
Qed.

Lemma follows_ok {A} (R : A -> A -> Prop) p p' m m' m1 a : follows R p p' -> same_utxos m m' -> coins_run p m (Some (m1, Ok a)) ->
  exists m1' a', coins_run p' m' (Some (m1', Ok a')) /\ same_utxos m1 m1' /\ R a a'.
Proof.
  intros Hp Hm Hr. destruct (follows_run R p p' m m' _ Hp Hm Hr) as ([[m1' [a'|e]]|] & Hr' & Ho); [|by destruct Ho|done].
  destruct Ho. by exists m1', a'.
Qed.

Lemma follows_bind {A B} (R : A -> A -> Prop) (S : B -> B -> Prop) p p' (g g' : A -> coins_prog B) :
  follows R p p' -> (forall a a', R a a' -> follows S (g a) (g' a')) -> follows S (p ≫= g) (p' ≫= g').
Proof. intros Hp Hg. induction Hp; cbn; [by apply Hg|constructor; auto..]. Qed.
Lemma follows_if {A} (R : A -> A -> Prop) (b : bool) p p' q q' : follows R p p' -> follows R q q' -> follows R (if b then p else q) (if b then p' else q').
Proof. by destruct b. Qed.

(** ** Reading

    A program that reads coins and looks at everything but their version
    follows itself. *)
Notation steady := (follows eq).

Lemma steady_bind {A B} (p : coins_prog A) (g : A -> coins_prog B) : steady p p -> (forall a, steady (g a) (g a)) -> steady (p ≫= g) (p ≫= g).
Proof. intros Hp Hg. eapply follows_bind; [exact Hp|]. intros a ? <-. apply Hg. Qed.
Lemma steady_access {A} txid (k : option CCoins -> coins_prog A) : (forall o, steady (k o) (k o)) -> (forall x v, k (Some (with_version x v)) = k (Some x)) ->
  steady (access txid ≫= k) (access txid ≫= k).
Proof. intros Hk Hv. cbn. constructor; [apply Hk|]. intros x x' (v & -> & _). rewrite Hv. apply Hk. Qed.

Create HintDb steady discriminated.
#[local] Hint Resolve steady_bind follows_if : steady.
#[local] Hint Extern 1 (follows _ (Return _) (Return _)) => constructor; reflexivity : steady.
#[local] Hint Extern 1 (follows _ (Reject _) (Reject _)) => constructor : steady.
#[local] Hint Extern 2 (steady (of_result ?r) _) => destruct r; constructor; reflexivity : steady.
#[local] Hint Extern 3 (steady (access _ ≫= _) _) => apply steady_access; [intros [?|]|reflexivity] : steady.
#[local] Hint Extern 4 (steady (match ?x with _ => _ end) _) => destruct x : steady.

Lemma steady_GetOutputFor i : steady (GetOutputFor i) (GetOutputFor i).
Proof. unfold GetOutputFor. auto with steady. Qed.
#[local] Hint Resolve steady_GetOutputFor : steady.
Lemma steady_GetValueIn tx : steady (GetValueIn tx) (GetValueIn tx).
Proof. unfold GetValueIn. apply follows_if; [auto with steady|]. generalize 0. induction (vin tx); intros n; cbn [value_in_loop]; auto with steady. Qed.
Lemma steady_HaveInputs tx : steady (HaveInputs tx) (HaveInputs tx).
Proof. unfold HaveInputs. apply follows_if; [auto with steady|]. induction (vin tx); cbn [have_inputs_loop]; auto 7 with steady. Qed.
Lemma steady_p2sh ins n : steady (p2sh_sigops_loop ins n) (p2sh_sigops_loop ins n).
Proof. revert n. induction ins; intros n; cbn [p2sh_sigops_loop]; auto with steady. Qed.
Section Steady.
Context `{CryptoOps} `{SignatureOps} `{ScriptHashOps}.
Lemma steady_witness flags ins n : steady (witness_sigops_loop flags ins n) (witness_sigops_loop flags ins n).
Proof. revert n. induction ins; intros n; cbn [witness_sigops_loop]; auto 7 with steady. Qed.
#[local] Hint Resolve steady_GetValueIn steady_HaveInputs steady_p2sh steady_witness : steady.
Lemma steady_sigops tx flags : steady (GetTransactionSigOpCost tx flags) (GetTransactionSigOpCost tx flags).
Proof. unfold GetTransactionSigOpCost, GetP2SHSigOpCount. auto 9 with steady. Qed.
Lemma steady_check_inputs params h ins n : steady (check_inputs_loop params h ins n) (check_inputs_loop params h ins n).
Proof. revert n. induction ins; intros n; cbn [check_inputs_loop]; auto 9 with steady. Qed.
#[local] Hint Resolve steady_check_inputs : steady.
Lemma steady_CheckTxInputs params tx h : steady (CheckTxInputs params tx h) (CheckTxInputs params tx h).
Proof. unfold CheckTxInputs. auto 12 with steady. Qed.
Lemma steady_script_checks pv flags tx n ins : steady (script_checks pv flags tx n ins) (script_checks pv flags tx n ins).
Proof. revert n. induction ins; intros n; cbn [script_checks]; auto 12 with steady. Qed.
#[local] Hint Resolve steady_CheckTxInputs steady_script_checks : steady.
Lemma steady_CheckInputs params h tx fs flags pv : steady (CheckInputs params h tx fs flags pv) (CheckInputs params h tx fs flags pv).
Proof. unfold CheckInputs. auto 9 with steady. Qed.

(** ** Connecting *)

Lemma steady_BIP30 txs : steady (check_BIP30 txs) (check_BIP30 txs).
Proof. induction txs; cbn [check_BIP30]; auto 7 with steady. Qed.
Lemma steady_prev_heights ins : steady (prev_heights ins) (prev_heights ins).
Proof. induction ins; cbn [prev_heights]; auto 7 with steady. Qed.
#[local] Hint Resolve steady_sigops steady_CheckInputs steady_BIP30 steady_prev_heights : steady.
Lemma steady_check_spends ctx tx : steady (check_spends ctx tx) (check_spends ctx tx).
Proof. unfold check_spends. auto 12 with steady. Qed.
Lemma steady_check_fee ctx tx : steady (check_fee ctx tx) (check_fee ctx tx).
Proof. unfold check_fee. auto 9 with steady. Qed.
#[local] Hint Resolve steady_check_spends steady_check_fee : steady.

Lemma same_Spend c c' n : same_coins c c' -> same_coins (Spend c n).2 (Spend c' n).2.
Proof.
  intros (v & -> & Hv). exists v. unfold Spend. change (IsAvailable (with_version c' v) n) with (IsAvailable c' n).
  destruct (IsAvailable c' n); by split.
Qed.
Lemma same_record c c' n : same_coins c c' -> option_Forall2 same_undo (spent_record c n) (spent_record c' n).
Proof.
  intros (v & -> & Hv). unfold spent_record. unfold Spend. change (IsAvailable (with_version c' v) n) with (IsAvailable c' n).
  destruct (IsAvailable c' n); [|constructor]. constructor. cbn. destruct (bool_decide _); [by exists v|]. reflexivity.
Qed.

Lemma follows_spend_inputs ins : follows (Forall2 same_undo) (spend_inputs ins) (spend_inputs ins).
Proof.
  induction ins as [|i ins IH]; cbn [spend_inputs]; [by repeat constructor|]. constructor; [intros; by apply same_Spend|].
  intros x x' Hx. destruct (same_record x x' (op_n (prevout i)) Hx) as [u u' Hu|]; [|constructor].
  eapply follows_bind; [exact IH|]. intros us us' Hus. by do 2 constructor.
Qed.
Lemma follows_UpdateCoins tx h : follows same_tx_undo (UpdateCoins tx h) (UpdateCoins tx h).
Proof.
  unfold UpdateCoins. eapply (follows_bind (Forall2 same_undo)); [apply follows_if; [by repeat constructor|apply follows_spend_inputs]|].
  intros us us' Hus. constructor; [reflexivity|by constructor].
Qed.

Definition same_results (r r' : Z * list (Z * CTxUndo * list CScriptCheck)) : Prop :=
  r.1 = r'.1 /\ Forall2 (fun x x' => x.1.1 = x'.1.1 /\ same_tx_undo x.1.2 x'.1.2 /\ x.2 = x'.2) r.2 r'.2.
Lemma follows_connect_txs ctx txs f s : follows same_results (connect_txs ctx txs f s) (connect_txs ctx txs f s).
Proof.
  revert f s. induction txs as [|tx txs IH]; intros f s; cbn [connect_txs]; [by repeat constructor|].
  eapply follows_bind; [apply steady_check_spends|intros _ _ _]. eapply follows_bind; [apply steady_sigops|intros cost ? <-].
  destruct (_ <? _); [constructor|]. eapply follows_bind; [apply steady_check_fee|intros fee ? <-].
  eapply follows_bind; [apply follows_UpdateCoins|intros u u' Hu]. eapply follows_bind; [apply IH|intros r r' [E Hr]].
  constructor. split; [done|]. by constructor.
Qed.

Lemma follows_ConnectCoins ctx block :
  follows (fun r r' => same_block_undo r.1 r'.1 /\ r.2 = r'.2) (ConnectCoins ctx block) (ConnectCoins ctx block).
Proof.
  unfold ConnectCoins. eapply (follows_bind eq); [apply follows_if; [apply steady_BIP30|by constructor]|intros _ _ _].
  eapply follows_bind; [apply follows_connect_txs|intros r r' [E Hr]]. rewrite E. destruct (vtx block) as [|cb txs]; [constructor|].
  eapply (follows_bind eq); [destruct (GetValueOut cb); by constructor|intros v ? <-]. destruct (_ <? v); [constructor|].
  assert (r.2 ≫= snd = r'.2 ≫= snd) as ->.
  { clear E. induction Hr as [|x x' l l' (_ & _ & Ex) _ IH]; [done|]. cbn [mbind list_bind]. cbn in IH. by rewrite Ex, IH. }
  destruct (negb _); [constructor|]. constructor. cbn [fst snd]. unfold same_block_undo. cbn [vtxundo]. split.
  - destruct Hr as [|x x' l l' _ Hr]; [constructor|]. cbn. induction Hr as [|y y' l0 l0' (_ & Hu & _) _ IH]; cbn; by constructor.
  - clear E. induction Hr as [|x x' l l' (Ex & _ & _) _ IH]; [done|]. by rewrite !fmap_cons, Ex, IH.
Qed.
End Steady.

(** ** Disconnecting

    What is clean without storage is clean with it. *)
Definition as_clean (b b' : bool) : Prop := b' = true -> b = true.

Lemma same_cleared u u' c c' : same_undo u u' -> same_coins c c' -> same_coins (cleared u c) (cleared u' c').
Proof. intros (v & -> & Hv) Hc. unfold cleared. cbn. destruct (negb _); [by exists v|done]. Qed.
Lemma same_ApplyTxInUndo u u' out : same_undo u u' -> steady (ApplyTxInUndo u out) (ApplyTxInUndo u' out).
Proof.
  intros Hu. pose proof Hu as (v & E & _). constructor.
  - intros x x' Hx. destruct (same_cleared u u' x x' Hu Hx) as (w & Ew & Hw). exists w. split; [|done]. unfold apply_undo. rewrite Ew, E. done.
  - intros x x' Hx. constructor. unfold undo_is_clean. destruct (same_cleared u u' x x' Hu Hx) as (w & -> & _). destruct Hx as (w' & -> & _). by rewrite E.
Qed.

Lemma same_remove_outputs tx h : follows as_clean (remove_outputs tx h) (remove_outputs tx h).
Proof.
  constructor; [done|]. intros x x' (v & -> & Hv). constructor. unfold as_clean. cbv zeta. set (z := FromTx tx h).
  change (ClearUnspendable (with_version x' v)) with (with_version (ClearUnspendable x') v). set (y := ClearUnspendable x').
  change (coins_nVersion x') with (coins_nVersion y) in Hv. destruct (coins_nVersion z <? 0) eqn:Ez; [done|]. apply Z.ltb_ge in Ez.
  unfold coins_eqb. change (IsPruned (with_version y v)) with (IsPruned y). destruct (IsPruned y && IsPruned z); [done|]. cbn [orb].
  rewrite !bool_decide_eq_true. intros Ey. rewrite Ey in Hv |- *. destruct z as [cb l ht vs]. cbn in *. f_equal.
  destruct Hv as [->| ->]; [done|by apply stored_version_nonneg].
Qed.

Lemma same_restore_inputs l l' b b' : Forall2 (fun x x' => x.1 = x'.1 /\ same_undo x.2 x'.2) l l' -> as_clean b b' ->
  follows as_clean (restore_inputs l b) (restore_inputs l' b').
Proof.
  intros Hl. revert b b'. induction Hl as [|[i u] [i' u'] l l' [Ei Hu] _ IH]; intros b b' Hb; cbn [restore_inputs]; [by constructor|].
  cbn in Ei, Hu. subst i'. eapply follows_bind; [by apply same_ApplyTxInUndo|]. intros ok ? <-. apply IH. unfold as_clean in *. rewrite !andb_true_iff. tauto.
Qed.

Lemma same_zip {A} (l : list A) us us' : Forall2 same_undo us us' -> Forall2 (fun x x' => x.1 = x'.1 /\ same_undo x.2 x'.2) (zip l us) (zip l us').
Proof. intros Hu. revert l. induction Hu; intros [|? ?]; cbn; constructor; auto. Qed.

Lemma same_disconnect_txs h l l' b b' :
  Forall2 (fun x x' => x.1 = x'.1 /\ option_Forall2 same_tx_undo x.2 x'.2) l l' -> as_clean b b' -> follows as_clean (disconnect_txs h l b) (disconnect_txs h l' b').
Proof.
  intros Hl. revert b b'. induction Hl as [|[tx u] [tx' u'] l l' [Et Hu] _ IH]; intros b b' Hb; cbn [disconnect_txs]; [by constructor|].
  cbn in Et, Hu. subst tx'. eapply follows_bind; [apply same_remove_outputs|]. intros s s' Hs.
  assert (as_clean (b && s) (b' && s')) as Hbs by (unfold as_clean in *; rewrite !andb_true_iff; tauto).
  eapply (follows_bind as_clean); [|intros c c' Hc; by apply IH]. destruct Hu as [u u' Hu|]; [|by constructor].
  rewrite (Forall2_length _ _ _ Hu). destruct (negb _); [constructor|]. apply same_restore_inputs; [|done]. by apply Forall2_reverse, same_zip.
Qed.

Lemma same_DisconnectCoins block u u' h : same_block_undo u u' -> follows as_clean (DisconnectCoins block u h) (DisconnectCoins block u' h).
Proof.
  intros Hu. unfold DisconnectCoins. rewrite (Forall2_length _ _ _ Hu). destruct (negb _); [constructor|].
  apply same_disconnect_txs; [|done]. apply Forall2_reverse. assert (Forall2 (option_Forall2 same_tx_undo) (None :: (Some <$> vtxundo u)) (None :: (Some <$> vtxundo u'))) as Ho.
  { constructor; [constructor|]. induction Hu; cbn; by repeat constructor. }
  revert Ho. generalize (vtx block) as txs. intros txs Ho. revert txs. induction Ho; intros [|tx txs]; cbn; constructor; auto.
Qed.

(** ** What is kept *)

Lemma same_values m m' : same_utxos m m' -> total_value m = total_value m'.
Proof.
  revert m'. induction m as [|i x m Hi IH] using map_ind; intros m' Hm.
  - assert (m' = ∅) as ->; [|done]. apply map_empty. intros i. specialize (Hm i). rewrite lookup_empty in Hm. by inversion Hm.
  - pose proof (Hm i) as Hx. rewrite lookup_insert_eq in Hx. inversion Hx as [? x' Hs E E'|]; subst.
    rewrite (total_delete _ i), (total_delete m' i), delete_insert_id by done. unfold value_at. rewrite lookup_insert_eq, <- E'. rewrite (IH (delete i m')).
    + by destruct Hs as (v & -> & _).
    + intros j. destruct (decide (j = i)) as [->|Hj]; [rewrite Hi, lookup_delete_eq; constructor|]. specialize (Hm j).
      by rewrite lookup_insert_ne in Hm by done; rewrite lookup_delete_ne by done.
Qed.
Lemma same_forall (P : Z -> CCoins -> Prop) m m' : (forall i c c', same_coins c c' -> P i c' -> P i c) -> same_utxos m m' -> map_Forall P m' -> map_Forall P m.
Proof. intros HP Hm Hall i x Hx. specialize (Hm i). rewrite Hx in Hm. inversion Hm as [? x' Hs E E'|]; subst. by eapply HP, (Hall i). Qed.
Lemma same_available m m' o : same_utxos m m' -> available m o = available m' o.
Proof. intros Hm. unfold available. by destruct (Hm (op_hash o)) as [x x' (v & -> & _)|]. Qed.

(** Storing an undo record, or the coins of a view that is flushed, loses no more. *)
Lemma same_undo_stored u u' : same_undo u u' -> same_undo (undo_stored u) u'.
Proof. intros (v & -> & Hv). exists (stored_version v). split; [done|by apply version_kept_stored]. Qed.
Lemma same_block_undo_stored u u' : same_block_undo u u' -> same_block_undo (block_undo_stored u) u'.
Proof.
  unfold same_block_undo, block_undo_stored. cbn [vtxundo]. induction 1 as [|x x' l l' Hx _ IH]; cbn; constructor; [|done].
  unfold same_tx_undo in *. cbn. induction Hx; cbn; constructor; [by apply same_undo_stored|done].
Qed.
