(* ===== verification/AuxPow.v ===== *)
(** * Merge-mining proofs
      ([src/src/auxpow.h], [auxpow.cpp], [CheckAuxPowProofOfWork] of
      [kubu.cpp], the header class of [primitives/block.h])

    A block may carry the coinbase of a parent chain's block in place of its
    own proof of work.  [check] is the handler that ties the coinbase to the
    block; a position in a script is an offset, and the end iterator is
    [None]. *)

From S2P Require Import Prelude Nicknames Serialize Script Base58 Arith Merkle Header BlockIndex Pow Transaction.
Open Scope Z_scope.
Open Scope kubu_scope.

Definition pchMergedMiningHeader : bytes := [xfa; xbe; x6d; x6d].

(** ** Data *)

Record CMerkleTx := mkMerkleTx {
  mtx_tx : CTransaction;
  mtx_hashBlock : Z;
  vMerkleBranch : list Z;
  nIndex : Z
}.

Record CAuxPow := mkAuxPow {
  aux_merkle : CMerkleTx;
  vChainMerkleBranch : list Z;
  nChainIndex : Z;
  parentBlock : CPureBlockHeader
}.

Record CBlockHeader := mkBlockHeader {
  pure : CPureBlockHeader;
  auxpow : option CAuxPow
}.

(** ** Operations *)

(** [std::search]: the first offset at which [pat] occurs. *)
Fixpoint search (pat s : bytes) : option nat :=
  if decide (pat = take (length pat) s) then Some 0%nat
  else match s with
       | [] => None
       | _ :: s' => S <$> search pat s'
       end.

Definition getExpectedIndex (nNonce nChainId : Z) (h : nat) : Z :=
  let rand := u32 (u32 (nNonce * 1103515245) + 12345) in
  let rand := u32 (rand + u32 nChainId) in
  let rand := u32 (u32 (rand * 1103515245) + 12345) in
  rand mod Z.shiftl 1 (Z.of_nat h).

Section AuxPow.
Context `{CryptoOps}.

(** [BlockMerkleRoot] and [BlockMerkleBranch] of [consensus/merkle.cpp]. *)
Definition BlockMerkleRoot (block : CBlock) : result (Z * bool) := ComputeMerkleRoot (tx_hash <$> vtx block).
Definition BlockMerkleBranch (block : CBlock) (position : Z) : result (list Z) :=
  ComputeMerkleBranch (tx_hash <$> vtx block) position.

Definition InitMerkleBranch (mtx : CMerkleTx) (header : CPureBlockHeader) (block : CBlock) (posInBlock : Z) : result CMerkleTx :=
  br ← BlockMerkleBranch block (u32 posInBlock);
  Ok (mkMerkleTx (mtx_tx mtx) (header_GetHash header) br posInBlock).

(** The bytes of the chain merkle root as the coinbase carries them. *)
Definition root_bytes (hashAuxBlock : Z) (a : CAuxPow) : bytes :=
  reverse (le_bytes 32 (CheckMerkleBranch hashAuxBlock (vChainMerkleBranch a) (nChainIndex a))).

Definition check (a : CAuxPow) (hashAuxBlock nChainId : Z) (params : Params) : result unit :=
  reject negb (nIndex (aux_merkle a) =? 0) with "AuxPow is not a generate" ;
  reject fStrictChainId params && (GetChainId (hdr_nVersion (parentBlock a)) =? nChainId)
    with "Aux POW parent has our chain ID" ;
  reject (30 <? length (vChainMerkleBranch a))%nat with "Aux POW chain merkle branch too long" ;
  let vchRootHash := root_bytes hashAuxBlock a in
  reject negb (CheckMerkleBranch (tx_hash (mtx_tx (aux_merkle a))) (vMerkleBranch (aux_merkle a)) (nIndex (aux_merkle a))
               =? hdr_hashMerkleRoot (parentBlock a)) with "Aux POW merkle root incorrect" ;
  match vin (mtx_tx (aux_merkle a)) with
  | [] => Err "Aux POW coinbase has no inputs"
  | txin :: _ =>
      let script := scriptSig txin in
      match search vchRootHash script with
      | None => Err "Aux POW missing chain merkle root in parent coinbase"
      | Some pc =>
          _ ← match search pchMergedMiningHeader script with
              | Some pcHead =>
                  reject (if search pchMergedMiningHeader (drop (pcHead + 1) script) then true else false)
                    with "Multiple merged mining headers in coinbase" ;
                  reject negb (pcHead + length pchMergedMiningHeader =? pc)%nat
                    with "Merged mining header is not just before chain merkle root" ;
                  Ok tt
              | None =>
                  reject (20 <? pc)%nat
                    with "Aux POW chain merkle root must start in the first 20 bytes of the parent coinbase" ;
                  Ok tt
              end;
          let pc := (pc + length vchRootHash)%nat in
          reject (length script - pc <? 8)%nat
            with "Aux POW missing chain merkle tree size and nonce in parent coinbase" ;
          let nSize := le_value (take 4 (drop pc script)) in
          let merkleHeight := length (vChainMerkleBranch a) in
          reject negb (nSize =? u32 (Z.shiftl 1 (Z.of_nat merkleHeight)))
            with "Aux POW merkle branch size does not match parent coinbase" ;
          let nNonce := le_value (take 4 (drop (pc + 4) script)) in
          reject negb (nChainIndex a =? getExpectedIndex nNonce nChainId merkleHeight) with "Aux POW wrong index" ;
          Ok tt
      end
  end.

Definition getParentBlockPoWHash `{PowOps} (a : CAuxPow) : Z := GetPoWHash (parentBlock a).

Definition CheckAuxPowProofOfWork `{PowOps} (block : CBlockHeader) (params : Params) : result unit :=
  let ver := hdr_nVersion (pure block) in
  reject negb (IsLegacy ver) && fStrictChainId params && negb (GetChainId ver =? nAuxpowChainId params)
    with "block does not have our chain ID" ;
  match auxpow block with
  | None =>
      reject IsAuxpow ver with "no auxpow on block with auxpow version" ;
      reject negb (CheckProofOfWork (GetPoWHash (pure block)) (hdr_nBits (pure block)) params)
        with "non-AUX proof of work failed" ;
      Ok tt
  | Some a =>
      reject negb (IsAuxpow ver) with "auxpow on block with non-auxpow version" ;
      reject negb (CheckProofOfWork (getParentBlockPoWHash a) (hdr_nBits (pure block)) params)
        with "AUX proof of work failed" ;
      reject negb (is_ok (check a (header_GetHash (pure block)) (GetChainId ver) params)) with "AUX POW is not valid" ;
      Ok tt
  end.

End AuxPow.

(** ** Lemmas *)

Lemma search_Some pat s i : search pat s = Some i ->
  pat = take (length pat) (drop i s) /\ forall j, (j < i)%nat -> pat <> take (length pat) (drop j s).
Proof.
  revert i. induction s as [|c s IH]; intros i; cbn [search]; (case_decide as E; [intros [= <-]; split; [done|lia]|]).
  - done.
  - intros (k & Hk & ->)%fmap_Some. destruct (IH k Hk) as [Hat Hbefore]. split; [done|].
    intros [|j] Hj; [done|]. apply (Hbefore j). lia.
Qed.

Lemma search_None pat s j : search pat s = None -> (j <= length s)%nat -> pat <> take (length pat) (drop j s).
Proof.
  revert j. induction s as [|c s IH]; intros j; cbn [search length]; (case_decide as E; [done|]).
  - intros _ Hj. by replace j with 0%nat by lia.
  - intros Hs Hj. destruct j as [|j]; [done|]. apply IH; [by destruct (search pat s)|lia].
Qed.

Lemma found_split (pat s : bytes) i : pat = take (length pat) (drop i s) -> s = take i s ++ pat ++ drop (i + length pat) s.
Proof.
  intros E. rewrite E at 1. rewrite <- drop_drop. by rewrite !take_drop.
Qed.

(** The chain merkle root follows the only merged-mining header, or, without
    one, starts in the first 20 bytes. *)
Definition located (script : bytes) (pc : nat) : Prop :=
  match search pchMergedMiningHeader script with
  | Some pcHead => search pchMergedMiningHeader (drop (pcHead + 1) script) = None /\ pc = (pcHead + 4)%nat
  | None => (pc <= 20)%nat
  end.

Section Lemmas.
Context `{CryptoOps}.

Lemma length_root_bytes h a : length (root_bytes h a) = 32%nat.
Proof. unfold root_bytes. by rewrite length_reverse, length_le_bytes. Qed.

Lemma check_spec a h nChainId p : check a h nChainId p = Ok tt <->
  nIndex (aux_merkle a) = 0 /\
  (fStrictChainId p = true -> GetChainId (hdr_nVersion (parentBlock a)) <> nChainId) /\
  (length (vChainMerkleBranch a) <= 30)%nat /\
  ComputeMerkleRootFromBranch (tx_hash (mtx_tx (aux_merkle a))) (vMerkleBranch (aux_merkle a)) 0 =
    hdr_hashMerkleRoot (parentBlock a) /\
  exists txin rest pc, vin (mtx_tx (aux_merkle a)) = txin :: rest /\
    search (root_bytes h a) (scriptSig txin) = Some pc /\ located (scriptSig txin) pc /\
    (pc + 40 <= length (scriptSig txin))%nat /\
    le_value (take 4 (drop (pc + 32) (scriptSig txin))) = 2 ^ Z.of_nat (length (vChainMerkleBranch a)) /\
    nChainIndex a = getExpectedIndex (le_value (take 4 (drop (pc + 36) (scriptSig txin)))) nChainId
                      (length (vChainMerkleBranch a)).
Proof.
  unfold check. rewrite !reject_ok, !negb_false_iff, Nat.ltb_ge, !Z.eqb_eq, andb_false_iff, Z.eqb_neq.
  assert ((fStrictChainId p = false \/ GetChainId (hdr_nVersion (parentBlock a)) <> nChainId) <->
    (fStrictChainId p = true -> GetChainId (hdr_nVersion (parentBlock a)) <> nChainId)) as ->
    by (destruct (fStrictChainId p); naive_solver).
  apply and_iff_under; intros ->. apply and_iff_under; intros _. apply and_iff_under; intros Hlen.
  apply and_iff_under; intros _. destruct (vin (mtx_tx (aux_merkle a))) as [|txin rest]; [naive_solver|].
  rewrite length_root_bytes.
  assert (u32 (Z.shiftl 1 (Z.of_nat (length (vChainMerkleBranch a)))) = 2 ^ Z.of_nat (length (vChainMerkleBranch a))) as ->.
  { rewrite Z.shiftl_1_l. apply u32_id. split; [lia|]. apply Z.pow_lt_mono_r; lia. }
  destruct (search (root_bytes h a) (scriptSig txin)) as [pc|] eqn:Hpc; [|naive_solver].
  assert (forall k : result unit, (_ ← match search pchMergedMiningHeader (scriptSig txin) with
    | Some pcHead =>
        reject (if search pchMergedMiningHeader (drop (pcHead + 1) (scriptSig txin)) then true else false)
          with "Multiple merged mining headers in coinbase" ;
        reject negb (pcHead + length pchMergedMiningHeader =? pc)%nat
          with "Merged mining header is not just before chain merkle root" ; Ok tt
    | None => reject (20 <? pc)%nat
          with "Aux POW chain merkle root must start in the first 20 bytes of the parent coinbase" ; Ok tt
    end; k) = Ok tt <-> located (scriptSig txin) pc /\ k = Ok tt) as Hloc.
  { intros k. rewrite bind_ok. unfold located. destruct (search pchMergedMiningHeader (scriptSig txin)) as [pcHead|].
    - setoid_rewrite reject_ok. setoid_rewrite reject_ok. setoid_rewrite negb_false_iff. setoid_rewrite Nat.eqb_eq.
      destruct (search _ (drop _ _)); cbn [length pchMergedMiningHeader]; naive_solver.
    - setoid_rewrite reject_ok. setoid_rewrite Nat.ltb_ge. naive_solver. }
  rewrite Hloc, !reject_ok, Nat.ltb_ge, !negb_false_iff, !Z.eqb_eq, <- Nat.add_assoc.
  split.
  - intros (Hl & Hlen8 & Hsize & Hidx & _). exists txin, rest, pc. split_and!; try done. lia.
  - intros (txin' & rest' & pc' & Hv & Hp & Hl & Hlen8 & Hsize & Hidx). injection Hv as <- <-.
    rewrite Hpc in Hp. injection Hp as <-. split_and!; try done. lia.
Qed.

(** The pairs hashed on the way up a branch. *)
Fixpoint branch_pairs (leaf : Z) (br : list Z) (idx : Z) : list (Z * Z) :=
  match br with
  | [] => []
  | x :: rest =>
      let p := if negb (Z.land idx 1 =? 0) then (x, leaf) else (leaf, x) in
      p :: branch_pairs (HashPair p) rest (Z.shiftr idx 1)
  end.

Lemma root_from_branch_pairs leaf x br idx :
  ComputeMerkleRootFromBranch leaf (x :: br) idx =
  ComputeMerkleRootFromBranch (HashPair (if negb (Z.land idx 1 =? 0) then (x, leaf) else (leaf, x))) br (Z.shiftr idx 1).
Proof. cbn. by destruct (negb _). Qed.

Lemma branch_inj pairs l1 l2 br1 br2 idx : no_collision pairs [] -> length br1 = length br2 ->
  branch_pairs l1 br1 idx ⊆ pairs -> branch_pairs l2 br2 idx ⊆ pairs ->
  ComputeMerkleRootFromBranch l1 br1 idx = ComputeMerkleRootFromBranch l2 br2 idx -> l1 = l2 /\ br1 = br2.
Proof.
  intros [Hc _]. revert l1 l2 br2 idx. induction br1 as [|x br1 IH]; intros l1 l2 [|y br2] idx; try done.
  intros [= Hl] P1 P2. rewrite !root_from_branch_pairs. cbn [branch_pairs] in P1, P2.
  apply cons_subset in P1 as [N1 P1]. apply cons_subset in P2 as [N2 P2]. intros E.
  destruct (IH _ _ _ _ Hl P1 P2 E) as [Eh ->]. pose proof (Hc _ _ N1 N2 Eh) as Ep.
  destruct (negb _); by injection Ep as -> ->.
Qed.

Lemma branch_range leaf br idx : (forall v, 0 <= Sha256 v < 256 ^ 32) -> 0 <= leaf < 256 ^ 32 ->
  0 <= ComputeMerkleRootFromBranch leaf br idx < 256 ^ 32.
Proof.
  intros Hs. revert leaf idx. induction br as [|x br IH]; intros leaf idx Hl; [done|]. rewrite root_from_branch_pairs.
  apply IH. apply Hs.
Qed.

Lemma getExpectedIndex_range n id h : 0 <= getExpectedIndex n id h < 2 ^ Z.of_nat h.
Proof. unfold getExpectedIndex. rewrite Z.shiftl_1_l. apply Z.mod_pos_bound. lia. Qed.

Lemma root_bytes_inj h1 h2 a1 a2 : (forall v, 0 <= Sha256 v < 256 ^ 32) -> 0 <= h1 < 256 ^ 32 -> 0 <= h2 < 256 ^ 32 ->
  0 <= nChainIndex a1 -> nChainIndex a1 = nChainIndex a2 -> root_bytes h1 a1 = root_bytes h2 a2 ->
  ComputeMerkleRootFromBranch h1 (vChainMerkleBranch a1) (nChainIndex a1) =
  ComputeMerkleRootFromBranch h2 (vChainMerkleBranch a2) (nChainIndex a1).
Proof.
  intros Hs H1 H2 Hi Ei E. apply (inj reverse) in E. apply (f_equal le_value) in E. unfold CheckMerkleBranch in E.
  rewrite <- Ei in E.
  rewrite (proj2 (Z.eqb_neq _ (-1))) in E by lia.
  rewrite !le_value_bytes_id in E by (by apply branch_range). done.
Qed.

End Lemmas.

(** ** Correctness *)

(** The coinbase of [a] commits to the block with hash [h]: its script holds
    the root of the chain merkle tree, the tree's size and a nonce, and the
    block is in the slot that the nonce and the chain id determine. *)
Definition committed `{CryptoOps} (a : CAuxPow) (h nChainId : Z) : Prop :=
  let height := length (vChainMerkleBranch a) in
  exists txin rest pre nonce post, vin (mtx_tx (aux_merkle a)) = txin :: rest /\
    scriptSig txin = pre ++ reverse (le_bytes 32 (ComputeMerkleRootFromBranch h (vChainMerkleBranch a) (nChainIndex a)))
                       ++ le_bytes 4 (2 ^ Z.of_nat height) ++ le_bytes 4 nonce ++ post /\
    ((length pre <= 20)%nat \/ exists pre', pre = pre' ++ pchMergedMiningHeader) /\
    in_u32 nonce /\ (height <= 30)%nat /\
    nChainIndex a = getExpectedIndex nonce nChainId height /\ 0 <= nChainIndex a < 2 ^ Z.of_nat height.

Lemma take4_bytes (s : bytes) : (4 <= length s)%nat -> take 4 s = le_bytes 4 (le_value (take 4 s)) /\ in_u32 (le_value (take 4 s)).
Proof.
  intros Hl. assert (length (take 4 s) = 4%nat) as E by (rewrite length_take; lia). split.
  - by rewrite <- E at 2; rewrite le_bytes_value.
  - pose proof (le_value_range (take 4 s)) as Hr. rewrite E in Hr. exact Hr.
Qed.

Lemma located_prefix script pc : located script pc -> (pc <= length script)%nat ->
  (length (take pc script) <= 20)%nat \/ exists pre', take pc script = pre' ++ pchMergedMiningHeader.
Proof.
  unfold located. destruct (search pchMergedMiningHeader script) as [i|] eqn:E.
  - intros [_ ->] Hl. right. exists (take i script). apply search_Some in E as [E _]. apply found_split in E.
    change (length pchMergedMiningHeader) with 4%nat in E. rewrite E at 1. rewrite app_assoc. apply take_app_length'.
    rewrite length_app, length_take. cbn [length pchMergedMiningHeader]. lia.
  - intros Hpc _. left. rewrite length_take. lia.
Qed.

Lemma check_committed `{CryptoOps} a h nChainId p : check a h nChainId p = Ok tt -> committed a h nChainId.
Proof.
  rewrite check_spec. intros (_ & _ & Hlen & _ & txin & rest & pc & Hv & Hs & Hl & Hpc & Hsize & Hidx).
  set (script := scriptSig txin) in *.
  pose proof (getExpectedIndex_range (le_value (take 4 (drop (pc + 36) script))) nChainId (length (vChainMerkleBranch a))) as Hr.
  rewrite <- Hidx in Hr. apply search_Some in Hs as [Hs _]. apply found_split in Hs. rewrite length_root_bytes in Hs.
  destruct (take4_bytes (drop (pc + 32) script) ltac:(rewrite length_drop; lia)) as [Esize _].
  destruct (take4_bytes (drop (pc + 36) script) ltac:(rewrite length_drop; lia)) as [Enonce Hn].
  exists txin, rest, (take pc script), (le_value (take 4 (drop (pc + 36) script))), (drop (pc + 40) script).
  split_and!; try done; try lia.
  - fold script. rewrite <- Hsize, <- Esize, <- Enonce. rewrite Hs at 1. f_equal. unfold root_bytes, CheckMerkleBranch.
    rewrite (proj2 (Z.eqb_neq _ (-1))) by lia. f_equal. rewrite <- (take_drop 4 (drop (pc + 32) script)) at 1. f_equal.
    rewrite drop_drop, <- Nat.add_assoc. rewrite <- (take_drop 4 (drop (pc + (32 + 4)) script)) at 1.
    by rewrite drop_drop, <- Nat.add_assoc.
  - apply located_prefix; [done|lia].
Qed.

(** C23: an accepted header has proof of work behind it.  Its target is
    positive and within the limit; a header without the merge-mining flag has
    a hash that meets it and carries no proof; a header with the flag carries
    the header of a parent block whose hash meets it, together with the branch
    from the parent's coinbase, at position 0, to the parent's merkle root,
    and that coinbase commits to this header in the slot of its chain id. *)
Theorem CheckAuxPowProofOfWork_sound `{CryptoOps} `{PowOps} block p :
  (forall v, 0 <= scrypt_1024_1_1_256 v < M256) -> pow_limit_ok p -> in_u32 (hdr_nBits (pure block)) ->
  CheckAuxPowProofOfWork block p = Ok tt ->
  exists t work, SetCompact (hdr_nBits (pure block)) = (t, false, false) /\ 0 < val t <= powLimit p /\
    GetPoWHash work <= val t /\
    (IsLegacy (hdr_nVersion (pure block)) = false -> fStrictChainId p = true ->
      GetChainId (hdr_nVersion (pure block)) = nAuxpowChainId p) /\
    match auxpow block with
    | None => IsAuxpow (hdr_nVersion (pure block)) = false /\ work = pure block
    | Some a => IsAuxpow (hdr_nVersion (pure block)) = true /\ work = parentBlock a /\
        (fStrictChainId p = true -> GetChainId (hdr_nVersion work) <> GetChainId (hdr_nVersion (pure block))) /\
        ComputeMerkleRootFromBranch (tx_hash (mtx_tx (aux_merkle a))) (vMerkleBranch (aux_merkle a)) 0 = hdr_hashMerkleRoot work /\
        committed a (header_GetHash (pure block)) (GetChainId (hdr_nVersion (pure block)))
    end.
Proof.
  intros Hscrypt Hlim Hbits. unfold CheckAuxPowProofOfWork, getParentBlockPoWHash. rewrite reject_ok.
  intros [Hid Hok].
  assert (IsLegacy (hdr_nVersion (pure block)) = false -> fStrictChainId p = true ->
      GetChainId (hdr_nVersion (pure block)) = nAuxpowChainId p) as Hchain.
  { intros Hl Hs. rewrite Hl, Hs in Hid. cbn [negb andb] in Hid. by apply negb_false_iff, Z.eqb_eq in Hid. }
  destruct (auxpow block) as [a|].
  - rewrite !reject_ok, !negb_false_iff in Hok. destruct Hok as (Haux & Hpow & Hcheck & _).
    destruct (check a _ _ p) as [[]|] eqn:Hc; [|done]. pose proof (check_committed _ _ _ _ Hc) as Hcom.
    apply check_spec in Hc as (_ & Hstrict & _ & Hroot & _).
    apply CheckProofOfWork_iff in Hpow as (t & Et & Ht & Hle); [|done|done|apply Hscrypt].
    exists t, (parentBlock a). destruct Ht. by split_and!.
  - rewrite !reject_ok, !negb_false_iff in Hok. destruct Hok as (Haux & Hpow & _).
    apply CheckProofOfWork_iff in Hpow as (t & Et & Ht & Hle); [|done|done|apply Hscrypt].
    exists t, (pure block). destruct Ht. by split_and!.
Qed.

(** C15: the same parent work counts once.  Two proofs with one coinbase
    script, which has the merged-mining header, that are both accepted for
    one chain id prove the same block in the same slot, unless two of the
    pairs hashed along their branches collide. *)
Theorem merged_work_counts_once `{CryptoOps} a1 a2 h1 h2 nChainId p txin rest1 rest2 :
  (forall v, 0 <= Sha256 v < 256 ^ 32) -> 0 <= h1 < 256 ^ 32 -> 0 <= h2 < 256 ^ 32 ->
  vin (mtx_tx (aux_merkle a1)) = txin :: rest1 -> vin (mtx_tx (aux_merkle a2)) = txin :: rest2 ->
  is_Some (search pchMergedMiningHeader (scriptSig txin)) ->
  no_collision (branch_pairs h1 (vChainMerkleBranch a1) (nChainIndex a1) ++
                branch_pairs h2 (vChainMerkleBranch a2) (nChainIndex a2)) [] ->
  check a1 h1 nChainId p = Ok tt -> check a2 h2 nChainId p = Ok tt ->
  h1 = h2 /\ nChainIndex a1 = nChainIndex a2 /\ vChainMerkleBranch a1 = vChainMerkleBranch a2.
Proof.
  intros Hsha Hh1 Hh2 Hv1 Hv2 [i Hi] Hc. rewrite !check_spec, Hv1, Hv2.
  intros (_ & _ & _ & _ & ? & ? & pc1 & [= <- <-] & Hs1 & Hl1 & Hp1 & Hz1 & Hx1).
  intros (_ & _ & _ & _ & ? & ? & pc2 & [= <- <-] & Hs2 & Hl2 & Hp2 & Hz2 & Hx2).
  unfold located in Hl1, Hl2. rewrite Hi in Hl1, Hl2. destruct Hl1 as [_ ->], Hl2 as [_ ->].
  assert (length (vChainMerkleBranch a1) = length (vChainMerkleBranch a2)) as Hlen.
  { rewrite Hz1 in Hz2. apply Z.pow_inj_r in Hz2; lia. }
  assert (nChainIndex a1 = nChainIndex a2) as Hidx by (by rewrite Hx1, Hx2, Hlen).
  apply search_Some in Hs1 as [Hs1 _]. apply search_Some in Hs2 as [Hs2 _]. rewrite length_root_bytes in Hs1, Hs2.
  assert (0 <= nChainIndex a1) as Hpos by (rewrite Hx1; apply getExpectedIndex_range).
  pose proof (root_bytes_inj h1 h2 a1 a2 Hsha Hh1 Hh2 Hpos Hidx ltac:(congruence)) as Hroot.
  rewrite <- Hidx in Hc. apply (branch_inj _ _ _ _ _ _ Hc Hlen) in Hroot as [-> ->]; [done|set_solver|set_solver].
Qed.

(** an honest proof is accepted.  A miner who puts the block's hash into
    the expected slot of a chain merkle tree, writes the tree's root, size and
    nonce after a merged-mining header that occurs once in the coinbase, and
    takes both branches from the computations of the node, has a proof that
    passes the check. *)
Theorem honest_proof_accepted `{CryptoOps} parent root_muted coinbase rest txin ins L h nonce nChainId hashAux pre post p :
  let idx := getExpectedIndex nonce nChainId h in
  let root := reverse (le_bytes 32 (merkle_root L)) in
  Z.of_nat (length (coinbase :: rest)) <= 2 ^ 31 ->
  BlockMerkleRoot (mkBlock (coinbase :: rest)) = Ok (hdr_hashMerkleRoot parent, root_muted) ->
  (fStrictChainId p = true -> GetChainId (hdr_nVersion parent) <> nChainId) ->
  (h <= 30)%nat -> length L = Nat.pow 2 h -> L !! Z.to_nat idx = Some hashAux ->
  vin coinbase = txin :: ins -> in_u32 nonce ->
  scriptSig txin = pre ++ pchMergedMiningHeader ++ root ++ le_bytes 4 (2 ^ Z.of_nat h) ++ le_bytes 4 nonce ++ post ->
  search pchMergedMiningHeader (scriptSig txin) = Some (length pre) ->
  search pchMergedMiningHeader (drop (length pre + 1) (scriptSig txin)) = None ->
  search root (scriptSig txin) = Some (length pre + 4)%nat ->
  exists mtx br, InitMerkleBranch (mkMerkleTx coinbase 0 [] (-1)) parent (mkBlock (coinbase :: rest)) 0 = Ok mtx /\
    ComputeMerkleBranch L idx = Ok br /\ check (mkAuxPow mtx br idx parent) hashAux nChainId p = Ok tt.
Proof.
  intros idx root Hn Hroot Hstrict Hh HL Hidx Hvin Hnonce Hscript Hhead Honly Hsearch.
  destruct (ComputeMerkleBranch_spec (tx_hash <$> coinbase :: rest) 0 (tx_hash coinbase)) as (brp & Ebrp & _ & Hbrp);
    [done|by rewrite length_fmap|].
  assert (0 <= idx < 2 ^ Z.of_nat h) as Hir by apply getExpectedIndex_range.
  assert (2 ^ Z.of_nat h <= 2 ^ 30) as Hp30 by (apply Z.pow_le_mono_r; lia).
  assert (Z.of_nat (Nat.pow 2 h) = 2 ^ Z.of_nat h) as Epow by (rewrite Nat2Z.inj_pow; done).
  destruct (ComputeMerkleBranch_spec L (Z.to_nat idx) hashAux Hidx ltac:(rewrite HL, Epow; lia)) as (br & Ebr & Hlen & Hbr).
  rewrite Z2Nat.id in Ebr, Hbr by lia.
  assert (length br = h) as Hlenh by (rewrite Hlen; unfold depth; rewrite HL; by apply Nat.log2_up_pow2; lia).
  unfold InitMerkleBranch, BlockMerkleBranch. cbn [vtx]. change (Z.of_nat 0) with (u32 0) in Ebrp. rewrite Ebrp. cbn [mbind result_bind].
  eexists _, br. split_and!; [done|done|]. apply check_spec. cbn [aux_merkle nIndex parentBlock vChainMerkleBranch mtx_tx vMerkleBranch nChainIndex].
  split_and!; [done|done|lia| |].
  - change (Z.of_nat 0) with 0 in Hbrp. rewrite Hbrp. unfold BlockMerkleRoot in Hroot. cbn [vtx] in Hroot.
    destruct (ComputeMerkleRoot_spec (tx_hash <$> coinbase :: rest)) as (muted & Er); [done|by rewrite length_fmap|].
    rewrite Er in Hroot. by injection Hroot as <- _.
  - assert (root_bytes hashAux (mkAuxPow (mkMerkleTx coinbase (header_GetHash parent) brp 0) br idx parent) = root) as ->.
    { unfold root_bytes, CheckMerkleBranch. cbn [nChainIndex vChainMerkleBranch]. rewrite (proj2 (Z.eqb_neq _ (-1))), Hbr by lia. done. }
    assert (length root = 32%nat) as Hr32 by (unfold root; by rewrite length_reverse, length_le_bytes).
    assert (forall k, drop (length pre + 4 + 32 + k) (scriptSig txin) = drop k (le_bytes 4 (2 ^ Z.of_nat h) ++ le_bytes 4 nonce ++ post)) as Hdrop.
    { intros k. rewrite Hscript, <- drop_drop. f_equal. rewrite !app_assoc, <- (app_assoc _ _ post), <- (app_assoc _ _ (_ ++ post)).
      apply drop_app_length'. rewrite !length_app, Hr32. cbn [length pchMergedMiningHeader]. lia. }
    exists txin, ins, (length pre + 4)%nat. rewrite Hlenh. split_and!; [done|done| | | |].
    + unfold located. rewrite Hhead. by split.
    + rewrite Hscript, !length_app, Hr32, !length_le_bytes. cbn [length pchMergedMiningHeader]. lia.
    + pose proof (Hdrop 0%nat) as E. rewrite Nat.add_0_r, drop_0 in E. rewrite E, take_app_length' by (by rewrite length_le_bytes).
      apply le_value_bytes_id. change (256 ^ Z.of_nat 4) with (2 ^ 32). lia.
    + replace (length pre + 4 + 36)%nat with (length pre + 4 + 32 + 4)%nat by lia. rewrite (Hdrop 4%nat).
      rewrite drop_app_length', take_app_length' by (by rewrite length_le_bytes). rewrite le_value_bytes_id; [done|exact Hnonce].
Qed.

(** ** Examples *)

Module AuxPowExample.
Import MerkleExample.

#[export] Instance demo_scrypt : PowOps := {| scrypt_1024_1_1_256 := fun v => le_value (drop 76 v) mod M256 |}.

Definition demo_version : Z := Z.lor (Z.shiftl 0x3f 16) (Z.lor VERSION_AUXPOW 4).
Definition demo_pure : CPureBlockHeader := mkHeader demo_version 5 6 1000 0x1e0ffff0 99.
Definition mined_hash : Z := header_GetHash demo_pure.
Definition demo_index : Z := getExpectedIndex 7 0x3f 1.
Definition demo_script : bytes :=
  [x03; x01] ++ pchMergedMiningHeader ++ reverse (le_bytes 32 (ComputeMerkleRootFromBranch mined_hash [41] demo_index))
    ++ le_bytes 4 2 ++ le_bytes 4 7.
Definition demo_coinbase : CTransaction := mkTransaction 17 1 [mkTxIn null_outpoint demo_script 0 []] [] 0.
(** A parent block with the coinbase and one further transaction. *)
Definition demo_parent (nonce : Z) : CPureBlockHeader := mkHeader 1 0 (ComputeMerkleRootFromBranch 17 [23] 0) 1000 0 nonce.
Definition demo_auxpow (nonce : Z) : CAuxPow :=
  mkAuxPow (mkMerkleTx demo_coinbase 0 [23] 0) [41] demo_index (demo_parent nonce).
Definition demo_mined : CBlockHeader := mkBlockHeader demo_pure (Some (demo_auxpow 3)).

Lemma demo_sha_range (v : bytes) : 0 <= Sha256 v < 256 ^ 32.
Proof.
  unfold Sha256, demo_sha. change (256 ^ 32) with M256. assert (2 ^ 61 - 1 < M256) as H1 by reflexivity.
  pose proof (Z.mod_pos_bound (le_value v * 7919 + 13) (2 ^ 61 - 1) eq_refl). lia.
Qed.

Lemma CheckAuxPowProofOfWork_sound_witness :
  CheckAuxPowProofOfWork demo_mined main_auxpow = Ok tt /\ committed (demo_auxpow 3) mined_hash 0x3f.
Proof.
  assert (CheckAuxPowProofOfWork demo_mined main_auxpow = Ok tt) as E by (vm_compute; reflexivity).
  split; [exact E|].
  destruct (CheckAuxPowProofOfWork_sound demo_mined main_auxpow) as (t & work & _ & _ & _ & _ & _ & _ & _ & _ & Hc).
  - intros v. apply Z.mod_pos_bound. reflexivity.
  - split; reflexivity.
  - split; [discriminate|reflexivity].
  - exact E.
  - exact Hc.
Defined.

Lemma merged_work_counts_once_witness : header_GetHash demo_pure = mined_hash /\
  nChainIndex (demo_auxpow 3) = nChainIndex (demo_auxpow 4) /\
  vChainMerkleBranch (demo_auxpow 3) = vChainMerkleBranch (demo_auxpow 4).
Proof.
  assert (0 <= mined_hash < 256 ^ 32) as Hb by apply demo_sha_range.
  apply (merged_work_counts_once (demo_auxpow 3) (demo_auxpow 4) mined_hash mined_hash 0x3f main_auxpow
           (mkTxIn null_outpoint demo_script 0 []) [] []).
  - exact demo_sha_range.
  - exact Hb.
  - exact Hb.
  - reflexivity.
  - reflexivity.
  - exists 2%nat. vm_compute. reflexivity.
  - change (no_collision (branch_pairs mined_hash [41] demo_index ++ branch_pairs mined_hash [41] demo_index) []).
    cbn [branch_pairs app]. set (p := if negb _ then _ else _). split; [|intros x q Hx; inversion Hx].
    intros q r Hq Hr _. rewrite list_elem_of_In in Hq. rewrite list_elem_of_In in Hr. cbn [In] in Hq, Hr. intuition congruence.
  - vm_compute. reflexivity.
  - vm_compute. reflexivity.
Defined.

Definition demo_leaves : list Z := if demo_index =? 0 then [mined_hash; 41] else [41; mined_hash].

Lemma honest_proof_accepted_witness : exists mtx br,
  InitMerkleBranch (mkMerkleTx demo_coinbase 0 [] (-1)) (demo_parent 3) (mkBlock [demo_coinbase; mkTransaction 23 1 [] [] 0]) 0 = Ok mtx /\
  ComputeMerkleBranch demo_leaves demo_index = Ok br /\
  check (mkAuxPow mtx br demo_index (demo_parent 3)) mined_hash 0x3f main_auxpow = Ok tt.
Proof.
  apply (honest_proof_accepted (demo_parent 3) false demo_coinbase [mkTransaction 23 1 [] [] 0] (mkTxIn null_outpoint demo_script 0 []) []
           demo_leaves 1 7 0x3f mined_hash [x03; x01] [] main_auxpow).
  - discriminate.
  - vm_compute. reflexivity.
  - intros _. vm_compute. discriminate.
  - lia.
  - vm_compute. reflexivity.
  - vm_compute. reflexivity.
  - reflexivity.
  - split; [discriminate|reflexivity].
  - vm_compute. reflexivity.
  - vm_compute. reflexivity.
  - vm_compute. reflexivity.
  - vm_compute. reflexivity.
Defined.

(** The same proof is refused for another chain id, and with a second header in the coinbase. *)
Example other_slot_refused : check (demo_auxpow 3) mined_hash 0x3e main_auxpow = Err "Aux POW wrong index".
Proof. vm_compute. reflexivity. Qed.

End AuxPowExample.
