(* ===== verification/HeaderChain.v ===== *)
(** * Accepting headers
      ([src/src/validation.cpp]: [CheckBlockHeader], [ContextualCheckBlockHeader],
      [AcceptBlockHeader], [ProcessNewBlockHeaders], [InvalidBlockFound],
      [ResetBlockFailureFlags]; [checkpoints.cpp], [consensus/validation.h])

    The header handlers over the block index and the set of failed blocks.
    That set is ordered by address in the code, so it is a list here whose
    order the theorems leave open.  The set of candidates for the active
    chain, the fork warnings and the log are not part of this state.  An
    [Abort] is a failed [assert] or a null pointer. *)

From S2P Require Import Prelude Nicknames Serialize Script Base58 Arith Merkle Header BlockIndex Pow Transaction AuxPow.
Open Scope Z_scope.
Open Scope kubu_scope.

(** ** The validation state *)

(** What a check leaves in [CValidationState]: nothing, or a violation with
    its score and code. *)
Inductive verdict (A : Type) : Type :=
| Done (a : A)
| Invalid (nDoS chRejectCode : Z) (strRejectReason : string)
| Abort (msg : string).
Arguments Done {A} a.
Arguments Invalid {A} nDoS chRejectCode strRejectReason.
Arguments Abort {A} msg.

#[export] Instance verdict_bind : MBind verdict := fun A B f r =>
  match r with Done a => f a | Invalid d c e => Invalid d c e | Abort e => Abort e end.
Definition lift {A} (r : result A) : verdict A := match r with Ok a => Done a | Err e => Abort e end.
(** [if (b) return state.DoS(level, ..., code, reason)]; [Invalid] is the level 0. *)
Definition dos {A} (b : bool) (level code : Z) (reason : string) (k : verdict A) : verdict A :=
  if b then Invalid level code reason else k.
Notation "'dos_if' b 'level' l 'code' c 'reason' r ; k" := (dos b l c r k)
  (at level 200, b at level 199, l at level 9, c at level 9, r at level 199, k at level 200) : kubu_scope.

Definition REJECT_INVALID : Z := 0x10.
Definition REJECT_OBSOLETE : Z := 0x11.

(** ** State *)

Record ChainParams := mkChainParams {
  consensus_root : ParamsTree;
  hashGenesisBlock : Z;
  mapCheckpoints : list (Z * Z)
}.

Definition main_checkpoints : list (Z * Z) :=
  [(0, 0xb995d8d81cfb8c8cff5829b23cbff8ff4b34347f1c48c7e098ea7fb416a56951);
   (1000, 0x1561d231b29d3b64b6b560f2e6eb462aa04fd7f295d02b5a40aaac801d8a0d01);
   (5000, 0x09fab2e11c98c3653a21d0984f2183f0e8e388e71a3b80c31cb44adc4f307e2e);
   (10000, 0xb2982cefe367b6c90bac8c4a9e29c22bbf2a404a482caf835e98c1cf8d661a3e);
   (20000, 0x5762f555260c353042335f9d09f49f5403c7edf8a7b5e20ac132d5f12843fc51);
   (30000, 0x846a49d7097c84d137c553a828b683c3c65bed00971cb617a6e3097413ab31a6);
   (39000, 0x24386bf570dba80ff11fba1961f5f85e822b19ea6acd88ac64c838c8fdc5d0cc);
   (40000, 0xb6557f7c7bc0a38cd3dd09440188af5534861cc41969b03d7b2cc1b0ed4b3396);
   (50000, 0x376eeb8290918072e2778e348006438eba345e77e401bc28f2f4c0b310385811);
   (60000, 0x1f534e0c5a54c8820c275ec881586db34ae74221989acf7e407bb64b1c6ba32d);
   (70000, 0xb66ae689eef9a2daf88150ca63febb013e7d1bbb4a3ccf6c6b6650a88900d902);
   (80000, 0x421e258c91c82fc8a9b18f91e0264334bf9c9146af267c542e5ef4950282fb59);
   (84000, 0xcf601dd82c845599c4551be51f4112a48ae041e2d144a6bc98d2e57dfaa6b41b);
   (84891, 0x6a27cb2f5a4c2e3b56796e417e0098e1571fd0cb4536721a5b742be9f1da4f1b)].
Definition main_genesis : CPureBlockHeader :=
  mkHeader 1 0 0xd22a1ba59a39cbd5904624933efb822c8baa121f97060c4cc9ea2f00a4bc6512 1772474096 0x1e0ffff0 136519.
Definition main_chainparams : ChainParams :=
  mkChainParams main_root 0xb995d8d81cfb8c8cff5829b23cbff8ff4b34347f1c48c7e098ea7fb416a56951 main_checkpoints.

Record ChainState := mkChainState {
  tree : BlockTree;
  gFailedBlocks : list Z;
  pindexBestInvalid : option Z
}.

Definition BLOCK_VALID_TRANSACTIONS : Z := 3.
Definition BLOCK_VALID_SCRIPTS : Z := 5.
Definition BLOCK_FAILED_VALID : Z := 32.
Definition BLOCK_FAILED_CHILD : Z := 64.

Definition with_status (b : CBlockIndex) (status : Z) : CBlockIndex :=
  mkIndex (pprev b) (pskip b) (nHeight b) (nChainWork b) status (nVersion b) (hashMerkleRoot b)
    (nTime b) (nBits b) (nNonce b) (nTimeMax b).
(** [pindex->nStatus = f(pindex->nStatus); setDirtyBlockIndex.insert(pindex)]. *)
Definition set_nStatus (t : BlockTree) (p : Z) (b : CBlockIndex) (f : Z -> Z) : BlockTree :=
  mkTree (<[p := with_status b (f (nStatus b))]> (mapBlockIndex t)) (pindexBestHeader t) ({[p]} ∪ setDirtyBlockIndex t).
Definition failed (b : CBlockIndex) : bool := negb (Z.land (nStatus b) BLOCK_FAILED_MASK =? 0).

(** ** Checks *)

Section HeaderChain.
Context `{CryptoOps} `{PowOps} (chainparams : ChainParams) (fCheckpointsEnabled : bool).

Definition CheckBlockHeader (block : CBlockHeader) (fCheckPOW : bool) : verdict unit :=
  dos_if fCheckPOW && negb (is_ok (CheckAuxPowProofOfWork block (GetConsensus (consensus_root chainparams) 0)))
    level 50 code REJECT_INVALID reason "high-hash" ;
  Done tt.

(** [GetLastCheckpoint]: the map is read from the greatest height. *)
Definition GetLastCheckpoint (m : BlockMap) : option Z :=
  snd <$> List.find (fun c => bool_decide (is_Some (m !! snd c))) (reverse (mapCheckpoints chainparams)).

Definition CheckIndexAgainstCheckpoint (m : BlockMap) (pindexPrev : Z) : verdict unit :=
  if pindexPrev =? hashGenesisBlock chainparams then Done tt
  else
    bprev ← lift (deref m pindexPrev);
    match GetLastCheckpoint m with
    | None => Done tt
    | Some c =>
        bc ← lift (deref m c);
        dos_if nHeight bprev + 1 <? nHeight bc level 100 code 0 reason "" ;
        Done tt
    end.

(** [strprintf("%08x", v)] for an [int]. *)
Definition hex08 (v : Z) : string := string_of_bytes (reverse (le_bytes 4 (u32 v)) ≫= hex_byte).

Definition ContextualCheckBlockHeader (m : BlockMap) (block : CBlockHeader) (pindexPrev : option Z) (nAdjustedTime : Z) :
    verdict unit :=
  nHeight ← match pindexPrev with
            | None => Done 0
            | Some q => b ← lift (deref m q); Done (nHeight b + 1)
            end;
  let consensusParams := GetConsensus (consensus_root chainparams) nHeight in
  let ver := hdr_nVersion (pure block) in
  dos_if negb (fAllowLegacyBlocks consensusParams) && IsLegacy ver
    level 100 code REJECT_INVALID reason "late-legacy-block" ;
  dos_if fAllowLegacyBlocks consensusParams && IsAuxpow ver
    level 100 code REJECT_INVALID reason "early-auxpow-block" ;
  work ← lift (GetNextWorkRequired m pindexPrev (pure block) consensusParams);
  dos_if negb (hdr_nBits (pure block) =? work) level 100 code REJECT_INVALID reason "bad-diffbits" ;
  median ← lift (match pindexPrev with Some q => GetMedianTimePast m q | None => Err "null pointer" end);
  dos_if header_GetBlockTime (pure block) <=? median level 0 code REJECT_INVALID reason "time-too-old" ;
  dos_if nAdjustedTime + 2 * 60 * 60 <? header_GetBlockTime (pure block)
    level 0 code REJECT_INVALID reason "time-too-new" ;
  dos_if ((GetBaseVersion ver <? 3) && (BIP66Height consensusParams <=? nHeight))
         || ((GetBaseVersion ver <? 4) && (BIP65Height consensusParams <=? nHeight))
    level 0 code REJECT_OBSOLETE reason ("bad-version(0x" ++ hex08 (GetBaseVersion ver) ++ ")") ;
  Done tt.

(** ** Accepting a header *)

(** The walk from [invalidWalk] down to the failed block. *)
Fixpoint mark_children (fuel : nat) (t : BlockTree) (invalidWalk : Z) (failedit : Z) : result BlockTree :=
  if invalidWalk =? failedit then Ok t
  else
    match fuel with
    | O => Err "out of fuel"
    | S fuel' =>
        b ← deref (mapBlockIndex t) invalidWalk;
        let t := set_nStatus t invalidWalk b (fun st => Z.lor st BLOCK_FAILED_CHILD) in
        match pprev b with
        | Some q => mark_children fuel' t q failedit
        | None => Err "null pointer"
        end
    end.

(** The loop over the failed blocks: [Some t] when one is an ancestor of
    [pindexPrev], with the index after the walk. *)
Fixpoint failed_ancestor (t : BlockTree) (pindexPrev : Z) (l : list Z) : result (option BlockTree) :=
  match l with
  | [] => Ok None
  | failedit :: rest =>
      bf ← deref (mapBlockIndex t) failedit;
      a ← GetAncestor (mapBlockIndex t) pindexPrev (nHeight bf);
      if decide (a = Some failedit) then
        reject Z.land (nStatus bf) BLOCK_FAILED_VALID =? 0 with "assertion failedit->nStatus & BLOCK_FAILED_VALID failed" ;
        bprev ← deref (mapBlockIndex t) pindexPrev;
        t' ← mark_children (Z.to_nat (nHeight bprev)) t pindexPrev failedit;
        Ok (Some t')
      else failed_ancestor t pindexPrev rest
  end.

Definition with_tree (s : ChainState) (t : BlockTree) : ChainState := mkChainState t (gFailedBlocks s) (pindexBestInvalid s).

(** [if (pindex == NULL) pindex = AddToBlockIndex(block)]. *)
Definition add_header (s : ChainState) (block : CBlockHeader) : verdict Z * ChainState :=
  match AddToBlockIndex (tree s) (pure block) with
  | Ok (t, p) => (Done p, with_tree s t)
  | Err e => (Abort e, s)
  end.

(** The checks on a new header that do not change the state; the result is [pindexPrev]. *)
Definition check_header (m : BlockMap) (block : CBlockHeader) (nAdjustedTime : Z) : verdict Z :=
  _ ← CheckBlockHeader block true;
  let q := hashPrevBlock (pure block) in
  match m !! q with
  | None => Invalid 10 0 "bad-prevblk"
  | Some bprev =>
      dos_if failed bprev level 100 code REJECT_INVALID reason "bad-prevblk" ;
      _ ← (if fCheckpointsEnabled then CheckIndexAgainstCheckpoint m q else Done tt);
      _ ← ContextualCheckBlockHeader m block (Some q) nAdjustedTime;
      Done q
  end.

Definition AcceptBlockHeader (s : ChainState) (block : CBlockHeader) (nAdjustedTime : Z) : verdict Z * ChainState :=
  let m := mapBlockIndex (tree s) in
  let hash := header_GetHash (pure block) in
  if hash =? hashGenesisBlock chainparams then add_header s block
  else
    match m !! hash with
    | Some b => if failed b then (Invalid 0 0 "duplicate", s) else (Done hash, s)
    | None =>
        match check_header m block nAdjustedTime with
        | Invalid d c e => (Invalid d c e, s)
        | Abort e => (Abort e, s)
        | Done q =>
            match deref m q with
            | Err e => (Abort e, s)
            | Ok bprev =>
                if index_IsValid bprev BLOCK_VALID_SCRIPTS then add_header s block
                else
                  match failed_ancestor (tree s) q (gFailedBlocks s) with
                  | Err e => (Abort e, s)
                  | Ok (Some t) => (Invalid 100 REJECT_INVALID "bad-prevblk", with_tree s t)
                  | Ok None => add_header s block
                  end
            end
        end
    end.

(** [ProcessNewBlockHeaders]; [ppindex] is the last accepted header. *)
Fixpoint ProcessNewBlockHeaders (s : ChainState) (headers : list CBlockHeader) (nAdjustedTime : Z) (ppindex : option Z) :
    verdict (option Z) * ChainState :=
  match headers with
  | [] => (Done ppindex, s)
  | header :: rest =>
      match AcceptBlockHeader s header nAdjustedTime with
      | (Done p, s') => ProcessNewBlockHeaders s' rest nAdjustedTime (Some p)
      | (Invalid d c e, s') => (Invalid d c e, s')
      | (Abort e, s') => (Abort e, s')
      end
  end.

End HeaderChain.

(** ** Failed blocks *)

Definition InvalidChainFound (s : ChainState) (pindexNew : Z) : result ChainState :=
  bnew ← deref (mapBlockIndex (tree s)) pindexNew;
  better ← match pindexBestInvalid s with
           | None => Ok true
           | Some best => bbest ← deref (mapBlockIndex (tree s)) best; Ok (0 <? CompareTo (nChainWork bnew) (nChainWork bbest))
           end;
  Ok (mkChainState (tree s) (gFailedBlocks s) (if (better : bool) then Some pindexNew else pindexBestInvalid s)).

Definition InvalidBlockFound (s : ChainState) (pindex : Z) (corruptionPossible : bool) : result ChainState :=
  if corruptionPossible then Ok s
  else
    b ← deref (mapBlockIndex (tree s)) pindex;
    let t := set_nStatus (tree s) pindex b (fun st => Z.lor st BLOCK_FAILED_VALID) in
    let l := if decide (pindex ∈ gFailedBlocks s) then gFailedBlocks s else pindex :: gFailedBlocks s in
    InvalidChainFound (mkChainState t l (pindexBestInvalid s)) pindex.

Definition clear_failed (st : Z) : Z := Z.land st (u32 (Z.lnot BLOCK_FAILED_MASK)).

(** One turn of the loop over the index. *)
Definition reset_entry (pindex nHeight : Z) (s : ChainState) (p : Z) : result ChainState :=
  b ← deref (mapBlockIndex (tree s)) p;
  if index_IsValid b BLOCK_VALID_TRANSACTIONS then Ok s
  else
    a ← GetAncestor (mapBlockIndex (tree s)) p nHeight;
    if decide (a = Some pindex) then
      Ok (mkChainState (set_nStatus (tree s) p b clear_failed) (gFailedBlocks s)
            (if decide (pindexBestInvalid s = Some p) then None else pindexBestInvalid s))
    else Ok s.
Fixpoint reset_entries (pindex nHeight : Z) (s : ChainState) (l : list Z) : result ChainState :=
  match l with
  | [] => Ok s
  | p :: rest => s' ← reset_entry pindex nHeight s p; reset_entries pindex nHeight s' rest
  end.
Fixpoint reset_ancestors (fuel : nat) (t : BlockTree) (pindex : option Z) : result BlockTree :=
  match pindex with
  | None => Ok t
  | Some p =>
      match fuel with
      | O => Err "out of fuel"
      | S fuel' =>
          b ← deref (mapBlockIndex t) p;
          reset_ancestors fuel' (if failed b then set_nStatus t p b clear_failed else t) (pprev b)
      end
  end.

Definition ResetBlockFailureFlags (s : ChainState) (pindex : Z) : result ChainState :=
  b ← deref (mapBlockIndex (tree s)) pindex;
  s' ← reset_entries pindex (nHeight b) s (fst <$> map_to_list (mapBlockIndex (tree s)));
  t ← reset_ancestors (S (Z.to_nat (nHeight b))) (tree s') (Some pindex);
  Ok (with_tree s' t).

(** ** Functions of the index read no status *)

(** [m'] has the entries of [m], up to their status. *)
Definition extended_by (m m' : BlockMap) : Prop :=
  forall p b, m !! p = Some b -> exists st, m' !! p = Some (with_status b st).

Lemma with_status_id b : with_status b (nStatus b) = b.
Proof. by destruct b. Qed.
#[export] Instance extended_by_preorder : PreOrder extended_by.
Proof.
  split.
  - intros m p b Hp. exists (nStatus b). by rewrite with_status_id.
  - intros m1 m2 m3 H12 H23 p b Hp. destruct (H12 p b Hp) as [st Hst]. apply (H23 _ _ Hst).
Qed.
Lemma subseteq_extends m m' : m ⊆ m' -> extended_by m m'.
Proof. intros Hm p b Hp. exists (nStatus b). rewrite with_status_id. by eapply lookup_weaken. Qed.

Section Mono.
Context (m m' : BlockMap) (Hext : extended_by m m').

Lemma deref_mono p b : deref m p = Ok b -> exists st, deref m' p = Ok (with_status b st).
Proof.
  unfold deref. destruct (m !! p) as [b0|] eqn:E; [|done]. intros [= ->]. destruct (Hext p b E) as [st ->]. by exists st.
Qed.

Lemma GetAncestor_loop_mono fuel p hw h q : GetAncestor_loop fuel m p hw h = Ok q -> GetAncestor_loop fuel m' p hw h = Ok q.
Proof.
  revert p hw. induction fuel as [|fuel IH]; intros p hw; cbn [GetAncestor_loop]; [done|]. destruct (hw <=? h); [done|].
  rewrite bind_ok. intros (b & Hb & Hk). destruct (deref_mono p b Hb) as [st ->]. cbn [mbind result_bind with_status pskip pprev].
  destruct (pskip b); [destruct (_ || _); [by apply IH|]|]; (destruct (pprev b); [by apply IH|done]).
Qed.
Lemma GetAncestor_mono_status p h q : GetAncestor m p h = Ok q -> GetAncestor m' p h = Ok q.
Proof.
  unfold GetAncestor. rewrite bind_ok. intros (b & Hb & Hk). destruct (deref_mono p b Hb) as [st ->].
  cbn [mbind result_bind with_status nHeight]. destruct (_ || _); [done|].
  apply bind_ok in Hk as (r & Hr & Hk). by rewrite (GetAncestor_loop_mono _ _ _ _ _ Hr).
Qed.
Lemma past_times_mono n p ts : past_times n m p = Ok ts -> past_times n m' p = Ok ts.
Proof.
  revert p ts. induction n as [|n IH]; intros [p|] ts; cbn [past_times]; try done.
  rewrite bind_ok. intros (b & Hb & Hk). destruct (deref_mono p b Hb) as [st ->]. cbn [mbind result_bind with_status pprev nTime].
  apply bind_ok in Hk as (r & Hr & Hk). by rewrite (IH _ _ Hr).
Qed.
Lemma GetMedianTimePast_mono p t : GetMedianTimePast m p = Ok t -> GetMedianTimePast m' p = Ok t.
Proof. unfold GetMedianTimePast. rewrite bind_ok. intros (ts & Hts & Hk). by rewrite (past_times_mono _ _ _ Hts). Qed.
Lemma last_normal_bits_mono fuel p limit interval c :
  last_normal_bits fuel m p limit interval = Ok c -> last_normal_bits fuel m' p limit interval = Ok c.
Proof.
  revert p. induction fuel as [|fuel IH]; intros p; cbn [last_normal_bits]; rewrite bind_ok; intros (b & Hb & Hk);
    destruct (deref_mono p b Hb) as [st ->]; cbn [mbind result_bind with_status pprev nHeight nBits];
    (destruct (pprev b); [|done]); (destruct (_ && _); [|done]); [done|by apply IH].
Qed.
Lemma GetNextWorkRequired_mono last pblock p c :
  GetNextWorkRequired m last pblock p = Ok c -> GetNextWorkRequired m' last pblock p = Ok c.
Proof.
  unfold GetNextWorkRequired. rewrite bind_ok. intros (limit & -> & Hk). cbn [mbind result_bind]. destruct last as [q|]; [|done].
  apply bind_ok in Hk as (b & Hb & Hk). destruct (deref_mono q b Hb) as [st ->]. cbn [mbind result_bind].
  change (AllowDigishieldMinDifficultyForBlock (with_status b st)) with (AllowDigishieldMinDifficultyForBlock b).
  cbn [with_status nHeight nTime nBits]. destruct (AllowDigishieldMinDifficultyForBlock b pblock p); [done|].
  destruct (negb (Z.rem _ _ =? 0)).
  - destruct (fPowAllowMinDifficultyBlocks p); [|done]. destruct (_ <? _); [done|]. by apply last_normal_bits_mono.
  - apply reject_ok in Hk as [Hn Hk]. rewrite reject_false by done. apply bind_ok in Hk as (a & Ha & Hk).
    rewrite (GetAncestor_mono_status _ _ _ Ha). cbn [mbind result_bind]. destruct a as [f|]; [|done].
    apply bind_ok in Hk as (bf & Hbf & Hk). destruct (deref_mono f bf Hbf) as [st' ->]. done.
Qed.
Lemma walk_extends n p q : walk m n p = Some q -> walk m' n p = Some q.
Proof.
  revert p. induction n as [|n IH]; intros p; cbn [walk]; [done|]. intros (b & Hb & (r & Hr & Hw)%bind_Some)%bind_Some.
  destruct (Hext p b Hb) as [st ->]. cbn. rewrite Hr. cbn. by apply IH.
Qed.
Lemma linked_extends b st : linked m b -> linked m' (with_status b st).
Proof.
  unfold linked. cbn [with_status pprev pskip nHeight nTimeMax nTime nChainWork nBits]. destruct (pprev b) as [q|]; [|done].
  intros (bq & s & Hq & Hh & Hs & Hw & Ht & Hcw). destruct (Hext q bq Hq) as [st' Hq'].
  exists (with_status bq st'), s. cbn [with_status nHeight nTimeMax nChainWork]. split_and!; try done. by apply walk_extends.
Qed.
Lemma ancestor_extends p h q : ancestor m p h q -> ancestor m' p h q.
Proof.
  intros (b & Hb & Hh & Hw). destruct (Hext p b Hb) as [st Hb']. exists (with_status b st).
  cbn [with_status nHeight]. split_and!; try done; try lia. by apply walk_extends.
Qed.

End Mono.

(** ** Changes of status *)

(** [t'] is [t] with statuses changed within [R]; [marks] when none loses [BLOCK_FAILED_VALID]. *)
Definition relabels (R : relation Z) (t t' : BlockTree) : Prop :=
  pindexBestHeader t' = pindexBestHeader t /\
  (forall p, mapBlockIndex t !! p = None -> mapBlockIndex t' !! p = None) /\
  (forall p b, mapBlockIndex t !! p = Some b -> exists st, mapBlockIndex t' !! p = Some (with_status b st) /\ R (nStatus b) st).
Definition keeps_failed (st st' : Z) : Prop :=
  Z.land st BLOCK_FAILED_VALID <> 0 -> Z.land st' BLOCK_FAILED_VALID <> 0.
Notation marks := (relabels keeps_failed).

#[export] Instance keeps_failed_preorder : PreOrder keeps_failed.
Proof. split; [by intros st ?|]. intros a b c Hab Hbc Ha. by apply Hbc, Hab. Qed.
#[export] Instance any_status_preorder : PreOrder (fun _ _ : Z => True).
Proof. by split. Qed.

Section Relabels.
Context (R : relation Z) {HR : PreOrder R}.

#[export] Instance relabels_preorder : PreOrder (relabels R).
Proof.
  split.
  - intros t. split_and!; [done|done|]. intros p b Hp. exists (nStatus b). by rewrite with_status_id.
  - intros t1 t2 t3 (B1 & N1 & M1) (B2 & N2 & M2). split_and!; [congruence|auto|]. intros p b Hp.
    destruct (M1 p b Hp) as (st & Hst & Hk). destruct (M2 _ _ Hst) as (st' & Hst' & Hk'). exists st'. split; [exact Hst'|].
    by etrans.
Qed.

Lemma set_nStatus_relabels t p b f : mapBlockIndex t !! p = Some b -> R (nStatus b) (f (nStatus b)) -> relabels R t (set_nStatus t p b f).
Proof.
  intros Hp Hk. split_and!; [done| |]; cbn [set_nStatus mapBlockIndex].
  - intros q Hq. rewrite lookup_insert_None. split; [done|congruence].
  - intros q c Hq. destruct (decide (p = q)) as [<-|Hne].
    + rewrite lookup_insert_eq. exists (f (nStatus b)). by simplify_eq.
    + rewrite lookup_insert_ne by done. exists (nStatus c). by rewrite with_status_id.
Qed.

Lemma relabels_extends t t' : relabels R t t' -> extended_by (mapBlockIndex t) (mapBlockIndex t').
Proof. intros (_ & _ & Hm) p b Hp. destruct (Hm p b Hp) as (st & Hst & _). by exists st. Qed.
Lemma relabels_back t t' p b : relabels R t t' -> mapBlockIndex t' !! p = Some b ->
  exists b0, mapBlockIndex t !! p = Some b0 /\ b = with_status b0 (nStatus b).
Proof.
  intros (_ & Hn & Hm) Hp. destruct (mapBlockIndex t !! p) as [b0|] eqn:E.
  - destruct (Hm p b0 E) as (st & Hst & _). exists b0. by simplify_eq.
  - rewrite (Hn p E) in Hp. done.
Qed.

Lemma relabels_tree_ok t t' : relabels R t t' -> tree_ok (mapBlockIndex t) -> tree_ok (mapBlockIndex t').
Proof.
  intros Hmk Ht p b Hp. destruct (relabels_back t t' p b Hmk Hp) as (b0 & Hb0 & ->). destruct (Ht p b0 Hb0) as (H0 & Hw & Hl).
  split_and!; [done|done|]. apply (linked_extends _ _ (relabels_extends _ _ Hmk)), Hl.
Qed.
Lemma relabels_index_inv t t' : relabels R t t' -> index_inv t -> index_inv t'.
Proof.
  intros Hmk (Ht & Hb & Hin). split_and!; [by eapply relabels_tree_ok| |].
  - intros p b Hp. destruct (relabels_back t t' p b Hmk Hp) as (b0 & Hb0 & ->).
    destruct (Hb p b0 Hb0) as (best & bbest & Hbest & Hbb & Hle). pose proof Hmk as (Eb & _ & Hm).
    destruct (Hm _ _ Hbb) as (st & Hst & _). exists best, (with_status bbest st). by rewrite Eb.
  - intros x Hx. destruct Hmk as (Eb & _ & Hm). rewrite Eb in Hx. destruct (Hin x Hx) as [b Hbx].
    destruct (Hm _ _ Hbx) as (st & Hst & _). by eexists.
Qed.

End Relabels.

Lemma relabels_weaken (R R' : relation Z) t t' : (forall x y, R x y -> R' x y) -> relabels R t t' -> relabels R' t t'.
Proof.
  intros Hsub (Hb & Hn & Hm). split_and!; [done|done|]. intros p b Hp. destruct (Hm p b Hp) as (st & Hst & Hr). eauto.
Qed.
Lemma land_lor_keep a b c : Z.land a c <> 0 -> Z.land (Z.lor a b) c <> 0.
Proof. intros Ha E. apply Ha. rewrite Z.land_lor_distr_l in E. by apply Z.lor_eq_0_iff in E as [? _]. Qed.


(** ** The handlers do not abort *)

Lemma past_times_total m n p b : tree_ok m -> m !! p = Some b -> exists ts, past_times n m (Some p) = Ok ts /\ (n = 0%nat \/ ts <> []).
Proof.
  intros Ht. revert p b. induction n as [|n IH]; intros p b Hp; [exists []; by split; [|left]|].
  cbn [past_times]. rewrite (deref_ok _ _ _ Hp). cbn [mbind result_bind]. destruct (Ht p b Hp) as (_ & _ & Hl).
  unfold linked in Hl. destruct (pprev b) as [q|].
  - destruct Hl as (bq & _ & Hq & _). destruct (IH q bq Hq) as (ts & -> & _). eexists. by split; [|right].
  - destruct n; (eexists; by split; [|right]).
Qed.
Lemma GetMedianTimePast_total m p b : tree_ok m -> m !! p = Some b -> exists t, GetMedianTimePast m p = Ok t.
Proof.
  intros Ht Hp. unfold GetMedianTimePast.
  destruct (past_times_total m nMedianTimeSpan p b Ht Hp) as (ts & -> & Hne). cbn [mbind result_bind].
  destruct Hne as [|Hne]; [done|].
  assert (length (merge_sort Z.le ts) = length ts) as Hlen by (apply Permutation_length, merge_sort_Permutation).
  destruct (merge_sort Z.le ts !! (length ts / 2)%nat) as [t|] eqn:E; [by exists t|].
  apply lookup_ge_None in E. rewrite Hlen in E. destruct ts; [done|]. pose proof (Nat.div_lt (length (z :: ts)) 2). cbn [length] in *. lia.
Qed.

Lemma mark_children_spec fuel t p h f bp : tree_ok (mapBlockIndex t) -> ancestor (mapBlockIndex t) p h f ->
  mapBlockIndex t !! p = Some bp -> (Z.to_nat (nHeight bp - h) <= fuel)%nat ->
  exists t', mark_children fuel t p f = Ok t' /\ marks t t'.
Proof.
  revert t p bp. induction fuel as [|fuel IH]; intros t p bp Ht Ha Hp Hf; cbn [mark_children];
    (destruct (Z.eqb_spec p f) as [->|Hne]; [by exists t|]).
  all: pose proof Ha as (b & Hb & Hh & Hw); simplify_eq.
  all: destruct (Z.to_nat (nHeight bp - h)) as [|n] eqn:En; [cbn in Hw; congruence|].
  1: lia.
  rewrite (deref_ok _ _ _ Hp). cbn [mbind result_bind]. cbn [walk] in Hw. rewrite Hp in Hw. cbn in Hw.
  destruct (pprev bp) as [q|] eqn:Eq; [|done]. cbn in Hw. set (t1 := set_nStatus t p bp _).
  assert (marks t t1) as Hmk by (apply set_nStatus_relabels; [apply _|done|]; intros Hk; by apply land_lor_keep).
  destruct (prev_of _ Ht p bp Hp ltac:(lia)) as (q' & bq & Eq' & Hq & Ehq). rewrite Eq in Eq'. injection Eq' as <-.
  destruct (relabels_extends _ _ _ Hmk q bq Hq) as [st Hq1].
  destruct (IH t1 q (with_status bq st)) as (t' & Ht' & Hmk').
  - by eapply relabels_tree_ok.
  - apply (ancestor_extends _ _ (relabels_extends _ _ _ Hmk)). exists bq. split_and!; [done|lia|lia|].
    by replace (Z.to_nat (nHeight bq - h)) with n by lia.
  - done.
  - cbn [with_status nHeight]. lia.
  - exists t'. split; [done|]. by etrans.
Qed.

Lemma failed_ancestor_spec t p bp l : tree_ok (mapBlockIndex t) -> mapBlockIndex t !! p = Some bp ->
  Forall (fun f => exists bf, mapBlockIndex t !! f = Some bf /\ Z.land (nStatus bf) BLOCK_FAILED_VALID <> 0) l ->
  exists r, failed_ancestor t p l = Ok r /\
    match r with
    | Some t' => marks t t' /\ exists f h, f ∈ l /\ ancestor (mapBlockIndex t) p h f
    | None => forall f h, f ∈ l -> ~ ancestor (mapBlockIndex t) p h f
    end.
Proof.
  intros Ht Hp. induction 1 as [|f l (bf & Hf & Hfail) _ IH]; cbn [failed_ancestor].
  { exists None. split; [done|]. intros f h Hf. inversion Hf. }
  rewrite (deref_ok _ _ _ Hf). cbn [mbind result_bind]. 
  destruct (GetAncestor_spec _ Ht p bp (nHeight bf) Hp) as (a & -> & Hspec). cbn [mbind result_bind]. case_decide as E.
  - rewrite reject_false by (by apply Z.eqb_neq). rewrite (deref_ok _ _ _ Hp). cbn [mbind result_bind].
    destruct (Ht f bf Hf) as [H0 _].
    assert (ancestor (mapBlockIndex t) p (nHeight bf) f) as Ha.
    { destruct (_ && _) in Hspec; [|congruence]. destruct Hspec as (g & -> & Hg). by injection E as ->. }
    destruct (mark_children_spec (Z.to_nat (nHeight bp)) t p (nHeight bf) f bp Ht Ha Hp ltac:(lia)) as (t' & -> & Hmk).
    exists (Some t'). split; [done|]. split; [done|]. exists f, (nHeight bf). split; [constructor|done].
  - destruct IH as (r & -> & Hr). exists r. split; [done|]. destruct r as [t'|].
    + destruct Hr as [Hmk (g & h & Hg & Ha)]. split; [done|]. exists g, h. split; [by constructor|done].
    + intros g h Hg Ha. apply elem_of_cons in Hg as [->|Hg]; [|by eapply Hr].
      destruct (ancestor_height _ Ht _ _ _ Ha) as (bg & Hbg & Eh). simplify_eq. pose proof Ha as (b & Hb & Hh & _). simplify_eq.
      rewrite (proj2 (Z.leb_le 0 _)), (proj2 (Z.leb_le _ (nHeight bp))) in Hspec by lia. destruct Hspec as (q & -> & Hq).
      apply E. f_equal. by eapply ancestor_unique.
Qed.

(** ** The invariant of the header chain *)

(** One limit at every height, and retargeting that does not overflow. *)
Definition network_ok (r : ParamsTree) : Prop := forall h, 0 <= h ->
  pow_limit_ok (GetConsensus r h) /\ powLimit (GetConsensus r h) = powLimit (GetConsensus r 0) /\
  1 <= DifficultyAdjustmentInterval (GetConsensus r h) /\ retarget_ok h (GetConsensus r h).

Section Invariant.
Context `{CryptoOps} `{PowOps} (cp : ChainParams) (fCheckpoints : bool).
Notation params h := (GetConsensus (consensus_root cp) h).

(** The rules a block obeys in its context: it was made from a header with
    proof of work on its predecessor, its target is the required one, its time
    is after the median, its version is allowed at its height. *)
Definition obeys_rules (m : BlockMap) (p : Z) (b : CBlockIndex) : Prop :=
  exists block q median, header_GetHash (pure block) = p /\
    CheckAuxPowProofOfWork block (params 0) = Ok tt /\
    hashPrevBlock (pure block) = q /\ pprev b = Some q /\
    nVersion b = hdr_nVersion (pure block) /\ nTime b = hdr_nTime (pure block) /\ nBits b = hdr_nBits (pure block) /\
    GetNextWorkRequired m (Some q) (pure block) (params (nHeight b)) = Ok (nBits b) /\
    GetMedianTimePast m q = Ok median /\ median < nTime b /\
    (if fAllowLegacyBlocks (params (nHeight b)) then IsAuxpow (nVersion b) = false else IsLegacy (nVersion b) = false) /\
    (BIP66Height (params (nHeight b)) <= nHeight b -> 3 <= GetBaseVersion (nVersion b)) /\
    (BIP65Height (params (nHeight b)) <= nHeight b -> 4 <= GetBaseVersion (nVersion b)).

Definition header_inv (s : ChainState) : Prop :=
  let m := mapBlockIndex (tree s) in
  index_inv (tree s) /\ targets_ok (params 0) m /\
  (exists bg, m !! hashGenesisBlock cp = Some bg /\ pprev bg = None) /\
  (forall p b, m !! p = Some b -> p <> hashGenesisBlock cp -> obeys_rules m p b) /\
  Forall (fun f => exists bf, m !! f = Some bf /\ Z.land (nStatus bf) BLOCK_FAILED_VALID <> 0) (gFailedBlocks s) /\
  (forall p, pindexBestInvalid s = Some p -> is_Some (m !! p)).

Lemma obeys_rules_mono m m' p b st : extended_by m m' -> obeys_rules m p b -> obeys_rules m' p (with_status b st).
Proof.
  intros Hext (block & q & median & Hh & Hpow & Hq & Hp & Hv & Ht & Hb & Hwork & Hmed & Hrest).
  exists block, q, median. cbn [with_status nVersion nTime nBits nHeight pprev]. split_and!; try done; try apply Hrest.
  - by apply (GetNextWorkRequired_mono _ _ Hext).
  - by apply (GetMedianTimePast_mono _ _ Hext).
Qed.

Lemma marks_header_inv s t : header_inv s -> marks (tree s) t -> header_inv (with_tree s t).
Proof.
  intros (Hi & Ht & (bg & Hg & Hroot) & Hr & Hf & Hbi) Hmk. pose proof (relabels_extends _ _ _ Hmk) as Hext.
  split_and!; cbn [with_tree tree gFailedBlocks pindexBestInvalid].
  - by eapply relabels_index_inv.
  - intros p b Hp. destruct (relabels_back _ _ _ _ _ Hmk Hp) as (b0 & Hb0 & ->). apply (Ht p b0 Hb0).
  - destruct (Hext _ _ Hg) as [st ->]. by exists (with_status bg st).
  - intros p b Hp Hne. destruct (relabels_back _ _ _ _ _ Hmk Hp) as (b0 & Hb0 & ->). by apply (obeys_rules_mono _ _ _ _ _ Hext), Hr.
  - eapply Forall_impl; [exact Hf|]. intros f (bf & Hbf & Hfail). destruct Hmk as (_ & _ & Hm).
    destruct (Hm f bf Hbf) as (st & Hst & Hk). exists (with_status bf st). split; [done|]. by apply Hk.
  - intros p Hp. destruct (Hbi p Hp) as [b Hb]. destruct (Hext _ _ Hb) as [st ->]. by eexists.
Qed.

Lemma dos_done {A} c l k r (o : verdict A) a : dos c l k r o = Done a <-> c = false /\ o = Done a.
Proof. unfold dos. destruct c; naive_solver. Qed.
Lemma bind_done {A B} (f : A -> verdict B) o b : o ≫= f = Done b <-> exists a, o = Done a /\ f a = Done b.
Proof. destruct o; cbn; naive_solver. Qed.
Lemma lift_done {A} (r : result A) a : lift r = Done a <-> r = Ok a.
Proof. destruct r; cbn; naive_solver. Qed.

Context (Hnet : network_ok (consensus_root cp)).

Lemma next_work_total m q b pblock : tree_ok m -> targets_ok (params 0) m -> m !! q = Some b ->
  exists c, GetNextWorkRequired m (Some q) pblock (params (nHeight b + 1)) = Ok c /\ target_le (params 0) c.
Proof.
  intros Ht Htg Hq. destruct (Ht q b Hq) as [Hpos _]. destruct (Hnet (nHeight b + 1) ltac:(lia)) as (Hl & El & Hi & Hr).
  assert (targets_ok (params (nHeight b + 1)) m) as Htg'.
  { intros r c Hc. pose proof (Htg r c Hc) as Hok. unfold target_ok in *. by rewrite El. }
  destruct (GetNextWorkRequired_spec m _ Ht Hl Htg' (Some q) pblock Hi) as (c & Hc & Hle); [by exists b|].
  exists c. split; [done|]. unfold target_le in *. by rewrite <- El.
Qed.

(** The result of the contextual check: an abort is impossible, and a header
    that passes has what the rules demand of it. *)
Lemma ContextualCheckBlockHeader_spec m block q b t : tree_ok m -> targets_ok (params 0) m -> m !! q = Some b ->
  match ContextualCheckBlockHeader cp m block (Some q) t with
  | Abort _ => False
  | Invalid _ _ _ => True
  | Done _ => exists median, let h := nHeight b + 1 in let ver := hdr_nVersion (pure block) in
      GetNextWorkRequired m (Some q) (pure block) (params h) = Ok (hdr_nBits (pure block)) /\
      GetMedianTimePast m q = Ok median /\ median < hdr_nTime (pure block) <= t + 7200 /\
      (if fAllowLegacyBlocks (params h) then IsAuxpow ver = false else IsLegacy ver = false) /\
      (BIP66Height (params h) <= h -> 3 <= GetBaseVersion ver) /\ (BIP65Height (params h) <= h -> 4 <= GetBaseVersion ver)
  end.
Proof.
  intros Ht Htg Hq. unfold ContextualCheckBlockHeader. rewrite (deref_ok _ _ _ Hq). cbn [lift mbind verdict_bind].
  destruct (next_work_total m q b (pure block) Ht Htg Hq) as (c & -> & _).
  destruct (GetMedianTimePast_total m q b Ht Hq) as (median & ->). unfold dos, header_GetBlockTime. cbn [lift mbind verdict_bind].
  destruct (negb (fAllowLegacyBlocks _) && _) eqn:E1; [done|]. destruct (fAllowLegacyBlocks _ && _) eqn:E2; [done|].
  destruct (negb (hdr_nBits (pure block) =? c)) eqn:E3; [done|]. destruct (_ <=? median) eqn:E4; [done|].
  destruct (_ <? hdr_nTime _) eqn:E5; [done|]. destruct (_ || _) eqn:E6; [done|].
  apply negb_false_iff, Z.eqb_eq in E3. subst c. apply orb_false_iff in E6 as [E6 E7].
  apply Z.leb_gt in E4. apply Z.ltb_ge in E5. exists median. cbn zeta. split_and!; try done; try lia.
  destruct (fAllowLegacyBlocks _); [exact E2|exact E1].
Qed.

Lemma CheckIndexAgainstCheckpoint_total m q b : m !! q = Some b -> forall e, CheckIndexAgainstCheckpoint cp m q <> Abort e.
Proof.
  intros Hq e. unfold CheckIndexAgainstCheckpoint. destruct (_ =? _); [done|]. rewrite (deref_ok _ _ _ Hq). cbn [lift mbind verdict_bind].
  destruct (GetLastCheckpoint cp m) as [c|] eqn:Ec; [|done]. unfold GetLastCheckpoint in Ec.
  apply fmap_Some in Ec as ([h x] & Hf & ->). apply List.find_some in Hf as [_ Hf]. cbn in Hf. apply bool_decide_eq_true in Hf as [bc Hbc].
  cbn [snd]. rewrite (deref_ok _ _ _ Hbc). cbn. unfold dos. by destruct (_ <? _).
Qed.

Context (Hscrypt : forall v, 0 <= scrypt_1024_1_1_256 v < M256).

Lemma accepted_work_positive block : in_u32 (hdr_nBits (pure block)) -> CheckAuxPowProofOfWork block (params 0) = Ok tt ->
  0 < compact_value (hdr_nBits (pure block)).
Proof.
  intros Hb Hok. destruct (Hnet 0 ltac:(lia)) as (Hl & _). unfold CheckAuxPowProofOfWork in Hok. apply reject_ok in Hok as [_ Hok].
  assert (forall hash, 0 <= hash < M256 -> CheckProofOfWork hash (hdr_nBits (pure block)) (params 0) = true ->
    0 < compact_value (hdr_nBits (pure block))) as Hpos.
  { intros hash Hh. rewrite CheckProofOfWork_spec, !andb_true_iff by done. intros [[[_ Hc] _] _]. by apply Z.ltb_lt. }
  destruct (auxpow block) as [a|].
  - rewrite !reject_ok, !negb_false_iff in Hok. destruct Hok as (_ & Hok & _). by eapply Hpos; [apply Hscrypt|].
  - rewrite !reject_ok, !negb_false_iff in Hok. destruct Hok as (_ & Hok & _). by eapply Hpos; [apply Hscrypt|].
Qed.

(** A header that passes the checks, in its context. *)
Definition passes (m : BlockMap) (block : CBlockHeader) (q : Z) (bq : CBlockIndex) : Prop :=
  let h := nHeight bq + 1 in let ver := hdr_nVersion (pure block) in
  q = hashPrevBlock (pure block) /\ m !! q = Some bq /\ failed bq = false /\
  CheckAuxPowProofOfWork block (params 0) = Ok tt /\
  GetNextWorkRequired m (Some q) (pure block) (params h) = Ok (hdr_nBits (pure block)) /\
  (exists median, GetMedianTimePast m q = Ok median /\ median < hdr_nTime (pure block)) /\
  (if fAllowLegacyBlocks (params h) then IsAuxpow ver = false else IsLegacy ver = false) /\
  (BIP66Height (params h) <= h -> 3 <= GetBaseVersion ver) /\ (BIP65Height (params h) <= h -> 4 <= GetBaseVersion ver).

Lemma check_header_spec m block t : tree_ok m -> targets_ok (params 0) m ->
  match check_header cp fCheckpoints m block t with
  | Abort _ => False
  | Invalid _ _ _ => True
  | Done q => exists bq, passes m block q bq /\ hdr_nTime (pure block) <= t + 7200
  end.
Proof.
  intros Ht Htg. unfold check_header, CheckBlockHeader. cbn [andb].
  destruct (CheckAuxPowProofOfWork block (params 0)) as [[]|] eqn:Epow; [|done]. cbn.
  destruct (m !! hashPrevBlock (pure block)) as [bq|] eqn:Eq; [|done]. unfold dos. destruct (failed bq) eqn:Ef; [done|].
  pose proof (CheckIndexAgainstCheckpoint_total m _ bq Eq) as Hcp.
  pose proof (ContextualCheckBlockHeader_spec m block _ bq t Ht Htg Eq) as Hctx.
  assert (match (_ ← ContextualCheckBlockHeader cp m block (Some (hashPrevBlock (pure block))) t; Done (hashPrevBlock (pure block)))
    with Abort _ => False | Invalid _ _ _ => True
    | Done q => exists bq, passes m block q bq /\ hdr_nTime (pure block) <= t + 7200 end) as Hdone.
  { destruct (ContextualCheckBlockHeader _ _ _ _ _) as [[]| |]; [|done|done]. cbn.
    destruct Hctx as (median & Hw & Hm & [Hm1 Hm2] & Hrest). exists bq. split; [|done]. unfold passes. split_and!; try done; try apply Hrest.
    by exists median. }
  destruct fCheckpoints; [|exact Hdone]. destruct (CheckIndexAgainstCheckpoint _ _ _) as [[]| |msg]; [exact Hdone|done|].
  by destruct (Hcp msg).
Qed.

Lemma add_header_spec s block q bq : let hash := header_GetHash (pure block) in
  header_inv s -> in_u32 (hdr_nBits (pure block)) -> mapBlockIndex (tree s) !! hash = None ->
  passes (mapBlockIndex (tree s)) block q bq ->
  exists t b, add_header s block = (Done hash, with_tree s t) /\ header_inv (with_tree s t) /\
    mapBlockIndex t = <[hash := b]> (mapBlockIndex (tree s)) /\ pprev b = Some q /\ nStatus b = BLOCK_VALID_TREE.
Proof.
  intros hash Hinv Hbits Hnew (-> & Hq & _ & Hpow & Hwork & (median & Hmed & Htime) & Hver). fold hash in Hnew.
  destruct Hinv as (Hi & Htg & Hg & Hr & Hf & Hbi). pose proof Hi as [Ht _].
  assert (hashPrevBlock (pure block) <> hash) as Hne by congruence.
  destruct (AddToBlockIndex_new (tree s) (pure block) Hi Hnew Hne Hbits)
    as (b & t & better & Hadd & Em & Hh0 & Hw & Hl & Ep & Et & Eb & Ev & Est & _).
  destruct (AddToBlockIndex_spec (tree s) (pure block) Hi Hne Hbits) as (t2 & b2 & Hadd2 & Hi2 & Hsub & _).
  fold hash in Hadd, Hadd2, Em. rewrite Hadd in Hadd2. injection Hadd2 as <-.
  rewrite decide_True in Ep by (by eexists). unfold linked in Hl. rewrite Ep in Hl. destruct Hl as (bq' & sk & Hq' & Ehb & _).
  simplify_eq. exists t, b. unfold add_header. rewrite Hadd. split; [done|]. split; [|by split_and!].
  pose proof (subseteq_extends _ _ Hsub) as Hext. pose proof Hext as Hext'. rewrite Em in Hsub.
  destruct (next_work_total _ _ _ (pure block) Ht Htg Hq) as (c & Hc & Hle). rewrite Hwork in Hc. injection Hc as <-.
  split_and!; cbn [with_tree tree gFailedBlocks pindexBestInvalid]; [done| | | | |].
  - intros p b' Hp. rewrite Em in Hp. apply lookup_insert_Some in Hp as [[_ <-]|[_ Hp]]; [|by eapply Htg].
    rewrite Eb. destruct Hle as (H1 & H2 & H3 & H4). split_and!; try done. by apply accepted_work_positive.
  - destruct Hg as (bg & Hg & Hroot). destruct (Hext _ _ Hg) as [st ->]. by exists (with_status bg st).
  - intros p b' Hp Hpg. rewrite Em in Hp. apply lookup_insert_Some in Hp as [[<- <-]|[_ Hp]].
    + exists block, (hashPrevBlock (pure block)), median. rewrite Ehb, Ev, Et, Eb.
      split_and!; try done; try apply Hver.
      * by apply (GetNextWorkRequired_mono _ _ Hext).
      * by apply (GetMedianTimePast_mono _ _ Hext).
    + rewrite <- (with_status_id b'). by apply (obeys_rules_mono _ _ _ _ _ Hext), Hr.
  - eapply Forall_impl; [exact Hf|]. intros f (bf & Hbf & Hfail). exists bf. rewrite Em. split; [by eapply lookup_weaken|done].
  - intros p Hp. destruct (Hbi p Hp) as [b' Hb']. exists b'. rewrite Em. by eapply lookup_weaken.
Qed.

Lemma add_genesis s block : header_inv s -> header_GetHash (pure block) = hashGenesisBlock cp ->
  add_header s block = (Done (hashGenesisBlock cp), with_tree s (tree s)).
Proof.
  intros (_ & _ & (bg & Hg & _) & _) E. unfold add_header, AddToBlockIndex. by rewrite E, Hg.
Qed.

(** What a handled header does to the index. *)
Definition accepted (s : ChainState) (block : CBlockHeader) (s' : ChainState) : Prop :=
  let hash := header_GetHash (pure block) in let m := mapBlockIndex (tree s) in
  match m !! hash with
  | Some _ => s' = s
  | None => exists b q bq, mapBlockIndex (tree s') = <[hash := b]> m /\ pprev b = Some q /\ passes m block q bq /\
      (index_IsValid bq BLOCK_VALID_SCRIPTS = true \/ forall f h, f ∈ gFailedBlocks s -> ~ ancestor m q h f)
  end.

Lemma AcceptBlockHeader_spec s block t : header_inv s -> in_u32 (hdr_nBits (pure block)) ->
  exists r s', AcceptBlockHeader cp fCheckpoints s block t = (r, s') /\ header_inv s' /\ gFailedBlocks s' = gFailedBlocks s /\
    match r with
    | Done p => p = header_GetHash (pure block) /\ is_Some (mapBlockIndex (tree s') !! p) /\ accepted s block s'
    | Invalid _ _ _ => marks (tree s) (tree s')
    | Abort _ => False
    end.
Proof.
  intros Hinv Hbits. unfold AcceptBlockHeader, accepted. assert (with_tree s (tree s) = s) as Es by (by destruct s).
  destruct (Z.eqb_spec (header_GetHash (pure block)) (hashGenesisBlock cp)) as [Eg|Hg].
  { rewrite (add_genesis s block Hinv Eg), Es, Eg. pose proof Hinv as (_ & _ & (bg & Hbg & _) & _). eexists _, _. split; [done|].
    rewrite Hbg. split_and!; try done. }
  destruct (mapBlockIndex (tree s) !! header_GetHash (pure block)) as [b|] eqn:E.
  { destruct (failed b); eexists _, _; (split; [done|]); rewrite ?E; split_and!; done. }
  pose proof Hinv as (Hi & Htg & _ & _ & Hf & _). pose proof Hi as [Ht _].
  pose proof (check_header_spec _ block t Ht Htg) as Hck. destruct (check_header _ _ _ _ _) as [q| |]; [|by eexists _, _|done].
  destruct Hck as (bq & Hpass & _). pose proof Hpass as (_ & Hq & _). rewrite (deref_ok _ _ _ Hq).
  destruct (add_header_spec s block q bq Hinv Hbits E Hpass) as (t' & b & Hadd & Hinv' & Em & Ep & _).
  assert (is_Some (mapBlockIndex t' !! header_GetHash (pure block))) as Hin by (rewrite Em, lookup_insert_eq; by eexists).
  destruct (index_IsValid bq BLOCK_VALID_SCRIPTS) eqn:Ev.
  { rewrite Hadd. eexists _, _. split; [done|]. split_and!; try done. exists b, q, bq. split_and!; try done. by left. }
  destruct (failed_ancestor_spec (tree s) q bq (gFailedBlocks s) Ht Hq Hf) as ([t2|] & -> & Hr).
  - eexists _, _. split; [done|]. destruct Hr as [Hmk _]. split_and!; [by apply marks_header_inv|done|done].
  - rewrite Hadd. eexists _, _. split; [done|]. split_and!; try done. exists b, q, bq. split_and!; try done. by right.
Qed.

End Invariant.

(** ** Failing and reconsidering blocks *)

Notation any_status := (fun _ _ : Z => True).

Lemma InvalidBlockFound_inv `{CryptoOps} `{PowOps} cp s p cor s' : header_inv cp s -> InvalidBlockFound s p cor = Ok s' ->
  header_inv cp s' /\ relabels keeps_failed (tree s) (tree s') /\ (cor = false -> p ∈ gFailedBlocks s').
Proof.
  intros Hinv. unfold InvalidBlockFound, InvalidChainFound. destruct cor; [intros [= <-]; by split_and!|].
  destruct (mapBlockIndex (tree s) !! p) as [b|] eqn:Hp; [|unfold deref; by rewrite Hp]. rewrite (deref_ok _ _ _ Hp).
  cbn [mbind result_bind tree pindexBestInvalid gFailedBlocks]. set (t := set_nStatus _ p b _).
  assert (mapBlockIndex t !! p = Some (with_status b (Z.lor (nStatus b) BLOCK_FAILED_VALID))) as Hp' by apply lookup_insert_eq.
  assert (marks (tree s) t) as Hmk by (apply set_nStatus_relabels; [apply _|done|]; intros Hk; by apply land_lor_keep).
  rewrite (deref_ok _ _ _ Hp'). cbn [mbind result_bind]. rewrite bind_ok. intros (better & _ & [= <-]).
  pose proof (marks_header_inv cp s t Hinv Hmk) as (Hi & Htg & Hg & Hr & Hf & Hbi).
  cbn [with_tree tree gFailedBlocks pindexBestInvalid] in *. split; [|split; [exact Hmk|intros _; case_decide; [done|constructor]]].
  split_and!; try done; cbn [tree gFailedBlocks pindexBestInvalid].
  - case_decide; [done|]. constructor; [|done]. exists (with_status b (Z.lor (nStatus b) BLOCK_FAILED_VALID)). split; [exact Hp'|].
    cbn [with_status nStatus]. rewrite Z.land_lor_distr_l, Z.land_diag. unfold BLOCK_FAILED_VALID. intros E.
    by apply Z.lor_eq_0_iff in E as [_ ?].
  - intros x. destruct better; [intros [= <-]; by eexists|]. apply Hbi.
Qed.

Lemma reset_entries_relabels p h l s s' : reset_entries p h s l = Ok s' ->
  relabels any_status (tree s) (tree s') /\ gFailedBlocks s' = gFailedBlocks s.
Proof.
  revert s. induction l as [|x l IH]; intros s; cbn [reset_entries]; [by intros [= <-]|].
  rewrite bind_ok. intros (s1 & H1 & Hl). destruct (IH s1 Hl) as [R2 G2].
  enough (relabels any_status (tree s) (tree s1) /\ gFailedBlocks s1 = gFailedBlocks s) as [R1 G1]
    by (split; [by etrans|congruence]).
  unfold reset_entry in H1. apply bind_ok in H1 as (b & Hb & H1). destruct (index_IsValid b _); [by injection H1 as <-|].
  apply bind_ok in H1 as (a & _ & H1). case_decide; injection H1 as <-; [|done]. split; [|done].
  unfold deref in Hb. destruct (mapBlockIndex (tree s) !! x) as [b'|] eqn:E; [|done]. injection Hb as ->.
  by apply set_nStatus_relabels.
Qed.

Lemma clear_failed_ok st : Z.land (clear_failed st) BLOCK_FAILED_MASK = 0.
Proof.
  unfold clear_failed. rewrite <- Z.land_assoc. change (Z.land (u32 (Z.lnot BLOCK_FAILED_MASK)) BLOCK_FAILED_MASK) with 0.
  apply Z.land_0_r.
Qed.

Lemma reset_ancestors_relabels fuel t pindex t' : reset_ancestors fuel t pindex = Ok t' ->
  relabels (fun st st' => st' = st \/ st' = clear_failed st \/ Z.land st' BLOCK_FAILED_MASK = 0) t t'.
Proof.
  assert (PreOrder (fun st st' : Z => st' = st \/ st' = clear_failed st \/ Z.land st' BLOCK_FAILED_MASK = 0)) as HR.
  { split; [by left|]. intros a b c [->|[->|Hb]] [->|[->|Hc]]; eauto; right; right; [apply clear_failed_ok|apply clear_failed_ok]. }
  revert t pindex. induction fuel as [|fuel IH]; intros t [p|]; cbn [reset_ancestors]; try by intros [= <-].
  rewrite bind_ok. intros (b & Hb & Hk). etrans; [|by eapply IH]. destruct (failed b); [|done].
  unfold deref in Hb. destruct (mapBlockIndex t !! p) as [b'|] eqn:E; [|done]. injection Hb as ->.
  apply set_nStatus_relabels; [apply _|done|]. by right; left.
Qed.

(** Reconsidering a block clears its failure, and leaves it among the failed blocks. *)
Lemma ResetBlockFailureFlags_spec s p s' : ResetBlockFailureFlags s p = Ok s' ->
  relabels any_status (tree s) (tree s') /\ gFailedBlocks s' = gFailedBlocks s /\
  exists b, mapBlockIndex (tree s') !! p = Some b /\ Z.land (nStatus b) BLOCK_FAILED_MASK = 0.
Proof.
  unfold ResetBlockFailureFlags. rewrite bind_ok. intros (b & Hb & Hk). apply bind_ok in Hk as (s1 & H1 & Hk).
  apply bind_ok in Hk as (t & Ht & [= <-]). apply reset_entries_relabels in H1 as [R1 G1]. cbn [with_tree tree gFailedBlocks].
  pose proof (reset_ancestors_relabels _ _ _ _ Ht) as R2. split; [|split; [done|]].
  { etrans; [exact R1|]. eapply relabels_weaken; [|exact R2]. done. }
  cbn [reset_ancestors] in Ht. apply bind_ok in Ht as (b1 & Hb1 & Ht). apply reset_ancestors_relabels in Ht as (_ & _ & Hm).
  unfold deref in Hb1. destruct (mapBlockIndex (tree s1) !! p) as [b1'|] eqn:E; [|done]. injection Hb1 as ->.
  destruct (failed b1) eqn:Ef.
  - destruct (Hm p _ (lookup_insert_eq _ _ _)) as (st & -> & Hst). cbn [with_status nStatus] in *. eexists. split; [done|].
    cbn [nStatus]. destruct Hst as [->|[->|Hst]]; [apply clear_failed_ok|apply clear_failed_ok|done].
  - destruct (Hm p _ E) as (st & -> & Hst). eexists. split; [done|]. cbn [with_status nStatus]. unfold failed in Ef.
    apply negb_false_iff, Z.eqb_eq in Ef. destruct Hst as [->|[->|Hst]]; [done|apply clear_failed_ok|done].
Qed.

(** ** The header chain as a transition system *)

Section Reachable.
Context `{CryptoOps} `{PowOps} (cp : ChainParams) (fCheckpoints : bool).

(** A message of headers, a block found invalid, and another order of the
    addresses in the set of failed blocks. *)
Inductive chain_step : ChainState -> ChainState -> Prop :=
| step_headers s headers t r s' : Forall (fun h => header_wf (pure h)) headers ->
    ProcessNewBlockHeaders cp fCheckpoints s headers t None = (r, s') -> chain_step s s'
| step_invalid s p cor s' : InvalidBlockFound s p cor = Ok s' -> chain_step s s'
| step_order s l : l ≡ₚ gFailedBlocks s -> chain_step s (mkChainState (tree s) l (pindexBestInvalid s)).

(** The state that holds the genesis block only. *)
Definition initial (genesis : CPureBlockHeader) (s : ChainState) : Prop :=
  exists t, AddToBlockIndex (mkTree ∅ None ∅) genesis = Ok (t, hashGenesisBlock cp) /\ s = mkChainState t [] None.

Context (Hnet : network_ok (consensus_root cp)) (Hscrypt : forall v, 0 <= scrypt_1024_1_1_256 v < M256).

Lemma ProcessNewBlockHeaders_spec s headers t pp : header_inv cp s -> Forall (fun h => header_wf (pure h)) headers ->
  exists r s', ProcessNewBlockHeaders cp fCheckpoints s headers t pp = (r, s') /\ header_inv cp s' /\ (forall e, r <> Abort e).
Proof.
  intros Hinv Hwf. revert s pp Hinv. induction Hwf as [|h l Hh _ IH]; intros s pp Hinv; cbn [ProcessNewBlockHeaders].
  { by eexists _, _. }
  destruct (AcceptBlockHeader_spec cp fCheckpoints Hnet Hscrypt s h t Hinv) as (r & s1 & -> & Hinv1 & _ & Hr); [apply Hh|].
  destruct r as [p| |]; [by apply IH|by eexists _, _|done].
Qed.

Lemma initial_inv genesis s : hashPrevBlock genesis <> header_GetHash genesis -> target_ok (GetConsensus (consensus_root cp) 0) (hdr_nBits genesis) ->
  initial genesis s -> header_inv cp s.
Proof.
  intros Hne Htg (t & Hadd & ->).
  destruct (AddToBlockIndex_spec (mkTree ∅ None ∅) genesis index_inv_empty Hne (proj1 Htg)) as (t1 & b & Hadd1 & Hi & _ & Hb & _).
  destruct (AddToBlockIndex_new (mkTree ∅ None ∅) genesis index_inv_empty (lookup_empty _) Hne (proj1 Htg))
    as (b2 & t2 & ? & Hadd2 & Em & _ & _ & _ & Ep & _). rewrite Hadd in Hadd1, Hadd2. injection Hadd1 as <- Eh. injection Hadd2 as <-.
  rewrite <- Eh in *. split_and!; cbn [tree gFailedBlocks pindexBestInvalid]; try done.
  - apply (AddToBlockIndex_targets (mkTree ∅ None ∅) genesis _ _ (hashGenesisBlock cp)); try done. by rewrite <- Eh.
  - exists b2. rewrite Em, lookup_insert_eq. split; [done|]. rewrite Ep. apply decide_False. by intros [? ?].
  - intros p c Hp Hpg. rewrite Em in Hp. by apply lookup_insert_Some in Hp as [[? _]|[_ ?]].
Qed.

Lemma chain_step_inv s s' : chain_step s s' -> header_inv cp s -> header_inv cp s'.
Proof.
  intros [s1 headers t r s2 Hwf Hp|s1 p cor s2 Hf|s1 l Hl] Hinv.
  - destruct (ProcessNewBlockHeaders_spec s1 headers t None Hinv Hwf) as (r' & s3 & Hp' & Hinv' & _). congruence.
  - by eapply InvalidBlockFound_inv in Hf as [? _].
  - destruct Hinv as (? & ? & ? & ? & Hf & ?). split_and!; try done. cbn. by rewrite Hl.
Qed.

Lemma chain_step_extends s s' : chain_step s s' -> header_inv cp s ->
  extended_by (mapBlockIndex (tree s)) (mapBlockIndex (tree s')).
Proof.
  assert (forall headers t s pp r s', header_inv cp s -> Forall (fun h => header_wf (pure h)) headers ->
    ProcessNewBlockHeaders cp fCheckpoints s headers t pp = (r, s') ->
    extended_by (mapBlockIndex (tree s)) (mapBlockIndex (tree s'))) as Hheaders.
  { intros headers t. induction headers as [|h l IH]; intros s1 pp r s2 Hinv Hwf; cbn [ProcessNewBlockHeaders].
    { by intros [= _ <-]. }
    apply Forall_cons in Hwf as [Hh Hwf].
    destruct (AcceptBlockHeader_spec cp fCheckpoints Hnet Hscrypt s1 h t Hinv) as (r1 & s3 & -> & Hinv3 & _ & Hr); [apply Hh|].
    destruct r1 as [p| |]; [|intros [= _ <-]; by eapply relabels_extends|done].
    intros Hl. etrans; [|by eapply IH]. destruct Hr as (_ & _ & Hacc). unfold accepted in Hacc.
    destruct (mapBlockIndex (tree s1) !! header_GetHash (pure h)) eqn:E; [by subst s3|].
    destruct Hacc as (b & q & bq & -> & _). by apply subseteq_extends, insert_subseteq. }
  intros [s1 headers t r s2 Hwf Hp|s1 p cor s2 Hf|s1 l Hl] Hinv; [by eapply Hheaders| |done].
  eapply InvalidBlockFound_inv in Hf as (_ & Hmk & _); [by eapply relabels_extends|done].
Qed.

Lemma reachable_inv genesis s0 s : hashPrevBlock genesis <> header_GetHash genesis ->
  target_ok (GetConsensus (consensus_root cp) 0) (hdr_nBits genesis) -> initial genesis s0 -> rtc chain_step s0 s -> header_inv cp s.
Proof.
  intros Hne Htg Hinit Hrtc. apply initial_inv in Hinit; [|done|done]. induction Hrtc as [|s0 s1 s2 Hstep _ IH]; [done|].
  apply IH. by eapply chain_step_inv.
Qed.

(** ** Correctness *)

(** C14: every block in the index obeys the consensus rules.  From the genesis
    block on, whatever headers arrive at whatever time and whichever blocks
    turn out invalid, each entry but the genesis block comes from a header
    with proof of work for its target on a block of the index, its target is
    the one required after that block, its time is after the median of the
    last 11, its version is allowed at its height, and the index stays
    consistent with the best header having the most work. *)
Theorem reachable_blocks_obey_rules genesis s0 s :
  hashPrevBlock genesis <> header_GetHash genesis -> target_ok (GetConsensus (consensus_root cp) 0) (hdr_nBits genesis) ->
  initial genesis s0 -> rtc chain_step s0 s ->
  index_inv (tree s) /\
  forall p b, mapBlockIndex (tree s) !! p = Some b -> p <> hashGenesisBlock cp -> obeys_rules cp (mapBlockIndex (tree s)) p b.
Proof.
  intros Hne Htg Hinit Hrtc. destruct (reachable_inv genesis s0 s Hne Htg Hinit Hrtc) as (Hi & _ & _ & Hr & _). by split.
Qed.


End Reachable.

(** C35: a reconsidered block stays among the failed blocks, and stops the
    node.  After [ResetBlockFailureFlags] has cleared the failure of the only
    failed block, a header that passes every check on a descendant that is
    not yet fully validated fails the assertion that the block is marked. *)
Theorem reconsidered_block_aborts `{CryptoOps} `{PowOps} cp fCheckpoints s p s' block t q bq h :
  header_inv cp s -> gFailedBlocks s = [p] -> ResetBlockFailureFlags s p = Ok s' ->
  header_GetHash (pure block) <> hashGenesisBlock cp ->
  mapBlockIndex (tree s') !! header_GetHash (pure block) = None ->
  check_header cp fCheckpoints (mapBlockIndex (tree s')) block t = Done q ->
  mapBlockIndex (tree s') !! q = Some bq -> index_IsValid bq BLOCK_VALID_SCRIPTS = false ->
  ancestor (mapBlockIndex (tree s')) q h p ->
  AcceptBlockHeader cp fCheckpoints s' block t = (Abort "assertion failedit->nStatus & BLOCK_FAILED_VALID failed", s').
Proof.
  intros Hinv Hl Hreset Hg Hnew Hck Hq Hv Ha. destruct (ResetBlockFailureFlags_spec s p s' Hreset) as (Hr & Hl' & b & Hb & Hst).
  assert (tree_ok (mapBlockIndex (tree s'))) as Ht by (eapply relabels_tree_ok; [exact Hr|apply Hinv]).
  unfold AcceptBlockHeader. rewrite (proj2 (Z.eqb_neq _ _) Hg), Hnew, Hck, (deref_ok _ _ _ Hq), Hv, Hl', Hl.
  cbn [failed_ancestor]. rewrite (deref_ok _ _ _ Hb). cbn [mbind result_bind].
  destruct (ancestor_height _ Ht _ _ _ Ha) as (b' & Hb' & Eh). simplify_eq. pose proof Ha as (bq' & Hq' & Hh & _). simplify_eq.
  destruct (GetAncestor_in _ Ht q bq (nHeight b) Hq Hh) as (a & -> & Ha'). cbn [mbind result_bind].
  rewrite decide_True by (f_equal; by eapply ancestor_unique).
  assert (Z.land (nStatus b) BLOCK_FAILED_VALID = 0) as ->; [|done].
  change BLOCK_FAILED_VALID with (Z.land BLOCK_FAILED_MASK BLOCK_FAILED_VALID). by rewrite Z.land_assoc, Hst.
Qed.

(** ** Examples *)

Lemma GetConsensus_main h : is_main (GetConsensus main_root h).
Proof. unfold is_main. cbn. repeat case_match; auto. Qed.

Lemma main_network_ok : network_ok main_root.
Proof.
  pose proof GetConsensus_main as Hmain.
  intros h Hh. destruct (is_main_ok _ h (Hmain h)) as (Hl & Hi & Hr & _ & _ & El & _).
  destruct (is_main_ok _ 0 (Hmain 0)) as (_ & _ & _ & _ & _ & El0 & _). split; [exact Hl|]. split; [congruence|]. split; [lia|exact Hr].
Qed.

Module HeaderExample.
Import BlockIndex.Example AuxPowExample.

Lemma demo_scrypt_range v : 0 <= scrypt_1024_1_1_256 v < M256.
Proof. apply Z.mod_pos_bound. reflexivity. Qed.

(** A chain on the main network's rules; a header's hash is its nonce. *)
Definition demo_params : ChainParams := mkChainParams main_root 1 [(0, 1)].
Definition genesis : CPureBlockHeader := mkHeader 1 0 0 1000 0x1e0ffff0 1.
Definition state0 : ChainState :=
  match AddToBlockIndex (mkTree ∅ None ∅) genesis with
  | Ok (t, _) => mkChainState t [] None
  | Err _ => mkChainState (mkTree ∅ None ∅) [] None
  end.
Definition demo_next (q time nonce : Z) : CBlockHeader := mkBlockHeader (mkHeader 1 q 0 time 504248533 nonce) None.
Definition headers : list CBlockHeader := [demo_next 1 1054 2; demo_next 2 1108 3].
Definition state1 : ChainState := snd (ProcessNewBlockHeaders demo_params true state0 headers 5000 None).

Lemma state0_initial : initial demo_params genesis state0.
Proof.
  destruct (AddToBlockIndex (mkTree ∅ None ∅) genesis) as [[t g]|e] eqn:E; [|vm_compute in E; discriminate].
  exists t. unfold state0. rewrite E. split; [|reflexivity]. do 2 f_equal. vm_compute in E. injection E as _ <-. reflexivity.
Qed.
Lemma genesis_prev : hashPrevBlock genesis <> header_GetHash genesis.
Proof. vm_compute. discriminate. Qed.
Lemma genesis_target : target_ok (GetConsensus (consensus_root demo_params) 0) (hdr_nBits genesis).
Proof. split_and!; by vm_compute. Qed.
Lemma headers_wf : Forall (fun h => header_wf (pure h)) headers.
Proof. repeat constructor; vm_compute; (discriminate || reflexivity). Qed.
Lemma state1_reachable : rtc (chain_step demo_params true) state0 state1.
Proof.
  apply rtc_once. destruct (ProcessNewBlockHeaders demo_params true state0 headers 5000 None) as [r s'] eqn:E.
  apply (step_headers _ _ state0 headers 5000 r); [exact headers_wf|]. unfold state1. rewrite E. reflexivity.
Qed.

Lemma reachable_blocks_obey_rules_witness :
  exists b, mapBlockIndex (tree state1) !! 3 = Some b /\ obeys_rules demo_params (mapBlockIndex (tree state1)) 3 b.
Proof.
  destruct (mapBlockIndex (tree state1) !! 3) as [b|] eqn:E; [|vm_compute in E; discriminate]. exists b. split; [reflexivity|].
  destruct (reachable_blocks_obey_rules demo_params true main_network_ok demo_scrypt_range genesis state0 state1
    genesis_prev genesis_target state0_initial state1_reachable) as [_ Hr].
  apply (Hr 3 b E). discriminate.
Defined.


(** Block 2 fails and is reconsidered. *)
Definition state2 : ChainState := match InvalidBlockFound state1 2 false with Ok s => s | Err _ => state1 end.
Definition state3 : ChainState := match ResetBlockFailureFlags state2 2 with Ok s => s | Err _ => state2 end.

Lemma reconsidered_block_aborts_witness :
  AcceptBlockHeader demo_params true state3 (demo_next 3 1162 4) 5000 =
    (Abort "assertion failedit->nStatus & BLOCK_FAILED_VALID failed", state3).
Proof.
  assert (header_inv demo_params state1) as H1.
  { apply (reachable_inv demo_params true main_network_ok demo_scrypt_range genesis state0 state1
      genesis_prev genesis_target state0_initial state1_reachable). }
  assert (InvalidBlockFound state1 2 false = Ok state2) as E2.
  { unfold state2. destruct (InvalidBlockFound state1 2 false) eqn:E; [reflexivity|vm_compute in E; discriminate]. }
  assert (ResetBlockFailureFlags state2 2 = Ok state3) as E3.
  { unfold state3. destruct (ResetBlockFailureFlags state2 2) eqn:E; [reflexivity|vm_compute in E; discriminate]. }
  destruct (InvalidBlockFound_inv demo_params state1 2 false state2 H1 E2) as [H2 _].
  destruct (mapBlockIndex (tree state3) !! 3) as [bq|] eqn:Eq; [|vm_compute in Eq; discriminate].
  assert (nHeight bq = 2 /\ index_IsValid bq BLOCK_VALID_SCRIPTS = false) as [Hh Hv].
  { vm_compute in Eq. injection Eq as <-. vm_compute. split; reflexivity. }
  apply (reconsidered_block_aborts demo_params true state2 2 state3 (demo_next 3 1162 4) 5000 3 bq 1 H2).
  - vm_compute. reflexivity.
  - exact E3.
  - vm_compute. discriminate.
  - vm_compute. reflexivity.
  - vm_compute. reflexivity.
  - exact Eq.
  - exact Hv.
  - exists bq. split; [exact Eq|]. rewrite Hh. split; [lia|]. vm_compute. reflexivity.
Defined.

End HeaderExample.
