(* ===== verification/VersionBits.v ===== *)
(** * Soft-fork deployments
      ([src/src/versionbits.h], [versionbits.cpp])

    The state of a deployment at a block, computed period by period with a
    cache that lives as long as the node.  The abstract checker is a record of
    its virtual functions. *)

From S2P Require Import Prelude Nicknames Serialize Script Base58 Arith Merkle Header BlockIndex Pow Transaction AuxPow HeaderChain.
Open Scope Z_scope.
Open Scope kubu_scope.

Definition VERSIONBITS_TOP_BITS : Z := 0x20000000.
Definition VERSIONBITS_TOP_MASK : Z := i32 0xE0000000.

Inductive ThresholdState :=
| THRESHOLD_DEFINED
| THRESHOLD_STARTED
| THRESHOLD_LOCKED_IN
| THRESHOLD_ACTIVE
| THRESHOLD_FAILED.
#[export] Instance ThresholdState_eq_dec : EqDecision ThresholdState.
Proof. solve_decision. Defined.

Notation ThresholdConditionCache := (gmap (option Z) ThresholdState).

(** [AbstractThresholdConditionChecker], for one set of parameters. *)
Record Checker := mkChecker {
  Condition : CBlockIndex -> bool;
  BeginTime : Z;
  EndTime : Z;
  Period : Z;
  Threshold : Z
}.

(** [VersionBitsConditionChecker]; the deployment is an index into [vDeployments]. *)
Definition VersionBitsMask (d : BIP9Deployment) : Z := u32 (Z.shiftl 1 (dep_bit d)).
Definition VersionBitsConditionChecker (d : BIP9Deployment) (p : Params) : Checker :=
  mkChecker
    (fun b => (Z.land (nVersion b) VERSIONBITS_TOP_MASK =? VERSIONBITS_TOP_BITS)
              && negb (Z.land (u32 (nVersion b)) (VersionBitsMask d) =? 0))
    (nStartTime d) (nTimeout d) (nMinerConfirmationWindow p) (nRuleChangeActivationThreshold p).
Definition DEPLOYMENT_TESTDUMMY : nat := 0.
Definition DEPLOYMENT_CSV : nat := 1.
Definition DEPLOYMENT_SEGWIT : nat := 2.

(** ** The state of a block *)

Section GetState.
Context (c : Checker).

(** The last block of the period before the one the next block is in. *)
Definition period_end (m : BlockMap) (pindexPrev : option Z) : result (option Z) :=
  match pindexPrev with
  | None => Ok None
  | Some p => b ← deref m p; GetAncestor m p (nHeight b - Z.rem (nHeight b + 1) (Period c))
  end.
Definition period_before (m : BlockMap) (p : Z) : result (option Z) :=
  b ← deref m p; GetAncestor m p (nHeight b - Period c).

(** The walk back to a block with a known state; the blocks to compute, last first. *)
Fixpoint walk_back (fuel : nat) (m : BlockMap) (cache : ThresholdConditionCache) (pindexPrev : option Z) (vToCompute : list Z) :
    result (option Z * ThresholdConditionCache * list Z) :=
  match cache !! pindexPrev with
  | Some _ => Ok (pindexPrev, cache, vToCompute)
  | None =>
      match pindexPrev with
      | None => Ok (None, <[None := THRESHOLD_DEFINED]> cache, vToCompute)
      | Some p =>
          median ← GetMedianTimePast m p;
          if median <? BeginTime c then Ok (Some p, <[Some p := THRESHOLD_DEFINED]> cache, vToCompute)
          else
            match fuel with
            | O => Err "out of fuel"
            | S fuel' => q ← period_before m p; walk_back fuel' m cache q (p :: vToCompute)
            end
      end
  end.

Fixpoint count_signals (n : nat) (m : BlockMap) (pindexCount : option Z) (count : Z) : result Z :=
  match n with
  | O => Ok count
  | S n' =>
      match pindexCount with
      | None => Err "null pointer"
      | Some p => b ← deref m p; count_signals n' m (pprev b) (if Condition c b then count + 1 else count)
      end
  end.

Definition next_state (m : BlockMap) (state : ThresholdState) (p : Z) : result ThresholdState :=
  match state with
  | THRESHOLD_DEFINED =>
      median ← GetMedianTimePast m p;
      Ok (if EndTime c <=? median then THRESHOLD_FAILED
          else if BeginTime c <=? median then THRESHOLD_STARTED else THRESHOLD_DEFINED)
  | THRESHOLD_STARTED =>
      median ← GetMedianTimePast m p;
      if EndTime c <=? median then Ok THRESHOLD_FAILED
      else
        count ← count_signals (Z.to_nat (Period c)) m (Some p) 0;
        Ok (if Threshold c <=? count then THRESHOLD_LOCKED_IN else THRESHOLD_STARTED)
  | THRESHOLD_LOCKED_IN => Ok THRESHOLD_ACTIVE
  | THRESHOLD_FAILED => Ok THRESHOLD_FAILED
  | THRESHOLD_ACTIVE => Ok THRESHOLD_ACTIVE
  end.

Fixpoint walk_forward (m : BlockMap) (cache : ThresholdConditionCache) (state : ThresholdState) (vToCompute : list Z) :
    result (ThresholdState * ThresholdConditionCache) :=
  match vToCompute with
  | [] => Ok (state, cache)
  | p :: rest =>
      stateNext ← next_state m state p;
      walk_forward m (<[Some p := stateNext]> cache) stateNext rest
  end.

(** The number of periods bounds the walk. *)
Definition walk_fuel (m : BlockMap) (p : option Z) : nat :=
  match p ≫= (m !!.) with Some b => S (Z.to_nat (nHeight b)) | None => 0%nat end.

Definition GetStateFor (m : BlockMap) (pindexPrev : option Z) (cache : ThresholdConditionCache) :
    result (ThresholdState * ThresholdConditionCache) :=
  p ← period_end m pindexPrev;
  r ← walk_back (walk_fuel m p) m cache p [];
  let '(p, cache, vToCompute) := r in
  match cache !! p with
  | None => Err "assertion cache.count(pindexPrev) failed"
  | Some state => walk_forward m cache state vToCompute
  end.

Fixpoint since_loop (fuel : nat) (m : BlockMap) (initialState : ThresholdState) (pindexPrev : Z) (previous : option Z)
    (cache : ThresholdConditionCache) : result (Z * ThresholdConditionCache) :=
  match previous with
  | None => b ← deref m pindexPrev; Ok (nHeight b + 1, cache)
  | Some q =>
      r ← GetStateFor m (Some q) cache;
      let '(state, cache) := r in
      if decide (state = initialState) then
        match fuel with
        | O => Err "out of fuel"
        | S fuel' => q' ← period_before m q; since_loop fuel' m initialState q q' cache
        end
      else b ← deref m pindexPrev; Ok (nHeight b + 1, cache)
  end.

Definition GetStateSinceHeightFor (m : BlockMap) (pindexPrev : option Z) (cache : ThresholdConditionCache) :
    result (Z * ThresholdConditionCache) :=
  r ← GetStateFor m pindexPrev cache;
  let '(initialState, cache) := r in
  if decide (initialState = THRESHOLD_DEFINED) then Ok (0, cache)
  else
    p ← period_end m pindexPrev;
    match p with
    | None => Err "null pointer"
    | Some p => q ← period_before m p; since_loop (walk_fuel m (Some p)) m initialState p q cache
    end.

End GetState.

Definition VersionBitsState (m : BlockMap) (pindexPrev : option Z) (p : Params) (pos : nat) (cache : ThresholdConditionCache) :
    result (ThresholdState * ThresholdConditionCache) :=
  match vDeployments p !! pos with
  | Some d => GetStateFor (VersionBitsConditionChecker d p) m pindexPrev cache
  | None => Err "index out of range"
  end.
Definition VersionBitsStateSinceHeight (m : BlockMap) (pindexPrev : option Z) (p : Params) (pos : nat) (cache : ThresholdConditionCache) :
    result (Z * ThresholdConditionCache) :=
  match vDeployments p !! pos with
  | Some d => GetStateSinceHeightFor (VersionBitsConditionChecker d p) m pindexPrev cache
  | None => Err "index out of range"
  end.

(** ** The median time *)

Definition count_lt (t : Z) (l : list Z) : nat := length (filter (fun x => x < t) l).

Lemma count_lt_cons t x l : count_lt t (x :: l) = ((if decide (x < t)%Z then 1 else 0) + count_lt t l)%nat.
Proof. unfold count_lt. rewrite filter_cons. by case_decide. Qed.
Lemma count_lt_none t l : Forall (fun x => t <= x) l -> count_lt t l = 0%nat.
Proof. induction 1 as [|x l Hx _ IH]; [done|]. rewrite count_lt_cons, decide_False by lia. lia. Qed.
Lemma count_lt_take t n l : (count_lt t (take n l) <= count_lt t l)%nat.
Proof. revert n. induction l as [|x l IH]; intros [|n]; cbn [take]; try (unfold count_lt; cbn; lia). rewrite !count_lt_cons. specialize (IH n). lia. Qed.
Lemma count_lt_perm t l l' : l ≡ₚ l' -> count_lt t l = count_lt t l'.
Proof. intros Hp. unfold count_lt. by rewrite Hp. Qed.

(** The place of a bound in a sorted list. *)
Lemma sorted_rank t l k x : StronglySorted Z.le l -> l !! k = Some x -> t <= x <-> (count_lt t l <= k)%nat.
Proof.
  intros Hs. revert k. induction Hs as [|a l Hs IH Ha]; intros k Hk; [done|]. rewrite count_lt_cons.
  assert (t <= a -> count_lt t l = 0%nat) as Hz.
  { intros Ht. apply count_lt_none. eapply Forall_impl; [exact Ha|]. cbn. lia. }
  destruct k as [|k]; cbn in Hk.
  - injection Hk as ->. case_decide; [lia|]. rewrite Hz; lia.
  - case_decide; [rewrite (IH k Hk); lia|]. rewrite Hz by lia. rewrite Forall_lookup in Ha. specialize (Ha k x Hk). lia.
Qed.

Lemma past_times_take n m p ts : past_times (S n) m p = Ok ts -> past_times n m p = Ok (take n ts) /\ (length ts <= S n)%nat.
Proof.
  revert p ts. induction n as [|n IH]; intros [p|] ts Hts; cbn [past_times] in *.
  - apply bind_ok in Hts as (b & Hb & Hk). injection Hk as <-. cbn. split; [done|lia].
  - injection Hts as <-. cbn. split; [done|lia].
  - apply bind_ok in Hts as (b & Hb & Hk). apply bind_ok in Hk as (r & Hr & [= <-]). destruct (IH _ _ Hr) as [E Hl].
    rewrite Hb. cbn [mbind result_bind]. cbn [past_times] in E. rewrite E. split; [done|]. cbn [length]. lia.
  - injection Hts as <-. cbn. split; [done|lia].
Qed.

Lemma median_rank m p t : GetMedianTimePast m p = Ok t <->
  exists ts, past_times nMedianTimeSpan m (Some p) = Ok ts /\ merge_sort Z.le ts !! (length ts / 2)%nat = Some t.
Proof.
  unfold GetMedianTimePast. rewrite bind_ok. split; intros (ts & Hts & Hk); exists ts; (split; [done|]).
  - destruct (_ !! _); [congruence|done].
  - by rewrite Hk.
Qed.

(** Every block is later than the median of its predecessor. *)
Definition times_ok (m : BlockMap) : Prop :=
  forall p b q t, m !! p = Some b -> pprev b = Some q -> GetMedianTimePast m q = Ok t -> t < nTime b.

Lemma median_step m p b q t t' : times_ok m -> m !! p = Some b -> pprev b = Some q ->
  GetMedianTimePast m q = Ok t -> GetMedianTimePast m p = Ok t' -> t <= t'.
Proof.
  intros Hok Hp Hq Ht Ht'. pose proof (Hok p b q t Hp Hq Ht) as Hlater.
  apply median_rank in Ht as (ts & Hts & Hk). apply median_rank in Ht' as (ts' & Hts' & Hk').
  change (past_times nMedianTimeSpan m (Some p)) with (b ← deref m p; ts ← past_times 10 m (pprev b); Ok (nTime b :: ts)) in Hts'.
  rewrite (deref_ok _ _ _ Hp) in Hts'. cbn [mbind result_bind] in Hts'. rewrite Hq in Hts'.
  apply past_times_take in Hts as [E Hl]. rewrite E in Hts'. cbn [mbind result_bind] in Hts'.
  injection Hts' as <-.
  assert (forall l, StronglySorted Z.le (merge_sort Z.le l)) as Hsort by (intros l; apply (StronglySorted_merge_sort Z.le); apply _).
  pose proof (proj1 (sorted_rank t _ _ _ (Hsort ts) Hk) ltac:(lia)) as H1.
  apply (sorted_rank t _ _ _ (Hsort _) Hk'). rewrite (count_lt_perm t _ ts) in H1 by apply merge_sort_Permutation.
  rewrite (count_lt_perm t _ (nTime b :: take 10 ts)) by apply merge_sort_Permutation.
  rewrite count_lt_cons, decide_False by lia. pose proof (count_lt_take t 10 ts). cbn [length]. rewrite length_take.
  pose proof (Nat.Div0.div_le_mono (length ts) (S (10 `min` length ts)) 2 ltac:(lia)). lia.
Qed.

(** ** BIP 9

    Periods are counted from 1; the [k]-th ends at height [k * Period - 1].  The
    state of a block depends on the periods of its branch that are complete. *)

Section Reference.
Context (c : Checker).
Context (m : BlockMap).

(** The median time past at the end of the [k]-th period on the branch of [p],
    and the number of its blocks that signal. *)
Definition end_time (p : Z) (k : nat) (t : Z) : Prop :=
  exists x, ancestor m p (Z.of_nat k * Period c - 1) x /\ GetMedianTimePast m x = Ok t.
Definition signals_at (p h : Z) : bool :=
  match m !! p with
  | Some b => match walk m (Z.to_nat (nHeight b - h)) p ≫= (m !!.) with Some b' => Condition c b' | None => false end
  | None => false
  end.
Definition signals (p : Z) (k : nat) : Z := Z.of_nat (length (List.filter (signals_at p) (seqZ ((Z.of_nat k - 1) * Period c) (Period c)))).

(** The start time has passed by the end of the [n]-th period. *)
Definition started_by (p : Z) (n : nat) : Prop := exists k t, (1 <= k <= n)%nat /\ end_time p k t /\ BeginTime c <= t.
(** The [k]-th period locks the deployment in: it had started before, enough of
    its blocks signal, and it ends before the timeout. *)
Definition locks_in (p : Z) (k : nat) : Prop :=
  started_by p (k - 1) /\ Threshold c <= signals p k /\ exists t, end_time p k t /\ t < EndTime c.

(** The state after [n] periods on the branch of [p]: [STARTED] past the start
    time, [LOCKED_IN] for the period after the first that locks in, [ACTIVE] in
    all later ones, and [FAILED] past the timeout if none did by then. *)
Inductive bip9 (p : Z) (n : nat) : ThresholdState -> Prop :=
| bip9_defined : ~ started_by p n -> bip9 p n THRESHOLD_DEFINED
| bip9_started t : started_by p n -> (forall k, (k <= n)%nat -> ~ locks_in p k) -> end_time p n t -> t < EndTime c -> bip9 p n THRESHOLD_STARTED
| bip9_locked : locks_in p n -> (forall k, (k < n)%nat -> ~ locks_in p k) -> bip9 p n THRESHOLD_LOCKED_IN
| bip9_active k : (k < n)%nat -> locks_in p k -> bip9 p n THRESHOLD_ACTIVE
| bip9_failed t : started_by p n -> (forall k, (k <= n)%nat -> ~ locks_in p k) -> end_time p n t -> EndTime c <= t -> bip9 p n THRESHOLD_FAILED.

(** [p] ends the [n]-th period. *)
Definition at_end (n : nat) (p : Z) : Prop :=
  exists b, m !! p = Some b /\ (1 <= n)%nat /\ nHeight b + 1 = Z.of_nat n * Period c.
Definition period_mark (n : nat) (p : option Z) : Prop :=
  match p with Some x => at_end n x | None => n = 0%nat end.

(** The state of the block after [pindexPrev], and of what the cache holds. *)
Definition state_of (pindexPrev : option Z) (st : ThresholdState) : Prop :=
  match pindexPrev with
  | None => st = THRESHOLD_DEFINED
  | Some p => exists b, m !! p = Some b /\ bip9 p (Z.to_nat ((nHeight b + 1) / Period c)) st
  end.
Definition cache_ok (cache : ThresholdConditionCache) : Prop :=
  forall p st, cache !! p = Some st -> exists n, period_mark n p /\ state_of p st.

(** The first height of the current state. *)
Definition since (p : Z) (k : nat) (st : ThresholdState) (h : Z) : Prop :=
  exists n0, (1 <= n0 <= k)%nat /\ h = Z.of_nat n0 * Period c /\ (forall j, (n0 <= j <= k)%nat -> bip9 p j st) /\ ~ bip9 p (n0 - 1) st.

(** The same computed from period to period. *)
Fixpoint period_state (n : nat) (p : option Z) : result ThresholdState :=
  match n, p with
  | S n', Some x =>
      median ← GetMedianTimePast m x;
      if median <? BeginTime c then Ok THRESHOLD_DEFINED
      else st ← period_state n' (walk m (Z.to_nat (Period c)) x); next_state c m st x
  | _, _ => Ok THRESHOLD_DEFINED
  end.

Section Facts.
Context (Ht : tree_ok m) (Htimes : times_ok m) (Hperiod : 0 < Period c).

Lemma median_walk k p q t t' : walk m k p = Some q -> is_Some (m !! p) ->
  GetMedianTimePast m q = Ok t -> GetMedianTimePast m p = Ok t' -> t <= t'.
Proof.
  revert p t'. induction k as [|k IH]; intros p t' Hw [b Hb] Hq Hp; cbn [walk] in Hw.
  { injection Hw as ->. rewrite Hq in Hp. injection Hp as ->. lia. }
  rewrite Hb in Hw. cbn in Hw. destruct (pprev b) as [r|] eqn:Er; [|done]. cbn in Hw.
  destruct (Ht p b Hb) as (_ & _ & Hl). unfold linked in Hl. rewrite Er in Hl. destruct Hl as (br & _ & Hbr & _).
  destruct (GetMedianTimePast_total m r br Ht Hbr) as [tr Htr]. etrans; [|exact (median_step m p b r tr t' Htimes Hb Er Htr Hp)].
  apply (IH r tr); [done|by eexists|done|done].
Qed.

(** The end of the period before. *)
Lemma before_end n x : at_end (S n) x -> exists q, period_before c m x = Ok q /\
  walk m (Z.to_nat (Period c)) x = q /\ period_mark n q.
Proof.
  intros (b & Hb & _ & Hh). unfold period_before. rewrite (deref_ok _ _ _ Hb). cbn [mbind result_bind].
  destruct (GetAncestor_spec m Ht x b (nHeight b - Period c) Hb) as (r & -> & Hr). exists r. split; [done|].
  destruct n as [|n].
  - rewrite (proj2 (Z.leb_gt 0 _)) in Hr by nia. cbn in Hr. subst r. split; [|done].
    destruct (walk m (Z.to_nat (Period c)) x) as [q|] eqn:E; [|done].
    destruct (walk_lookup m Ht (Z.to_nat (Period c)) x q E ltac:(by eexists)) as (bx & bq & Hbx & Hbq & Hhq).
    destruct (Ht q bq Hbq) as [? _]. simplify_eq. nia.
  - rewrite (proj2 (Z.leb_le 0 _)), (proj2 (Z.leb_le _ (nHeight b))) in Hr by nia. cbn in Hr. destruct Hr as (q & -> & Ha).
    pose proof Ha as (b' & Hb' & _ & Hw). simplify_eq. replace (nHeight b - (nHeight b - Period c)) with (Period c) in Hw by lia.
    split; [done|]. destruct (ancestor_height m Ht _ _ _ Ha) as (bq & Hbq & Ehq). exists bq. split_and!; [done|lia|lia].
Qed.

Lemma count_signals_total k p b cnt : m !! p = Some b -> Z.of_nat k <= nHeight b + 1 ->
  exists n, count_signals c k m (Some p) cnt = Ok n.
Proof.
  revert p b cnt. induction k as [|k IH]; intros p b cnt Hp Hk; cbn [count_signals]; [by eexists|].
  rewrite (deref_ok _ _ _ Hp). cbn [mbind result_bind]. destruct k as [|k]; [by eexists|].
  destruct (prev_of m Ht p b Hp ltac:(lia)) as (q & bq & -> & Hq & Hh). apply (IH q bq); [done|lia].
Qed.
Lemma next_state_total n p st : at_end n p -> exists st', next_state c m st p = Ok st'.
Proof.
  intros (b & Hb & Hn & Hh). destruct (GetMedianTimePast_total m p b Ht Hb) as [t Hmed]. unfold next_state. rewrite Hmed.
  destruct st; cbn [mbind result_bind]; try by eexists. destruct (_ <=? _); [by eexists|].
  destruct (count_signals_total (Z.to_nat (Period c)) p b 0 Hb ltac:(nia)) as [k ->]. by eexists.
Qed.
Lemma period_state_total n p : period_mark n p -> exists st, period_state n p = Ok st.
Proof.
  revert p. induction n as [|n IH]; intros [x|] Hp; cbn [period_state]; try by eexists. pose proof Hp as (b & Hb & _).
  destruct (GetMedianTimePast_total m x b Ht Hb) as [t ->]. cbn [mbind result_bind]. destruct (_ <? _); [by eexists|].
  destruct (before_end n x Hp) as (q & _ & -> & Hq). destruct (IH q Hq) as [st ->]. cbn [mbind result_bind]. by eapply next_state_total.
Qed.

(** ** The recursion is BIP 9 *)

Lemma count_signals_spec p k x b cnt n : ancestor m p (nHeight b) x -> m !! x = Some b -> Z.of_nat k <= nHeight b + 1 ->
  count_signals c k m (Some x) cnt = Ok n -> n = cnt + Z.of_nat (length (List.filter (signals_at p) (seqZ (nHeight b + 1 - Z.of_nat k) (Z.of_nat k)))).
Proof.
  revert x b cnt n. induction k as [|k IH]; intros x b cnt n Ha Hb Hk Hc; cbn [count_signals] in Hc; [injection Hc as <-; rewrite seqZ_nil by lia; cbn; lia|].
  rewrite (deref_ok _ _ _ Hb) in Hc. cbn [mbind result_bind] in Hc.
  assert (signals_at p (nHeight b) = Condition c b) as Es.
  { destruct Ha as (bp & Hbp & _ & Hw). unfold signals_at. rewrite Hbp, Hw. cbn. by rewrite Hb. }
  rewrite seqZ_S, List.filter_app, length_app. replace (nHeight b + 1 - Z.of_nat (S k) + Z.of_nat k) with (nHeight b) by lia. cbn [List.filter]. rewrite Es.
  destruct k as [|k]; [rewrite seqZ_nil by lia; cbn [count_signals] in Hc; destruct (Condition c b); injection Hc as <-; cbn [List.filter length]; lia|].
  destruct (prev_of m Ht x b Hb ltac:(lia)) as (q & bq & Eq & Hq & Hh). rewrite Eq in Hc.
  apply (IH q bq) in Hc; [| |done|lia].
  2:{ destruct (prev_ancestor m Ht p (nHeight b) x b Ha Hb ltac:(lia)) as (q' & Eq' & Ha'). replace (nHeight bq) with (nHeight b - 1) by lia. congruence. }
  replace (nHeight b + 1 - Z.of_nat (S (S k))) with (nHeight bq + 1 - Z.of_nat (S k)) by lia. rewrite Hc. destruct (Condition c b); cbn [length]; lia.
Qed.

Lemma end_time_fun p k t t' : end_time p k t -> end_time p k t' -> t = t'.
Proof. intros (x & Ha & Hx) (x' & Ha' & Hx'). rewrite (ancestor_unique m _ _ _ _ Ha Ha') in Hx. congruence. Qed.
Lemma end_time_mono p j k t t' : (j <= k)%nat -> end_time p j t -> end_time p k t' -> t <= t'.
Proof.
  intros Hjk (x & Ha & Hx) (y & Hb & Hy). assert (ancestor m y (Z.of_nat j * Period c - 1) x) as (by_ & Hby & _ & Hw).
  { eapply (ancestor_between m Ht); [exact Hb|exact Ha|nia]. }
  by apply (median_walk _ _ _ _ _ Hw (mk_is_Some _ _ Hby) Hx Hy).
Qed.
Lemma started_by_mono p j k : (j <= k)%nat -> started_by p j -> started_by p k.
Proof. intros Hjk (i & t & Hi & Ht'). exists i, t. split; [lia|done]. Qed.

Lemma bip9_fun p n st st' : bip9 p n st -> bip9 p n st' -> st = st'.
Proof.
  assert (forall k, (k <= n)%nat -> locks_in p k -> started_by p n) as Hl.
  { intros k Hk [Hs _]. eapply started_by_mono; [|exact Hs]. lia. }
  intros H1 H2. destruct H1 as [Hn|t Hs Hno He Hlt|Hk Hfst|k Hkn Hk|t Hs Hno He Hle], H2 as [Hn'|t' Hs' Hno' He' Hlt'|Hk' Hfst'|k' Hkn' Hk'|t' Hs' Hno' He' Hle'];
    try done; exfalso; first [ by apply Hn | by apply Hn' | by apply Hn; eapply Hl; [|exact Hk']; lia | by apply Hn'; eapply Hl; [|exact Hk]; lia | by eapply Hno; [|exact Hk']; lia | by eapply Hno'; [|exact Hk]; lia
      | by eapply Hfst; [|exact Hk'] | by eapply Hfst'; [|exact Hk] | pose proof (end_time_fun _ _ _ _ He He'); lia ].
Qed.

Lemma period_state_bip9 p n e st : period_mark n e -> (forall x, e = Some x -> ancestor m p (Z.of_nat n * Period c - 1) x) ->
  period_state n e = Ok st -> bip9 p n st.
Proof.
  assert (~ started_by p 0) as H0 by (intros (k & t & Hk & _); lia).
  revert e st. induction n as [|n IH]; intros e st Hmark Ha Hs; [destruct e; injection Hs as <-; by constructor|].
  destruct e as [x|]; [|done]. cbn [period_state] in Hs. specialize (Ha x eq_refl). pose proof Hmark as (b & Hb & _ & Hh).
  apply bind_ok in Hs as (t & Hmed & Hs). assert (end_time p (S n) t) as Het by by exists x.
  destruct (Z.ltb_spec t (BeginTime c)) as [Hlt|Hge].
  { injection Hs as <-. constructor. intros (k & tk & Hk & Hek & Hbk). pose proof (end_time_mono p k (S n) tk t ltac:(lia) Hek Het). lia. }
  assert (started_by p (S n)) as Hstart by (exists (S n), t; split; [lia|done]).
  destruct (before_end n x Hmark) as (q & _ & Hw & Hq). rewrite Hw in Hs. apply bind_ok in Hs as (st0 & Hs0 & Hs).
  assert (bip9 p n st0) as Hn.
  { apply (IH q st0 Hq); [|done]. intros y ->. apply (ancestor_trans m Ht p (Z.of_nat (S n) * Period c - 1) x); [done|].
    exists b. destruct Hq as (by_ & Hby & Hn1 & Hhy). split_and!; [done|nia|nia|]. by replace (Z.to_nat _) with (Z.to_nat (Period c)) by nia. }
  assert ((forall k, (k <= n)%nat -> ~ locks_in p k) -> ~ locks_in p (S n) -> forall k, (k <= S n)%nat -> ~ locks_in p k) as Hext.
  { intros Hk Hn1 k Hle. destruct (decide (k = S n)) as [->|]; [done|]. apply Hk. lia. }
  assert (EndTime c <= t -> ~ locks_in p (S n)) as Hlate.
  { intros Hle (_ & _ & t' & Ht' & Hlt). rewrite (end_time_fun _ _ _ _ Ht' Het) in Hlt. lia. }
  destruct st0; cbn [next_state] in Hs; rewrite ?Hmed in Hs; cbn [mbind result_bind] in Hs; inversion Hn; subst.
  - assert (forall k, (k <= S n)%nat -> ~ locks_in p k) as Hno.
    { intros k Hk [Hsk _]. eapply (started_by_mono _ _ n) in Hsk; [done|lia]. }
    destruct (Z.leb_spec (EndTime c) t); [injection Hs as <-; by eapply bip9_failed|].
    rewrite (proj2 (Z.leb_le _ _)) in Hs by lia. injection Hs as <-. by eapply bip9_started.
  - destruct (Z.leb_spec (EndTime c) t) as [Hle|Hgt]; [injection Hs as <-; eapply bip9_failed; eauto|].
    apply bind_ok in Hs as (cnt & Hcnt & Hs). replace (Z.of_nat (S n) * Period c - 1) with (nHeight b) in Ha by lia.
    apply (count_signals_spec p _ _ _ _ _ Ha Hb) in Hcnt; [|nia]. rewrite Z2Nat.id in Hcnt by lia.
    assert (cnt = signals p (S n)) as ->.
    { rewrite Hcnt. unfold signals. by replace ((Z.of_nat (S n) - 1) * Period c) with (nHeight b + 1 - Period c) by lia. }
    destruct (Z.leb_spec (Threshold c) (signals p (S n))) as [Hth|Hth]; injection Hs as <-.
    + apply bip9_locked; [|intros k Hk; match goal with Hno : forall k, (k <= n)%nat -> _ |- _ => apply Hno end; lia]. split; [by replace (S n - 1)%nat with n by lia|]. split; [done|by exists t].
    + eapply bip9_started; [done| |exact Het|lia]. apply Hext; [done|]. intros (_ & Hth' & _). lia.
  - injection Hs as <-. by apply (bip9_active _ _ n); [lia|].
  - injection Hs as <-. eapply (bip9_active _ _ k); [lia|done].
  - injection Hs as <-. match goal with Hn : end_time p n ?tn, Hle : EndTime c <= ?tn |- _ => pose proof (end_time_mono p n (S n) tn t ltac:(lia) Hn Het) end.
    eapply bip9_failed; [done|apply Hext; [done|apply Hlate; lia]|exact Het|lia].
Qed.

Lemma mark_state n p st : period_mark n p -> period_state n p = Ok st <-> state_of p st.
Proof.
  intros Hm. destruct p as [x|]; cbn [state_of]; [|cbn in Hm; subst n; cbn; split; congruence].
  pose proof Hm as (b & Hb & Hn & Hh). assert (Z.to_nat ((nHeight b + 1) / Period c) = n) as En by (rewrite Hh, Z.div_mul by lia; lia).
  assert (forall st, period_state n (Some x) = Ok st -> bip9 x n st) as Hto.
  { intros st'. apply (period_state_bip9 x n (Some x)); [done|]. intros ? [= <-]. replace (Z.of_nat n * Period c - 1) with (nHeight b) by lia.
    by apply (ancestor_refl m Ht). }
  split; [intros Hs; exists b; rewrite En; by split; [|apply Hto]|]. intros (b' & Hb' & Hs). rewrite Hb in Hb'. injection Hb' as <-. rewrite En in Hs.
  destruct (period_state_total n (Some x) Hm) as [st' Hst']. rewrite Hst'. f_equal. by eapply bip9_fun; [apply Hto|].
Qed.

(** A deployment that has timed out at every block never starts. *)
Lemma timed_out p n st : (forall x t, is_Some (m !! x) -> GetMedianTimePast m x = Ok t -> EndTime c <= t) ->
  bip9 p n st -> st = THRESHOLD_DEFINED \/ st = THRESHOLD_FAILED.
Proof.
  intros Hout. assert (forall k t, end_time p k t -> EndTime c <= t) as Hend.
  { intros k t (x & Ha & Hx). eapply Hout; [|exact Hx]. destruct (ancestor_height m Ht _ _ _ Ha) as (b & Hb & _). by eexists. }
  assert (forall k, ~ locks_in p k) as Hno by (intros k (_ & _ & t & He & Hlt); specialize (Hend k t He); lia).
  intros [|t _ _ He Hlt|Hl|k _ Hl|]; [by left|specialize (Hend n t He); lia|by destruct (Hno n)|by destruct (Hno k)|by right].
Qed.

(** The blocks to compute lead from [p] to [e]. *)
Inductive path : nat -> option Z -> list Z -> nat -> option Z -> Prop :=
| path_nil n p : path n p [] n p
| path_cons n p x t l n' e : at_end (S n) x -> walk m (Z.to_nat (Period c)) x = p -> GetMedianTimePast m x = Ok t -> BeginTime c <= t ->
    path (S n) (Some x) l n' e -> path n p (x :: l) n' e.

Lemma cache_ok_insert n p st cache : period_mark n p -> period_state n p = Ok st -> cache_ok cache -> cache_ok (<[p := st]> cache).
Proof.
  intros Hm Hs Hc k v Hk. apply lookup_insert_Some in Hk as [[<- <-]|[_ Hk]]; [|by apply Hc]. exists n. split; [done|]. by apply (mark_state n).
Qed.

Lemma walk_forward_spec l n p n' e st cache : path n p l n' e -> period_mark n p -> period_state n p = Ok st -> cache_ok cache ->
  exists st' cache', walk_forward c m cache st l = Ok (st', cache') /\ period_state n' e = Ok st' /\ cache_ok cache'.
Proof.
  intros Hpath. revert st cache. induction Hpath as [n p|n p x t l n' e Hx Hw Hmed Hge _ IH]; intros st cache Hmark Hst Hc; cbn [walk_forward].
  { by exists st, cache. }
  destruct (next_state_total (S n) x st Hx) as [st' Hst']. rewrite Hst'. cbn [mbind result_bind].
  assert (period_state (S n) (Some x) = Ok st') as Hx'.
  { cbn [period_state]. rewrite Hmed. cbn [mbind result_bind]. rewrite (proj2 (Z.ltb_ge _ _)) by lia. by rewrite Hw, Hst. }
  apply IH; [exact Hx|done|]. by eapply cache_ok_insert.
Qed.

Lemma walk_back_spec fuel n p l n' e cache : (n <= fuel)%nat -> period_mark n p -> path n p l n' e -> cache_ok cache ->
  exists n0 p0 cache' l' st, walk_back c fuel m cache p l = Ok (p0, cache', l') /\ path n0 p0 l' n' e /\ period_mark n0 p0 /\
    cache_ok cache' /\ cache' !! p0 = Some st /\ period_state n0 p0 = Ok st.
Proof.
  revert n p l. induction fuel as [|fuel IH]; intros n p l Hf Hmark Hpath Hc; cbn [walk_back];
    (destruct (cache !! p) as [st|] eqn:Ec; [destruct (Hc p st Ec) as (n1 & _ & Hs1); exists n, p, cache, l, st; split_and!; try done; by apply mark_state|]).
  all: destruct p as [x|]; [|cbn in Hmark; subst n; exists 0%nat, None, (<[None := THRESHOLD_DEFINED]> cache), l, THRESHOLD_DEFINED;
    split_and!; try done; [by apply (cache_ok_insert 0)|apply lookup_insert_eq]].
  all: pose proof Hmark as (b & Hb & Hn & Hh); destruct (GetMedianTimePast_total m x b Ht Hb) as [t Hmed]; rewrite Hmed; cbn [mbind result_bind].
  all: destruct (Z.ltb_spec t (BeginTime c)) as [Hlt|Hge];
    [assert (period_state n (Some x) = Ok THRESHOLD_DEFINED) as Hd
       by (destruct n; [done|]; cbn [period_state]; rewrite Hmed; cbn [mbind result_bind]; by rewrite (proj2 (Z.ltb_lt _ _)));
     exists n, (Some x), (<[Some x := THRESHOLD_DEFINED]> cache), l, THRESHOLD_DEFINED; split_and!; try done; [by eapply cache_ok_insert|apply lookup_insert_eq]|].
  - lia.
  - destruct n as [|n]; [lia|]. destruct (before_end n x Hmark) as (q & -> & Hw & Hq). cbn [mbind result_bind].
    apply (IH n); [lia|done|by econstructor|done].
Qed.

Lemma period_end_spec p b : m !! p = Some b -> exists n e, period_end c m (Some p) = Ok e /\ period_mark n e /\
  Z.of_nat n = (nHeight b + 1) / Period c /\ (forall x, e = Some x -> ancestor m p (Z.of_nat n * Period c - 1) x).
Proof.
  intros Hp. destruct (Ht p b Hp) as [H0 _]. unfold period_end. rewrite (deref_ok _ _ _ Hp). cbn [mbind result_bind].
  rewrite Z.rem_mod_nonneg by lia. pose proof (Z.div_mod (nHeight b + 1) (Period c) ltac:(lia)) as Hdm.
  pose proof (Z.mod_pos_bound (nHeight b + 1) (Period c) Hperiod). set (k := (nHeight b + 1) / Period c) in *.
  assert (0 <= k) as Hk by (apply Z.div_pos; lia). exists (Z.to_nat k).
  destruct (GetAncestor_spec m Ht p b (nHeight b - (nHeight b + 1) mod Period c) Hp) as (r & -> & Hr). exists r. split; [done|].
  replace (nHeight b - (nHeight b + 1) mod Period c) with (k * Period c - 1) in Hr by lia.
  rewrite Z2Nat.id by lia. destruct (Z.eq_dec k 0) as [Ek|Ek].
  - rewrite (proj2 (Z.leb_gt 0 _)) in Hr by lia. cbn in Hr. subst r. rewrite Ek. split_and!; done.
  - rewrite (proj2 (Z.leb_le 0 _)), (proj2 (Z.leb_le _ (nHeight b))) in Hr by nia. cbn in Hr. destruct Hr as (x & -> & Ha).
    split_and!; [|done|by intros y [= <-]]. destruct (ancestor_height m Ht _ _ _ Ha) as (bx & Hbx & Eh). exists bx. split_and!; [done|lia|lia].
Qed.

Lemma GetStateFor_spec pp cache : (forall p, pp = Some p -> is_Some (m !! p)) -> cache_ok cache ->
  exists st cache', GetStateFor c m pp cache = Ok (st, cache') /\ state_of pp st /\ cache_ok cache'.
Proof.
  intros Hin Hc. unfold GetStateFor.
  assert (exists n e, period_end c m pp = Ok e /\ period_mark n e /\ (n <= walk_fuel m e)%nat /\
    forall st, period_state n e = Ok st -> state_of pp st) as (n & e & -> & Hmark & Hf & Hst).
  { destruct pp as [p|]; [|exists 0%nat, None; split_and!; try done; by intros st [= <-]].
    destruct (Hin p eq_refl) as [b Hb]. destruct (period_end_spec p b Hb) as (n & e & He & Hmark & Hn & Ha).
    exists n, e. split_and!; try done; [|intros st Hst; exists b; split; [done|]; rewrite <- Hn, Nat2Z.id; by apply (period_state_bip9 p n e)].
    destruct e as [x|]; cbn in Hmark; [|lia]. destruct Hmark as (bx & Hbx & ? & Hh). unfold walk_fuel. cbn. rewrite Hbx. nia. }
  cbn [mbind result_bind].
  destruct (walk_back_spec (walk_fuel m e) n e [] n e cache Hf Hmark ltac:(constructor) Hc)
    as (n0 & p0 & cache1 & l & st0 & -> & Hpath & Hm0 & Hc1 & Hl & Hs0). cbn [mbind result_bind]. rewrite Hl.
  destruct (walk_forward_spec l n0 p0 n e st0 cache1 Hpath Hm0 Hs0 Hc1) as (st & cache2 & -> & Hs & Hc2).
  exists st, cache2. split_and!; [done|by apply Hst|done].
Qed.

(** The state at the end of a period, seen from a block above it. *)
Lemma state_below p k x st : at_end k x -> ancestor m p (Z.of_nat k * Period c - 1) x -> state_of (Some x) st -> bip9 p k st.
Proof. intros Hx Ha Hs. apply (period_state_bip9 p k (Some x)); [done|by intros ? [= <-]|]. by apply (mark_state k). Qed.

Lemma since_loop_spec fuel p k x q st cache : st <> THRESHOLD_DEFINED -> (k <= fuel)%nat ->
  at_end k x -> ancestor m p (Z.of_nat k * Period c - 1) x -> bip9 p k st ->
  period_mark (k - 1) q -> walk m (Z.to_nat (Period c)) x = q -> cache_ok cache ->
  exists h cache', since_loop c fuel m st x q cache = Ok (h, cache') /\ cache_ok cache' /\ since p k st h.
Proof.
  intros Hdef. revert k x q cache. induction fuel as [|fuel IH]; intros k x q cache Hf Hx Hax Hhere Hq Hw Hc;
    pose proof Hx as (b & Hb & Hk & Hh); [lia|].
  assert (~ bip9 p (k - 1) st -> since p k st (nHeight b + 1)) as Hstop.
  { intros Hd. exists k. split_and!; [lia|lia|lia| |done]. intros j Hj. by replace j with k by lia. }
  cbn [since_loop]. destruct q as [y|].
  - pose proof Hq as (by_ & Hby & Hk1 & Hhy).
    destruct (GetStateFor_spec (Some y) cache ltac:(intros ? [= <-]; by eexists) Hc) as (sty & cache1 & -> & Hsty & Hc1). cbn [mbind result_bind].
    assert (ancestor m p (Z.of_nat (k - 1) * Period c - 1) y) as Hay.
    { apply (ancestor_trans m Ht p (Z.of_nat k * Period c - 1) x); [done|]. exists b. split_and!; [done|nia|nia|].
      by replace (Z.to_nat _) with (Z.to_nat (Period c)) by nia. }
    pose proof (state_below p (k - 1) y sty Hq Hay Hsty) as Hprev. case_decide as E.
    + subst sty. replace (k - 1)%nat with (S (k - 2)) in Hq by lia. destruct (before_end (k - 2) y Hq) as (q' & -> & Hw' & Hq').
      cbn [mbind result_bind]. destruct (IH (k - 1)%nat y q' cache1) as (h & cache2 & -> & Hc2 & n0 & Hn0 & Eh & Hall & Hnot);
        [lia|by replace (k - 1)%nat with (S (k - 2)) by lia|done|done|by replace (k - 1 - 1)%nat with (k - 2)%nat by lia|done|done|].
      exists h, cache2. split_and!; [done|done|]. exists n0. split_and!; [lia|lia|done| |done]. intros j Hj.
      destruct (decide (j = k)) as [->|]; [done|]. apply Hall. lia.
    + rewrite (deref_ok _ _ _ Hb). cbn [mbind result_bind]. eexists _, _. split_and!; [done|done|]. apply Hstop. intros Hst.
      apply E. by eapply bip9_fun.
  - rewrite (deref_ok _ _ _ Hb). cbn [mbind result_bind]. eexists _, _. split_and!; [done|done|]. apply Hstop. intros He.
    cbn in Hq. rewrite Hq in He. apply Hdef, (bip9_fun p 0); [done|]. constructor. intros (j & t & Hj & _). lia.
Qed.

Lemma GetStateSinceHeightFor_spec pp cache : (forall p, pp = Some p -> is_Some (m !! p)) -> cache_ok cache ->
  exists h cache', GetStateSinceHeightFor c m pp cache = Ok (h, cache') /\ cache_ok cache' /\
    forall st, state_of pp st -> match pp with
      | Some p => if decide (st = THRESHOLD_DEFINED) then h = 0
                  else exists b, m !! p = Some b /\ since p (Z.to_nat ((nHeight b + 1) / Period c)) st h
      | None => h = 0
      end.
Proof.
  intros Hin Hc. unfold GetStateSinceHeightFor. destruct (GetStateFor_spec pp cache Hin Hc) as (st & cache1 & -> & Hst & Hc1).
  cbn [mbind result_bind]. destruct pp as [p|].
  2: { cbn in Hst. subst st. cbn. by eexists _, _. }
  destruct Hst as (b & Hb & Hst). assert (forall st', state_of (Some p) st' -> st' = st) as Huniq.
  { intros st' (b' & Hb' & Hs'). simplify_eq. by eapply bip9_fun. }
  case_decide as Ed.
  { subst st. eexists _, _. split_and!; [done|done|]. intros st' ->%Huniq. by rewrite decide_True. }
  destruct (period_end_spec p b Hb) as (n & e & -> & Hmark & Hn & Ha). cbn [mbind result_bind]. rewrite <- Hn, Nat2Z.id in Hst.
  destruct e as [x|].
  2:{ cbn in Hmark. subst n. destruct Ed. apply (bip9_fun p 0); [done|]. constructor. intros (j & t & Hj & _). lia. }
  destruct n as [|n]; [by destruct Hmark as (? & ? & ? & _); lia|]. destruct (before_end n x Hmark) as (q & -> & Hw & Hq). cbn [mbind result_bind].
  assert (S n <= walk_fuel m (Some x))%nat as Hf.
  { destruct Hmark as (bx & Hbx & _ & Hh). unfold walk_fuel. cbn. rewrite Hbx. nia. }
  destruct (since_loop_spec (walk_fuel m (Some x)) p (S n) x q st cache1 Ed Hf Hmark (Ha x eq_refl) Hst) as (h & cache2 & -> & Hc2 & Hs);
    [by replace (S n - 1)%nat with n by lia|done|done|].
  eexists _, _. split_and!; [done|done|]. intros st' ->%Huniq. rewrite decide_False by done. exists b. split; [done|].
  by rewrite <- Hn, Nat2Z.id.
Qed.

End Facts.
End Reference.

(** ** The cache survives the growth of the index *)

Section CacheMono.
Context (c : Checker) (Hcond : forall b st, Condition c (with_status b st) = Condition c b).
Context (m m' : BlockMap) (Ht : tree_ok m) (Hext : extended_by m m').

Lemma walk_same k p : is_Some (m !! p) -> walk m' k p = walk m k p.
Proof.
  revert p. induction k as [|k IH]; intros p [b Hb]; cbn [walk]; [done|]. destruct (Hext p b Hb) as [st ->]. rewrite Hb. cbn.
  destruct (pprev b) as [q|] eqn:Eq; [|done]. cbn. apply IH. destruct (Ht p b Hb) as (_ & _ & Hl). unfold linked in Hl.
  rewrite Eq in Hl. destruct Hl as (bq & _ & Hbq & _). by eexists.
Qed.
Lemma ancestor_same p h q : is_Some (m !! p) -> ancestor m p h q <-> ancestor m' p h q.
Proof.
  intros [b Hb]. destruct (Hext p b Hb) as [st Hb']. split; intros (b1 & Hb1 & Hh & Hw); simplify_eq; eexists; (split; [done|]).
  - split; [done|]. cbn. by rewrite walk_same by by eexists.
  - split; [done|]. cbn in Hw. by rewrite walk_same in Hw by by eexists.
Qed.
Lemma end_time_same p k t : is_Some (m !! p) -> end_time c m p k t <-> end_time c m' p k t.
Proof.
  intros Hp. split; intros (x & Ha & Hx); exists x.
  - split; [by apply ancestor_same|]. by apply (GetMedianTimePast_mono m m' Hext).
  - apply ancestor_same in Ha; [|done]. split; [done|]. destruct (ancestor_height m Ht _ _ _ Ha) as (b & Hb & _).
    destruct (GetMedianTimePast_total m x b Ht Hb) as [t' Hm]. rewrite (GetMedianTimePast_mono m m' Hext _ _ Hm) in Hx. congruence.
Qed.
Lemma signals_same p k : is_Some (m !! p) -> signals c m' p k = signals c m p k.
Proof.
  intros Hp. unfold signals. do 2 f_equal. apply filter_ext. intros h. unfold signals_at. pose proof Hp as [b Hb]. destruct (Hext p b Hb) as [st Hb']. rewrite Hb, Hb'. cbn.
  rewrite walk_same by done. destruct (walk m _ p) as [q|] eqn:Ew; [|done]. cbn. destruct (walk_lookup m Ht _ _ _ Ew Hp) as (_ & bq & _ & Hbq & _).
  destruct (Hext q bq Hbq) as [st' Hbq']. by rewrite Hbq, Hbq', Hcond.
Qed.
Lemma bip9_same p n st : is_Some (m !! p) -> bip9 c m p n st -> bip9 c m' p n st.
Proof.
  intros Hp. assert (forall k, started_by c m p k <-> started_by c m' p k) as Hs.
  { intros k. unfold started_by. setoid_rewrite (fun k t => end_time_same p k t Hp). done. }
  assert (forall k, locks_in c m p k <-> locks_in c m' p k) as Hl.
  { intros k. unfold locks_in. rewrite Hs, signals_same by done. setoid_rewrite (fun k t => end_time_same p k t Hp). done. }
  destruct 1 as [H1|t H1 H2 H3 H4|H1 H2|k H1 H2|t H1 H2 H3 H4].
  - constructor. by rewrite <- Hs.
  - apply (bip9_started _ _ _ _ t); [by apply Hs| |by apply end_time_same|done]. intros k Hk. rewrite <- Hl. by apply H2.
  - constructor; [by apply Hl|]. intros k Hk. rewrite <- Hl. by apply H2.
  - apply (bip9_active _ _ _ _ k); [done|by apply Hl].
  - apply (bip9_failed _ _ _ _ t); [by apply Hs| |by apply end_time_same|done]. intros k Hk. rewrite <- Hl. by apply H2.
Qed.
Lemma cache_ok_mono cache : cache_ok c m cache -> cache_ok c m' cache.
Proof.
  intros Hc p st Hp. destruct (Hc p st Hp) as (n & Hm & Hs). exists n. destruct p as [x|]; [|done].
  destruct Hm as (b & Hb & Hn & Hh). destruct (Hext x b Hb) as [st' Hb']. split; [by exists (with_status b st')|].
  destruct Hs as (b0 & Hb0 & Hs). simplify_eq. exists (with_status b st'). split; [done|]. cbn. apply bip9_same; [by eexists|done].
Qed.

End CacheMono.

(** ** Deployments in reachable states *)

Section Deployments.
Context `{CryptoOps} `{PowOps} (cp : ChainParams) (fCheckpoints : bool).
Context (Hnet : network_ok (consensus_root cp)) (Hscrypt : forall v, 0 <= scrypt_1024_1_1_256 v < M256).

Lemma header_inv_times s : header_inv cp s -> times_ok (mapBlockIndex (tree s)).
Proof.
  intros (_ & _ & (bg & Hbg & Hroot) & Hr & _) p b q t Hp Hq Hmed. destruct (Z.eq_dec p (hashGenesisBlock cp)) as [->|Hne].
  { simplify_eq. }
  destruct (Hr p b Hp Hne) as (block & q' & median & _ & _ & _ & Hq' & _ & _ & _ & _ & Hmed' & Hlt & _).
  rewrite Hq in Hq'. injection Hq' as <-. rewrite Hmed in Hmed'. injection Hmed' as <-. exact Hlt.
Qed.

Context (genesis : CPureBlockHeader) (Hprev : hashPrevBlock genesis <> header_GetHash genesis).
Context (Htarget : target_ok (GetConsensus (consensus_root cp) 0) (hdr_nBits genesis)).

Lemma reachable_genesis s0 s : initial cp genesis s0 -> rtc (chain_step cp fCheckpoints) s0 s ->
  exists bg, mapBlockIndex (tree s) !! hashGenesisBlock cp = Some bg /\ nTime bg = hdr_nTime genesis.
Proof.
  intros Hinit Hrtc. pose proof (initial_inv cp genesis s0 Hprev Htarget Hinit) as Hinv.
  assert (exists bg, mapBlockIndex (tree s0) !! hashGenesisBlock cp = Some bg /\ nTime bg = hdr_nTime genesis) as Hg.
  { destruct Hinit as (t & Hadd & ->).
    destruct (AddToBlockIndex_spec (mkTree ∅ None ∅) genesis index_inv_empty Hprev (proj1 Htarget)) as (t1 & b & Hadd1 & _ & _ & Hb & Hnew).
    rewrite Hadd in Hadd1. injection Hadd1 as <- ->. exists b. split; [done|]. apply Hnew. apply lookup_empty. }
  clear Hinit. induction Hrtc as [s|s0 s1 s2 Hstep _ IH]; [done|].
  apply IH; [by eapply chain_step_inv|]. destruct Hg as (bg & Hbg & Htime).
  destruct (chain_step_extends cp fCheckpoints Hnet Hscrypt s0 s1 Hstep Hinv _ _ Hbg) as [st Hst].
  by exists (with_status bg st).
Qed.

(** No median is before the genesis block. *)
Lemma median_after_genesis s0 s p b t : initial cp genesis s0 -> rtc (chain_step cp fCheckpoints) s0 s ->
  mapBlockIndex (tree s) !! p = Some b -> GetMedianTimePast (mapBlockIndex (tree s)) p = Ok t -> hdr_nTime genesis <= t.
Proof.
  intros Hinit Hrtc Hp Hmed. destruct (reachable_genesis s0 s Hinit Hrtc) as (bg & Hbg & <-).
  pose proof (reachable_inv cp fCheckpoints Hnet Hscrypt genesis s0 s Hprev Htarget Hinit Hrtc) as Hinv.
  pose proof (header_inv_times s Hinv) as Htimes. pose proof Hinv as ((Ht & _) & _ & (bg' & Hbg' & Hroot) & Hr & _). simplify_eq.
  destruct (Ht p b Hp) as [Hh _]. destruct (ancestor_exists _ Ht p b 0 Hp ltac:(lia)) as (g & bq & Ha & Hg & Hh0).
  assert (g = hashGenesisBlock cp) as ->.
  { destruct (Z.eq_dec g (hashGenesisBlock cp)) as [|Hne]; [done|].
    destruct (Hr g bq Hg Hne) as (block & q & median & _ & _ & _ & Hq & _). rewrite (genesis_of _ Ht g bq Hg Hh0) in Hq. done. }
  destruct Ha as (b' & _ & _ & Hw). apply (median_walk _ Ht Htimes _ _ _ _ _ Hw (mk_is_Some _ _ Hp)); [|done].
  apply median_rank. exists [nTime bg]. unfold nMedianTimeSpan. cbn [past_times]. rewrite (deref_ok _ _ _ Hbg). cbn [mbind result_bind].
  rewrite Hroot. done.
Qed.

(** ** Correctness *)


End Deployments.

(** C36: relative lock times are never enforced on the main network.  The
    deployment of BIP 68, 112 and 113 times out in May 2017, before the
    genesis block, so in every reachable state it is at its initial state or
    has failed. *)
Theorem csv_never_activates `{CryptoOps} `{PowOps} cp fCheckpoints s0 s height cache pindexPrev :
  consensus_root cp = main_root -> (forall v, 0 <= scrypt_1024_1_1_256 v < M256) -> header_GetHash main_genesis <> 0 ->
  initial cp main_genesis s0 -> rtc (chain_step cp fCheckpoints) s0 s ->
  let m := mapBlockIndex (tree s) in let p := GetConsensus main_root height in
  (forall d, vDeployments p !! DEPLOYMENT_CSV = Some d -> cache_ok (VersionBitsConditionChecker d p) m cache) ->
  (forall q, pindexPrev = Some q -> is_Some (m !! q)) ->
  exists st cache', VersionBitsState m pindexPrev p DEPLOYMENT_CSV cache = Ok (st, cache') /\
    (st = THRESHOLD_DEFINED \/ st = THRESHOLD_FAILED).
Proof.
  intros Hroot Hscrypt Hhash Hinit Hrtc m p Hcache Hin. set (genesis := main_genesis) in *.
  assert (hashPrevBlock genesis <> header_GetHash genesis) as Hprev by (cbn; congruence).
  assert (target_ok main_base (hdr_nBits genesis)) as Htarget by (split_and!; by vm_compute).
  assert (hdr_nTime genesis = 1772474096) as Htime by done.
  assert (network_ok (consensus_root cp)) as Hnet by (rewrite Hroot; apply main_network_ok).
  assert (target_ok (GetConsensus (consensus_root cp) 0) (hdr_nBits genesis)) as Htg by (rewrite Hroot; exact Htarget).
  pose proof (reachable_inv cp fCheckpoints Hnet Hscrypt genesis s0 s Hprev Htg Hinit Hrtc) as Hinv.
  pose proof (header_inv_times cp s Hinv) as Htimes. pose proof Hinv as ((Ht & _) & _).
  assert (vDeployments p !! DEPLOYMENT_CSV = Some (mkDeployment 0 1462060800 1493596800) /\ 0 < nMinerConfirmationWindow p) as [Hd Hw].
  { unfold p. destruct (GetConsensus_main height) as [->|[->| ->]]; done. }
  unfold VersionBitsState. rewrite Hd. specialize (Hcache _ Hd). set (c := VersionBitsConditionChecker _ p) in *.
  destruct (GetStateFor_spec c m Ht Htimes Hw pindexPrev cache Hin Hcache) as (st & cache' & -> & Hst & _).
  exists st, cache'. split; [done|]. destruct pindexPrev as [q|]; [|left; exact Hst].
  destruct Hst as (b & _ & Hs). eapply (timed_out c m Ht); [|exact Hs].
  intros x t Hx Hmed. pose proof (median_after_genesis cp fCheckpoints Hnet Hscrypt genesis Hprev Htg s0 s x) as Hm.
  destruct Hx as [bx Hbx]. specialize (Hm bx t Hinit Hrtc Hbx Hmed). cbn. lia.
Qed.

(** ** Examples *)

Module VersionBitsExample.
Import BlockIndex.Example AuxPowExample HeaderExample.

Lemma empty_cache_ok c m : cache_ok c m ∅.
Proof. intros p st Hp. rewrite lookup_empty in Hp. discriminate. Qed.


(** The main network, with the genesis header's nonce for its hash. *)
Definition csv_params : ChainParams := mkChainParams main_root 136519 [].
Definition csv_state : ChainState :=
  match AddToBlockIndex (mkTree ∅ None ∅) main_genesis with
  | Ok (t, _) => mkChainState t [] None
  | Err _ => mkChainState (mkTree ∅ None ∅) [] None
  end.

Lemma csv_never_activates_witness : exists st cache,
  VersionBitsState (mapBlockIndex (tree csv_state)) (Some 136519) main_base DEPLOYMENT_CSV ∅ = Ok (st, cache) /\
  (st = THRESHOLD_DEFINED \/ st = THRESHOLD_FAILED).
Proof.
  assert (initial csv_params main_genesis csv_state) as Hinit.
  { destruct (AddToBlockIndex (mkTree ∅ None ∅) main_genesis) as [[t g]|e] eqn:E; [|vm_compute in E; discriminate].
    exists t. unfold csv_state. rewrite E. split; [|reflexivity]. do 2 f_equal. vm_compute in E. injection E as _ <-. reflexivity. }
  apply (csv_never_activates csv_params false csv_state csv_state 0 ∅ (Some 136519)).
  - reflexivity.
  - exact demo_scrypt_range.
  - vm_compute. discriminate.
  - exact Hinit.
  - constructor.
  - intros d _. apply empty_cache_ok.
  - intros q [= <-]. destruct (mapBlockIndex (tree csv_state) !! 136519) eqn:E; [eexists; reflexivity|vm_compute in E; discriminate].
Defined.

End VersionBitsExample.
