(* ===== verification/Block.v ===== *)
(** * Blocks and their checks
      ([src/src/primitives/block.h], [block.cpp], [auxpow.h], [consensus/merkle.cpp];
      [CheckBlock] and [ContextualCheckBlock] of [validation.cpp])

    The format of a block with its merge-mining proof, and the checks of a
    block that need no coins.  A check gives the reject reason; its score and
    code are left out. *)

From S2P Require Import Prelude Nicknames Serialize Script Base58 Money Arith Merkle Header BlockIndex Pow Transaction TxSerialize AuxPow HeaderChain VersionBits.
From S2P Require Import DerSignature Interpreter SigHash Coins CoinsCache TxVerify.
Open Scope Z_scope.
Open Scope kubu_scope.
Open Scope reader_scope.

(** ** Format *)

Section Format.
Context `{CryptoOps} (fAllowWitness : bool).

#[local] Instance Serializable_uint256 : Serializable Z := { Serialize := Serialize_blob 32; Unserialize := Unserialize_blob 32 }.
#[local] Instance Serializable_CTransaction : Serializable CTransaction := {
  Serialize tx := SerializeTransaction fAllowWitness (CMutableTransaction_of tx);
  Unserialize := mtx <-- UnserializeTransaction fAllowWitness ;; rret (CTransaction_of mtx)
}.

Definition Serialize_CMerkleTx (m : CMerkleTx) : bytes :=
  Serialize (mtx_tx m) ++ Serialize_blob 32 (mtx_hashBlock m) ++ Serialize_vector (vMerkleBranch m) ++ Serialize_int32 (nIndex m).
Definition Unserialize_CMerkleTx : Reader CMerkleTx :=
  tx <-- Unserialize ;; h <-- Unserialize_blob 32 ;; br <-- Unserialize_vector ;; i <-- Unserialize_int32 ;; rret (mkMerkleTx tx h br i).

Definition Serialize_CAuxPow (a : CAuxPow) : bytes :=
  Serialize_CMerkleTx (aux_merkle a) ++ Serialize_vector (vChainMerkleBranch a) ++ Serialize_int32 (nChainIndex a) ++ Serialize (parentBlock a).
Definition Unserialize_CAuxPow : Reader CAuxPow :=
  m <-- Unserialize_CMerkleTx ;; br <-- Unserialize_vector ;; i <-- Unserialize_int32 ;; p <-- Unserialize ;; rret (mkAuxPow m br i p).

(** [assert(auxpow)] fails for a header with the flag and no proof. *)
Definition Serialize_CBlockHeader (h : CBlockHeader) : result bytes :=
  if IsAuxpow (hdr_nVersion (pure h)) then
    match auxpow h with
    | Some a => Ok (Serialize (pure h) ++ Serialize_CAuxPow a)
    | None => Err "assertion auxpow failed"
    end
  else Ok (Serialize (pure h)).
Definition Unserialize_CBlockHeader : Reader CBlockHeader :=
  h <-- Unserialize ;;
  if IsAuxpow (hdr_nVersion h) then a <-- Unserialize_CAuxPow ;; rret (mkBlockHeader h (Some a))
  else rret (mkBlockHeader h None).

Definition Serialize_CBlock (h : CBlockHeader) (block : CBlock) : result bytes :=
  s ← Serialize_CBlockHeader h;
  Ok (s ++ Serialize_vector (vtx block)).
Definition Unserialize_CBlock : Reader (CBlockHeader * CBlock) :=
  h <-- Unserialize_CBlockHeader ;; txs <-- Unserialize_vector ;; rret (h, mkBlock txs).

End Format.

(** ** Checks without context *)

Section Checks.
Context `{CryptoOps} `{PowOps} (chainparams : ChainParams).

(** The size of a block, as the stream would count it. *)
Definition block_size (fAllowWitness : bool) (h : CBlockHeader) (block : CBlock) : result Z :=
  s ← Serialize_CBlock fAllowWitness h block; Ok (len s).
Definition GetBlockWeight (h : CBlockHeader) (block : CBlock) : result Z :=
  stripped ← block_size false h block;
  total ← block_size true h block;
  Ok (stripped * (WITNESS_SCALE_FACTOR - 1) + total).

Definition of_verdict {A} (v : verdict A) : result A :=
  match v with Done a => Ok a | Invalid _ _ why => Err why | Abort e => Err e end.

Fixpoint check_transactions (txs : list CTransaction) : result unit :=
  match txs with
  | [] => Ok tt
  | tx :: txs' => _ ← CheckTransaction tx true; check_transactions txs'
  end.

(** [fChecked] is the flag of the block that remembers a full check. *)
Definition CheckBlock (h : CBlockHeader) (block : CBlock) (fChecked fCheckPOW fCheckMerkleRoot : bool) : result unit :=
  if fChecked then Ok tt
  else
    _ ← of_verdict (CheckBlockHeader chainparams h fCheckPOW);
    _ ← (if fCheckMerkleRoot then
           r ← BlockMerkleRoot block;
           reject negb (hdr_hashMerkleRoot (pure h) =? r.1) with "bad-txnmrklroot";
           reject r.2 with "bad-txns-duplicate";
           Ok tt
         else Ok tt);
    size ← block_size false h block;
    reject bool_decide (vtx block = []) || (MAX_BLOCK_BASE_SIZE <? Z.of_nat (length (vtx block))) || (MAX_BLOCK_BASE_SIZE <? size)
      with "bad-blk-length";
    reject match vtx block with tx :: _ => negb (IsCoinBase tx) | [] => true end with "bad-cb-missing";
    reject existsb IsCoinBase (tail (vtx block)) with "bad-cb-multiple";
    _ ← check_transactions (vtx block);
    let nSigOps := foldl (fun n tx => u32 (n + GetLegacySigOpCount tx)) 0 (vtx block) in
    reject MAX_BLOCK_SIGOPS_COST <? u32 (nSigOps * WITNESS_SCALE_FACTOR) with "bad-blk-sigops";
    Ok tt.

(** ** Checks in the chain *)

Definition is_commitment (o : CTxOut) : bool :=
  let s := scriptPubKey o in
  (38 <=? len s) && (byte_at s 0 =? OP_RETURN) && (byte_at s 1 =? 0x24) && (byte_at s 2 =? 0xaa) && (byte_at s 3 =? 0x21)
  && (byte_at s 4 =? 0xa9) && (byte_at s 5 =? 0xed).
(** [None] is the position -1; the last commitment counts. *)
Definition GetWitnessCommitmentIndex (block : CBlock) : option CTxOut :=
  match vtx block with
  | [] => None
  | tx :: _ => last (List.filter is_commitment (vout tx))
  end.
Definition BlockWitnessMerkleRoot (block : CBlock) : result (Z * bool) :=
  ComputeMerkleRoot (match vtx block with [] => [] | _ :: txs => 0 :: (GetWitnessHash <$> txs) end).

(** The check of the commitment to the witnesses; the coinbase's witness is a nonce. *)
Definition check_commitment (block : CBlock) (commitment : CTxOut) : result unit :=
  r ← BlockWitnessMerkleRoot block;
  match vtx block with
  | tx :: _ =>
      match vin tx with
      | i :: _ =>
          match scriptWitness i with
          | [nonce] =>
              reject negb (len nonce =? 32) with "bad-witness-nonce-size";
              let hashWitness := Hash (le_bytes 32 r.1 ++ nonce) in
              reject negb (bool_decide (le_bytes 32 hashWitness = take 32 (drop 6 (scriptPubKey commitment)))) with "bad-witness-merkle-match";
              Ok tt
          | _ => Err "bad-witness-nonce-size"
          end
      | [] => Err "out of range"
      end
  | [] => Err "out of range"
  end.

(** The caches of the two deployments are read and filled; those after an
    accepted block are returned. *)
Definition ContextualCheckBlock (m : BlockMap) (csv segwit : ThresholdConditionCache) (h : CBlockHeader) (block : CBlock) (pindexPrev : option Z) :
    result (ThresholdConditionCache * ThresholdConditionCache) :=
  nHeight ← match pindexPrev with None => Ok 0 | Some q => b ← deref m q; Ok (nHeight b + 1) end;
  let consensusParams := GetConsensus (consensus_root chainparams) nHeight in
  r ← VersionBitsState m pindexPrev consensusParams DEPLOYMENT_CSV csv;
  let '(state, csv) := r in
  nLockTimeCutoff ← (if decide (state = THRESHOLD_ACTIVE) then
                       match pindexPrev with Some q => GetMedianTimePast m q | None => Err "null pointer" end
                     else Ok (header_GetBlockTime (pure h)));
  reject negb (forallb (fun tx => IsFinalTx tx nHeight nLockTimeCutoff) (vtx block)) with "bad-txns-nonfinal";
  let coinbase_script := match vtx block with tx :: _ => match vin tx with i :: _ => scriptSig i | [] => [] end | [] => [] end in
  let expect := push_int64 nHeight in
  reject (BIP34Height consensusParams <=? nHeight) && negb (starts_with expect coinbase_script) with "bad-cb-height";
  r ← VersionBitsState m pindexPrev consensusParams DEPLOYMENT_SEGWIT segwit;
  let '(state, segwit) := r in
  fHaveWitness ← (if decide (state = THRESHOLD_ACTIVE) then
                    match GetWitnessCommitmentIndex block with
                    | Some c => _ ← check_commitment block c; Ok true
                    | None => Ok false
                    end
                  else Ok false);
  reject negb fHaveWitness && existsb (fun tx => HasWitness (vin tx)) (vtx block) with "unexpected-witness";
  weight ← GetBlockWeight h block;
  reject MAX_BLOCK_WEIGHT <? weight with "bad-blk-weight";
  Ok (csv, segwit).

End Checks.

(** ** Round trip *)

Definition block_tx_wf `{CryptoOps} (fAllowWitness : bool) (tx : CTransaction) : Prop :=
  tx_wf (CMutableTransaction_of tx) /\ tx = CTransaction_of (CMutableTransaction_of tx) /\ vin tx <> [] /\
  (fAllowWitness = false -> HasWitness (vin tx) = false).
Definition hashes_wf (l : list Z) : Prop := Z.of_nat (length l) <= MAX_SIZE /\ Forall (fun z => 0 <= z < 256 ^ 32) l.
Definition auxpow_wf `{CryptoOps} (w : bool) (a : CAuxPow) : Prop :=
  block_tx_wf w (mtx_tx (aux_merkle a)) /\ 0 <= mtx_hashBlock (aux_merkle a) < 256 ^ 32 /\ hashes_wf (vMerkleBranch (aux_merkle a)) /\
  in_i32 (nIndex (aux_merkle a)) /\ hashes_wf (vChainMerkleBranch a) /\ in_i32 (nChainIndex a) /\ header_wf (parentBlock a).
(** The proof is there exactly when the version says so. *)
Definition block_wf `{CryptoOps} (w : bool) (h : CBlockHeader) (block : CBlock) : Prop :=
  header_wf (pure h) /\ (IsAuxpow (hdr_nVersion (pure h)) = bool_decide (is_Some (auxpow h))) /\
  (forall a, auxpow h = Some a -> auxpow_wf w a) /\
  Z.of_nat (length (vtx block)) <= MAX_SIZE /\ Forall (block_tx_wf w) (vtx block).

Section RoundTrip.
Context `{CryptoOps} (w : bool).

#[local] Existing Instance Serializable_uint256.
#[local] Instance SerializeOk_uint256 : SerializeOk Z (fun z => 0 <= z < 256 ^ 32).
Proof. intros z rest Hz. by apply Unserialize_blob_app. Qed.
#[local] Instance SerializeOk_CTransaction : SerializeOk CTransaction (S := Serializable_CTransaction w) (block_tx_wf w).
Proof.
  intros tx rest (Hwf & Ehash & Hne & Hw). cbn [Serialize Unserialize Serializable_CTransaction].
  erewrite rbind_Ok by (apply UnserializeTransaction_app; [done|intros _ ?; done]).
  unfold rret. rewrite Ehash at 3. do 2 f_equal. destruct w; [done|]. cbn [CMutableTransaction_of mtx_nVersion mtx_vin mtx_vout mtx_nLockTime].
  rewrite strip_witness_none by by apply Hw. done.
Qed.

Lemma read_hashes l rest : hashes_wf l -> Unserialize_vector (Serialize_vector l ++ rest) = (Ok l, rest).
Proof. intros [Hl Hf]. by apply (Unserialize_vector_app (fun z => 0 <= z < 256 ^ 32)). Qed.

Lemma read_auxpow a rest : auxpow_wf w a -> Unserialize_CAuxPow w (Serialize_CAuxPow w a ++ rest) = (Ok a, rest).
Proof.
  destruct a as [[tx hb br i] cbr ci p]. intros (Htx & Hhb & Hbr & Hi & Hcbr & Hci & Hp). cbn in Htx, Hhb, Hbr, Hi, Hcbr, Hci, Hp.
  unfold Unserialize_CAuxPow, Serialize_CAuxPow, Serialize_CMerkleTx. cbn [aux_merkle mtx_tx mtx_hashBlock vMerkleBranch nIndex vChainMerkleBranch nChainIndex parentBlock].
  rewrite <- !app_assoc. erewrite rbind_Ok.
  2:{ unfold Unserialize_CMerkleTx. erewrite rbind_Ok by by apply (unserialize_serialize (SerializeOk := SerializeOk_CTransaction)).
      erewrite rbind_Ok by by apply Unserialize_blob_app. erewrite rbind_Ok by by apply read_hashes.
      erewrite rbind_Ok by by apply Unserialize_int32_app. done. }
  erewrite rbind_Ok by by apply read_hashes. erewrite rbind_Ok by by apply Unserialize_int32_app.
  erewrite rbind_Ok by by apply unserialize_serialize. done.
Qed.

Lemma read_header h rest : header_wf (pure h) -> IsAuxpow (hdr_nVersion (pure h)) = bool_decide (is_Some (auxpow h)) ->
  (forall a, auxpow h = Some a -> auxpow_wf w a) ->
  exists s, Serialize_CBlockHeader w h = Ok s /\ Unserialize_CBlockHeader w (s ++ rest) = (Ok h, rest).
Proof.
  destruct h as [h o]. cbn [pure auxpow]. intros Hh Ha Hwf. unfold Serialize_CBlockHeader, Unserialize_CBlockHeader. cbn [pure auxpow].
  destruct o as [a|].
  - rewrite bool_decide_eq_true_2 in Ha by by eexists. rewrite Ha. eexists. split; [reflexivity|]. rewrite <- app_assoc.
    erewrite rbind_Ok by by apply unserialize_serialize. rewrite Ha. by erewrite rbind_Ok by by apply read_auxpow, Hwf.
  - rewrite bool_decide_eq_false_2 in Ha by by intros []. rewrite Ha. eexists. split; [reflexivity|].
    erewrite rbind_Ok by by apply unserialize_serialize. by rewrite Ha.
Qed.

End RoundTrip.

(** C29: a block read from what was written is the block: header, merge-mining
    proof and transactions with the identifiers computed from them; the proof
    is written exactly when the version announces it. *)
Theorem block_roundtrip `{CryptoOps} (fAllowWitness : bool) (h : CBlockHeader) (block : CBlock) (rest : bytes) :
  block_wf fAllowWitness h block ->
  exists s, Serialize_CBlock fAllowWitness h block = Ok s /\ Unserialize_CBlock fAllowWitness (s ++ rest) = (Ok (h, block), rest).
Proof.
  intros (Hh & Ha & Haux & Hl & Htx). unfold Serialize_CBlock, Unserialize_CBlock.
  destruct (read_header fAllowWitness h (Serialize_vector (H := Serializable_CTransaction fAllowWitness) (vtx block) ++ rest) Hh Ha Haux) as (s & -> & Hr).
  cbn [mbind result_bind]. eexists. split; [reflexivity|]. rewrite <- app_assoc. erewrite rbind_Ok by exact Hr.
  erewrite rbind_Ok by (apply (Unserialize_vector_app (block_tx_wf fAllowWitness) (OK := SerializeOk_CTransaction fAllowWitness)); done).
  by destruct block.
Qed.

Module BlockExample.
Import SigHashExample.

(** A merge-mined block with one transaction. *)
Definition block_tx : CTransaction := CTransaction_of TxExample.demo_tx.
Definition parent : CPureBlockHeader := mkHeader 1 5 6 1000 0x1e0ffff0 99.
Definition mined_header : CBlockHeader :=
  mkBlockHeader (mkHeader (Z.lor (Z.shiftl 63 16) (Z.lor VERSION_AUXPOW 4)) 7 8 2000 0x1e0ffff0 1)
    (Some (mkAuxPow (mkMerkleTx block_tx 9 [10; 11] 0) [12] 1 parent)).

Lemma block_tx_ok : block_tx_wf true block_tx.
Proof.
  split_and!; [|reflexivity|discriminate|discriminate].
  repeat first [split | constructor | (cbn; unfold in_i32, in_u32, in_i64, MAX_SIZE; lia)].
Qed.

Lemma block_roundtrip_witness :
  exists s, Serialize_CBlock true mined_header (mkBlock [block_tx]) = Ok s /\
    Unserialize_CBlock true (s ++ [xff]) = (Ok (mined_header, mkBlock [block_tx]), [xff]).
Proof.
  apply (block_roundtrip true mined_header (mkBlock [block_tx]) [xff]). split; [|split; [reflexivity|split; [|split; [vm_compute; discriminate|]]]].
  - unfold header_wf, in_i32, in_u32. split_and!; vm_compute; (discriminate || reflexivity).
  - intros a E. injection E as <-. split; [exact block_tx_ok|]. unfold hashes_wf, header_wf, in_i32, in_u32.
    split_and!; repeat constructor; vm_compute; (discriminate || reflexivity).
  - constructor; [exact block_tx_ok|constructor].
Defined.

End BlockExample.
