(* ===== verification/NicknameDB.v ===== *)
(** * The nickname database ([src/src/nicknamedb.h], [nicknamedb.cpp])

    One key-value store with a prefix character per table; here a record with
    one finite map per table, since the keys of different tables differ in
    their first byte.  A [CDBBatch] is the list of its writes and erasures,
    applied in order by [WriteBatch]; reads while a batch is being filled see
    the store before it.  Iterators run in the order of the serialized keys. *)

From S2P Require Import Prelude Nicknames Serialize Script Transaction.
Open Scope Z_scope.
Open Scope reader_scope.

(** ** Records *)

Record NicknameInfo := mkInfo {
  nickname : string;
  ownerPubKey : bytes;
  payoutAddress : string;
  registrationHeight : Z;
  activeUntilHeight : Z;
  graceUntilHeight : Z;
  bondAmount : Z;
  bondTxid : Z;
  bondVout : Z;
  lastUpdateTxid : Z;
  released : bool;
  bondClaimed : bool;
}.

#[export] Instance NicknameInfo_eq_dec : EqDecision NicknameInfo.
Proof. solve_decision. Defined.

Definition empty_info : NicknameInfo :=
  mkInfo EmptyString [] EmptyString 0 0 0 0 0 UINT32_MAX 0 false false.

#[export] Instance Serializable_NicknameInfo : Serializable NicknameInfo := {
  Serialize i :=
    Serialize (nickname i) ++ Serialize (ownerPubKey i) ++ Serialize (payoutAddress i) ++
    WriteVarInt (registrationHeight i) ++ WriteVarInt (activeUntilHeight i) ++
    WriteVarInt (graceUntilHeight i) ++ Serialize_int64 (bondAmount i) ++
    Serialize_blob 32 (bondTxid i) ++ WriteVarInt (bondVout i) ++
    Serialize_blob 32 (lastUpdateTxid i) ++ Serialize (released i) ++ Serialize (bondClaimed i);
  Unserialize :=
    name <-- Unserialize ;;
    owner <-- Unserialize ;;
    payout <-- Unserialize ;;
    reg <-- ReadVarInt i32 ;;
    active <-- ReadVarInt i32 ;;
    grace <-- ReadVarInt i32 ;;
    amount <-- Unserialize_int64 ;;
    bond <-- rcatch (txid <-- Unserialize_blob 32 ;; vout <-- ReadVarInt u32 ;; rret (txid, vout))
                    (rret (0, UINT32_MAX)) ;;
    last <-- rcatch (txid <-- Unserialize_blob 32 ;; rel <-- Unserialize ;; cl <-- Unserialize ;;
                     rret (txid, rel, cl))
                    (rret (0, false, false)) ;;
    rret (mkInfo name owner payout reg active grace amount bond.1 bond.2
            last.1.1 last.1.2 last.2)
}.

Definition info_GetStatus (i : NicknameInfo) (currentHeight : Z) : Nicknames.Status :=
  Nicknames.GetStatus currentHeight (activeUntilHeight i) (graceUntilHeight i) (released i) (bondClaimed i).

Definition HasBondOutpoint (i : NicknameInfo) : bool :=
  negb (bondClaimed i) && negb (bondTxid i =? 0) && negb (bondVout i =? UINT32_MAX).

Definition GetBondOutpoint (i : NicknameInfo) : COutPoint :=
  if HasBondOutpoint i then mkOutPoint (bondTxid i) (bondVout i) else null_outpoint.

Record NicknameUndoEntry := mkUndo {
  u_nickname : string; u_existedBefore : bool; u_previousInfo : NicknameInfo }.
Record NicknameBondIndexUndoEntry := mkBondUndo {
  bu_outpoint : COutPoint; bu_existedBefore : bool; bu_previousNickname : string }.
Record NicknamePricingState := mkPricingState {
  lastProcessedHeight : Z; rollingRegistrations : Z; multiplierPermille : Z }.
Record NicknamePricingUndoEntry := mkPricingUndo {
  pu_existedBefore : bool; pu_previousState : NicknamePricingState }.

Definition initial_pricing : NicknamePricingState :=
  mkPricingState (-1) 0 Nicknames.DEFAULT_PRICING_MULTIPLIER_PERMILLE.

(** ** The store *)

Record NicknameStateDB := mkDB {
  t_nickname : gmap string NicknameInfo;                      (* 'n' *)
  t_undo : gmap Z (list NicknameUndoEntry);                   (* 'u' *)
  t_bond : gmap COutPoint string;                             (* 'b' *)
  t_owner : gmap (Z * string) bool;                           (* 'o' *)
  t_owner_ready : option bool;                                (* 'm', owner_index_ready_v1 *)
  t_pricing : option NicknamePricingState;                    (* 'm', pricing_state_v1 *)
  t_pricing_undo : gmap Z NicknamePricingUndoEntry;           (* 'p' *)
  t_bond_undo : gmap Z (list NicknameBondIndexUndoEntry);     (* 'q' *)
  t_reg_count : gmap Z Z;                                     (* 'r' *)
}.

Inductive batch_op :=
| WriteNickname_ (k : string) (v : NicknameInfo) | EraseNickname_ (k : string)
| WriteUndo (k : Z) (v : list NicknameUndoEntry) | EraseUndo (k : Z)
| WriteBond (k : COutPoint) (v : string) | EraseBond (k : COutPoint)
| WriteOwner (k : Z * string) (v : bool) | EraseOwner (k : Z * string)
| WriteReady (v : bool)
| WritePricing (v : NicknamePricingState) | ErasePricing
| WritePricingUndo (k : Z) (v : NicknamePricingUndoEntry) | ErasePricingUndo (k : Z)
| WriteBondUndo (k : Z) (v : list NicknameBondIndexUndoEntry) | EraseBondUndo (k : Z)
| WriteRegCount (k : Z) (v : Z) | EraseRegCount (k : Z).

Definition apply_op (db : NicknameStateDB) (op : batch_op) : NicknameStateDB :=
  let '(mkDB n u b o r p pu bu c) := db in
  match op with
  | WriteNickname_ k v => mkDB (<[k := v]> n) u b o r p pu bu c
  | EraseNickname_ k => mkDB (delete k n) u b o r p pu bu c
  | WriteUndo k v => mkDB n (<[k := v]> u) b o r p pu bu c
  | EraseUndo k => mkDB n (delete k u) b o r p pu bu c
  | WriteBond k v => mkDB n u (<[k := v]> b) o r p pu bu c
  | EraseBond k => mkDB n u (delete k b) o r p pu bu c
  | WriteOwner k v => mkDB n u b (<[k := v]> o) r p pu bu c
  | EraseOwner k => mkDB n u b (delete k o) r p pu bu c
  | WriteReady v => mkDB n u b o (Some v) p pu bu c
  | WritePricing v => mkDB n u b o r (Some v) pu bu c
  | ErasePricing => mkDB n u b o r None pu bu c
  | WritePricingUndo k v => mkDB n u b o r p (<[k := v]> pu) bu c
  | ErasePricingUndo k => mkDB n u b o r p (delete k pu) bu c
  | WriteBondUndo k v => mkDB n u b o r p pu (<[k := v]> bu) c
  | EraseBondUndo k => mkDB n u b o r p pu (delete k bu) c
  | WriteRegCount k v => mkDB n u b o r p pu bu (<[k := v]> c)
  | EraseRegCount k => mkDB n u b o r p pu bu (delete k c)
  end.

Definition WriteBatch (db : NicknameStateDB) (batch : list batch_op) : NicknameStateDB :=
  foldl apply_op db batch.

Definition empty_db : NicknameStateDB := mkDB ∅ ∅ ∅ ∅ None None ∅ ∅ ∅.

Section Store.
Context `{CryptoOps}.

(** ** Index entries *)

Definition NormalizeKeyName (nickname : string) : string := Nicknames.NormalizeNickname nickname.

Definition TryGetOwnerKeyID (info : NicknameInfo) : option Z :=
  if negb (len (ownerPubKey info) =? COMPRESSED_SIZE) then None else Some (Hash160 (ownerPubKey info)).

Definition EraseNicknameOwnerIndexEntry (info : NicknameInfo) (normalizedNickname : string) : list batch_op :=
  match TryGetOwnerKeyID info with
  | Some ownerKeyID => [EraseOwner (ownerKeyID, normalizedNickname)]
  | None => []
  end.

Definition EraseNicknameBondIndexEntry (info : NicknameInfo) : list batch_op :=
  if HasBondOutpoint info then [EraseBond (GetBondOutpoint info)] else [].

Definition WriteNicknameIndexEntries (info : NicknameInfo) (normalizedNickname : string) : list batch_op :=
  (if HasBondOutpoint info then [WriteBond (GetBondOutpoint info) normalizedNickname] else []) ++
  match TryGetOwnerKeyID info with
  | Some ownerKeyID => [WriteOwner (ownerKeyID, normalizedNickname) true]
  | None => []
  end.

(** Erasing the index entries of the record stored under a name, if there is one. *)
Definition EraseStoredIndexEntries (db : NicknameStateDB) (normalized : string) : list batch_op :=
  match t_nickname db !! normalized with
  | Some currentInfo => EraseNicknameBondIndexEntry currentInfo ++ EraseNicknameOwnerIndexEntry currentInfo normalized
  | None => []
  end.

Definition set_nickname (info : NicknameInfo) (name : string) : NicknameInfo :=
  let '(mkInfo _ owner payout reg active grace amount txid vout last rel cl) := info in
  mkInfo name owner payout reg active grace amount txid vout last rel cl.

(** ** Single records *)

Definition ReadNickname (db : NicknameStateDB) (nickname : string) : option NicknameInfo :=
  t_nickname db !! NormalizeKeyName nickname.

(** Storing one record with its index entries, in [WriteNickname] and in the batch. *)
Definition upsert_ops (db : NicknameStateDB) (info : NicknameInfo) : list batch_op :=
  let name := NormalizeKeyName (nickname info) in
  let normalizedInfo := set_nickname info name in
  EraseStoredIndexEntries db name ++
  [WriteNickname_ name normalizedInfo] ++ WriteNicknameIndexEntries normalizedInfo name.

Definition erase_ops (db : NicknameStateDB) (nickname : string) : list batch_op :=
  let normalized := NormalizeKeyName nickname in
  EraseStoredIndexEntries db normalized ++ [EraseNickname_ normalized].

Definition WriteNickname (db : NicknameStateDB) (info : NicknameInfo) : NicknameStateDB :=
  WriteBatch db (upsert_ops db info).

Definition EraseNickname (db : NicknameStateDB) (nickname : string) : NicknameStateDB :=
  WriteBatch db (erase_ops db nickname).

(** ** Listing *)

(** Keys in the order of their serialized bytes. *)
Definition key_le {A} `{Serializable A} (a b : A) : Prop := bytes_compare (Serialize a) (Serialize b) <> Gt.
#[export] Instance key_le_dec {A} `{Serializable A} (a b : A) : Decision (key_le a b).
Proof. unfold key_le. apply _. Defined.

#[local] Instance Serializable_owner_key : Serializable (Z * string) := {
  Serialize k := Serialize_blob 20 k.1 ++ Serialize k.2;
  Unserialize := h <-- Unserialize_blob 20 ;; s <-- Unserialize ;; rret (h, s)
}.

(** The entries an iterator yields from [Seek(start)] on. *)
Definition iterate_from {K V} `{Countable K} `{Serializable K} (m : gmap K V) (start : K) : list (K * V) :=
  filter (fun kv => key_le start kv.1)
    (merge_sort (fun a b : K * V => key_le a.1 b.1) (map_to_list m)).

Definition ListNicknames (db : NicknameStateDB) (startNickname : string) (limit : nat) : list NicknameInfo :=
  take limit (iterate_from (t_nickname db) (NormalizeKeyName startNickname)).*2.

(** The rebuild of the owner index, at most once. *)
Definition EnsureOwnerIndexReady (db : NicknameStateDB) : NicknameStateDB :=
  match t_owner_ready db with
  | Some true => db
  | _ =>
      WriteBatch db
        ((EraseOwner <$> (iterate_from (t_owner db) (0, EmptyString)).*1) ++
         ((iterate_from (t_nickname db) EmptyString) ≫= (fun '(key, info) =>
            match TryGetOwnerKeyID info with
            | Some ownerKeyID => [WriteOwner (ownerKeyID, key) true]
            | None => []
            end)) ++
         [WriteReady true])
  end.

(** The entries of one owner, while the iterator stays on it. *)
Fixpoint owner_run (ownerKeyID : Z) (l : list ((Z * string) * bool)) : list string :=
  match l with
  | ((k, name), _) :: l' => if k =? ownerKeyID then name :: owner_run ownerKeyID l' else []
  | [] => []
  end.

(** The records of one owner from [start] on. *)
Definition owner_records (db : NicknameStateDB) (ownerKeyID : Z) (start : string) : list NicknameInfo :=
  omap (fun name => t_nickname db !! name) (owner_run ownerKeyID (iterate_from (t_owner db) (ownerKeyID, start))).

Definition ListNicknamesByOwnerKeyID (db : NicknameStateDB) (ownerKeyID : Z) (startNickname : string)
    (limit : nat) : list NicknameInfo * NicknameStateDB :=
  match limit with
  | O => ([], db)
  | _ => let db := EnsureOwnerIndexReady db in
         (take limit (owner_records db ownerKeyID (NormalizeKeyName startNickname)), db)
  end.

Definition string_le (a b : string) : Prop := String.compare a b <> Gt.
#[export] Instance string_le_dec a b : Decision (string_le a b).
Proof. unfold string_le. apply _. Defined.

(** The entries of a [std::map] with string keys, in order. *)
Definition string_entries {V} (m : gmap string V) : list (string * V) :=
  merge_sort (fun a b : string * V => string_le a.1 b.1) (map_to_list m).

Definition ListNicknamesForOwnerKeyIDs (db : NicknameStateDB) (ownerKeyIDs : list Z) (startNickname : string)
    (limit : nat) : list NicknameInfo * NicknameStateDB :=
  if (limit =? 0)%nat || bool_decide (ownerKeyIDs = []) then ([], db)
  else
    let db := EnsureOwnerIndexReady db in
    let start := NormalizeKeyName startNickname in
    let dedup :=
      foldl (fun m (info : NicknameInfo) => <[NormalizeKeyName (nickname info) := info]> m)
        (∅ : gmap string NicknameInfo)
        (ownerKeyIDs ≫= (fun id => owner_records db id start)) in
    (take limit (string_entries dedup).*2, db).

(** ** Undo records and pricing *)

Definition ReadNicknameUndo (db : NicknameStateDB) (blockHash : Z) : option (list NicknameUndoEntry) :=
  t_undo db !! blockHash.
Definition ReadNicknameBondIndexUndo (db : NicknameStateDB) (blockHash : Z)
    : option (list NicknameBondIndexUndoEntry) := t_bond_undo db !! blockHash.
Definition ReadNicknameByBondOutpoint (db : NicknameStateDB) (outpoint : COutPoint) : option string :=
  t_bond db !! outpoint.

(** Whether a state was stored, and the state. *)
Definition ReadNicknamePricingState (db : NicknameStateDB) : bool * NicknamePricingState :=
  match t_pricing db with
  | None => (false, initial_pricing)
  | Some s => (true, mkPricingState (lastProcessedHeight s) (Z.max 0 (rollingRegistrations s))
                       (Nicknames.ClampPricingMultiplierPermille (multiplierPermille s)))
  end.

Definition ReadPricingMultiplierPermille (db : NicknameStateDB) : Z :=
  multiplierPermille (ReadNicknamePricingState db).2.

Definition ReadRegistrationCountAtHeight (db : NicknameStateDB) (height : Z) : Z :=
  if height <? 0 then 0 else default 0 (t_reg_count db !! height).

(** [for (height = start; height <= tipHeight; ++height) sum += ...] over [count] heights. *)
Fixpoint sum_counts (db : NicknameStateDB) (height : Z) (count : nat) : Z :=
  match count with
  | O => 0
  | S count' => ReadRegistrationCountAtHeight db height + sum_counts db (height + 1) count'
  end.

Definition RebuildRollingRegistrations (db : NicknameStateDB) (tipHeight : Z) : Z :=
  if tipHeight <? 0 then 0
  else
    let start := Z.max 0 (tipHeight - Nicknames.PRICING_WINDOW_BLOCKS + 1) in
    sum_counts db start (Z.to_nat (tipHeight - start + 1)).

Definition ComputeNextPricingState (db : NicknameStateDB) (previousState : NicknamePricingState)
    (blockHeight registeredCount : Z) : NicknamePricingState :=
  let rolling :=
    if negb (lastProcessedHeight previousState + 1 =? blockHeight)
    then RebuildRollingRegistrations db (blockHeight - 1) else rollingRegistrations previousState in
  let droppedHeight := blockHeight - Nicknames.PRICING_WINDOW_BLOCKS in
  let droppedCount := ReadRegistrationCountAtHeight db droppedHeight in
  let rolling := Z.max 0 (rolling - droppedCount + registeredCount) in
  let multiplier :=
    if (0 <? blockHeight) && (Z.rem blockHeight Nicknames.PRICING_EPOCH_BLOCKS =? 0)
    then Nicknames.ComputeNextPricingMultiplierPermille (multiplierPermille previousState) rolling
    else multiplierPermille previousState in
  mkPricingState blockHeight rolling (Nicknames.ClampPricingMultiplierPermille multiplier).

(** ** Blocks *)

(** [rememberBondIndexUndo] over the outpoints, in their order: the map of
    first-seen entries, listed in key order. *)
Definition bond_undo_entry (db : NicknameStateDB) (outpoint : COutPoint) : NicknameBondIndexUndoEntry :=
  match ReadNicknameByBondOutpoint db outpoint with
  | Some name => mkBondUndo outpoint true name
  | None => mkBondUndo outpoint false EmptyString
  end.
Definition bondIndexUndoMap (db : NicknameStateDB) (outpoints : list COutPoint)
    : gmap COutPoint NicknameBondIndexUndoEntry :=
  foldl (fun m o => if decide (is_Some (m !! o)) then m else <[o := bond_undo_entry db o]> m) ∅ outpoints.
Definition outpoint_entries {V} (m : gmap COutPoint V) : list (COutPoint * V) :=
  merge_sort (fun a b : COutPoint * V => outpoint_le a.1 b.1) (map_to_list m).

Definition write_batch_ops (db : NicknameStateDB) (upserts : list NicknameInfo) (erases : list string)
    (bondIndexUpserts : list (COutPoint * string)) (bondIndexErases : list COutPoint)
    (blockHash blockHeight registeredCount : Z) (undoEntries : list NicknameUndoEntry) : list batch_op :=
  (upserts ≫= upsert_ops db) ++ (erases ≫= erase_ops db) ++
  [WriteUndo blockHash undoEntries] ++
  (EraseBond <$> bondIndexErases) ++
  ((fun '(o, name) => WriteBond o (NormalizeKeyName name)) <$> bondIndexUpserts) ++
  [WriteBondUndo blockHash
     (outpoint_entries (bondIndexUndoMap db (bondIndexErases ++ bondIndexUpserts.*1))).*2;
   WritePricingUndo blockHash
     (let '(had, previous) := ReadNicknamePricingState db in
      mkPricingUndo had (if had then previous else initial_pricing));
   WriteRegCount blockHeight registeredCount;
   WritePricing (ComputeNextPricingState db (ReadNicknamePricingState db).2 blockHeight registeredCount)].

Definition WriteNicknameBatch (db : NicknameStateDB) (upserts : list NicknameInfo) (erases : list string)
    (bondIndexUpserts : list (COutPoint * string)) (bondIndexErases : list COutPoint)
    (blockHash blockHeight registeredCount : Z) (undoEntries : list NicknameUndoEntry) : NicknameStateDB :=
  WriteBatch db (write_batch_ops db upserts erases bondIndexUpserts bondIndexErases
                   blockHash blockHeight registeredCount undoEntries).

Definition restore_ops (undo : NicknameUndoEntry) : list batch_op :=
  let normalized := NormalizeKeyName (u_nickname undo) in
  if u_existedBefore undo then
    let restored := set_nickname (u_previousInfo undo) normalized in
    [WriteNickname_ normalized restored] ++ WriteNicknameIndexEntries restored normalized
  else [EraseNickname_ normalized].

Definition restore_bond_ops (undo : NicknameBondIndexUndoEntry) : list batch_op :=
  if bu_existedBefore undo then [WriteBond (bu_outpoint undo) (bu_previousNickname undo)]
  else [EraseBond (bu_outpoint undo)].

Definition undo_ops (db : NicknameStateDB) (blockHash blockHeight : Z) (undoEntries : list NicknameUndoEntry)
    : list batch_op :=
  (undoEntries ≫= (fun undo => EraseStoredIndexEntries db (NormalizeKeyName (u_nickname undo)))) ++
  (reverse undoEntries ≫= restore_ops) ++
  [EraseUndo blockHash; EraseRegCount blockHeight] ++
  match ReadNicknameBondIndexUndo db blockHash with
  | Some entries => (entries ≫= restore_bond_ops) ++ [EraseBondUndo blockHash]
  | None => []
  end ++
  match t_pricing_undo db !! blockHash with
  | Some entry =>
      [if pu_existedBefore entry then WritePricing (pu_previousState entry) else ErasePricing;
       ErasePricingUndo blockHash]
  | None => []
  end.

Definition ApplyNicknameUndo (db : NicknameStateDB) (blockHash blockHeight : Z)
    (undoEntries : list NicknameUndoEntry) : NicknameStateDB :=
  WriteBatch db (undo_ops db blockHash blockHeight undoEntries).

End Store.

(** ** The window of registrations *)

Section Window.

Notation W := Nicknames.PRICING_WINDOW_BLOCKS.

Lemma window_positive : 0 < W.
Proof. by vm_compute. Qed.

Lemma sum_counts_app db a n m : sum_counts db a (n + m) = sum_counts db a n + sum_counts db (a + Z.of_nat n) m.
Proof.
  revert a. induction n as [|n IH]; intros a; cbn [Nat.add sum_counts]; [by rewrite Z.add_0_r|].
  rewrite IH. replace (a + 1 + Z.of_nat n) with (a + Z.of_nat (S n)) by lia. lia.
Qed.

Lemma sum_counts_negative db a n : a + Z.of_nat n <= 0 -> sum_counts db a n = 0.
Proof.
  revert a. induction n as [|n IH]; intros a Ha; cbn [sum_counts]; [done|]. rewrite IH by lia.
  unfold ReadRegistrationCountAtHeight. destruct (Z.ltb_spec a 0); lia.
Qed.

Lemma sum_counts_ext db db' a n :
  (forall k, a <= k < a + Z.of_nat n -> ReadRegistrationCountAtHeight db k = ReadRegistrationCountAtHeight db' k) ->
  sum_counts db a n = sum_counts db' a n.
Proof.
  revert a. induction n as [|n IH]; intros a Ha; cbn [sum_counts]; [done|].
  rewrite (Ha a) by lia. rewrite (IH (a + 1)); [done|]. intros k Hk. apply Ha. lia.
Qed.

(** The rebuild is the sum over the window, with no registrations before height 0. *)
Lemma RebuildRollingRegistrations_window db t :
  RebuildRollingRegistrations db t = sum_counts db (t - W + 1) (Z.to_nat W).
Proof.
  pose proof window_positive as HW. unfold RebuildRollingRegistrations. revert HW. generalize W. intros W HW.
  destruct (Z.ltb_spec t 0); [rewrite sum_counts_negative; lia|].
  destruct (Z.le_gt_cases 0 (t - W + 1)) as [Hs|Hs].
  - rewrite Z.max_r by lia. f_equal. lia.
  - rewrite Z.max_l by lia. replace (Z.to_nat W) with (Z.to_nat (W - t - 1) + Z.to_nat (t - 0 + 1))%nat by lia.
    rewrite sum_counts_app, (sum_counts_negative db (t - W + 1)) by lia. rewrite Z.add_0_l. f_equal. lia.
Qed.

(** Moving the window by one block. *)
Lemma window_next db db' h :
  (forall k, k <> h -> ReadRegistrationCountAtHeight db' k = ReadRegistrationCountAtHeight db k) ->
  RebuildRollingRegistrations db' h =
  RebuildRollingRegistrations db (h - 1) - ReadRegistrationCountAtHeight db (h - W) + ReadRegistrationCountAtHeight db' h.
Proof.
  intros Hsame. rewrite !RebuildRollingRegistrations_window. pose proof window_positive as HW. revert HW. generalize W. intros W HW.
  replace (Z.to_nat W) with (S (Z.to_nat (W - 1))) at 2 by lia. cbn [sum_counts].
  replace (Z.to_nat W) with (Z.to_nat (W - 1) + 1)%nat by lia. rewrite sum_counts_app. cbn [sum_counts].
  replace (h - W + 1 + Z.of_nat (Z.to_nat (W - 1))) with h by lia.
  replace (h - 1 - W + 1) with (h - W) by lia.
  rewrite (sum_counts_ext db' db (h - W + 1)); [lia|]. intros k Hk. apply Hsame. lia.
Qed.

Lemma sum_counts_nonneg db a n : (forall k, 0 <= ReadRegistrationCountAtHeight db k) -> 0 <= sum_counts db a n.
Proof. intros Hc. revert a. induction n as [|n IH]; intros a; cbn [sum_counts]; [done|]. specialize (Hc a). specialize (IH (a + 1)). lia. Qed.

(** The incremental update of the rolling count is the count over the window. *)
Lemma ComputeNextPricingState_window db db' s h count :
  (forall k, 0 <= ReadRegistrationCountAtHeight db' k) ->
  (forall k, k <> h -> ReadRegistrationCountAtHeight db' k = ReadRegistrationCountAtHeight db k) ->
  ReadRegistrationCountAtHeight db' h = count ->
  (lastProcessedHeight s + 1 = h -> rollingRegistrations s = RebuildRollingRegistrations db (h - 1)) ->
  rollingRegistrations (ComputeNextPricingState db s h count) = RebuildRollingRegistrations db' h.
Proof.
  intros Hpos Hsame Hcount Hs. pose proof (window_next db db' h Hsame) as Hn. rewrite Hcount in Hn.
  assert (0 <= RebuildRollingRegistrations db' h).
  { rewrite RebuildRollingRegistrations_window. by apply sum_counts_nonneg. }
  unfold ComputeNextPricingState. cbn [rollingRegistrations].
  destruct (Z.eqb_spec (lastProcessedHeight s + 1) h) as [E|E]; cbn [negb]; [rewrite (Hs E)|]; lia.
Qed.

End Window.

(** ** Stored records *)

Section Stored.

Record info_fits (i : NicknameInfo) : Prop := {
  fits_name : Z.of_nat (String.length (nickname i)) <= MAX_SIZE;
  fits_owner : Z.of_nat (length (ownerPubKey i)) <= MAX_SIZE;
  fits_payout : Z.of_nat (String.length (payoutAddress i)) <= MAX_SIZE;
  fits_heights : Forall (fun h => 0 <= h < 2 ^ 31) [registrationHeight i; activeUntilHeight i; graceUntilHeight i];
  fits_amount : in_i64 (bondAmount i);
  fits_txids : Forall (fun h => 0 <= h < 256 ^ 32) [bondTxid i; lastUpdateTxid i];
  fits_vout : in_u32 (bondVout i);
}.

(** The three groups of fields: the first version's, the bond's, the last update's. *)
Definition base_bytes (i : NicknameInfo) : bytes :=
  Serialize (nickname i) ++ Serialize (ownerPubKey i) ++ Serialize (payoutAddress i) ++
  WriteVarInt (registrationHeight i) ++ WriteVarInt (activeUntilHeight i) ++
  WriteVarInt (graceUntilHeight i) ++ Serialize_int64 (bondAmount i).
Definition bond_bytes (i : NicknameInfo) : bytes := Serialize_blob 32 (bondTxid i) ++ WriteVarInt (bondVout i).
Definition last_bytes (i : NicknameInfo) : bytes :=
  Serialize_blob 32 (lastUpdateTxid i) ++ Serialize (released i) ++ Serialize (bondClaimed i).

Definition read_bond : Reader (Z * Z) :=
  rcatch (txid <-- Unserialize_blob 32 ;; vout <-- ReadVarInt u32 ;; rret (txid, vout)) (rret (0, UINT32_MAX)).
Definition read_last : Reader (Z * bool * bool) :=
  rcatch (txid <-- Unserialize_blob 32 ;; rel <-- Unserialize ;; cl <-- Unserialize ;; rret (txid, rel, cl))
    (rret (0, false, false)).

Lemma Unserialize_info i rest : info_fits i ->
  Unserialize (base_bytes i ++ rest) =
  (bond <-- read_bond ;; last <-- read_last ;;
   rret (mkInfo (nickname i) (ownerPubKey i) (payoutAddress i) (registrationHeight i) (activeUntilHeight i)
     (graceUntilHeight i) (bondAmount i) bond.1 bond.2 last.1.1 last.1.2 last.2)) rest.
Proof.
  intros [Hn Ho Hp Hh Ha _ _]. rewrite !Forall_cons in Hh. destruct Hh as (H1 & H2 & H3 & _).
  assert (Hv : forall n r, 0 <= n < 2 ^ 31 -> ReadVarInt i32 (WriteVarInt n ++ r) = (Ok n, r)).
  { intros n r Hb. apply (varint_roundtrip i32 (2 ^ 31)); try lia. intros z Hz. apply i32_id. unfold in_i32. lia. }
  unfold base_bytes. rewrite <- !app_assoc.
  cbn [Unserialize Serializable_NicknameInfo].
  rewrite (rbind_Ok _ _ _ _ _ (SerializeOk_string (nickname i) _ Hn)).
  rewrite (rbind_Ok _ _ _ _ _ (SerializeOk_bytes (ownerPubKey i) _ Ho)).
  rewrite (rbind_Ok _ _ _ _ _ (SerializeOk_string (payoutAddress i) _ Hp)).
  rewrite (rbind_Ok _ _ _ _ _ (Hv _ _ H1)), (rbind_Ok _ _ _ _ _ (Hv _ _ H2)), (rbind_Ok _ _ _ _ _ (Hv _ _ H3)).
  by rewrite (rbind_Ok _ _ _ _ _ (Unserialize_int64_app _ _ Ha)).
Qed.

Lemma read_bond_bytes i rest : info_fits i -> read_bond (bond_bytes i ++ rest) = (Ok (bondTxid i, bondVout i), rest).
Proof.
  intros Hi. destruct Hi as [_ _ _ _ _ Ht Hv]. rewrite !Forall_cons in Ht. destruct Ht as (H1 & _ & _).
  unfold read_bond, bond_bytes, rcatch. rewrite <- app_assoc.
  rewrite (rbind_Ok _ _ _ _ _ (Unserialize_blob_app 32 _ _ H1)).
  rewrite (rbind_Ok _ _ _ (bondVout i) rest); [done|].
  apply (varint_roundtrip u32 (2 ^ 32)); unfold in_u32 in Hv; try lia. intros z Hz. by apply u32_id.
Qed.

Lemma read_last_bytes i rest : info_fits i ->
  read_last (last_bytes i ++ rest) = (Ok (lastUpdateTxid i, released i, bondClaimed i), rest).
Proof.
  intros Hi. destruct Hi as [_ _ _ _ _ Ht _]. rewrite !Forall_cons in Ht. destruct Ht as (_ & H1 & _).
  unfold read_last, last_bytes, rcatch. rewrite <- !app_assoc.
  rewrite (rbind_Ok _ _ _ _ _ (Unserialize_blob_app 32 _ _ H1)).
  rewrite (rbind_Ok _ _ _ _ _ (SerializeOk_bool (released i) _ I)).
  by rewrite (rbind_Ok _ _ _ _ _ (SerializeOk_bool (bondClaimed i) _ I)).
Qed.

Lemma Serialize_info i : Serialize i = base_bytes i ++ bond_bytes i ++ last_bytes i.
Proof. unfold base_bytes, bond_bytes, last_bytes. by rewrite <- !app_assoc. Qed.

End Stored.

(** ** Properties *)

(** stored records are read back, the older formats too.  A record is read
    back from its bytes with the rest of the stream untouched; a record that
    ends before the bond, or before the last update, is read with those fields
    at their defaults. *)
Theorem NicknameInfo_formats (i : NicknameInfo) (rest : bytes) :
  info_fits i ->
  Unserialize (Serialize i ++ rest) = (Ok i, rest) /\
  Unserialize (base_bytes i) =
    (Ok (mkInfo (nickname i) (ownerPubKey i) (payoutAddress i) (registrationHeight i) (activeUntilHeight i)
           (graceUntilHeight i) (bondAmount i) 0 UINT32_MAX 0 false false), []) /\
  Unserialize (base_bytes i ++ bond_bytes i) =
    (Ok (mkInfo (nickname i) (ownerPubKey i) (payoutAddress i) (registrationHeight i) (activeUntilHeight i)
           (graceUntilHeight i) (bondAmount i) (bondTxid i) (bondVout i) 0 false false), []).
Proof.
  intros Hi. split_and!.
  - rewrite Serialize_info, <- !app_assoc, Unserialize_info by done.
    rewrite (rbind_Ok _ _ _ _ _ (read_bond_bytes i _ Hi)), (rbind_Ok _ _ _ _ _ (read_last_bytes i _ Hi)). by destruct i.
  - rewrite <- (app_nil_r (base_bytes i)), Unserialize_info by done. done.
  - rewrite Unserialize_info by done. rewrite <- (app_nil_r (bond_bytes i)).
    rewrite (rbind_Ok _ _ _ _ _ (read_bond_bytes i _ Hi)). done.
Qed.

Lemma NicknameInfo_formats_witness :
  let i := mkInfo "alice" [x02; x03] "addr" 10 20 30 5000 77 1 78 true false in
  Unserialize (Serialize i ++ [x09]) = (Ok i, [x09]).
Proof.
  intros i. apply (NicknameInfo_formats i [x09]).
  split; cbn; unfold in_i64, in_u32; repeat constructor; by vm_compute.
Defined.
