(* ===== verification/NicknameBatch.v ===== *)
(** * Batches of the nickname database
      ([NicknameStateDB::WriteNicknameBatch] and [ApplyNicknameUndo] of
      [src/src/nicknamedb.cpp])

    What a batch does to each table, the consistency of the indexes with the
    records ([db_inv]), and two facts on the batch of a block: it preserves
    the consistency ([batch_inv]), and its undo records give back the store
    ([undo_batch]).  The rules of [NicknameState] use both. *)

From S2P Require Import Prelude Nicknames Serialize Script Transaction NicknameDB.
Open Scope Z_scope.

(** ** Tables

    What a batch does to one key of one table: the last operation on the key
    decides.  [touch] is what a single operation does to the key ([Some None]
    erases it). *)

Record Table (K V : Type) := mkTable {
  rows : NicknameStateDB -> K -> option V;
  touch : K -> batch_op -> option (option V);
}.
Arguments mkTable {K V}.
Arguments rows {K V}.
Arguments touch {K V}.

Class TableOk {K V} (T : Table K V) : Prop :=
  table_law db op k : rows T (apply_op db op) k = default (rows T db k) (touch T k op).

Definition on_key {K V} `{EqDecision K} (k k' : K) (v : option V) : option (option V) :=
  if decide (k = k') then Some v else None.

Definition Nick : Table string NicknameInfo := mkTable (fun db k => t_nickname db !! k)
  (fun k op => match op with WriteNickname_ k' v => on_key k k' (Some v) | EraseNickname_ k' => on_key k k' None | _ => None end).
Definition Undo : Table Z (list NicknameUndoEntry) := mkTable (fun db k => t_undo db !! k)
  (fun k op => match op with WriteUndo k' v => on_key k k' (Some v) | EraseUndo k' => on_key k k' None | _ => None end).
Definition Bond : Table COutPoint string := mkTable (fun db k => t_bond db !! k)
  (fun k op => match op with WriteBond k' v => on_key k k' (Some v) | EraseBond k' => on_key k k' None | _ => None end).
Definition Owner : Table (Z * string) bool := mkTable (fun db k => t_owner db !! k)
  (fun k op => match op with WriteOwner k' v => on_key k k' (Some v) | EraseOwner k' => on_key k k' None | _ => None end).
Definition Ready : Table unit bool := mkTable (fun db _ => t_owner_ready db)
  (fun _ op => match op with WriteReady v => Some (Some v) | _ => None end).
Definition Pricing_ : Table unit NicknamePricingState := mkTable (fun db _ => t_pricing db)
  (fun _ op => match op with WritePricing v => Some (Some v) | ErasePricing => Some None | _ => None end).
Definition PricingUndo : Table Z NicknamePricingUndoEntry := mkTable (fun db k => t_pricing_undo db !! k)
  (fun k op => match op with WritePricingUndo k' v => on_key k k' (Some v) | ErasePricingUndo k' => on_key k k' None | _ => None end).
Definition BondUndo : Table Z (list NicknameBondIndexUndoEntry) := mkTable (fun db k => t_bond_undo db !! k)
  (fun k op => match op with WriteBondUndo k' v => on_key k k' (Some v) | EraseBondUndo k' => on_key k k' None | _ => None end).
Definition RegCount : Table Z Z := mkTable (fun db k => t_reg_count db !! k)
  (fun k op => match op with WriteRegCount k' v => on_key k k' (Some v) | EraseRegCount k' => on_key k k' None | _ => None end).

Fixpoint effect {K V} (T : Table K V) (k : K) (ops : list batch_op) : option (option V) :=
  match ops with
  | [] => None
  | op :: ops' => effect T k ops' ∪ touch T k op
  end.

(** ** Consistency of the store *)

Section Invariant.
Context `{CryptoOps}.

(** The indexes agree with the records: names are stored normalized and under
    themselves, the owner index lists exactly the records by owner, the bond
    index knows the bond of every record and names only stored records. *)
Record db_inv (db : NicknameStateDB) : Prop := {
  inv_name name info : t_nickname db !! name = Some info -> nickname info = name;
  inv_normal name info : t_nickname db !! name = Some info -> NormalizeKeyName name = name;
  inv_owner h name b : t_owner db !! (h, name) = Some b <->
    b = true /\ exists info, t_nickname db !! name = Some info /\ TryGetOwnerKeyID info = Some h;
  inv_bond name info : t_nickname db !! name = Some info -> HasBondOutpoint info = true ->
    t_bond db !! GetBondOutpoint info = Some name;
  inv_bond_name o name : t_bond db !! o = Some name -> is_Some (t_nickname db !! name);
}.

(** The bond and the owner of a record that may be there. *)
Definition bond_of (i : option NicknameInfo) : option COutPoint :=
  i ≫= fun i => if HasBondOutpoint i then Some (GetBondOutpoint i) else None.
Definition owner_of (i : option NicknameInfo) : option Z := i ≫= TryGetOwnerKeyID.

(** A batch as the list of names it touches with their new records. *)
Definition jobs (upserts : list NicknameInfo) (erases : list string) : list (string * option NicknameInfo) :=
  ((fun i => let name := NormalizeKeyName (nickname i) in (name, Some (set_nickname i name))) <$> upserts) ++
  ((fun name => (NormalizeKeyName name, None)) <$> erases).

Definition write_part (j : string * option NicknameInfo) : list batch_op :=
  match j.2 with
  | Some info => [WriteNickname_ j.1 info] ++ WriteNicknameIndexEntries info j.1
  | None => [EraseNickname_ j.1]
  end.
Definition job_ops (db : NicknameStateDB) (j : string * option NicknameInfo) : list batch_op :=
  EraseStoredIndexEntries db j.1 ++ write_part j.

(** Each name once; a new bond is unknown to the index or the one the name
    has, and not shared by two names. *)
Record jobs_ok (db : NicknameStateDB) (js : list (string * option NicknameInfo)) : Prop := {
  jobs_nodup : NoDup js.*1;
  jobs_fresh name new o : (name, new) ∈ js -> bond_of new = Some o ->
    t_bond db !! o = None \/ bond_of (t_nickname db !! name) = Some o;
  jobs_distinct n1 i1 n2 i2 o : (n1, i1) ∈ js -> (n2, i2) ∈ js ->
    bond_of i1 = Some o -> bond_of i2 = Some o -> n1 = n2;
  jobs_normal name new : (name, new) ∈ js -> NormalizeKeyName name = name;
}.

End Invariant.

(** ** Lemmas on batches *)

Ltac table_tac :=
  intros [n u b o r p pu bu c] op k; destruct op; cbn; unfold on_key; try done;
  destruct (decide _) as [->|]; cbn;
  rewrite ?lookup_insert_eq, ?lookup_delete_eq, ?lookup_insert_ne, ?lookup_delete_ne by done; done.

#[export] Instance Nick_ok : TableOk Nick.
Proof. table_tac. Qed.
#[export] Instance Undo_ok : TableOk Undo.
Proof. table_tac. Qed.
#[export] Instance Bond_ok : TableOk Bond.
Proof. table_tac. Qed.
#[export] Instance Owner_ok : TableOk Owner.
Proof. table_tac. Qed.
#[export] Instance Ready_ok : TableOk Ready.
Proof. intros [n u b o r p pu bu c] op k. by destruct op. Qed.
#[export] Instance Pricing_ok : TableOk Pricing_.
Proof. intros [n u b o r p pu bu c] op k. by destruct op. Qed.
#[export] Instance PricingUndo_ok : TableOk PricingUndo.
Proof. table_tac. Qed.
#[export] Instance BondUndo_ok : TableOk BondUndo.
Proof. table_tac. Qed.
#[export] Instance RegCount_ok : TableOk RegCount.
Proof. table_tac. Qed.

Section Batches.
Context {K V : Type} (T : Table K V) `{!TableOk T}.

Lemma rows_WriteBatch db ops k : rows T (WriteBatch db ops) k = default (rows T db k) (effect T k ops).
Proof.
  unfold WriteBatch. revert db. induction ops as [|op ops IH]; intros db; [done|].
  cbn [foldl effect]. rewrite IH, table_law. by destruct (effect T k ops), (touch T k op).
Qed.

Lemma effect_app k a b : effect T k (a ++ b) = effect T k b ∪ effect T k a.
Proof.
  induction a as [|op a IH]; cbn [app effect].
  - by destruct (effect T k b).
  - rewrite IH. by destruct (effect T k b), (effect T k a), (touch T k op).
Qed.

Lemma effect_None k ops : Forall (fun op => touch T k op = None) ops -> effect T k ops = None.
Proof. induction 1 as [|op ops Hop _ IH]; [done|]. cbn [effect]. by rewrite IH, Hop. Qed.

Lemma effect_cons {A} (f : A -> list batch_op) k x l :
  effect T k ((x :: l) ≫= f) = effect T k (l ≫= f) ∪ effect T k (f x).
Proof. change ((x :: l) ≫= f) with (f x ++ (l ≫= f)). apply effect_app. Qed.

(** Blocks of operations that have one and the same effect on a key, or none. *)
Lemma effect_bind_cases {A} (f : A -> list batch_op) k l e :
  (forall x, x ∈ l -> effect T k (f x) = None \/ effect T k (f x) = e) ->
  effect T k (l ≫= f) = None \/ effect T k (l ≫= f) = e.
Proof.
  induction l as [|y l IH]; intros Hall; [by left|]. rewrite effect_cons.
  destruct (Hall y ltac:(by left)) as [Hy|Hy]; rewrite Hy;
    (destruct IH as [Hl|Hl]; [intros; apply Hall; by right|..]); rewrite Hl; destruct e; auto.
Qed.

Lemma effect_bind {A} (f : A -> list batch_op) k l e :
  (forall x, x ∈ l -> effect T k (f x) = None \/ effect T k (f x) = e) ->
  (exists x, x ∈ l /\ effect T k (f x) = e) -> effect T k (l ≫= f) = e.
Proof.
  intros Hall [x [Hx He]]. induction l as [|y l IH]; [by apply elem_of_nil in Hx|].
  rewrite effect_cons. apply elem_of_cons in Hx as [<-|Hx].
  - rewrite He. destruct (effect_bind_cases f k l e) as [Hl|Hl]; [intros; apply Hall; by right|..];
      rewrite Hl; by destruct e.
  - rewrite IH; [|intros; apply Hall; by right|done].
    destruct (Hall y ltac:(by left)) as [Hy|Hy]; rewrite Hy; by destruct e.
Qed.

Lemma effect_bind_None {A} (f : A -> list batch_op) k l :
  (forall x, x ∈ l -> effect T k (f x) = None) -> effect T k (l ≫= f) = None.
Proof.
  induction l as [|y l IH]; intros Hall; [done|].
  change ((y :: l) ≫= f) with (f y ++ (l ≫= f)). rewrite effect_app, IH, Hall; [done|by left|].
  intros; apply Hall; by right.
Qed.

End Batches.

(** ** The effect of record updates *)

Section Effects.
Context `{CryptoOps}.

Lemma on_key_case {K V} `{EqDecision K} (k k' : K) (v : option V) :
  on_key k k' v = if decide (k' = k) then Some v else None.
Proof. unfold on_key. by repeat destruct (decide _); subst. Qed.

Lemma batch_jobs db ups ers :
  (ups ≫= upsert_ops db) ++ (ers ≫= erase_ops db) = jobs ups ers ≫= job_ops db.
Proof.
  unfold jobs. rewrite bind_app. f_equal.
  - induction ups as [|i ups IH]; [done|]. cbn [mbind list_bind fmap list_fmap] in *. by rewrite IH.
  - induction ers as [|n ers IH]; [done|]. cbn [mbind list_bind fmap list_fmap] in *. by rewrite IH.
Qed.

Lemma jobs_named ups ers name info : (name, Some info) ∈ jobs ups ers -> nickname info = name.
Proof.
  unfold jobs. rewrite elem_of_app, !list_elem_of_fmap. intros [[i [[= -> ->] _]]|[n [[=] _]]]. by destruct i.
Qed.

Ltac effect_tac :=
  cbn [effect app touch Nick Bond Owner]; rewrite ?on_key_case; repeat destruct (decide _); simplify_eq; try done; naive_solver.

Lemma erase_stored_nick db name k : effect Nick k (EraseStoredIndexEntries db name) = None.
Proof.
  apply effect_None. unfold EraseStoredIndexEntries, EraseNicknameBondIndexEntry, EraseNicknameOwnerIndexEntry.
  repeat case_match; repeat constructor.
Qed.
Lemma erase_stored_bond db name o :
  effect Bond o (EraseStoredIndexEntries db name) =
  if decide (bond_of (t_nickname db !! name) = Some o) then Some None else None.
Proof.
  unfold EraseStoredIndexEntries, EraseNicknameBondIndexEntry, EraseNicknameOwnerIndexEntry, bond_of.
  destruct (t_nickname db !! name) as [i|]; cbn [mbind option_bind]; [|effect_tac].
  destruct (HasBondOutpoint i), (TryGetOwnerKeyID i); effect_tac.
Qed.
Lemma erase_stored_owner db name h n :
  effect Owner (h, n) (EraseStoredIndexEntries db name) =
  if decide (n = name /\ owner_of (t_nickname db !! name) = Some h) then Some None else None.
Proof.
  unfold EraseStoredIndexEntries, EraseNicknameBondIndexEntry, EraseNicknameOwnerIndexEntry, owner_of.
  destruct (t_nickname db !! name) as [i|]; cbn [mbind option_bind]; [|effect_tac].
  destruct (HasBondOutpoint i), (TryGetOwnerKeyID i); effect_tac.
Qed.

Lemma write_part_nick j k : effect Nick k (write_part j) = if decide (j.1 = k) then Some j.2 else None.
Proof.
  destruct j as [name [i|]]; unfold write_part, WriteNicknameIndexEntries; cbn [fst snd]; [|effect_tac].
  destruct (HasBondOutpoint i), (TryGetOwnerKeyID i); effect_tac.
Qed.
Lemma write_part_bond j o :
  effect Bond o (write_part j) = if decide (bond_of j.2 = Some o) then Some (Some j.1) else None.
Proof.
  destruct j as [name [i|]]; unfold write_part, WriteNicknameIndexEntries, bond_of;
    cbn [fst snd mbind option_bind]; [|effect_tac].
  destruct (HasBondOutpoint i), (TryGetOwnerKeyID i); effect_tac.
Qed.
Lemma write_part_owner j h n :
  effect Owner (h, n) (write_part j) =
  if decide (n = j.1 /\ owner_of j.2 = Some h) then Some (Some true) else None.
Proof.
  destruct j as [name [i|]]; unfold write_part, WriteNicknameIndexEntries, owner_of;
    cbn [fst snd mbind option_bind]; [|effect_tac].
  destruct (HasBondOutpoint i), (TryGetOwnerKeyID i); effect_tac.
Qed.

End Effects.

(** ** Batches of records *)

Section Jobs.
Context `{CryptoOps}.
Variables (db : NicknameStateDB) (js : list (string * option NicknameInfo)).
Hypothesis Hinv : db_inv db.
Hypothesis Hjs : jobs_ok db js.

Definition record_op (op : batch_op) : Prop :=
  match op with
  | WriteNickname_ _ _ | EraseNickname_ _ | WriteBond _ _ | EraseBond _ | WriteOwner _ _ | EraseOwner _ => True
  | _ => False
  end.

Lemma erase_stored_record_ops name : Forall record_op (EraseStoredIndexEntries db name).
Proof.
  unfold EraseStoredIndexEntries, EraseNicknameBondIndexEntry, EraseNicknameOwnerIndexEntry.
  repeat case_match; repeat constructor.
Qed.
Lemma write_part_record_ops j : Forall record_op (write_part j).
Proof. unfold write_part, WriteNicknameIndexEntries. repeat case_match; repeat constructor. Qed.
Lemma job_record_ops : Forall record_op (js ≫= job_ops db).
Proof.
  apply Forall_bind, Forall_true. intros j. apply Forall_app_2; [apply erase_stored_record_ops|apply write_part_record_ops].
Qed.

Lemma job_unique name n1 n2 : (name, n1) ∈ js -> (name, n2) ∈ js -> n1 = n2.
Proof.
  intros H1 H2. pose proof (jobs_nodup _ _ Hjs) as Hnd. apply list_elem_of_lookup in H1 as [i Hi].
  apply list_elem_of_lookup in H2 as [j Hj].
  assert (i = j) as <-.
  { eapply NoDup_lookup; [exact Hnd|..]; rewrite list_lookup_fmap; [by rewrite Hi|by rewrite Hj]. }
  congruence.
Qed.

Lemma bond_of_inj n1 n2 o :
  bond_of (t_nickname db !! n1) = Some o -> bond_of (t_nickname db !! n2) = Some o -> n1 = n2.
Proof.
  unfold bond_of. intros H1 H2.
  destruct (t_nickname db !! n1) as [i1|] eqn:E1, (t_nickname db !! n2) as [i2|] eqn:E2; cbn in *; simplify_eq.
  destruct (HasBondOutpoint i1) eqn:B1, (HasBondOutpoint i2) eqn:B2; simplify_eq.
  pose proof (inv_bond _ Hinv _ _ E1 B1). pose proof (inv_bond _ Hinv _ _ E2 B2). congruence.
Qed.

Lemma bond_of_index name o : bond_of (t_nickname db !! name) = Some o -> t_bond db !! o = Some name.
Proof.
  unfold bond_of. destruct (t_nickname db !! name) as [i|] eqn:E; cbn; [|done].
  destruct (HasBondOutpoint i) eqn:B; [|done]. intros [= <-]. by apply (inv_bond _ Hinv).
Qed.

Lemma jobs_nick name new : (name, new) ∈ js -> effect Nick name (js ≫= job_ops db) = Some new.
Proof.
  intros Hin. apply (effect_bind Nick).
  - intros [n i] Hx. unfold job_ops. rewrite (effect_app Nick), write_part_nick, erase_stored_nick. cbn [fst snd].
    destruct (decide (n = name)) as [->|]; [right|by left]. by rewrite (job_unique _ _ _ Hx Hin).
  - exists (name, new). split; [done|]. unfold job_ops.
    rewrite (effect_app Nick), write_part_nick, erase_stored_nick. cbn [fst snd]. by rewrite decide_True.
Qed.

Lemma jobs_nick_none name : name ∉ js.*1 -> effect Nick name (js ≫= job_ops db) = None.
Proof.
  intros Hin. apply (effect_bind_None Nick). intros [n i] Hx. unfold job_ops.
  rewrite (effect_app Nick), write_part_nick, erase_stored_nick, decide_False; [done|].
  intros <-. apply Hin, list_elem_of_fmap. by exists (n, i).
Qed.

(** A job's effect on a bond: its new bond is written, else its old one erased. *)
Lemma job_bond j o :
  effect Bond o (job_ops db j) =
  if decide (bond_of j.2 = Some o) then Some (Some j.1)
  else if decide (bond_of (t_nickname db !! j.1) = Some o) then Some None else None.
Proof.
  unfold job_ops. rewrite (effect_app Bond), write_part_bond, erase_stored_bond. by repeat destruct (decide _).
Qed.

Lemma jobs_bond_new name new o :
  (name, new) ∈ js -> bond_of new = Some o -> effect Bond o (js ≫= job_ops db) = Some (Some name).
Proof.
  intros Hin Ho. apply (effect_bind Bond).
  - intros [n i] Hx. rewrite job_bond. cbn [fst snd]. destruct (decide _) as [Hb|Hb].
    + right. by rewrite (jobs_distinct _ _ Hjs _ _ _ _ _ Hx Hin Hb Ho).
    + destruct (decide _) as [Ho'|]; [|by left]. exfalso.
      assert (n = name) as ->.
      { destruct (jobs_fresh _ _ Hjs _ _ _ Hin Ho) as [Hf|Hf].
        - rewrite (bond_of_index _ _ Ho') in Hf. done.
        - by eapply bond_of_inj. }
      by rewrite (job_unique _ _ _ Hx Hin) in Hb.
  - exists (name, new). split; [done|]. rewrite job_bond. cbn [fst snd]. by rewrite decide_True.
Qed.

Lemma jobs_bond_old name new o :
  (name, new) ∈ js -> bond_of (t_nickname db !! name) = Some o ->
  (forall n i, (n, i) ∈ js -> bond_of i <> Some o) -> effect Bond o (js ≫= job_ops db) = Some None.
Proof.
  intros Hin Ho Hno. apply (effect_bind Bond).
  - intros [n i] Hx. rewrite job_bond. cbn [fst snd]. rewrite decide_False by by eapply Hno.
    destruct (decide _); auto.
  - exists (name, new). split; [done|]. rewrite job_bond. cbn [fst snd].
    rewrite decide_False by by eapply Hno. by rewrite decide_True.
Qed.

Lemma jobs_bond_none o :
  (forall n i, (n, i) ∈ js -> bond_of i <> Some o /\ bond_of (t_nickname db !! n) <> Some o) ->
  effect Bond o (js ≫= job_ops db) = None.
Proof.
  intros Hno. apply (effect_bind_None Bond). intros [n i] Hx. rewrite job_bond. cbn [fst snd].
  destruct (Hno _ _ Hx). by rewrite !decide_False.
Qed.

Lemma jobs_bond_cases o :
  (exists name new, (name, new) ∈ js /\ bond_of new = Some o /\ effect Bond o (js ≫= job_ops db) = Some (Some name)) \/
  ((forall n i, (n, i) ∈ js -> bond_of i <> Some o) /\
   ((exists name new, (name, new) ∈ js /\ bond_of (t_nickname db !! name) = Some o /\
      effect Bond o (js ≫= job_ops db) = Some None) \/
    ((forall n i, (n, i) ∈ js -> bond_of (t_nickname db !! n) <> Some o) /\
     effect Bond o (js ≫= job_ops db) = None))).
Proof.
  destruct (decide (Exists (fun j => bond_of j.2 = Some o) js)) as [[[n i] [Hin Hb]]%Exists_exists|Hno].
  { left. exists n, i. eauto using jobs_bond_new. }
  right. assert (Hn : forall n i, (n, i) ∈ js -> bond_of i <> Some o).
  { intros n i Hin Hb. apply Hno, Exists_exists. by exists (n, i). }
  split; [done|].
  destruct (decide (Exists (fun j => bond_of (t_nickname db !! j.1) = Some o) js)) as [[[n i] [Hin Hb]]%Exists_exists|Hold].
  - left. exists n, i. eauto using jobs_bond_old.
  - right. assert (forall n i, (n, i) ∈ js -> bond_of (t_nickname db !! n) <> Some o).
    { intros n i Hin Hb. apply Hold, Exists_exists. by exists (n, i). }
    split; [done|]. apply jobs_bond_none. eauto.
Qed.

Lemma jobs_elem name : name ∈ js.*1 -> exists new, (name, new) ∈ js.
Proof. intros [[n i] [-> Hin]]%list_elem_of_fmap. by exists i. Qed.

Lemma job_owner j h n :
  effect Owner (h, n) (job_ops db j) =
  if decide (n = j.1 /\ owner_of j.2 = Some h) then Some (Some true)
  else if decide (n = j.1 /\ owner_of (t_nickname db !! j.1) = Some h) then Some None else None.
Proof.
  unfold job_ops. rewrite (effect_app Owner), write_part_owner, erase_stored_owner. by repeat destruct (decide _).
Qed.

Lemma jobs_owner h name new :
  (name, new) ∈ js ->
  effect Owner (h, name) (js ≫= job_ops db) =
  if decide (owner_of new = Some h) then Some (Some true)
  else if decide (owner_of (t_nickname db !! name) = Some h) then Some None else None.
Proof.
  intros Hin. apply (effect_bind Owner).
  - intros [n i] Hx. rewrite job_owner. cbn [fst snd].
    destruct (decide (name = n)) as [<-|]; [right|left; rewrite !decide_False; naive_solver].
    rewrite (job_unique _ _ _ Hx Hin). repeat destruct (decide _); naive_solver.
  - exists (name, new). split; [done|]. rewrite job_owner. cbn [fst snd].
    repeat destruct (decide _); naive_solver.
Qed.

Lemma jobs_owner_none h name : name ∉ js.*1 -> effect Owner (h, name) (js ≫= job_ops db) = None.
Proof.
  intros Hin. apply (effect_bind_None Owner). intros [n i] Hx. rewrite job_owner. cbn [fst snd].
  assert (name <> n).
  { intros <-. apply Hin, list_elem_of_fmap. by exists (name, i). }
  rewrite !decide_False; naive_solver.
Qed.

End Jobs.

(** Tables the record operations do not touch. *)
Lemma record_ops_effect {K V} (T : Table K V) k ops :
  (forall op, record_op op -> touch T k op = None) -> Forall record_op ops -> effect T k ops = None.
Proof. intros HT Hops. apply effect_None. eapply Forall_impl; [exact Hops|]. apply HT. Qed.

(** ** The bond-index part of a batch *)

Section BondIndex.
Context `{CryptoOps}.
Variable db : NicknameStateDB.

Definition write_bond (e : COutPoint * string) : batch_op := WriteBond e.1 (NormalizeKeyName e.2).

Lemma erase_bonds_effect l o :
  effect Bond o (EraseBond <$> l) = if decide (o ∈ l) then Some None else None.
Proof.
  induction l as [|o' l IH]; cbn [fmap list_fmap effect].
  - by rewrite decide_False by apply not_elem_of_nil.
  - rewrite IH. cbn [touch Bond]. rewrite on_key_case.
    repeat destruct (decide _) as [?Hd|?Hd]; try done; set_solver.
Qed.

Lemma write_bonds_None l o : o ∉ l.*1 -> effect Bond o (write_bond <$> l) = None.
Proof.
  intros Ho. apply effect_None, Forall_fmap, Forall_forall. intros [o' n] Hin.
  unfold compose, write_bond. cbn [touch Bond fst]. rewrite on_key_case, decide_False; [done|].
  intros ->. apply Ho, list_elem_of_fmap. by exists (o, n).
Qed.

Lemma write_bonds_Some l o :
  o ∈ l.*1 -> exists n, (o, n) ∈ l /\ effect Bond o (write_bond <$> l) = Some (Some (NormalizeKeyName n)).
Proof.
  induction l as [|[o' n'] l IH]; cbn [fmap list_fmap effect fst]; [by intros ?%elem_of_nil|].
  intros Ho. destruct (decide (o ∈ l.*1)) as [Hl|Hl].
  - destruct (IH Hl) as (n & Hn & He). exists n. split; [by right|].
    change (list_fmap _ _ write_bond l) with (write_bond <$> l). rewrite He. by destruct (touch Bond o _).
  - apply elem_of_cons in Ho as [<-|]; [|done]. exists n'. split; [by left|].
    change (list_fmap _ _ write_bond l) with (write_bond <$> l). rewrite write_bonds_None by done.
    unfold write_bond. cbn [touch Bond fst snd]. by rewrite on_key_case, decide_True.
Qed.

(** The remembered entries are those of the store before the batch. *)
Lemma bondIndexUndoMap_lookup l o :
  bondIndexUndoMap db l !! o = if decide (o ∈ l) then Some (bond_undo_entry db o) else None.
Proof.
  unfold bondIndexUndoMap.
  enough (forall m : gmap COutPoint NicknameBondIndexUndoEntry,
    (forall o e, m !! o = Some e -> e = bond_undo_entry db o) ->
    foldl (fun m o => if decide (is_Some (m !! o)) then m else <[o := bond_undo_entry db o]> m) m l !! o =
    if decide (o ∈ l) then Some (bond_undo_entry db o) else m !! o) as Hm.
  { rewrite Hm by (intros ??; by rewrite lookup_empty). by rewrite lookup_empty. }
  induction l as [|x l IH]; intros m Hm; cbn [foldl].
  - by rewrite decide_False by apply not_elem_of_nil.
  - destruct (decide (is_Some (m !! x))) as [[e He]|Hx].
    + rewrite IH by done. destruct (decide (o ∈ l)), (decide (o ∈ x :: l)) as [Hd|]; try done; [set_solver|].
      apply elem_of_cons in Hd as [->|]; [|done]. by rewrite He, (Hm _ _ He).
    + rewrite IH.
      * destruct (decide (o ∈ l)), (decide (o ∈ x :: l)) as [Hd|]; try done; [set_solver|..].
        -- apply elem_of_cons in Hd as [->|]; [|done]. by rewrite lookup_insert_eq.
        -- rewrite lookup_insert_ne by set_solver. done.
      * intros o' e. destruct (decide (x = o')) as [<-|].
        -- rewrite lookup_insert_eq. by intros [= <-].
        -- rewrite lookup_insert_ne by done. apply Hm.
Qed.

Lemma elem_of_outpoint_entries {V} (m : gmap COutPoint V) o v :
  (o, v) ∈ outpoint_entries m <-> m !! o = Some v.
Proof. unfold outpoint_entries. rewrite (merge_sort_Permutation _ (map_to_list m)). apply elem_of_map_to_list. Qed.

Definition remembered (l : list COutPoint) : list NicknameBondIndexUndoEntry :=
  (outpoint_entries (bondIndexUndoMap db l)).*2.

Lemma remembered_elem l e : e ∈ remembered l <-> exists o, o ∈ l /\ e = bond_undo_entry db o.
Proof.
  unfold remembered. rewrite list_elem_of_fmap. split.
  - intros [[o e'] [-> Hin]]. cbn. apply elem_of_outpoint_entries in Hin. rewrite bondIndexUndoMap_lookup in Hin.
    destruct (decide _); [|done]. exists o. naive_solver.
  - intros (o & Ho & ->). exists (o, bond_undo_entry db o). split; [done|].
    apply elem_of_outpoint_entries. by rewrite bondIndexUndoMap_lookup, decide_True.
Qed.

Lemma restore_bond_effect o o' :
  effect Bond o (restore_bond_ops (bond_undo_entry db o')) = if decide (o' = o) then Some (t_bond db !! o) else None.
Proof.
  unfold restore_bond_ops, bond_undo_entry, ReadNicknameByBondOutpoint.
  destruct (t_bond db !! o') as [n|] eqn:E; cbn [bu_existedBefore bu_outpoint bu_previousNickname effect touch Bond];
    rewrite on_key_case; destruct (decide _) as [<-|]; rewrite ?E; done.
Qed.

Lemma restore_bonds_effect l o :
  effect Bond o (remembered l ≫= restore_bond_ops) = if decide (o ∈ l) then Some (t_bond db !! o) else None.
Proof.
  destruct (decide (o ∈ l)) as [Ho|Ho].
  - apply (effect_bind Bond).
    + intros e (o' & _ & ->)%remembered_elem. rewrite restore_bond_effect. destruct (decide _); auto.
    + exists (bond_undo_entry db o). rewrite remembered_elem, restore_bond_effect, decide_True by done. eauto.
  - apply (effect_bind_None Bond). intros e (o' & Ho' & ->)%remembered_elem.
    rewrite restore_bond_effect, decide_False; [done|]. by intros ->.
Qed.

Lemma restore_bonds_other {K V} (T : Table K V) k l :
  (forall op, record_op op -> touch T k op = None) ->
  effect T k (remembered l ≫= restore_bond_ops) = None.
Proof.
  intros HT. apply (record_ops_effect T); [done|]. apply Forall_bind, Forall_true.
  intros e. unfold compose, restore_bond_ops. destruct (bu_existedBefore e); repeat constructor.
Qed.

End BondIndex.

(** ** A block's batch *)

Definition bond_op (op : batch_op) : Prop := match op with WriteBond _ _ | EraseBond _ => True | _ => False end.

(** Operations that a table's key does not see. *)
Lemma ops_effect (P : batch_op -> Prop) {K V} (T : Table K V) k ops :
  (forall op, P op -> touch T k op = None) -> Forall P ops -> effect T k ops = None.
Proof. intros HT Hops. apply effect_None. eapply Forall_impl; [exact Hops|]. apply HT. Qed.

Lemma bond_ops_erase l : Forall bond_op (EraseBond <$> l).
Proof. apply Forall_fmap, Forall_true. done. Qed.
Lemma bond_ops_write `{CryptoOps} l : Forall bond_op (write_bond <$> l).
Proof. apply Forall_fmap, Forall_true. done. Qed.
Lemma bond_ops_restore db l : Forall bond_op (remembered db l ≫= restore_bond_ops).
Proof.
  apply Forall_bind, Forall_true. intros e. unfold compose, restore_bond_ops.
  destruct (bu_existedBefore e); repeat constructor.
Qed.
#[export] Hint Resolve bond_ops_erase bond_ops_write bond_ops_restore job_record_ops : kubu.

Section BlockBatch.
Context `{CryptoOps}.
Variable db : NicknameStateDB.
Variables (ups : list NicknameInfo) (ers : list string) (bus : list (COutPoint * string)) (bes : list COutPoint).
Variables (blockHash blockHeight count : Z) (undos : list NicknameUndoEntry).

Notation js := (jobs ups ers).
Notation db' := (WriteNicknameBatch db ups ers bus bes blockHash blockHeight count undos).

Definition pricing_undo : NicknamePricingUndoEntry :=
  let '(had, previous) := ReadNicknamePricingState db in
  mkPricingUndo had (if had then previous else initial_pricing).
Definition next_pricing : NicknamePricingState :=
  ComputeNextPricingState db (ReadNicknamePricingState db).2 blockHeight count.
Definition tail_ops : list batch_op :=
  [WriteBondUndo blockHash (remembered db (bes ++ bus.*1)); WritePricingUndo blockHash pricing_undo;
   WriteRegCount blockHeight count; WritePricing next_pricing].

Lemma batch_ops :
  write_batch_ops db ups ers bus bes blockHash blockHeight count undos =
  (js ≫= job_ops db) ++ [WriteUndo blockHash undos] ++ (EraseBond <$> bes) ++ (write_bond <$> bus) ++ tail_ops.
Proof.
  unfold write_batch_ops. rewrite <- batch_jobs, <- !app_assoc. do 5 f_equal.
  apply list_fmap_ext. by intros ? [o n] ?.
Qed.

Ltac rows_tac T :=
  unfold WriteNicknameBatch; rewrite batch_ops, (rows_WriteBatch T), !(effect_app T).

Lemma batch_rows_nick k : rows Nick db' k = default (rows Nick db k) (effect Nick k (js ≫= job_ops db)).
Proof.
  rows_tac Nick. rewrite (ops_effect bond_op Nick k (EraseBond <$> bes)), (ops_effect bond_op Nick k (write_bond <$> bus))
    by solve [auto with kubu | by intros []].
  cbn [tail_ops effect touch Nick]. by destruct (effect Nick k (js ≫= job_ops db)).
Qed.

Lemma batch_rows_owner k : rows Owner db' k = default (rows Owner db k) (effect Owner k (js ≫= job_ops db)).
Proof.
  rows_tac Owner. rewrite (ops_effect bond_op Owner k (EraseBond <$> bes)), (ops_effect bond_op Owner k (write_bond <$> bus))
    by solve [auto with kubu | by intros []].
  cbn [tail_ops effect touch Owner]. by destruct (effect Owner k (js ≫= job_ops db)).
Qed.

Lemma batch_rows_bond o : rows Bond db' o =
  default (rows Bond db o) (effect Bond o (write_bond <$> bus) ∪
    (effect Bond o (EraseBond <$> bes) ∪ effect Bond o (js ≫= job_ops db))).
Proof.
  rows_tac Bond. cbn [tail_ops effect touch Bond].
  by destruct (effect Bond o (write_bond <$> bus)), (effect Bond o (EraseBond <$> bes)), (effect Bond o (js ≫= job_ops db)).
Qed.

(** The other tables only see the block's own entries. *)
Lemma batch_rows_other {K V} (T : Table K V) `{!TableOk T} k :
  (forall op, record_op op -> touch T k op = None) ->
  rows T db' k = default (rows T db k) (effect T k (WriteUndo blockHash undos :: tail_ops)).
Proof.
  intros HT. rows_tac T.
  rewrite (ops_effect bond_op T k (EraseBond <$> bes)), (ops_effect bond_op T k (write_bond <$> bus)),
    (ops_effect record_op T k (js ≫= job_ops db)); auto with kubu.
  2,3: intros [] Hop; by try apply HT.
  cbn [effect tail_ops]. f_equal. repeat (destruct (touch T k _); try done).
Qed.

Lemma after_job (Hjs : jobs_ok db js) name new : (name, new) ∈ js -> t_nickname db' !! name = new.
Proof. intros Hin. change (rows Nick db' name = new). by rewrite batch_rows_nick, (jobs_nick db js Hjs _ new). Qed.

Lemma after_other name : name ∉ js.*1 -> t_nickname db' !! name = t_nickname db !! name.
Proof. intros Hin. change (rows Nick db' name = rows Nick db name). by rewrite batch_rows_nick, jobs_nick_none. Qed.

(** The bond-index changes of a batch fit the records after it: an erased
    entry is no record's bond, a written one names a record, and the record
    whose bond it is, if it is one.  An erased name has no entry but its bond. *)
Record bonds_ok : Prop := {
  erased_bonds o name : o ∈ bes -> bond_of (t_nickname db' !! name) <> Some o;
  written_names o n : (o, n) ∈ bus -> is_Some (t_nickname db' !! NormalizeKeyName n);
  written_bonds o n name : (o, n) ∈ bus -> bond_of (t_nickname db' !! name) = Some o -> name = NormalizeKeyName n;
  erased_names name o : (name, None) ∈ js -> t_bond db !! o = Some name -> bond_of (t_nickname db !! name) = Some o;
}.

Section Preserved.
Hypothesis Hinv : db_inv db.
Hypothesis Hjs : jobs_ok db js.
Hypothesis Hok : bonds_ok.

Lemma after_owner h name b : t_owner db' !! (h, name) = Some b <->
  b = true /\ exists info, t_nickname db' !! name = Some info /\ TryGetOwnerKeyID info = Some h.
Proof.
  change (t_owner db' !! (h, name)) with (rows Owner db' (h, name)). rewrite batch_rows_owner.
  destruct (decide (name ∈ js.*1)) as [[new Hin]%jobs_elem|Hno].
  - rewrite (jobs_owner db js Hjs h name new) by done. rewrite (after_job Hjs _ new) by done.
    assert (forall i : option NicknameInfo,
      owner_of i = Some h <-> exists info, i = Some info /\ TryGetOwnerKeyID info = Some h) as Ho.
    { intros [i|]; cbn; naive_solver. }
    destruct (decide _) as [Hd|Hd]; [rewrite Ho in Hd; cbn; naive_solver|].
    destruct (decide _) as [Hd'|Hd']; cbn; rewrite Ho in *; [naive_solver|].
    rewrite (inv_owner _ Hinv). naive_solver.
  - rewrite jobs_owner_none, after_other by done. apply (inv_owner _ Hinv).
Qed.

Lemma after_bond name o : bond_of (t_nickname db' !! name) = Some o -> t_bond db' !! o = Some name.
Proof.
  intros Hb. change (rows Bond db' o = Some name). rewrite batch_rows_bond.
  destruct (decide (o ∈ bus.*1)) as [Hu|Hu].
  { destruct (write_bonds_Some _ _ Hu) as (n & Hn & ->). rewrite (written_bonds Hok _ _ _ Hn Hb).
    by destruct (effect Bond o (EraseBond <$> bes)), (effect Bond o (js ≫= job_ops db)). }
  rewrite write_bonds_None, erase_bonds_effect by done.
  rewrite decide_False by (intros He; by apply (erased_bonds Hok _ name He)).
  destruct (decide (name ∈ js.*1)) as [[new Hin]%jobs_elem|Hno].
  - rewrite (after_job Hjs _ new) in Hb by done. by rewrite (jobs_bond_new db js Hinv Hjs name new).
  - rewrite after_other in Hb by done. pose proof (bond_of_index _ Hinv _ _ Hb) as Hi.
    rewrite jobs_bond_none; [done|]. intros n i Hin.
    assert (n <> name) by (intros ->; apply Hno, list_elem_of_fmap; by exists (name, i)).
    split; intros Hx.
    + destruct (jobs_fresh _ _ Hjs _ _ _ Hin Hx) as [Hf|Hf]; [congruence|].
      by apply (bond_of_inj db Hinv n name o) in Hf.
    + by apply (bond_of_inj db Hinv n name o) in Hx.
Qed.

Lemma after_bond_name o name : t_bond db' !! o = Some name -> is_Some (t_nickname db' !! name).
Proof.
  change (t_bond db' !! o) with (rows Bond db' o). rewrite batch_rows_bond.
  destruct (decide (o ∈ bus.*1)) as [Hu|Hu].
  { destruct (write_bonds_Some _ _ Hu) as (n & Hn & ->). intros Hb. enough (name = NormalizeKeyName n) as ->.
    - by apply (written_names Hok o).
    - by destruct (effect Bond o (EraseBond <$> bes)), (effect Bond o (js ≫= job_ops db)); simplify_eq/=. }
  rewrite write_bonds_None, erase_bonds_effect by done.
  destruct (decide (o ∈ bes)) as [|Hbes]; [by destruct (effect Bond o (js ≫= job_ops db))|].
  destruct (jobs_bond_cases db js Hinv Hjs o)
    as [(n & new & Hin & Hb & ->)|[_ [(n & new & Hin & Hb & ->)|[Hold ->]]]]; cbn; [|done|].
  - intros [= <-]. rewrite (after_job Hjs _ new) by done. by destruct new.
  - intros Hb. destruct (decide (name ∈ js.*1)) as [[new Hin]%jobs_elem|Hno].
    + rewrite (after_job Hjs _ new) by done. destruct new; [done|].
      by destruct (Hold _ _ Hin), (erased_names Hok _ _ Hin Hb).
    + rewrite after_other by done. by apply (inv_bond_name _ Hinv o).
Qed.

Lemma batch_inv : db_inv db'.
Proof.
  assert (Hcase : forall name info, t_nickname db' !! name = Some info ->
    (name, Some info) ∈ js \/ t_nickname db !! name = Some info).
  { intros name info Hl. destruct (decide (name ∈ js.*1)) as [[new Hin]%jobs_elem|Hno].
    - rewrite (after_job Hjs _ new) in Hl by done. subst. by left.
    - rewrite after_other in Hl by done. by right. }
  split.
  - intros name info [Hin|Hl]%Hcase; [by apply jobs_named in Hin|by apply (inv_name _ Hinv)].
  - intros name info [Hin|Hl]%Hcase; [by eapply (jobs_normal _ _ Hjs)|by eapply (inv_normal _ Hinv)].
  - apply after_owner.
  - intros name info Hl Hb. apply after_bond. rewrite Hl. cbn. by rewrite Hb.
  - apply after_bond_name.
Qed.

End Preserved.

End BlockBatch.

(** ** Undoing a block's batch *)

Lemma db_ext db1 db2 :
  (forall k, rows Nick db1 k = rows Nick db2 k) -> (forall k, rows Undo db1 k = rows Undo db2 k) ->
  (forall k, rows Bond db1 k = rows Bond db2 k) -> (forall k, rows Owner db1 k = rows Owner db2 k) ->
  rows Ready db1 () = rows Ready db2 () -> rows Pricing_ db1 () = rows Pricing_ db2 () ->
  (forall k, rows PricingUndo db1 k = rows PricingUndo db2 k) ->
  (forall k, rows BondUndo db1 k = rows BondUndo db2 k) ->
  (forall k, rows RegCount db1 k = rows RegCount db2 k) -> db1 = db2.
Proof.
  destruct db1, db2; cbn; intros. f_equal; try done; by apply map_eq.
Qed.

Section Undoing.
Context `{CryptoOps}.

(** The record an undo entry restores. *)
Definition restored (u : NicknameUndoEntry) : option NicknameInfo :=
  if u_existedBefore u then Some (set_nickname (u_previousInfo u) (NormalizeKeyName (u_nickname u))) else None.

(** The undo entries of a batch hold the stored record of every name it touches. *)
Record undo_ok (db : NicknameStateDB) (js : list (string * option NicknameInfo)) (undos : list NicknameUndoEntry) : Prop := {
  undo_restores u : u ∈ undos -> restored u = t_nickname db !! NormalizeKeyName (u_nickname u);
  undo_covers name : name ∈ js.*1 -> exists u, u ∈ undos /\ NormalizeKeyName (u_nickname u) = name;
}.

(** The block is not yet in the store, and the stored pricing state is in range. *)
Record block_fresh (db : NicknameStateDB) (blockHash blockHeight : Z) : Prop := {
  fresh_undo : t_undo db !! blockHash = None;
  fresh_bond_undo : t_bond_undo db !! blockHash = None;
  fresh_pricing_undo : t_pricing_undo db !! blockHash = None;
  fresh_reg_count : t_reg_count db !! blockHeight = None;
  pricing_clean s : t_pricing db = Some s -> (ReadNicknamePricingState db).2 = s;
}.

Variable db : NicknameStateDB.
Variables (ups : list NicknameInfo) (ers : list string) (bus : list (COutPoint * string)) (bes : list COutPoint).
Variables (blockHash blockHeight count : Z) (undos : list NicknameUndoEntry).
Notation js := (jobs ups ers).
Notation db' := (WriteNicknameBatch db ups ers bus bes blockHash blockHeight count undos).

Hypothesis Hinv : db_inv db.
Hypothesis Hjs : jobs_ok db js.
Hypothesis Hundo : undo_ok db js undos.
Hypothesis Hfresh : block_fresh db blockHash blockHeight.

Definition undo_tail : list batch_op :=
  [EraseUndo blockHash; EraseRegCount blockHeight] ++
  ((remembered db (bes ++ bus.*1) ≫= restore_bond_ops) ++ [EraseBondUndo blockHash]) ++
  [if pu_existedBefore (pricing_undo db) then WritePricing (pu_previousState (pricing_undo db)) else ErasePricing;
   ErasePricingUndo blockHash].

(** The same without the bond index. *)
Definition undo_meta : list batch_op :=
  [EraseUndo blockHash; EraseRegCount blockHeight; EraseBondUndo blockHash;
   if pu_existedBefore (pricing_undo db) then WritePricing (pu_previousState (pricing_undo db)) else ErasePricing;
   ErasePricingUndo blockHash].

Definition erase_part : list batch_op :=
  undos ≫= fun u => EraseStoredIndexEntries db' (NormalizeKeyName (u_nickname u)).
Definition restore_part : list batch_op :=
  reverse undos ≫= fun u => write_part (NormalizeKeyName (u_nickname u), restored u).

Lemma undo_ops_eq : undo_ops db' blockHash blockHeight undos = erase_part ++ restore_part ++ undo_tail.
Proof.
  unfold undo_ops. f_equal. f_equal.
  - unfold restore_part. apply list_bind_ext; [|done]. intros u. unfold restore_ops, restored, write_part.
    by destruct (u_existedBefore u).
  - unfold undo_tail. f_equal. unfold ReadNicknameBondIndexUndo. f_equal.
    + change (t_bond_undo db' !! blockHash) with (rows BondUndo db' blockHash).
      rewrite (batch_rows_other _ _ _ _ _ _ _ _ _ BondUndo) by by intros [].
      cbn [effect tail_ops touch BondUndo]. by rewrite on_key_case, decide_True.
    + change (t_pricing_undo db' !! blockHash) with (rows PricingUndo db' blockHash).
      rewrite (batch_rows_other _ _ _ _ _ _ _ _ _ PricingUndo) by by intros [].
      cbn [effect tail_ops touch PricingUndo]. by rewrite on_key_case, decide_True.
Qed.

Lemma undo_tail_other {K V} (T : Table K V) k :
  (forall op, bond_op op -> touch T k op = None) -> effect T k undo_tail = effect T k undo_meta.
Proof.
  intros HT. unfold undo_tail, undo_meta.
  rewrite !(effect_app T), (ops_effect bond_op T k (remembered _ _ ≫= _)) by auto with kubu.
  cbn [effect]. repeat (destruct (touch T k _); try done).
Qed.

Lemma erase_part_ops : Forall record_op erase_part.
Proof. apply Forall_bind, Forall_true. intros u. apply erase_stored_record_ops. Qed.
Lemma restore_part_ops : Forall record_op restore_part.
Proof. apply Forall_bind, Forall_true. intros u. apply write_part_record_ops. Qed.

Lemma restored_elem u : u ∈ undos -> restored u = t_nickname db !! NormalizeKeyName (u_nickname u).
Proof. apply Hundo. Qed.

Lemma undone_nick k : rows Nick (ApplyNicknameUndo db' blockHash blockHeight undos) k = rows Nick db k.
Proof.
  unfold ApplyNicknameUndo. rewrite undo_ops_eq, (rows_WriteBatch Nick), !(effect_app Nick).
  rewrite undo_tail_other by by intros [].
  replace (effect Nick k undo_meta) with (@None (option NicknameInfo)) by by unfold undo_meta; destruct (pu_existedBefore _).
  replace (effect Nick k erase_part) with (@None (option NicknameInfo)).
  2: { symmetry. apply (effect_bind_None Nick). intros. apply erase_stored_nick. }
  assert (Hall : forall u, u ∈ reverse undos ->
    effect Nick k (write_part (NormalizeKeyName (u_nickname u), restored u)) = None \/
    effect Nick k (write_part (NormalizeKeyName (u_nickname u), restored u)) = Some (t_nickname db !! k)).
  { intros u Hu. rewrite elem_of_reverse in Hu. rewrite write_part_nick. cbn [fst snd].
    destruct (decide _) as [<-|]; [right|by left]. by rewrite restored_elem. }
  unfold restore_part. destruct (decide (k ∈ js.*1)) as [Hk|Hk].
  - destruct (undo_covers _ _ _ Hundo _ Hk) as (u & Hu & Hn).
    rewrite (effect_bind Nick _ k (reverse undos) _ Hall); [done|].
    exists u. split; [by rewrite elem_of_reverse|]. rewrite write_part_nick. cbn [fst snd].
    rewrite decide_True, restored_elem by done. by rewrite Hn.
  - destruct (effect_bind_cases Nick _ k (reverse undos) _ Hall) as [He|He]; rewrite He; [|done].
    cbn [union option_union union_with option_union_with default]. by rewrite batch_rows_nick, jobs_nick_none.
Qed.

Lemma restore_part_bond o :
  (exists u, u ∈ undos /\ bond_of (t_nickname db !! NormalizeKeyName (u_nickname u)) = Some o /\
     effect Bond o restore_part = Some (t_bond db !! o)) \/
  ((forall u, u ∈ undos -> bond_of (t_nickname db !! NormalizeKeyName (u_nickname u)) <> Some o) /\
   effect Bond o restore_part = None).
Proof.
  assert (Hw : forall u, u ∈ undos -> effect Bond o (write_part (NormalizeKeyName (u_nickname u), restored u)) =
    if decide (bond_of (t_nickname db !! NormalizeKeyName (u_nickname u)) = Some o) then Some (t_bond db !! o) else None).
  { intros u Hu. rewrite write_part_bond. cbn [fst snd]. rewrite restored_elem by done.
    destruct (decide _) as [Hb|]; [|done]. by rewrite (bond_of_index _ Hinv _ _ Hb). }
  unfold restore_part.
  destruct (decide (Exists (fun u => bond_of (t_nickname db !! NormalizeKeyName (u_nickname u)) = Some o) undos))
    as [[u [Hu Hb]]%Exists_exists|Hno].
  - left. exists u. split_and!; [done..|]. apply (effect_bind Bond).
    + intros u' Hu'. rewrite elem_of_reverse in Hu'. rewrite Hw by done. destruct (decide _); auto.
    + exists u. split; [by rewrite elem_of_reverse|]. by rewrite Hw, decide_True.
  - right. rewrite <- Forall_Exists_neg, Forall_forall in Hno. split; [done|].
    apply (effect_bind_None Bond). intros u Hu. rewrite elem_of_reverse in Hu. rewrite Hw, decide_False by auto. done.
Qed.

Lemma erase_part_bond o :
  (exists u, u ∈ undos /\ bond_of (t_nickname db' !! NormalizeKeyName (u_nickname u)) = Some o /\
     effect Bond o erase_part = Some None) \/
  ((forall u, u ∈ undos -> bond_of (t_nickname db' !! NormalizeKeyName (u_nickname u)) <> Some o) /\
   effect Bond o erase_part = None).
Proof.
  destruct (decide (Exists (fun u => bond_of (t_nickname db' !! NormalizeKeyName (u_nickname u)) = Some o) undos))
    as [[u [Hu Hb]]%Exists_exists|Hno].
  - left. exists u. split_and!; [done..|]. apply (effect_bind Bond).
    + intros u' Hu'. rewrite erase_stored_bond. destruct (decide _); auto.
    + exists u. split; [done|]. by rewrite erase_stored_bond, decide_True.
  - right. rewrite <- Forall_Exists_neg, Forall_forall in Hno. split; [done|].
    apply (effect_bind_None Bond). intros u Hu. rewrite erase_stored_bond, decide_False by auto. done.
Qed.

Lemma undo_tail_bond o :
  effect Bond o undo_tail = if decide (o ∈ bes ++ bus.*1) then Some (t_bond db !! o) else None.
Proof.
  unfold undo_tail. rewrite !(effect_app Bond), restore_bonds_effect.
  destruct (pu_existedBefore _), (decide _); done.
Qed.

(** Outside the remembered entries: the old bonds come back, the new ones were
    unknown, the others were not touched. *)
Lemma undone_bond o : rows Bond (ApplyNicknameUndo db' blockHash blockHeight undos) o = rows Bond db o.
Proof.
  unfold ApplyNicknameUndo. rewrite undo_ops_eq, (rows_WriteBatch Bond), !(effect_app Bond), undo_tail_bond.
  destruct (decide (o ∈ bes ++ bus.*1)) as [|[Hbes Hbus]%not_elem_of_app].
  { by destruct (effect Bond o restore_part), (effect Bond o erase_part). }
  destruct (restore_part_bond o) as [(u & Hu & Hb & ->)|[Hold ->]]; [by destruct (effect Bond o erase_part)|].
  assert (Hnold : forall n i, (n, i) ∈ js -> bond_of (t_nickname db !! n) <> Some o).
  { intros n i Hin. destruct (undo_covers _ _ _ Hundo n) as (u & Hu & <-); [|by apply Hold].
    apply list_elem_of_fmap. by exists (n, i). }
  assert (Hnew : forall n i, (n, i) ∈ js -> bond_of i = Some o -> t_bond db !! o = None).
  { intros n i Hin Hb. destruct (jobs_fresh _ _ Hjs _ _ _ Hin Hb) as [|Hf]; [done|]. by destruct (Hnold _ _ Hin). }
  destruct (erase_part_bond o) as [(u & Hu & Hb & ->)|[Hcur ->]].
  - cbn. destruct (decide (NormalizeKeyName (u_nickname u) ∈ js.*1)) as [[new Hin]%jobs_elem|Hno].
    + rewrite (after_job _ _ _ _ _ _ _ _ _ Hjs _ new) in Hb by done. by rewrite (Hnew _ _ Hin).
    + rewrite after_other in Hb by done. by destruct (Hold _ Hu).
  - cbn [union option_union union_with option_union_with default].
    rewrite batch_rows_bond, write_bonds_None, erase_bonds_effect, decide_False by done.
    rewrite jobs_bond_none; [done|]. intros n i Hin. split; [|by eapply Hnold]. intros Hb.
    destruct (undo_covers _ _ _ Hundo n) as (u & Hu & Hn); [apply list_elem_of_fmap; by exists (n, i)|].
    apply (Hcur u Hu). by rewrite Hn, (after_job _ _ _ _ _ _ _ _ _ Hjs _ i).
Qed.

Lemma owner_index h name : rows Owner db (h, name) =
  if decide (owner_of (t_nickname db !! name) = Some h) then Some true else None.
Proof.
  cbn [rows Owner]. destruct (t_owner db !! (h, name)) as [b|] eqn:E.
  - apply (inv_owner _ Hinv) in E as (-> & info & Hl & Ho). rewrite decide_True; [done|]. by rewrite Hl.
  - rewrite decide_False; [done|]. intros Ho.
    destruct (t_nickname db !! name) as [info|] eqn:Hl; [|done].
    assert (t_owner db !! (h, name) = Some true) by (apply (inv_owner _ Hinv); eauto). congruence.
Qed.

Definition undo_names : list string := (fun u => NormalizeKeyName (u_nickname u)) <$> undos.

Lemma restore_part_owner h name : effect Owner (h, name) restore_part =
  if decide (name ∈ undo_names /\ owner_of (t_nickname db !! name) = Some h) then Some (Some true) else None.
Proof.
  assert (Hw : forall u, u ∈ undos ->
    effect Owner (h, name) (write_part (NormalizeKeyName (u_nickname u), restored u)) =
    if decide (name = NormalizeKeyName (u_nickname u) /\ owner_of (t_nickname db !! name) = Some h)
    then Some (Some true) else None).
  { intros u Hu. rewrite write_part_owner. cbn [fst snd]. rewrite restored_elem by done.
    repeat destruct (decide _); naive_solver. }
  unfold undo_names. destruct (decide _) as [[[u [Hn Hu]]%list_elem_of_fmap Ho]|Hno].
  - apply (effect_bind Owner).
    + intros u' Hu'. rewrite elem_of_reverse in Hu'. rewrite Hw by done. destruct (decide _); auto.
    + exists u. split; [by rewrite elem_of_reverse|]. by rewrite Hw, decide_True.
  - apply (effect_bind_None Owner). intros u Hu. rewrite elem_of_reverse in Hu. rewrite Hw, decide_False; [done| |done].
    intros [-> Ho]. apply Hno. split; [|done]. apply list_elem_of_fmap. by exists u.
Qed.

Lemma erase_part_owner h name : effect Owner (h, name) erase_part =
  if decide (name ∈ undo_names /\ owner_of (t_nickname db' !! name) = Some h) then Some None else None.
Proof.
  unfold undo_names. destruct (decide _) as [[[u [Hn Hu]]%list_elem_of_fmap Ho]|Hno].
  - apply (effect_bind Owner).
    + intros u' _. rewrite erase_stored_owner. destruct (decide _); auto.
    + exists u. split; [done|]. rewrite erase_stored_owner, decide_True; [done|]. by rewrite <- Hn.
  - apply (effect_bind_None Owner). intros u Hu. rewrite erase_stored_owner, decide_False; [done|].
    intros [-> Ho]. apply Hno. split; [|done]. apply list_elem_of_fmap. by exists u.
Qed.

Lemma undone_owner k : rows Owner (ApplyNicknameUndo db' blockHash blockHeight undos) k = rows Owner db k.
Proof.
  destruct k as [h name]. unfold ApplyNicknameUndo.
  rewrite undo_ops_eq, (rows_WriteBatch Owner), !(effect_app Owner), undo_tail_other by by intros [].
  replace (effect Owner (h, name) undo_meta) with (@None (option bool)) by by unfold undo_meta; destruct (pu_existedBefore _).
  rewrite restore_part_owner, erase_part_owner, batch_rows_owner, owner_index.
  destruct (decide (name ∈ js.*1)) as [Hin|Hno].
  - assert (Hcov : name ∈ undo_names).
    { destruct (undo_covers _ _ _ Hundo name Hin) as (u & Hu & Hn). apply list_elem_of_fmap. by exists u. }
    apply jobs_elem in Hin as [new Hin].
    rewrite (after_job _ _ _ _ _ _ _ _ _ Hjs _ new), (jobs_owner db js Hjs h name new) by done.
    repeat destruct (decide _); naive_solver.
  - rewrite after_other, jobs_owner_none by done. repeat destruct (decide _); naive_solver.
Qed.

Lemma undone_other {K V} (T : Table K V) `{!TableOk T} k :
  (forall op, record_op op -> touch T k op = None) ->
  rows T (ApplyNicknameUndo db' blockHash blockHeight undos) k =
  default (default (rows T db k) (effect T k (WriteUndo blockHash undos :: tail_ops db bus bes blockHash blockHeight count)))
    (effect T k undo_meta).
Proof.
  intros HT. unfold ApplyNicknameUndo.
  rewrite undo_ops_eq, (rows_WriteBatch T), !(effect_app T), undo_tail_other by (intros [] ?; by try apply HT).
  rewrite (ops_effect record_op T k _ HT restore_part_ops), (ops_effect record_op T k _ HT erase_part_ops).
  rewrite batch_rows_other by done. by destruct (effect T k undo_meta).
Qed.

(** Applying the undo records of a batch gives back the store before it. *)
Lemma undo_batch : ApplyNicknameUndo db' blockHash blockHeight undos = db.
Proof.
  apply db_ext; [apply undone_nick|intros k|apply undone_bond|apply undone_owner| | |intros k..];
    rewrite undone_other by solve [apply _ | by intros []].
  all: unfold undo_meta; cbn [effect tail_ops touch Undo Ready Pricing_ PricingUndo BondUndo RegCount];
    destruct (pu_existedBefore (pricing_undo db)) eqn:Hp; cbn [touch Undo Ready Pricing_ PricingUndo BondUndo RegCount];
    rewrite ?on_key_case; try destruct (decide _) as [<-|]; cbn; try done.
  all: try (symmetry; apply Hfresh).
  all: unfold pricing_undo in *; pose proof (pricing_clean _ _ _ Hfresh) as Hc; unfold ReadNicknamePricingState in *;
    destruct (t_pricing db) as [s|]; cbn in *; try done.
  by rewrite (Hc s eq_refl).
Qed.

End Undoing.
