(* ===== verification/NicknameState.v ===== *)
(** * Nickname rules in block and mempool validation
      ([src/src/validation.cpp], lines 1806-2762, and its calls in
      [ConnectBlock] and [DisconnectBlock])

    [BuildNicknameBlockUpdates] walks the transactions of a block over working
    copies of the nickname records; its three local maps and the lists it
    fills are the state [Work], its lambdas are functions on that state, and
    one case of its [switch] is one function that returns the changes the case
    makes.  The command-line overrides of the two periods are [mapArgs]. *)

From S2P Require Import Prelude Nicknames Serialize Script Base58 Money NicknameOp Transaction Coins NicknameDB.
Open Scope Z_scope.
Open Scope kubu_scope.

Definition KUBU_NICKNAME_MAGIC_PREFIX : bytes := [x4b; x4e; x41; x31].

Section Rules.
Context `{AddressOps} `{CryptoOps}.
Variable mapArgs : gmap string string.

(** ** Finding the operation of a transaction *)

(** [hasNicknameOp] with the operation is [Some]. *)
Definition ParseNicknameOpScript (script : bytes) : result (option NicknameOperation) :=
  match GetOp2 script with
  | None => Ok None
  | Some (opcode, _, pc) =>
      if negb (opcode =? OP_RETURN) then Ok None
      else
        match GetOp2 pc with
        | Some (_, pushed, []) =>
            if (length pushed <? 4)%nat || negb (bool_decide (take 4 pushed = KUBU_NICKNAME_MAGIC_PREFIX))
            then Ok None
            else match ExtractNicknameOperation script with
                 | Ok operation => Ok (Some operation)
                 | Err reason =>
                     Err (if bool_decide (reason = EmptyString)
                          then "failed to decode nickname operation payload" else reason)
                 end
        | _ => Ok None
        end
  end.

Fixpoint extract_from_outputs (outputs : list CTxOut) (found : option NicknameOperation)
    : result (option NicknameOperation) :=
  match outputs with
  | [] => Ok found
  | output :: outputs' =>
      candidate ← ParseNicknameOpScript (scriptPubKey output);
      match candidate with
      | None => extract_from_outputs outputs' found
      | Some operation =>
          match found with
          | Some _ => Err "transaction contains multiple nickname operations"
          | None => extract_from_outputs outputs' (Some operation)
          end
      end
  end.

Definition ExtractNicknameOperationFromTx (tx : CTransaction) : result (option NicknameOperation) :=
  extract_from_outputs (vout tx) None.

(** ** Conditions *)

Definition IsMutableNicknameStatus (status : Nicknames.Status) : bool :=
  match status with Nicknames.ACTIVE | Nicknames.EXPIRED_GRACE => true | _ => false end.

(** The four scripts the owner's key controls. *)
Definition owner_scripts (ownerPubKey : bytes) : list bytes :=
  let ownerP2PKH := GetScriptForDestination (CKeyID (GetID ownerPubKey)) in
  let ownerP2WPKH := GetScriptForWitness ownerP2PKH in
  [GetScriptForRawPubKey ownerPubKey; ownerP2PKH; ownerP2WPKH;
   GetScriptForDestination (CScriptID_of ownerP2WPKH)].

Definition is_owner_script (ownerPubKey script : bytes) : bool :=
  bool_decide (script ∈ owner_scripts ownerPubKey).

(** The checks on the key that both authorization functions begin with. *)
Definition check_owner_key (ownerPubKeyBytes : bytes) : result bytes :=
  reject negb (len ownerPubKeyBytes =? COMPRESSED_SIZE) with "owner pubkey must be compressed";
  let ownerPubKey := CPubKey ownerPubKeyBytes in
  reject negb (IsFullyValid ownerPubKey) || negb (IsCompressed ownerPubKey) with "owner pubkey is invalid";
  Ok ownerPubKey.

Definition not_owner : string := "transaction does not spend an output controlled by nickname owner".

Definition TxHasOwnerAuthorizationInput (tx : CTransaction) (txundo : option CTxUndo)
    (ownerPubKeyBytes : bytes) : result unit :=
  match txundo with
  | None => Err "missing undo context for owner authorization"
  | Some txundo =>
      ownerPubKey ← check_owner_key ownerPubKeyBytes;
      reject negb (length (vprevout txundo) =? length (vin tx))%nat
        with "owner authorization context mismatch";
      if existsb (fun undo => is_owner_script ownerPubKey (scriptPubKey (txout undo))) (vprevout txundo)
      then Ok tt else Err not_owner
  end.

Definition TxHasOwnerAuthorizationInputFromView (tx : CTransaction) (view : utxos)
    (ownerPubKeyBytes : bytes) : result unit :=
  ownerPubKey ← check_owner_key ownerPubKeyBytes;
  if existsb (fun txin => match available view (prevout txin) with
                          | Some out => is_owner_script ownerPubKey (scriptPubKey out)
                          | None => false
                          end) (vin tx)
  then Ok tt else Err not_owner.

Definition name_size (operation : NicknameOperation) : Z := Z.of_nat (String.length (op_nickname operation)).

(** [None] is the [return false]. *)
Definition GetRequiredNicknameFee (operation : NicknameOperation) (multiplier : Z) : option Z :=
  match op_type operation with
  | REGISTER => Some (Nicknames.registrationFee (Nicknames.GetPricing (name_size operation) multiplier))
  | RENEW | UPDATE | TRANSFER | RELEASE | CLAIM_BOND | NONE => Some 0
  | OTHER _ => None
  end.

Fixpoint find_bond (outputs : list CTxOut) (i : Z) (script : bytes) (amount : Z) (found : option Z) : result Z :=
  match outputs with
  | [] => match found with
          | Some foundIndex => Ok foundIndex
          | None => Err "transaction is missing required nickname bond output"
          end
  | output :: outputs' =>
      if negb (nValue output =? amount) || negb (bool_decide (scriptPubKey output = script))
      then find_bond outputs' (i + 1) script amount found
      else match found with
           | Some _ => Err "transaction contains multiple matching nickname bond outputs"
           | None => find_bond outputs' (i + 1) script amount (Some i)
           end
  end.

Definition FindUniqueBondOutput (tx : CTransaction) (expectedScriptPubKey : bytes) (expectedAmount : Z) : result Z :=
  find_bond (vout tx) 0 expectedScriptPubKey expectedAmount None.

(** ** The working state of a block *)

Record NicknameWorkingState := mkWorking {
  loaded : bool;
  existedBefore : bool;
  existsNow : bool;
  dirty : bool;
  before : NicknameInfo;
  current : NicknameInfo;
}.

Definition empty_working : NicknameWorkingState := mkWorking false false false false empty_info empty_info.

Record Work := mkWork {
  states : gmap string NicknameWorkingState;
  nicknameBondOutpoints : gmap string COutPoint;
  bondOutpointOwners : gmap COutPoint string;
  w_bondIndexUpserts : list (COutPoint * string);
  w_bondIndexErases : list COutPoint;
  w_registeredCount : Z;
}.

Definition empty_work : Work := mkWork ∅ ∅ ∅ [] [] 0.

Definition set_state (name : string) (st : NicknameWorkingState) (w : Work) : Work :=
  mkWork (<[name := st]> (states w)) (nicknameBondOutpoints w) (bondOutpointOwners w)
    (w_bondIndexUpserts w) (w_bondIndexErases w) (w_registeredCount w).
Definition set_outpoints (nbo : gmap string COutPoint) (boo : gmap COutPoint string) (w : Work) : Work :=
  mkWork (states w) nbo boo (w_bondIndexUpserts w) (w_bondIndexErases w) (w_registeredCount w).

(** [m.emplace(k, v)] keeps an entry that is there. *)
Definition emplace {K V} `{Countable K} (k : K) (v : V) (m : gmap K V) : gmap K V :=
  match m !! k with Some _ => m | None => <[k := v]> m end.

Definition indexBondOutpoint (name : string) (st : NicknameWorkingState) (w : Work) : Work :=
  let '(nbo, boo) :=
    match nicknameBondOutpoints w !! name with
    | Some prev => (delete name (nicknameBondOutpoints w), delete prev (bondOutpointOwners w))
    | None => (nicknameBondOutpoints w, bondOutpointOwners w)
    end in
  if existsNow st && HasBondOutpoint (current st) then
    let outpoint := GetBondOutpoint (current st) in
    set_outpoints (emplace name outpoint nbo) (emplace outpoint name boo) w
  else set_outpoints nbo boo w.

Definition loadState (db : NicknameStateDB) (name : string) (w : Work) : NicknameWorkingState * Work :=
  let st := default empty_working (states w !! name) in
  if loaded st then (st, w)
  else
    let st :=
      match ReadNickname db name with
      | Some stored => mkWorking true true true (dirty st) stored stored
      | None => mkWorking true false false (dirty st) (before st) (current st)
      end in
    (st, indexBondOutpoint name st (set_state name st w)).

Definition lookupBondNicknameByOutpoint (db : NicknameStateDB) (outpoint : COutPoint) (w : Work)
    : option string * Work :=
  match bondOutpointOwners w !! outpoint with
  | Some name => (Some name, w)
  | None =>
      match ReadNicknameByBondOutpoint db outpoint with
      | None => (None, w)
      | Some indexedNickname => (Some indexedNickname, (loadState db indexedNickname w).2)
      end
  end.

Definition multiple_bonds : string := "transaction spends multiple nickname bond outpoints".

(** The loop over the inputs that collects the bonds the transaction spends. *)
Fixpoint collect_spent (db : NicknameStateDB) (inputs : list CTxIn) (spent : gmap string COutPoint) (w : Work)
    : result (gmap string COutPoint * Work) :=
  match inputs with
  | [] => Ok (spent, w)
  | txin :: inputs' =>
      match lookupBondNicknameByOutpoint db (prevout txin) w with
      | (None, w') => collect_spent db inputs' spent w'
      | (Some name, w') =>
          match spent !! name with
          | Some o => if negb (bool_decide (o = prevout txin)) then Err multiple_bonds
                      else collect_spent db inputs' spent w'
          | None => collect_spent db inputs' (<[name := prevout txin]> spent) w'
          end
      end
  end.

(** ** The cases of the switch *)

(** What a case does: the record after it, whether the bond is indexed again,
    and what it adds to the lists and the counter. *)
Record Change := mkChange {
  ch_info : NicknameInfo;
  ch_dirty : bool;
  ch_reindex : bool;
  ch_upserts : list (COutPoint * string);
  ch_erases : list COutPoint;
  ch_registered : Z;
}.

(** The context of one operation. *)
Record OpContext := mkOpContext {
  c_tx : CTransaction;
  c_op : NicknameOperation;
  c_spent : gmap string COutPoint;
  c_multiplier : Z;
  c_height : Z;
}.

Definition spends_any (c : OpContext) : bool := negb (bool_decide (c_spent c = ∅)).
Definition spends_one_own (c : OpContext) : bool :=
  bool_decide (is_Some (c_spent c !! op_nickname (c_op c))) && (size (c_spent c) =? 1)%nat.
Definition spent_own (c : OpContext) : COutPoint := default null_outpoint (c_spent c !! op_nickname (c_op c)).

Definition update_info (i : NicknameInfo) (payout : string) (txid : Z) : NicknameInfo :=
  mkInfo (nickname i) (ownerPubKey i) payout (registrationHeight i) (activeUntilHeight i)
    (graceUntilHeight i) (bondAmount i) (bondTxid i) (bondVout i) txid (released i) (bondClaimed i).
Definition transfer_info (i : NicknameInfo) (newOwner : bytes) (txid vout : Z) : NicknameInfo :=
  mkInfo (nickname i) newOwner (payoutAddress i) (registrationHeight i) (activeUntilHeight i)
    (graceUntilHeight i) (bondAmount i) txid vout txid (released i) false.
Definition renew_info (i : NicknameInfo) (active grace amount txid vout : Z) : NicknameInfo :=
  mkInfo (nickname i) (ownerPubKey i) (payoutAddress i) (registrationHeight i) active grace
    amount txid vout txid false false.
Definition release_info (i : NicknameInfo) (txid : Z) : NicknameInfo :=
  mkInfo (nickname i) (ownerPubKey i) (payoutAddress i) (registrationHeight i) (activeUntilHeight i)
    (graceUntilHeight i) (bondAmount i) (bondTxid i) (bondVout i) txid true false.
Definition claim_info (i : NicknameInfo) (txid : Z) : NicknameInfo :=
  mkInfo (nickname i) (ownerPubKey i) (payoutAddress i) (registrationHeight i) (activeUntilHeight i)
    (graceUntilHeight i) (bondAmount i) 0 UINT32_MAX txid (released i) true.

(** The authorization check is an argument: the block and the mempool differ in it. *)
Variable auth : CTransaction -> bytes -> result unit.

Definition current_status (cur : option NicknameInfo) (height : Z) : Nicknames.Status :=
  match cur with Some i => info_GetStatus i height | None => Nicknames.EXPIRED_AVAILABLE end.

Definition registrable (status : Nicknames.Status) : bool :=
  match status with
  | Nicknames.EXPIRED_AVAILABLE | Nicknames.RELEASED | Nicknames.BOND_CLAIMABLE => true
  | _ => false
  end.

Definition do_register (c : OpContext) (cur : option NicknameInfo) : result Change :=
  let op := c_op c in
  let status := current_status cur (c_height c) in
  reject spends_any c with "register transaction cannot spend nickname bond outpoint";
  _ ← auth (c_tx c) (op_ownerPubKey op);
  reject bool_decide (is_Some cur) && negb (registrable status)
    with "nickname is not available for registration";
  let upserts :=
    match cur with
    | Some i =>
        if HasBondOutpoint i &&
           match status with Nicknames.RELEASED | Nicknames.BOND_CLAIMABLE => true | _ => false end
        then [(GetBondOutpoint i, op_nickname op)] else []
    | None => []
    end in
  let pricing := Nicknames.GetPricing (name_size op) (c_multiplier c) in
  let ownerPubKey := CPubKey (op_ownerPubKey op) in
  reject negb (IsFullyValid ownerPubKey) || negb (IsCompressed ownerPubKey)
    with "register owner pubkey is invalid";
  bondVout ← FindUniqueBondOutput (c_tx c) (GetScriptForRawPubKey ownerPubKey) (Nicknames.bondAmount pricing);
  let active := i32 (c_height c + Nicknames.ActiveBlocks mapArgs) in
  Ok (mkChange
        (mkInfo (op_nickname op) (op_ownerPubKey op) (op_payoutAddress op) (c_height c) active
           (i32 (active + Nicknames.GraceBlocks mapArgs)) (Nicknames.bondAmount pricing)
           (tx_hash (c_tx c)) bondVout (tx_hash (c_tx c)) false false)
        true true upserts [] 1).

Definition do_update (c : OpContext) (cur : option NicknameInfo) : result Change :=
  reject spends_any c with "update transaction cannot spend nickname bond outpoint";
  match cur with
  | None => Err "nickname does not exist"
  | Some i =>
      reject negb (IsMutableNicknameStatus (info_GetStatus i (c_height c)))
        with "nickname is not mutable in current status";
      _ ← auth (c_tx c) (ownerPubKey i);
      Ok (mkChange (update_info i (op_payoutAddress (c_op c)) (tx_hash (c_tx c))) true false [] [] 0)
  end.

(** The bond checks that transfer and renewal share. *)
Definition check_own_bond (c : OpContext) (i : NicknameInfo) (msg : string) : result unit :=
  reject negb (HasBondOutpoint i) with "nickname does not have an active bond outpoint";
  reject negb (bool_decide (spent_own c = GetBondOutpoint i)) with msg;
  Ok tt.

Definition do_transfer (c : OpContext) (cur : option NicknameInfo) : result Change :=
  reject negb (spends_one_own c) with "transfer transaction must spend current nickname bond outpoint";
  match cur with
  | None => Err "nickname does not exist"
  | Some i =>
      reject negb (IsMutableNicknameStatus (info_GetStatus i (c_height c)))
        with "nickname is not mutable in current status";
      _ ← auth (c_tx c) (ownerPubKey i);
      _ ← check_own_bond c i "transfer transaction must spend the indexed nickname bond outpoint";
      let newOwnerPubKey := CPubKey (op_newOwnerPubKey (c_op c)) in
      reject negb (IsFullyValid newOwnerPubKey) || negb (IsCompressed newOwnerPubKey)
        with "transfer new owner pubkey is invalid";
      newBondVout ← FindUniqueBondOutput (c_tx c) (GetScriptForRawPubKey newOwnerPubKey) (bondAmount i);
      Ok (mkChange (transfer_info i (op_newOwnerPubKey (c_op c)) (tx_hash (c_tx c)) newBondVout)
            true true [] [] 0)
  end.

Definition do_renew (c : OpContext) (cur : option NicknameInfo) : result Change :=
  reject negb (spends_one_own c) with "renew transaction must spend current nickname bond outpoint";
  match cur with
  | None => Err "nickname does not exist"
  | Some i =>
      reject negb (IsMutableNicknameStatus (info_GetStatus i (c_height c)))
        with "nickname is not renewable in current status";
      _ ← auth (c_tx c) (ownerPubKey i);
      _ ← check_own_bond c i "renew transaction must spend the indexed nickname bond outpoint";
      let ownerPubKey := CPubKey (ownerPubKey i) in
      reject negb (IsFullyValid ownerPubKey) || negb (IsCompressed ownerPubKey)
        with "renew owner pubkey is invalid";
      let increase := Nicknames.GetRenewalBondIncrease (name_size (c_op c)) (c_multiplier c) in
      reject (increase <? 0) || (MAX_MONEY - increase <? bondAmount i) with "renew bond amount overflow";
      let renewedBondAmount := bondAmount i + increase in
      renewedBondVout ← FindUniqueBondOutput (c_tx c) (GetScriptForRawPubKey ownerPubKey) renewedBondAmount;
      let active := i32 (Z.max (activeUntilHeight i) (c_height c) + Nicknames.ActiveBlocks mapArgs) in
      Ok (mkChange (renew_info i active (i32 (active + Nicknames.GraceBlocks mapArgs)) renewedBondAmount
                      (tx_hash (c_tx c)) renewedBondVout) true true [] [] 0)
  end.

Definition do_release (c : OpContext) (cur : option NicknameInfo) : result Change :=
  reject spends_any c with "release transaction cannot spend nickname bond outpoint";
  match cur with
  | None => Err "nickname does not exist"
  | Some i =>
      reject negb (IsMutableNicknameStatus (info_GetStatus i (c_height c)))
        with "nickname is not releasable in current status";
      _ ← auth (c_tx c) (ownerPubKey i);
      Ok (mkChange (release_info i (tx_hash (c_tx c))) true false [] [] 0)
  end.

Definition claims_current (c : OpContext) (i : NicknameInfo) : bool :=
  HasBondOutpoint i && bool_decide (spent_own c = GetBondOutpoint i).

Definition do_claim (c : OpContext) (cur : option NicknameInfo) : result Change :=
  reject negb (spends_one_own c) with "claim transaction must spend indexed nickname bond outpoint";
  match cur with
  | None => Err "nickname does not exist"
  | Some i =>
      if claims_current c i then
        reject negb (match info_GetStatus i (c_height c) with Nicknames.BOND_CLAIMABLE => true | _ => false end)
          with "nickname bond is not claimable";
        _ ← auth (c_tx c) (ownerPubKey i);
        Ok (mkChange (claim_info i (tx_hash (c_tx c))) true true [] [] 0)
      else Ok (mkChange i false false [] [spent_own c] 0)
  end.

Definition apply_operation (c : OpContext) (cur : option NicknameInfo) : result Change :=
  match op_type (c_op c) with
  | REGISTER => do_register c cur
  | UPDATE => do_update c cur
  | TRANSFER => do_transfer c cur
  | RENEW => do_renew c cur
  | RELEASE => do_release c cur
  | CLAIM_BOND => do_claim c cur
  | NONE => Err "invalid nickname operation type"
  | OTHER _ => Ok (mkChange (default empty_info cur) false false [] [] 0)
  end.

End Rules.

Section Block.
Context `{AddressOps} `{CryptoOps}.
Variable mapArgs : gmap string string.

(** The record a working state stands for. *)
Definition current_record (st : NicknameWorkingState) : option NicknameInfo :=
  if existsNow st then Some (current st) else None.

(** Writing a change back through the reference [current]. *)
Definition write_back (name : string) (st : NicknameWorkingState) (ch : Change) (w : Work) : Work :=
  let st' := if ch_dirty ch then mkWorking (loaded st) (existedBefore st) true true (before st) (ch_info ch) else st in
  let w' := set_state name st' w in
  let w' := if ch_reindex ch then indexBondOutpoint name st' w' else w' in
  mkWork (states w') (nicknameBondOutpoints w') (bondOutpointOwners w')
    (w_bondIndexUpserts w' ++ ch_upserts ch) (w_bondIndexErases w' ++ ch_erases ch)
    (u32 (w_registeredCount w' + ch_registered ch)).

Definition only_bond_spend : string :=
  "nickname bond outpoint may only be spent by transfer, renew, or claim transaction".

Definition insufficient_fee (operation : NicknameOperation) (required actual : Z) : string :=
  ("insufficient fee for " +:+ NicknameOpTypeToString (op_type operation) +:+ ": required=" +:+
   FormatMoney required +:+ " actual=" +:+ FormatMoney actual)%string.

(** The checks common to the cases, before the switch. *)
Definition check_fee (operation : NicknameOperation) (multiplier fee : Z) : result unit :=
  match GetRequiredNicknameFee operation multiplier with
  | None => Err "unknown nickname operation type"
  | Some requiredFee =>
      if fee <? requiredFee then Err (insufficient_fee operation requiredFee fee) else Ok tt
  end.

Definition check_spent_names (operation : NicknameOperation) (spent : gmap string COutPoint) : result unit :=
  reject (1 <? size spent)%nat
    with "nickname operation transaction cannot spend bond outpoints for multiple nicknames";
  reject negb (bool_decide (spent = ∅)) && negb (bool_decide (is_Some (spent !! op_nickname operation)))
    with "nickname operation transaction spends bond outpoint for a different nickname";
  Ok tt.

(** One round of the loop over the transactions. *)
Definition process_tx (db : NicknameStateDB) (multiplier blockHeight : Z) (tx : CTransaction)
    (txundo : option CTxUndo) (fee : Z) (w : Work) : result Work :=
  parsed ← ExtractNicknameOperationFromTx tx;
  '(spent, w) ← collect_spent db (vin tx) ∅ w;
  match parsed with
  | None => reject negb (bool_decide (spent = ∅)) with only_bond_spend; Ok w
  | Some operation =>
      reject IsCoinBase tx with "coinbase transaction cannot contain nickname operations";
      _ ← check_fee operation multiplier fee;
      let '(st, w) := loadState db (op_nickname operation) w in
      _ ← check_spent_names operation spent;
      ch ← apply_operation mapArgs (fun tx owner => TxHasOwnerAuthorizationInput tx txundo owner)
             (mkOpContext tx operation spent multiplier blockHeight) (current_record st);
      Ok (write_back (op_nickname operation) st ch w)
  end.

(** The transactions with their undo record (none for the first) and fee. *)
Fixpoint process_txs (db : NicknameStateDB) (multiplier blockHeight : Z) (txs : list CTransaction)
    (undos : list (option CTxUndo)) (fees : list Z) (w : Work) : result Work :=
  match txs, undos, fees with
  | tx :: txs', undo :: undos', fee :: fees' =>
      w' ← process_tx db multiplier blockHeight tx undo fee w;
      process_txs db multiplier blockHeight txs' undos' fees' w'
  | _, _, _ => Ok w
  end.

Record NicknameBlockUpdates := mkUpdates {
  upserts : list NicknameInfo;
  erases : list string;
  bondIndexUpserts : list (COutPoint * string);
  bondIndexErases : list COutPoint;
  undoEntries : list NicknameUndoEntry;
  blockHeight : Z;
  registeredCount : Z;
}.

(** The final loop over the working states, in the order of the names. *)
Definition dirty_states (w : Work) : list (string * NicknameWorkingState) :=
  filter (fun e => dirty e.2 = true) (string_entries (states w)).

Definition undo_entry (e : string * NicknameWorkingState) : NicknameUndoEntry :=
  mkUndo e.1 (existedBefore e.2) (if existedBefore e.2 then before e.2 else empty_info).

Definition updates_of (w : Work) (height : Z) : NicknameBlockUpdates :=
  let ds := dirty_states w in
  mkUpdates (current <$> (filter (fun e => existsNow e.2 = true) ds).*2)
    (filter (fun e => existsNow e.2 = false) ds).*1
    (w_bondIndexUpserts w) (w_bondIndexErases w) (undo_entry <$> ds) height (w_registeredCount w).

Definition BuildNicknameBlockUpdates (db : NicknameStateDB) (block : CBlock) (blockUndo : CBlockUndo)
    (txFees : list Z) (height : Z) : result NicknameBlockUpdates :=
  let multiplier := ReadPricingMultiplierPermille db in
  reject (0 <? length (vtx block))%nat && negb (length (vtxundo blockUndo) + 1 =? length (vtx block))%nat
    with "nickname processing undo mismatch";
  reject negb (length txFees =? length (vtx block))%nat with "nickname processing fee context mismatch";
  w ← process_txs db multiplier height (vtx block) (None :: (Some <$> vtxundo blockUndo)) txFees empty_work;
  Ok (updates_of w height).

(** The hooks in [ConnectBlock] and [DisconnectBlock]. *)
Definition connect_nicknames (db : NicknameStateDB) (block : CBlock) (blockUndo : CBlockUndo)
    (txFees : list Z) (height blockHash : Z) : result NicknameStateDB :=
  u ← BuildNicknameBlockUpdates db block blockUndo txFees height;
  Ok (WriteNicknameBatch db (upserts u) (erases u) (bondIndexUpserts u) (bondIndexErases u)
        blockHash (blockHeight u) (registeredCount u) (undoEntries u)).

Definition disconnect_nicknames (db : NicknameStateDB) (height blockHash : Z) : NicknameStateDB :=
  match ReadNicknameUndo db blockHash with
  | Some undo => ApplyNicknameUndo db blockHash height undo
  | None => db
  end.

(** ** The mempool *)

Fixpoint collect_spent_db (db : NicknameStateDB) (inputs : list CTxIn) (spent : gmap string COutPoint)
    : result (gmap string COutPoint) :=
  match inputs with
  | [] => Ok spent
  | txin :: inputs' =>
      match ReadNicknameByBondOutpoint db (prevout txin) with
      | None => collect_spent_db db inputs' spent
      | Some name =>
          match spent !! name with
          | Some o => if negb (bool_decide (o = prevout txin)) then Err multiple_bonds
                      else collect_spent_db db inputs' spent
          | None => collect_spent_db db inputs' (<[name := prevout txin]> spent)
          end
      end
  end.

(** The loop over the pool: a pending operation on the same name that shares
    no input with the transaction. *)
Definition pending_conflict (tx : CTransaction) (operation : NicknameOperation) (mempoolTx : CTransaction) : bool :=
  negb (tx_hash mempoolTx =? tx_hash tx) &&
  match ExtractNicknameOperationFromTx mempoolTx with
  | Ok (Some mempoolOperation) =>
      bool_decide (op_nickname mempoolOperation = op_nickname operation) &&
      negb (existsb (fun i => bool_decide (prevout i ∈ (prevout <$> vin tx))) (vin mempoolTx))
  | _ => false
  end.

(** The cases of the mempool's switch, which only check. *)
Section MempoolCases.
Variable view : utxos.
Notation authorized := (fun tx key => TxHasOwnerAuthorizationInputFromView tx view key).

Definition check_register (c : OpContext) (cur : option NicknameInfo) : result unit :=
  reject spends_any c with "register transaction cannot spend nickname bond outpoint";
  _ ← authorized (c_tx c) (op_ownerPubKey (c_op c));
  reject match cur with
         | Some i => match info_GetStatus i (c_height c) with
                     | Nicknames.EXPIRED_AVAILABLE | Nicknames.RELEASED | Nicknames.BOND_CLAIMABLE => false
                     | _ => true
                     end
         | None => false
         end with "nickname is not available for registration";
  let pricing := Nicknames.GetPricing (name_size (c_op c)) (c_multiplier c) in
  let ownerPubKey := CPubKey (op_ownerPubKey (c_op c)) in
  reject negb (IsFullyValid ownerPubKey) || negb (IsCompressed ownerPubKey) with "register owner pubkey is invalid";
  _ ← FindUniqueBondOutput (c_tx c) (GetScriptForRawPubKey ownerPubKey) (Nicknames.bondAmount pricing);
  Ok tt.

Definition check_update (c : OpContext) (cur : option NicknameInfo) : result unit :=
  reject spends_any c with "update transaction cannot spend nickname bond outpoint";
  match cur with
  | None => Err "nickname does not exist"
  | Some i =>
      reject negb (IsMutableNicknameStatus (info_GetStatus i (c_height c))) with "nickname is not mutable in current status";
      authorized (c_tx c) (ownerPubKey i)
  end.

Definition check_transfer (c : OpContext) (cur : option NicknameInfo) : result unit :=
  reject negb (spends_one_own c) with "transfer transaction must spend current nickname bond outpoint";
  match cur with
  | None => Err "nickname does not exist"
  | Some i =>
      reject negb (IsMutableNicknameStatus (info_GetStatus i (c_height c))) with "nickname is not mutable in current status";
      _ ← authorized (c_tx c) (ownerPubKey i);
      reject negb (HasBondOutpoint i) with "nickname does not have an active bond outpoint";
      reject negb (bool_decide (spent_own c = GetBondOutpoint i)) with "transfer transaction must spend the indexed nickname bond outpoint";
      let newOwnerPubKey := CPubKey (op_newOwnerPubKey (c_op c)) in
      reject negb (IsFullyValid newOwnerPubKey) || negb (IsCompressed newOwnerPubKey) with "transfer new owner pubkey is invalid";
      _ ← FindUniqueBondOutput (c_tx c) (GetScriptForRawPubKey newOwnerPubKey) (bondAmount i);
      Ok tt
  end.

Definition check_renew (c : OpContext) (cur : option NicknameInfo) : result unit :=
  reject negb (spends_one_own c) with "renew transaction must spend current nickname bond outpoint";
  match cur with
  | None => Err "nickname does not exist"
  | Some i =>
      reject negb (IsMutableNicknameStatus (info_GetStatus i (c_height c))) with "nickname is not renewable in current status";
      _ ← authorized (c_tx c) (ownerPubKey i);
      reject negb (HasBondOutpoint i) with "nickname does not have an active bond outpoint";
      reject negb (bool_decide (spent_own c = GetBondOutpoint i)) with "renew transaction must spend the indexed nickname bond outpoint";
      let ownerPubKey := CPubKey (ownerPubKey i) in
      reject negb (IsFullyValid ownerPubKey) || negb (IsCompressed ownerPubKey) with "renew owner pubkey is invalid";
      let renewalBondIncrease := Nicknames.GetRenewalBondIncrease (name_size (c_op c)) (c_multiplier c) in
      reject (renewalBondIncrease <? 0) || (MAX_MONEY - renewalBondIncrease <? bondAmount i) with "renew bond amount overflow";
      let renewedBondAmount := bondAmount i + renewalBondIncrease in
      _ ← FindUniqueBondOutput (c_tx c) (GetScriptForRawPubKey ownerPubKey) renewedBondAmount;
      Ok tt
  end.

Definition check_release (c : OpContext) (cur : option NicknameInfo) : result unit :=
  reject spends_any c with "release transaction cannot spend nickname bond outpoint";
  match cur with
  | None => Err "nickname does not exist"
  | Some i =>
      reject negb (IsMutableNicknameStatus (info_GetStatus i (c_height c))) with "nickname is not releasable in current status";
      authorized (c_tx c) (ownerPubKey i)
  end.

(** A claim of a bond that is not the current one needs no record. *)
Definition check_claim (c : OpContext) (cur : option NicknameInfo) : result unit :=
  reject negb (spends_one_own c) with "claim transaction must spend current nickname bond outpoint";
  match cur with
  | Some i =>
      if HasBondOutpoint i && bool_decide (spent_own c = GetBondOutpoint i) then
        reject match info_GetStatus i (c_height c) with Nicknames.BOND_CLAIMABLE => false | _ => true end with "nickname bond is not claimable";
        authorized (c_tx c) (ownerPubKey i)
      else Ok tt
  | None => Ok tt
  end.

Definition check_operation (c : OpContext) (cur : option NicknameInfo) : result unit :=
  match op_type (c_op c) with
  | REGISTER => check_register c cur
  | UPDATE => check_update c cur
  | TRANSFER => check_transfer c cur
  | RENEW => check_renew c cur
  | RELEASE => check_release c cur
  | CLAIM_BOND => check_claim c cur
  | NONE | OTHER _ => Err "invalid nickname operation type"
  end.
End MempoolCases.

Definition pending_message (operation : NicknameOperation) (mempoolTx : CTransaction) : string :=
  ("mempool already has pending nickname operation for '" +:+ op_nickname operation +:+ "' (" +:+
   uint256_GetHex (tx_hash mempoolTx) +:+ ")")%string.

Definition CheckNicknameOperationForMempool (db : NicknameStateDB) (mempool : list CTransaction)
    (tx : CTransaction) (view : utxos) (spendHeight txFee : Z) : result unit :=
  let multiplier := ReadPricingMultiplierPermille db in
  parsed ← ExtractNicknameOperationFromTx tx;
  spent ← collect_spent_db db (vin tx) ∅;
  match parsed with
  | None => reject negb (bool_decide (spent = ∅)) with only_bond_spend; Ok tt
  | Some operation =>
      reject IsCoinBase tx with "coinbase transaction cannot contain nickname operations";
      _ ← check_fee operation multiplier txFee;
      match List.find (pending_conflict tx operation) mempool with
      | Some mempoolTx => Err (pending_message operation mempoolTx)
      | None =>
          _ ← check_spent_names operation spent;
          check_operation view (mkOpContext tx operation spent multiplier spendHeight)
            (ReadNickname db (op_nickname operation))
      end
  end.

End Block.
