(* ===== verification/NicknameRules.v ===== *)
(** * The life of a nickname

    The rules of [NicknameState] stated without the working state of a block:
    which record an operation may turn into which ([legal]), and that the
    [switch] of [BuildNicknameBlockUpdates] accepts exactly the legal changes
    and makes them ([apply_operation_legal]). *)

From S2P Require Import Prelude Nicknames Serialize Script Base58 Money NicknameOp Transaction NicknameDB NicknameBatch NicknameState.
Open Scope Z_scope.
Open Scope kubu_scope.

(** ** Specification *)

Section Lifecycle.
Context `{AddressOps} `{CryptoOps}.
Variable mapArgs : gmap string string.

Definition good_key (key : bytes) : Prop := len key = 33 /\ CPubKey key = key /\ IsFullyValid key = true.

(** The transaction spends an output that one of the key's scripts locks. *)
Definition authorized (tx : CTransaction) (undo : option CTxUndo) (key : bytes) : Prop :=
  good_key key /\ exists u, undo = Some u /\ length (vprevout u) = length (vin tx) /\
  Exists (fun undo => scriptPubKey (txout undo) ∈ owner_scripts key) (vprevout u).

(** Output [n], and no other, pays [amount] to the key. *)
Definition pays_bond (tx : CTransaction) (n : Z) (key : bytes) (amount : Z) : Prop :=
  0 <= n /\ vout tx !! Z.to_nat n = Some (mkTxOut amount (GetScriptForRawPubKey key)) /\
  forall m, vout tx !! m = Some (mkTxOut amount (GetScriptForRawPubKey key)) -> m = Z.to_nat n.

Definition price (c : OpContext) : Nicknames.Pricing := Nicknames.GetPricing (name_size (c_op c)) (c_multiplier c).
Definition name_of (c : OpContext) : string := op_nickname (c_op c).

Definition registered (c : OpContext) (n : Z) : NicknameInfo :=
  let active := i32 (c_height c + Nicknames.ActiveBlocks mapArgs) in
  mkInfo (name_of c) (op_ownerPubKey (c_op c)) (op_payoutAddress (c_op c)) (c_height c) active
    (i32 (active + Nicknames.GraceBlocks mapArgs)) (Nicknames.bondAmount (price c))
    (tx_hash (c_tx c)) n (tx_hash (c_tx c)) false false.

Definition renewed (c : OpContext) (i : NicknameInfo) (n : Z) : NicknameInfo :=
  let active := i32 (Z.max (activeUntilHeight i) (c_height c) + Nicknames.ActiveBlocks mapArgs) in
  renew_info i active (i32 (active + Nicknames.GraceBlocks mapArgs))
    (bondAmount i + Nicknames.GetRenewalBondIncrease (name_size (c_op c)) (c_multiplier c)) (tx_hash (c_tx c)) n.

(** [auth key]: the transaction is authorized by the key. *)
Variable auth : bytes -> Prop.

Definition usable (c : OpContext) (i : NicknameInfo) : Prop :=
  IsMutableNicknameStatus (info_GetStatus i (c_height c)) = true /\ auth (ownerPubKey i).
Definition spends_bond (c : OpContext) (o : COutPoint) : Prop := c_spent c = {[ name_of c := o ]}.

Inductive legal (c : OpContext) : option NicknameInfo -> option NicknameInfo -> Prop :=
| legal_register cur n :
    op_type (c_op c) = REGISTER -> c_spent c = ∅ ->
    (forall i, cur = Some i -> registrable (info_GetStatus i (c_height c)) = true) ->
    auth (op_ownerPubKey (c_op c)) ->
    pays_bond (c_tx c) n (op_ownerPubKey (c_op c)) (Nicknames.bondAmount (price c)) ->
    legal c cur (Some (registered c n))
| legal_update i :
    op_type (c_op c) = UPDATE -> c_spent c = ∅ -> usable c i ->
    legal c (Some i) (Some (update_info i (op_payoutAddress (c_op c)) (tx_hash (c_tx c))))
| legal_transfer i o n :
    op_type (c_op c) = TRANSFER -> usable c i -> bond_of (Some i) = Some o -> spends_bond c o ->
    good_key (op_newOwnerPubKey (c_op c)) ->
    pays_bond (c_tx c) n (op_newOwnerPubKey (c_op c)) (bondAmount i) ->
    legal c (Some i) (Some (transfer_info i (op_newOwnerPubKey (c_op c)) (tx_hash (c_tx c)) n))
| legal_renew i o n :
    op_type (c_op c) = RENEW -> usable c i -> bond_of (Some i) = Some o -> spends_bond c o ->
    0 <= Nicknames.GetRenewalBondIncrease (name_size (c_op c)) (c_multiplier c) ->
    bondAmount (renewed c i n) <= MAX_MONEY ->
    pays_bond (c_tx c) n (ownerPubKey i) (bondAmount (renewed c i n)) ->
    legal c (Some i) (Some (renewed c i n))
| legal_release i :
    op_type (c_op c) = RELEASE -> c_spent c = ∅ -> usable c i ->
    legal c (Some i) (Some (release_info i (tx_hash (c_tx c))))
| legal_claim i o :
    op_type (c_op c) = CLAIM_BOND -> bond_of (Some i) = Some o -> spends_bond c o ->
    info_GetStatus i (c_height c) = Nicknames.BOND_CLAIMABLE -> auth (ownerPubKey i) ->
    legal c (Some i) (Some (claim_info i (tx_hash (c_tx c))))
| legal_claim_retired i o :
    op_type (c_op c) = CLAIM_BOND -> spends_bond c o -> bond_of (Some i) <> Some o ->
    legal c (Some i) (Some i).

(** The record after a change. *)
Definition outcome (cur : option NicknameInfo) (ch : Change) : option NicknameInfo :=
  if ch_dirty ch then Some (ch_info ch) else cur.

End Lifecycle.

(** ** Lemmas on the checks *)

Section Checks.
Context `{AddressOps} `{CryptoOps}.

Lemma CPubKey_valid key : IsFullyValid (CPubKey key) = true -> CPubKey key = key.
Proof. unfold CPubKey. destruct key as [|b key]; [done|]. by destruct (_ && _). Qed.

Lemma check_owner_key_ok key k : check_owner_key key = Ok k <-> k = key /\ good_key key.
Proof.
  unfold check_owner_key, whenever, good_key, IsCompressed, COMPRESSED_SIZE.
  destruct (Z.eqb_spec (len key) 33) as [Hl|Hl]; cbn [negb]; [|naive_solver].
  destruct (IsFullyValid (CPubKey key)) eqn:E; cbn [negb orb].
  - pose proof (CPubKey_valid _ E) as Hk. rewrite Hk in *. rewrite Hl. cbn. naive_solver.
  - split; [done|]. intros (-> & _ & Hk & Hv). by rewrite Hk, Hv in E.
Qed.

Lemma TxHasOwnerAuthorizationInput_ok tx undo key :
  TxHasOwnerAuthorizationInput tx undo key = Ok tt <-> authorized tx undo key.
Proof.
  unfold TxHasOwnerAuthorizationInput, authorized. destruct undo as [u|]; [|naive_solver].
  destruct (check_owner_key key) as [k|e] eqn:E; cbn [mbind result_bind].
  - apply check_owner_key_ok in E as [-> Hk]. unfold whenever.
    destruct (Nat.eqb_spec (length (vprevout u)) (length (vin tx))) as [Hl|Hl]; cbn [negb]; [|naive_solver].
    assert (Hx : existsb (fun undo => is_owner_script key (scriptPubKey (txout undo))) (vprevout u) = true <->
      Exists (fun undo => scriptPubKey (txout undo) ∈ owner_scripts key) (vprevout u)).
    { rewrite existsb_exists, Exists_exists. unfold is_owner_script.
      setoid_rewrite bool_decide_eq_true. by setoid_rewrite list_elem_of_In. }
    destruct (existsb _ _); naive_solver.
  - split; [done|]. intros [Hk _]. assert (check_owner_key key = Ok key) by by apply check_owner_key_ok. congruence.
Qed.

Lemma find_bond_found outs i script amount j n :
  find_bond outs i script amount (Some j) = Ok n <->
  n = j /\ forall m out, outs !! m = Some out -> out <> mkTxOut amount script.
Proof.
  revert i. induction outs as [|[v s] outs IH]; intros i; cbn [find_bond nValue scriptPubKey].
  - split; [intros [= ->]; split; [done|]; intros m out Hm; by rewrite lookup_nil in Hm|by intros [-> _]].
  - destruct (Z.eqb_spec v amount) as [->|]; cbn [negb orb].
    + destruct (decide (s = script)) as [->|Hs].
      * rewrite bool_decide_eq_true_2 by done. cbn [negb]. split; [done|]. intros [_ Hno].
        by destruct (Hno 0%nat _ eq_refl).
      * rewrite bool_decide_eq_false_2 by done. cbn [negb]. rewrite IH. split.
        -- intros [-> Hno]. split; [done|]. intros [|m] out Hm; cbn in Hm; [naive_solver|by eapply Hno].
        -- intros [-> Hno]. split; [done|]. intros m out Hm. by apply (Hno (S m)).
    + rewrite IH. split.
      * intros [-> Hno]. split; [done|]. intros [|m] out Hm; cbn in Hm; [naive_solver|by eapply Hno].
      * intros [-> Hno]. split; [done|]. intros m out Hm. by apply (Hno (S m)).
Qed.

Lemma find_bond_ok outs i script amount n :
  find_bond outs i script amount None = Ok n <->
  i <= n /\ outs !! Z.to_nat (n - i) = Some (mkTxOut amount script) /\
  forall m, outs !! m = Some (mkTxOut amount script) -> m = Z.to_nat (n - i).
Proof.
  revert i. induction outs as [|[v s] outs IH]; intros i; cbn [find_bond nValue scriptPubKey].
  { split; [done|]. intros (_ & Hn & _). by rewrite lookup_nil in Hn. }
  destruct (decide (mkTxOut v s = mkTxOut amount script)) as [[= -> ->]|Hne].
  - rewrite Z.eqb_refl, bool_decide_eq_true_2 by done. cbn [negb orb]. rewrite find_bond_found. split.
    + intros [-> Hno]. replace (i - i) with 0 by lia. split_and!; [lia|done|].
      intros [|m] Hm; [done|]. cbn in Hm. by destruct (Hno _ _ Hm).
    + intros (Hi & _ & Hu). pose proof (Hu 0%nat eq_refl). split; [lia|].
      intros m out Hm ->. specialize (Hu (S m) Hm). lia.
  - assert (negb (v =? amount) || negb (bool_decide (s = script)) = true) as ->.
    { destruct (Z.eqb_spec v amount) as [->|]; [|done]. cbn. rewrite bool_decide_eq_false_2; [done|]. by intros ->. }
    rewrite IH. split.
    + intros (Hi & Hn & Hu). replace (Z.to_nat (n - i)) with (S (Z.to_nat (n - (i + 1)))) by lia.
      split_and!; [lia|done|]. intros [|m] Hm; [cbn in Hm; congruence|]. f_equal. by apply Hu.
    + intros (Hi & Hn & Hu). assert (n <> i) by (intros ->; rewrite Z.sub_diag in Hn; injection Hn; congruence).
      replace (Z.to_nat (n - i)) with (S (Z.to_nat (n - (i + 1)))) in * by lia. split_and!; [lia|done|].
      intros m Hm. specialize (Hu (S m) Hm). lia.
Qed.

Lemma FindUniqueBondOutput_ok tx key amount n :
  FindUniqueBondOutput tx (GetScriptForRawPubKey key) amount = Ok n <-> pays_bond tx n key amount.
Proof. unfold FindUniqueBondOutput, pays_bond. rewrite find_bond_ok. by replace (n - 0) with n by lia. Qed.

Lemma spends_bond_own c o : spends_bond c o -> spent_own c = o.
Proof. unfold spent_own, spends_bond, name_of. intros ->. by rewrite lookup_singleton_eq. Qed.

Lemma spends_one_own_ok c : spends_one_own c = true <-> exists o, spends_bond c o /\ spent_own c = o.
Proof.
  unfold spends_one_own, spends_bond, spent_own, name_of. rewrite andb_true_iff, bool_decide_eq_true, Nat.eqb_eq.
  split.
  - intros [[o Ho] Hs]. exists o. split; [|by rewrite Ho].
    rewrite <- (insert_delete_id _ _ _ Ho) in Hs |- *. rewrite map_size_insert_None in Hs by apply lookup_delete_eq.
    injection Hs as Hs%map_size_empty_inv. by rewrite Hs.
  - intros (o & -> & <-). rewrite lookup_singleton_eq. split; [done|apply map_size_singleton].
Qed.

Lemma spends_any_ok c : spends_any c = false <-> c_spent c = ∅.
Proof. unfold spends_any. by rewrite negb_false_iff, bool_decide_eq_true. Qed.

Lemma bond_of_Some i o : bond_of (Some i) = Some o <-> HasBondOutpoint i = true /\ GetBondOutpoint i = o.
Proof. unfold bond_of. cbn. destruct (HasBondOutpoint i); naive_solver. Qed.

Lemma good_key_check key :
  negb (IsFullyValid (CPubKey key)) || negb (IsCompressed (CPubKey key)) = false <-> good_key key.
Proof.
  unfold good_key, IsCompressed. rewrite orb_false_iff, !negb_false_iff, Z.eqb_eq. split.
  - intros [Hv Hl]. pose proof (CPubKey_valid _ Hv) as E. rewrite E in *. done.
  - intros (Hl & -> & Hv). done.
Qed.

Lemma check_own_bond_ok c i o msg :
  spends_bond c o -> check_own_bond c i msg = Ok tt <-> bond_of (Some i) = Some o.
Proof.
  intros Hs. unfold check_own_bond. rewrite !reject_ok, !negb_false_iff, bool_decide_eq_true, bond_of_Some.
  rewrite (spends_bond_own _ _ Hs).
  naive_solver.
Qed.

Lemma claims_current_ok c i o : spends_bond c o -> claims_current c i = true <-> bond_of (Some i) = Some o.
Proof.
  intros Hs. unfold claims_current. rewrite andb_true_iff, bool_decide_eq_true, bond_of_Some.
  rewrite (spends_bond_own _ _ Hs).
  naive_solver.
Qed.

End Checks.

(** ** The switch accepts the legal changes *)

Section Switch.
Context `{AddressOps} `{CryptoOps}.
Variable mapArgs : gmap string string.
Variable authf : CTransaction -> bytes -> result unit.
Variable auth : CTransaction -> bytes -> Prop.
Hypothesis Hauth : forall tx key, authf tx key = Ok tt <-> auth tx key.
Hypothesis Hgood : forall tx key, auth tx key -> good_key key.

Notation legal := (fun c => legal mapArgs (auth (c_tx c)) c).

Lemma auth_then_ok {A} tx key (k : unit -> result A) a :
  authf tx key ≫= k = Ok a <-> auth tx key /\ k tt = Ok a.
Proof. rewrite bind_ok, <- Hauth. split; [by intros ([] & -> & ->)|intros [-> ?]; by exists tt]. Qed.
Lemma do_update_legal c cur ch :
  op_type (c_op c) = UPDATE -> do_update authf c cur = Ok ch -> legal c cur (outcome cur ch).
Proof.
  intros Ht. unfold do_update. rewrite reject_ok, spends_any_ok. intros [Hs Hk]. destruct cur as [i|]; [|done].
  rewrite reject_ok, negb_false_iff, auth_then_ok in Hk. destruct Hk as (Hm & Ha & [= <-]). by constructor.
Qed.

Lemma do_release_legal c cur ch :
  op_type (c_op c) = RELEASE -> do_release authf c cur = Ok ch -> legal c cur (outcome cur ch).
Proof.
  intros Ht. unfold do_release. rewrite reject_ok, spends_any_ok. intros [Hs Hk]. destruct cur as [i|]; [|done].
  rewrite reject_ok, negb_false_iff, auth_then_ok in Hk. destruct Hk as (Hm & Ha & [= <-]). by constructor.
Qed.

Lemma do_register_legal c cur ch :
  op_type (c_op c) = REGISTER -> do_register mapArgs authf c cur = Ok ch -> legal c cur (outcome cur ch).
Proof.
  intros Ht. unfold do_register. rewrite reject_ok, spends_any_ok. cbn zeta.
  rewrite auth_then_ok, !reject_ok, good_key_check, bind_ok.
  intros (Hs & Ha & Hr & Hk & n & Hn & [= <-]). rewrite (proj1 (proj2 Hk)) in Hn. apply FindUniqueBondOutput_ok in Hn.
  apply (legal_register mapArgs _ c cur n); try done.
  intros i ->. rewrite bool_decide_eq_true_2 in Hr by eauto. by apply negb_false_iff in Hr.
Qed.

Lemma do_transfer_legal c cur ch :
  op_type (c_op c) = TRANSFER -> do_transfer authf c cur = Ok ch -> legal c cur (outcome cur ch).
Proof.
  intros Ht. unfold do_transfer. rewrite reject_ok, negb_false_iff, spends_one_own_ok.
  intros [(o & Hs & Ho) Hk]. destruct cur as [i|]; [|done]. cbn zeta in Hk.
  rewrite reject_ok, negb_false_iff, auth_then_ok, bind_ok in Hk. destruct Hk as (Hm & Ha & [] & Hb & Hk).
  apply (check_own_bond_ok _ _ o) in Hb; [|done].
  rewrite reject_ok, good_key_check, bind_ok in Hk. destruct Hk as (Hg & n & Hn & [= <-]).
  rewrite (proj1 (proj2 Hg)) in Hn. apply FindUniqueBondOutput_ok in Hn. by apply (legal_transfer mapArgs _ c i o n).
Qed.

Lemma do_renew_legal c cur ch :
  op_type (c_op c) = RENEW -> do_renew mapArgs authf c cur = Ok ch -> legal c cur (outcome cur ch).
Proof.
  intros Ht. unfold do_renew. rewrite reject_ok, negb_false_iff, spends_one_own_ok.
  intros [(o & Hs & Ho) Hk]. destruct cur as [i|]; [|done]. cbn zeta in Hk.
  rewrite reject_ok, negb_false_iff, auth_then_ok, bind_ok in Hk. destruct Hk as (Hm & Ha & [] & Hb & Hk).
  apply (check_own_bond_ok _ _ o) in Hb; [|done].
  rewrite !reject_ok, good_key_check, bind_ok, orb_false_iff in Hk.
  destruct Hk as (Hg & (Hp & Hmax) & n & Hn & [= <-]). zbool.
  rewrite (proj1 (proj2 Hg)) in Hn. apply FindUniqueBondOutput_ok in Hn.
  apply (legal_renew mapArgs _ c i o n); try done. cbn. lia.
Qed.

Lemma do_claim_legal c cur ch :
  op_type (c_op c) = CLAIM_BOND -> do_claim authf c cur = Ok ch -> legal c cur (outcome cur ch).
Proof.
  intros Ht. unfold do_claim. rewrite reject_ok, negb_false_iff, spends_one_own_ok.
  intros [(o & Hs & Ho) Hk]. destruct cur as [i|]; [|done].
  pose proof (claims_current_ok c i o Hs) as Hc. destruct (claims_current c i).
  - rewrite reject_ok, negb_false_iff, auth_then_ok in Hk. destruct Hk as (Hst & Ha & [= <-]).
    apply (legal_claim mapArgs _ c i o); try done; [by apply Hc|]. by destruct (info_GetStatus i (c_height c)).
  - injection Hk as <-. apply (legal_claim_retired mapArgs _ c i o); try done. intros Hx. by apply Hc in Hx.
Qed.

Definition known_operation (op : NicknameOperation) : Prop := match op_type op with OTHER _ => False | _ => True end.

Lemma apply_operation_sound c cur ch :
  known_operation (c_op c) -> apply_operation mapArgs authf c cur = Ok ch -> legal c cur (outcome cur ch).
Proof.
  unfold known_operation, apply_operation. destruct (op_type (c_op c)) eqn:Ht; try done; intros _ Hk.
  - by apply do_register_legal.
  - by apply do_update_legal.
  - by apply do_transfer_legal.
  - by apply do_renew_legal.
  - by apply do_release_legal.
  - by apply do_claim_legal.
Qed.

Lemma apply_operation_complete c cur new :
  legal c cur new -> exists ch, apply_operation mapArgs authf c cur = Ok ch /\ outcome cur ch = new.
Proof.
  destruct 1 as [cur n Ht Hs Hr Ha Hn|i Ht Hs [Hm Ha]|i o n Ht [Hm Ha] Hb Hs Hg Hn|i o n Ht [Hm Ha] Hb Hs Hp Hmax Hn
    |i Ht Hs [Hm Ha]|i o Ht Hb Hs Hst Ha|i o Ht Hs Hb]; unfold apply_operation; rewrite Ht.
  - pose proof (Hgood _ _ Ha) as Hg. eexists (mkChange (registered mapArgs c n) true true _ [] 1). split; [|done]. unfold do_register. cbn zeta.
    rewrite reject_ok, spends_any_ok, auth_then_ok, !reject_ok, good_key_check, bind_ok.
    split_and!; try done.
    + destruct cur as [i|]; [|by rewrite bool_decide_eq_false_2 by by intros []].
      cbn [current_status]. by rewrite (Hr i eq_refl), andb_false_r.
    + exists n. rewrite (proj1 (proj2 Hg)), FindUniqueBondOutput_ok. done.
  - exists (mkChange (update_info i (op_payoutAddress (c_op c)) (tx_hash (c_tx c))) true false [] [] 0). split; [|done]. unfold do_update.
    by rewrite reject_ok, spends_any_ok, reject_ok, negb_false_iff, auth_then_ok.
  - exists (mkChange (transfer_info i (op_newOwnerPubKey (c_op c)) (tx_hash (c_tx c)) n) true true [] [] 0). split; [|done]. unfold do_transfer.
    rewrite reject_ok, negb_false_iff, spends_one_own_ok. split; [eauto using spends_bond_own|]. cbn zeta.
    rewrite reject_ok, negb_false_iff, auth_then_ok, bind_ok. split_and!; [done..|]. exists tt.
    split; [by apply (check_own_bond_ok _ _ o)|]. rewrite reject_ok, good_key_check, bind_ok. split; [done|].
    exists n. by rewrite (proj1 (proj2 Hg)), FindUniqueBondOutput_ok.
  - pose proof (Hgood _ _ Ha) as Hg. exists (mkChange (renewed mapArgs c i n) true true [] [] 0). split; [|done]. unfold do_renew.
    rewrite reject_ok, negb_false_iff, spends_one_own_ok. split; [eauto using spends_bond_own|]. cbn zeta.
    rewrite reject_ok, negb_false_iff, auth_then_ok, bind_ok. split_and!; [done..|]. exists tt.
    split; [by apply (check_own_bond_ok _ _ o)|]. rewrite !reject_ok, good_key_check, bind_ok, orb_false_iff.
    cbn in Hmax. split_and!; [done|apply Z.ltb_ge; lia..|].
    exists n. rewrite (proj1 (proj2 Hg)), FindUniqueBondOutput_ok. done.
  - exists (mkChange (release_info i (tx_hash (c_tx c))) true false [] [] 0). split; [|done]. unfold do_release.
    by rewrite reject_ok, spends_any_ok, reject_ok, negb_false_iff, auth_then_ok.
  - exists (mkChange (claim_info i (tx_hash (c_tx c))) true true [] [] 0). split; [|done]. unfold do_claim.
    rewrite reject_ok, negb_false_iff, spends_one_own_ok. split; [eauto using spends_bond_own|].
    rewrite (proj2 (claims_current_ok c i o Hs) Hb), reject_ok, negb_false_iff, auth_then_ok, Hst. done.
  - exists (mkChange i false false [] [spent_own c] 0). split; [|done]. unfold do_claim.
    rewrite reject_ok, negb_false_iff, spends_one_own_ok. split; [eauto using spends_bond_own|].
    pose proof (claims_current_ok c i o Hs) as Hc. destruct (claims_current c i); [by destruct Hb; apply Hc|done].
Qed.

Lemma apply_operation_ok c cur :
  known_operation (c_op c) ->
  is_ok (apply_operation mapArgs authf c cur) = true <-> exists new, legal c cur new.
Proof.
  intros Hk. split.
  - destruct (apply_operation mapArgs authf c cur) as [ch|] eqn:E; [intros _|done].
    eexists. by eapply apply_operation_sound.
  - intros [new Hl]. by destruct (apply_operation_complete c cur new Hl) as (ch & -> & _).
Qed.

End Switch.
