(* ===== verification/NicknameBlock.v ===== *)
(** * A block's nickname operations
      ([BuildNicknameBlockUpdates] of [src/src/validation.cpp])

    The working state of a block stands for a registry, a record per name:
    the working copy where the name was loaded, the stored record elsewhere
    ([view]).  [work_inv] is what the local maps keep true while the loop runs;
    with it every transaction is a step of the registry ([tx_step]) under the
    rules of [NicknameRules]. *)

From S2P Require Import Prelude Nicknames Serialize Script Base58 Money NicknameOp Transaction NicknameDB NicknameBatch NicknameState NicknameRules.
Open Scope Z_scope.
Open Scope kubu_scope.

Notation registry := (string -> option NicknameInfo).

Section Specification.
Context `{AddressOps} `{CryptoOps}.

Definition view (db : NicknameStateDB) (w : Work) : registry := fun name =>
  match states w !! name with Some st => current_record st | None => t_nickname db !! name end.

(** A claimed bond leaves no outpoint in the record. *)
Definition clean (i : NicknameInfo) : Prop := bondClaimed i = true -> bondTxid i = 0.

Definition chain_inv (db : NicknameStateDB) : Prop :=
  db_inv db /\ forall name i, t_nickname db !! name = Some i -> clean i.

(** The outpoint was created by a transaction with an operation on the name. *)
Definition born (txs : list CTransaction) (o : COutPoint) (name : string) : Prop :=
  exists tx op, tx ∈ txs /\ tx_hash tx = op_hash o /\
    ExtractNicknameOperationFromTx tx = Ok (Some op) /\ op_nickname op = name.

(** The transactions of the block are distinct and new to the bond index. *)
Record txs_ok (db : NicknameStateDB) (txs : list CTransaction) : Prop := {
  txs_nodup : NoDup (tx_hash <$> txs);
  txs_new o name : t_bond db !! o = Some name -> op_hash o ∉ tx_hash <$> txs;
}.

Record state_ok (db : NicknameStateDB) (past : list CTransaction) (name : string) (st : NicknameWorkingState) : Prop := {
  so_loaded : loaded st = true;
  so_normal : NormalizeKeyName name = name;
  so_before : t_nickname db !! name = if existedBefore st then Some (before st) else None;
  so_same : dirty st = false -> current_record st = t_nickname db !! name;
  so_dirty : dirty st = true -> existsNow st = true;
  so_name : existsNow st = true -> nickname (current st) = name /\ clean (current st);
  so_bond o : bond_of (current_record st) = Some o ->
    bond_of (t_nickname db !! name) = Some o \/ born past o name;
}.

Record work_inv (db : NicknameStateDB) (past : list CTransaction) (w : Work) : Prop := {
  wi_states name st : states w !! name = Some st -> state_ok db past name st;
  wi_outpoints name : nicknameBondOutpoints w !! name = states w !! name ≫= fun st => bond_of (current_record st);
  wi_owners o name : bondOutpointOwners w !! o = Some name <-> nicknameBondOutpoints w !! name = Some o;
  wi_upserts o name : (o, name) ∈ w_bondIndexUpserts w ->
    (t_bond db !! o = Some name \/ born past o name) /\
    exists st, states w !! name = Some st /\ dirty st = true;
  wi_erases o : o ∈ w_bondIndexErases w -> exists name st,
    t_bond db !! o = Some name /\ states w !! name = Some st /\ bond_of (current_record st) <> Some o;
}.

(** The registrations a transaction makes. *)
Definition registrations (tx : CTransaction) : Z :=
  match ExtractNicknameOperationFromTx tx with
  | Ok (Some op) => if decide (op_type op = REGISTER) then 1 else 0
  | _ => 0
  end.

(** Loading more names changes nothing that can be seen. *)
Record extends (db : NicknameStateDB) (w w' : Work) : Prop := {
  ext_view name : view db w' name = view db w name;
  ext_states name st : states w !! name = Some st -> states w' !! name = Some st;
  ext_upserts : w_bondIndexUpserts w' = w_bondIndexUpserts w;
  ext_erases : w_bondIndexErases w' = w_bondIndexErases w;
  ext_count : w_registeredCount w' = w_registeredCount w;
}.

(** One transaction as a step of the registry. *)
Inductive tx_step (mapArgs : gmap string string) (multiplier height : Z) (tx : CTransaction) (undo : option CTxUndo)
    (fee : Z) (R R' : registry) : Prop :=
| tx_plain :
    ExtractNicknameOperationFromTx tx = Ok None ->
    (forall name o, bond_of (R name) = Some o -> o ∉ prevout <$> vin tx) ->
    (forall name, R' name = R name) ->
    tx_step mapArgs multiplier height tx undo fee R R'
| tx_operation op spent :
    ExtractNicknameOperationFromTx tx = Ok (Some op) ->
    IsCoinBase tx = false ->
    (forall required, GetRequiredNicknameFee op multiplier = Some required -> required <= fee) ->
    (forall name o, bond_of (R name) = Some o -> o ∈ prevout <$> vin tx -> spent = {[ name := o ]} /\ name = op_nickname op) ->
    (forall name o, spent !! name = Some o -> o ∈ prevout <$> vin tx) ->
    legal mapArgs (authorized tx undo) (mkOpContext tx op spent multiplier height)
      (R (op_nickname op)) (R' (op_nickname op)) ->
    (forall name, name <> op_nickname op -> R' name = R name) ->
    tx_step mapArgs multiplier height tx undo fee R R'.

Inductive block_steps (mapArgs : gmap string string) (multiplier height : Z)
    : list CTransaction -> list (option CTxUndo) -> list Z -> registry -> registry -> Prop :=
| steps_nil undos fees R R' : (forall name, R' name = R name) ->
    block_steps mapArgs multiplier height [] undos fees R R'
| steps_cons tx undo fee txs undos fees R R1 R' :
    tx_step mapArgs multiplier height tx undo fee R R1 ->
    block_steps mapArgs multiplier height txs undos fees R1 R' ->
    block_steps mapArgs multiplier height (tx :: txs) (undo :: undos) (fee :: fees) R R'.

End Specification.

(** ** Lemmas on records *)

Section Records.
Context `{AddressOps} `{CryptoOps}.

Lemma read_fields_name type name ss op :
  read_fields type name ss = Ok op -> op_nickname op = name /\ known_type (op_type op) = true.
Proof.
  destruct type; cbn [read_fields]; intros E;
    repeat (inv_ok; match goal with p : (_ * _)%type |- _ => destruct p end); inv_ok; done.
Qed.

Lemma extract_operation_name script op :
  ExtractNicknameOperation script = Ok op ->
  NormalizeKeyName (op_nickname op) = op_nickname op /\ known_type (op_type op) = true.
Proof.
  unfold ExtractNicknameOperation, whenever. destruct (GetOp2 script) as [[[o d] pc]|]; [|done].
  destruct (negb _); [done|]. destruct (GetOp2 pc) as [[[o' pushed] [|]]|]; try done.
  unfold read_payload, whenever. destruct (read 4 pushed) as [[magic|] s1]; [|done].
  destruct (negb _); [done|]. destruct (ser_readdata8 s1) as [[t|] s2]; [|done].
  destruct (Unserialize s2) as [[name|] s3]; [|done].
  destruct (Nicknames.IsValidNormalizedNickname name) as [[]|] eqn:Ev; [|done].
  cbn [mbind result_bind]. intros [-> Ht]%read_fields_name. split; [|done].
  apply Nicknames.IsValidNormalizedNickname_wf in Ev. apply Nicknames.NormalizeNickname_allowed, Ev.
Qed.

Lemma extract_name tx op :
  ExtractNicknameOperationFromTx tx = Ok (Some op) ->
  NormalizeKeyName (op_nickname op) = op_nickname op /\ known_type (op_type op) = true.
Proof.
  unfold ExtractNicknameOperationFromTx.
  enough (forall outs found,
    (forall op, found = Some op -> NormalizeKeyName (op_nickname op) = op_nickname op /\ known_type (op_type op) = true) ->
    extract_from_outputs outs found = Ok (Some op) ->
    NormalizeKeyName (op_nickname op) = op_nickname op /\ known_type (op_type op) = true) as Hx by (by apply Hx).
  induction outs as [|out outs IH]; intros found Hf; cbn [extract_from_outputs]; [intros [= ->]; by apply Hf|].
  intros E. inv_ok. destruct a as [op'|]; [|by apply (IH found)]. destruct found; [done|].
  apply (IH (Some op')); [|done]. intros ? [= <-].
  unfold ParseNicknameOpScript in E0. repeat case_match; try done. simplify_eq. by eapply extract_operation_name.
Qed.

(** ** Bonds of changed records *)

Variable mapArgs : gmap string string.
Variable auth : bytes -> Prop.

Lemma bond_of_alt i : bond_of (Some i) =
  if negb (bondClaimed i) && negb (bondTxid i =? 0) && negb (bondVout i =? UINT32_MAX)
  then Some (mkOutPoint (bondTxid i) (bondVout i)) else None.
Proof.
  unfold bond_of, GetBondOutpoint. cbn [mbind option_bind]. unfold HasBondOutpoint. by destruct (_ && _).
Qed.

(** The bond of the record after a legal change is none, the one before with
    the same owner and amount, or the output of this transaction that pays it. *)
Lemma legal_bond_record c cur i o :
  (forall j, cur = Some j -> clean j) ->
  legal mapArgs auth c cur (Some i) -> bond_of (Some i) = Some o ->
  (exists j, cur = Some j /\ bond_of (Some j) = Some o /\ ownerPubKey i = ownerPubKey j /\ bondAmount i = bondAmount j) \/
  op_hash o = tx_hash (c_tx c) /\ pays_bond (c_tx c) (op_n o) (ownerPubKey i) (bondAmount i).
Proof.
  intros Hc Hl. inversion Hl as [cur' n|j|j o' n|j o' n|j|j o'|j o']; subst; cbn [negb]; try (intros Ho; left; by eauto).
  - rewrite bond_of_alt. case_match; [|done]. intros [= <-]. by right.
  - rewrite bond_of_alt. case_match; [|done]. intros [= <-]. by right.
  - rewrite bond_of_alt. case_match; [|done]. intros [= <-]. by right.
  - intros Ho. left. exists j. split_and!; try done. rewrite bond_of_alt in Ho |- *. unfold release_info in Ho.
    cbn [bondClaimed bondTxid bondVout negb andb] in Ho. specialize (Hc j eq_refl). unfold clean in Hc.
    destruct (bondClaimed j); [|done]. by rewrite Hc in Ho.
Qed.

Lemma legal_bond c cur new o :
  (forall i, cur = Some i -> clean i) ->
  legal mapArgs auth c cur new -> bond_of new = Some o -> bond_of cur = Some o \/ op_hash o = tx_hash (c_tx c).
Proof.
  intros Hc Hl Ho. destruct new as [i|]; [|done].
  destruct (legal_bond_record c cur i o Hc Hl Ho) as [(j & -> & Hb & _)|[Hh _]]; auto.
Qed.

(** A spent bond is not kept. *)
Lemma legal_spent c cur new o :
  legal mapArgs auth c cur new -> bond_of cur = Some o -> spends_bond c o ->
  op_hash o <> tx_hash (c_tx c) -> bond_of new <> Some o.
Proof.
  intros Hl Hb Hs Hh Hn. assert (Hne : c_spent c <> ∅).
  { unfold spends_bond in Hs. rewrite Hs. apply insert_non_empty. }
  destruct Hl as [cur n|i|i o' n|i o' n|i|i o'|i o']; try done.
  - rewrite bond_of_alt in Hn. case_match; [|done]. simplify_eq.
  - rewrite bond_of_alt in Hn. case_match; [|done]. simplify_eq.
  - unfold spends_bond in *. rewrite Hs in *. simplify_map_eq.
Qed.

Lemma legal_record c cur new :
  legal mapArgs auth c cur new ->
  (forall i, cur = Some i -> nickname i = name_of c /\ clean i) ->
  exists i, new = Some i /\ nickname i = name_of c /\ clean i.
Proof.
  intros Hl Hc. destruct Hl as [cur n|i|i o' n|i o' n|i|i o'|i o']; eexists; (split; [done|]); [done|..];
    by destruct (Hc i eq_refl) as [Hn Hi].
Qed.

End Records.

(** ** Loading names *)

Section Loading.
Context `{AddressOps} `{CryptoOps}.
Variables (db : NicknameStateDB) (past : list CTransaction).
Hypothesis Hchain : chain_inv db.
Hypothesis Hpast : txs_ok db past.

Lemma stored_normal name i : t_nickname db !! name = Some i -> NormalizeKeyName name = name.
Proof. apply (inv_normal _ (proj1 Hchain)). Qed.

Lemma born_hash o name : born past o name -> op_hash o ∈ tx_hash <$> past.
Proof. intros (tx & op & Hin & Hh & _). rewrite <- Hh. apply list_elem_of_fmap. by exists tx. Qed.

(** An outpoint belongs to one name: by the index, or by its transaction. *)
Lemma born_inj o n m : born past o n -> born past o m -> n = m.
Proof.
  intros (tx & op & Hin & Hh & E & <-) (tx' & op' & Hin' & Hh' & E' & <-).
  assert (tx = tx') as <-; [|congruence].
  apply list_elem_of_lookup in Hin as [i Hi]. apply list_elem_of_lookup in Hin' as [j Hj].
  assert (i = j) as <-; [|congruence].
  eapply NoDup_lookup; [apply (txs_nodup _ _ Hpast)|..]; rewrite list_lookup_fmap; [by rewrite Hi|].
  rewrite Hj. cbn. congruence.
Qed.

Definition origin (o : COutPoint) (name : string) : Prop := t_bond db !! o = Some name \/ born past o name.

Lemma origin_inj o n m : origin o n -> origin o m -> n = m.
Proof.
  intros [Hn|Hn] [Hm|Hm]; [congruence|..|by eapply born_inj].
  - by apply (txs_new _ _ Hpast) in Hn; apply born_hash in Hm.
  - by apply (txs_new _ _ Hpast) in Hm; apply born_hash in Hn.
Qed.

Lemma stored_origin name o : bond_of (t_nickname db !! name) = Some o -> origin o name.
Proof. left. by apply (bond_of_index _ (proj1 Hchain)). Qed.

Lemma state_origin name st o : state_ok db past name st -> bond_of (current_record st) = Some o -> origin o name.
Proof. intros Hs Ho. destruct (so_bond _ _ _ _ Hs o Ho); [by apply stored_origin|by right]. Qed.

Lemma view_origin w name o : work_inv db past w -> bond_of (view db w name) = Some o -> origin o name.
Proof.
  intros Hw. unfold view. destruct (states w !! name) as [st|] eqn:E; [|apply stored_origin].
  apply state_origin. by apply (wi_states _ _ _ Hw).
Qed.

(** [indexBondOutpoint] makes the two maps inverse again and current for the name. *)
Lemma index_maps name st w :
  (forall o n, bondOutpointOwners w !! o = Some n <-> nicknameBondOutpoints w !! n = Some o) ->
  (forall o n, bond_of (current_record st) = Some o -> bondOutpointOwners w !! o = Some n -> n = name) ->
  let w' := indexBondOutpoint name st w in
  (forall o n, bondOutpointOwners w' !! o = Some n <-> nicknameBondOutpoints w' !! n = Some o) /\
  (forall n, nicknameBondOutpoints w' !! n =
     if decide (n = name) then bond_of (current_record st) else nicknameBondOutpoints w !! n).
Proof.
  intros Hinv Hnew. cbn zeta. unfold indexBondOutpoint.
  set (m := match nicknameBondOutpoints w !! name with
            | Some prev => (delete name (nicknameBondOutpoints w), delete prev (bondOutpointOwners w))
            | None => (nicknameBondOutpoints w, bondOutpointOwners w) end).
  assert (Hm : (forall o n, m.2 !! o = Some n <-> m.1 !! n = Some o) /\ m.1 = delete name (nicknameBondOutpoints w) /\
    (forall o n, m.2 !! o = Some n -> bondOutpointOwners w !! o = Some n)).
  { subst m. destruct (nicknameBondOutpoints w !! name) as [prev|] eqn:E; cbn [fst snd].
    - split_and!; [|done|].
      + intros o n. rewrite !lookup_delete_Some, Hinv. split; intros [Hne Hx]; split; try done.
        * intros ->. congruence.
        * intros ->. apply Hinv in Hx, E. congruence.
      + intros o n. rewrite lookup_delete_Some. naive_solver.
    - split_and!; [done| |done]. by rewrite delete_id. }
  destruct m as [nbo boo]. cbn [fst snd] in Hm. destruct Hm as (Hm & -> & Hsub). clear Hinv.
  assert (Hnone : delete name (nicknameBondOutpoints w) !! name = None) by apply lookup_delete_eq.
  assert (Hother : forall n, n <> name -> delete name (nicknameBondOutpoints w) !! n = nicknameBondOutpoints w !! n)
    by (intros; by apply lookup_delete_ne).
  revert Hm Hnone Hother. generalize (delete name (nicknameBondOutpoints w)). intros nbo Hm Hnone Hother.
  unfold current_record in *. destruct (existsNow st); cbn [andb].
  2: { cbn. split; [done|]. intros n. destruct (decide _) as [->|]; auto. }
  unfold bond_of in *. cbn [mbind option_bind] in *. destruct (HasBondOutpoint (current st)).
  2: { cbn. split; [done|]. intros n. destruct (decide _) as [->|]; auto. }
  set (o := GetBondOutpoint (current st)) in *. unfold emplace. rewrite Hnone.
  assert (boo !! o = None) as Ho.
  { destruct (boo !! o) as [n|] eqn:E; [|done]. rewrite (Hnew o n eq_refl (Hsub _ _ E)) in E. apply Hm in E. congruence. }
  rewrite Ho. cbn [nicknameBondOutpoints bondOutpointOwners set_outpoints]. split.
  - intros o' n. rewrite !lookup_insert_Some, Hm. split.
    + intros [[<- <-]|[Hne Hx]]; [by left|right]. split; [|done]. intros ->. congruence.
    + intros [[<- <-]|[Hne Hx]]; [by left|right]. split; [|done]. intros <-. apply Hm in Hx. congruence.
  - intros n. destruct (decide (n = name)) as [->|]; [by rewrite lookup_insert_eq|].
    rewrite lookup_insert_ne by done. by apply Hother.
Qed.

Lemma index_rest name st w :
  states (indexBondOutpoint name st w) = states w /\
  w_bondIndexUpserts (indexBondOutpoint name st w) = w_bondIndexUpserts w /\
  w_bondIndexErases (indexBondOutpoint name st w) = w_bondIndexErases w /\
  w_registeredCount (indexBondOutpoint name st w) = w_registeredCount w.
Proof. unfold indexBondOutpoint. by destruct (nicknameBondOutpoints w !! name), (_ && _). Qed.

(** A working state may replace another when the lists stay justified. *)
Record replaces (w : Work) (name : string) (st : NicknameWorkingState) : Prop := {
  rp_ok : state_ok db past name st;
  rp_dirty st0 : states w !! name = Some st0 -> dirty st0 = true -> dirty st = true;
  rp_erased o : o ∈ w_bondIndexErases w -> t_bond db !! o = Some name -> bond_of (current_record st) <> Some o;
}.

Lemma replace_lists w name st w' :
  work_inv db past w -> replaces w name st -> states w' = <[name := st]> (states w) ->
  w_bondIndexUpserts w' = w_bondIndexUpserts w -> w_bondIndexErases w' = w_bondIndexErases w ->
  (forall n st, states w' !! n = Some st -> state_ok db past n st) /\
  (forall o n, (o, n) ∈ w_bondIndexUpserts w' -> origin o n /\ exists st, states w' !! n = Some st /\ dirty st = true) /\
  (forall o, o ∈ w_bondIndexErases w' -> exists n st,
    t_bond db !! o = Some n /\ states w' !! n = Some st /\ bond_of (current_record st) <> Some o).
Proof.
  intros Hw Hr -> -> ->. split_and!.
  - intros n st' [[<- <-]|[_ Hl]]%lookup_insert_Some; [apply Hr|by apply (wi_states _ _ _ Hw)].
  - intros o n Hin. destruct (wi_upserts _ _ _ Hw _ _ Hin) as (Ho & st0 & Hl & Hd). split; [done|].
    destruct (decide (n = name)) as [->|]; [|exists st0; by rewrite lookup_insert_ne].
    exists st. rewrite lookup_insert_eq. split; [done|]. by eapply (rp_dirty _ _ _ Hr).
  - intros o Hin. destruct (wi_erases _ _ _ Hw _ Hin) as (n & st0 & Hb & Hl & Hne).
    destruct (decide (n = name)) as [->|]; [|exists n, st0; by rewrite lookup_insert_ne].
    exists name, st. rewrite lookup_insert_eq. split_and!; [done..|]. by apply (rp_erased _ _ _ Hr).
Qed.

Lemma set_index_inv w name st :
  work_inv db past w -> replaces w name st -> work_inv db past (indexBondOutpoint name st (set_state name st w)).
Proof.
  intros Hw Hr. set (w1 := set_state name st w).
  destruct (index_rest name st w1) as (Es & Eu & Ee & _).
  destruct (index_maps name st w1) as [Hown Hout].
  - apply (wi_owners _ _ _ Hw).
  - intros o n Ho Hb. change (bondOutpointOwners w !! o = Some n) in Hb.
    apply (wi_owners _ _ _ Hw) in Hb. rewrite (wi_outpoints _ _ _ Hw) in Hb.
    destruct (states w !! n) as [st'|] eqn:E; [|done]. cbn in Hb.
    apply (origin_inj o); [apply (state_origin n st')|apply (state_origin name st)]; try done; [|apply Hr].
    by apply (wi_states _ _ _ Hw).
  - destruct (replace_lists w name st (indexBondOutpoint name st w1) Hw Hr) as (Hs & Hu & He); try done.
    split; [done| |done|done|done].
    intros n. rewrite Hout, Es. cbn [states w1 set_state]. destruct (decide (n = name)) as [->|].
    + by rewrite lookup_insert_eq.
    + rewrite lookup_insert_ne by done. apply (wi_outpoints _ _ _ Hw).
Qed.

Lemma set_state_inv w name st st0 :
  work_inv db past w -> replaces w name st -> states w !! name = Some st0 ->
  bond_of (current_record st) = bond_of (current_record st0) -> work_inv db past (set_state name st w).
Proof.
  intros Hw Hr Hl Hb. destruct (replace_lists w name st (set_state name st w) Hw Hr) as (Hs & Hu & He); try done.
  split; [done| |apply (wi_owners _ _ _ Hw)|done|done].
  intros n. cbn [nicknameBondOutpoints set_state states]. rewrite (wi_outpoints _ _ _ Hw).
  destruct (decide (n = name)) as [->|]; [|by rewrite lookup_insert_ne].
  by rewrite lookup_insert_eq, Hl.
Qed.

Lemma extends_refl w : extends db w w.
Proof. by split. Qed.
Lemma extends_trans w1 w2 w3 : extends db w1 w2 -> extends db w2 w3 -> extends db w1 w3.
Proof.
  intros [V1 S1 U1 E1 C1] [V2 S2 U2 E2 C2]. split; [intros; by rewrite V2|eauto|congruence..].
Qed.

Lemma loadState_spec w name st w' :
  work_inv db past w -> NormalizeKeyName name = name -> loadState db name w = (st, w') ->
  work_inv db past w' /\ extends db w w' /\ states w' !! name = Some st.
Proof.
  intros Hw Hn. unfold loadState. destruct (states w !! name) as [st0|] eqn:E.
  { cbn [from_option Datatypes.id]. rewrite (so_loaded _ _ _ _ (wi_states _ _ _ Hw _ _ E)). intros [= <- <-].
    split_and!; [done|apply extends_refl|done]. }
  cbn [from_option Datatypes.id loaded empty_working]. unfold ReadNickname. rewrite Hn. intros [= Est <-]. rewrite Est.
  assert (Hst : replaces w name st).
  { split; [|by rewrite E|].
    - subst st. destruct (t_nickname db !! name) as [i|] eqn:Ei; split; cbn; rewrite ?Ei; try done; auto.
      + intros _. split; [by apply (inv_name _ (proj1 Hchain))|by apply (proj2 Hchain name)].
    - intros o He Hb _. destruct (wi_erases _ _ _ Hw _ He) as (n & st' & Hb' & Hl & _). congruence. }
  split_and!; [by apply set_index_inv| |].
  - destruct (index_rest name st (set_state name st w)) as (Es & Eu & Ee & Ec).
    split; [|intros n st' Hl|done..].
    + intros n. unfold view. rewrite Es. cbn [states set_state]. destruct (decide (n = name)) as [->|].
      * rewrite lookup_insert_eq, E, <- Est. by destruct (t_nickname db !! name).
      * by rewrite lookup_insert_ne.
    + rewrite Es. cbn [states set_state]. rewrite lookup_insert_ne; [done|]. intros ->. congruence.
  - rewrite (proj1 (index_rest _ _ _)). cbn [states set_state]. apply lookup_insert_eq.
Qed.

(** The bond of a name is found, and what is found is loaded and has that outpoint. *)
Lemma lookup_spec w o r w' :
  work_inv db past w -> lookupBondNicknameByOutpoint db o w = (r, w') ->
  work_inv db past w' /\ extends db w w' /\
  (forall name, bond_of (view db w name) = Some o -> r = Some name) /\
  (forall name, r = Some name -> (exists st, states w' !! name = Some st) /\
     (t_bond db !! o = Some name \/ bond_of (view db w name) = Some o)).
Proof.
  intros Hw. unfold lookupBondNicknameByOutpoint, ReadNicknameByBondOutpoint.
  destruct (bondOutpointOwners w !! o) as [n|] eqn:Eo.
  { intros [= <- <-]. apply (wi_owners _ _ _ Hw) in Eo. rewrite (wi_outpoints _ _ _ Hw) in Eo.
    destruct (states w !! n) as [st|] eqn:E; [|done]. cbn in Eo.
    assert (Hv : bond_of (view db w n) = Some o) by (unfold view; by rewrite E).
    split_and!; [done|apply extends_refl|..].
    - intros name Hb. f_equal. apply (origin_inj o); by eapply view_origin.
    - intros name [= <-]. split; [by exists st|by right]. }
  assert (Hview : forall name, bond_of (view db w name) = Some o -> t_bond db !! o = Some name).
  { intros name Hb. unfold view in Hb. destruct (states w !! name) as [st|] eqn:E.
    - assert (bondOutpointOwners w !! o = Some name); [|congruence].
      apply (wi_owners _ _ _ Hw). by rewrite (wi_outpoints _ _ _ Hw), E.
    - by apply (bond_of_index _ (proj1 Hchain)). }
  destruct (t_bond db !! o) as [n|] eqn:Eb.
  - destruct (loadState db n w) as [st w1] eqn:El. cbn [snd]. intros [= <- <-].
    destruct (inv_bond_name _ (proj1 Hchain) _ _ Eb) as [i Hi].
    destruct (loadState_spec w n st w1 Hw (stored_normal _ _ Hi) El) as (Hw1 & Hx & Hl).
    split_and!; [done|done|..].
    + intros name Hb. by apply Hview.
    + intros name [= <-]. split; [by exists st|by left].
  - intros [= <- <-]. split_and!; [done|apply extends_refl|..]; [|done].
    intros name Hb. by apply Hview in Hb.
Qed.

Lemma collect_spec inputs : forall spent w spent' w',
  work_inv db past w -> collect_spent db inputs spent w = Ok (spent', w') ->
  work_inv db past w' /\ extends db w w' /\
  (forall name o, bond_of (view db w name) = Some o -> o ∈ prevout <$> inputs -> spent' !! name = Some o) /\
  (forall name o, spent !! name = Some o -> spent' !! name = Some o) /\
  (forall name o, spent' !! name = Some o -> spent !! name = Some o \/
     o ∈ prevout <$> inputs /\ (exists st, states w' !! name = Some st) /\
     (t_bond db !! o = Some name \/ bond_of (view db w name) = Some o)).
Proof.
  induction inputs as [|txin inputs IH]; intros spent w spent' w' Hw; cbn [collect_spent].
  { intros [= <- <-]. split_and!; [done|apply extends_refl| |done|by left]. intros name o _ []%elem_of_nil. }
  destruct (lookupBondNicknameByOutpoint db (prevout txin) w) as [r w1] eqn:El.
  destruct (lookup_spec _ _ _ _ Hw El) as (Hw1 & Hx & Hfound & Hr).
  assert (Hgo : forall spent1, collect_spent db inputs spent1 w1 = Ok (spent', w') ->
    (forall name, r = Some name -> spent1 !! name = Some (prevout txin)) ->
    (forall name o, spent !! name = Some o -> spent1 !! name = Some o) ->
    (forall name o, spent1 !! name = Some o -> spent !! name = Some o \/ r = Some name /\ o = prevout txin) ->
    work_inv db past w' /\ extends db w w' /\
    (forall name o, bond_of (view db w name) = Some o -> o ∈ prevout <$> txin :: inputs -> spent' !! name = Some o) /\
    (forall name o, spent !! name = Some o -> spent' !! name = Some o) /\
    (forall name o, spent' !! name = Some o -> spent !! name = Some o \/
       o ∈ prevout <$> txin :: inputs /\ (exists st, states w' !! name = Some st) /\
       (t_bond db !! o = Some name \/ bond_of (view db w name) = Some o))).
  { intros spent1 E Hnew Hold Honly. destruct (IH _ _ _ _ Hw1 E) as (Hw' & Hx' & Hall & Hkeep & Hin).
    split_and!; [done|by eapply extends_trans|..]; [|by auto|].
    - intros name o Hb. rewrite fmap_cons. intros [->|Ho]%elem_of_cons; [by apply Hkeep, Hnew, Hfound|].
      apply Hall; [|done]. by rewrite (ext_view _ _ _ Hx).
    - intros name o Ho. rewrite fmap_cons. destruct (Hin _ _ Ho) as [Ho1|(Hi & Hl & Hb)].
      + destruct (Honly _ _ Ho1) as [|[-> ->]]; [by left|right].
        destruct (Hr _ eq_refl) as [[st Hl] Hb]. split_and!; [by left| |done].
        exists st. by apply (ext_states _ _ _ Hx').
      + right. rewrite (ext_view _ _ _ Hx) in Hb. split_and!; [by right|done|done]. }
  destruct r as [n|]; [|intros E; apply (Hgo _ E); [done|done|by left]].
  destruct (spent !! n) as [o|] eqn:En.
  - destruct (decide (o = prevout txin)) as [->|].
    + rewrite bool_decide_eq_true_2 by done. cbn [negb]. intros E. apply (Hgo _ E); [by intros ? [= <-]|done|by left].
    + rewrite bool_decide_eq_false_2 by done. done.
  - intros E. apply (Hgo _ E).
    + intros name [= <-]. apply lookup_insert_eq.
    + intros name o Ho. rewrite lookup_insert_ne; [done|]. intros ->. congruence.
    + intros name o [[<- <-]|[_ Ho]]%lookup_insert_Some; [by right|by left].
Qed.

End Loading.

(** ** One transaction *)

Section Transaction.
Context `{AddressOps} `{CryptoOps}.
Variable mapArgs : gmap string string.

(** What a change does beside the record. *)
Definition change_ok (c : OpContext) (cur : option NicknameInfo) (ch : Change) : Prop :=
  (ch_registered ch = if decide (op_type (c_op c) = REGISTER) then 1 else 0) /\
  (if ch_dirty ch
   then ch_erases ch = [] /\
     (ch_upserts ch = [] \/ exists o, bond_of cur = Some o /\ ch_upserts ch = [(o, name_of c)]) /\
     (ch_reindex ch = false -> bond_of (Some (ch_info ch)) = bond_of cur)
   else ch_reindex ch = false /\ ch_upserts ch = [] /\
     exists o, spends_bond c o /\ bond_of cur <> Some o /\ ch_erases ch = [o]).

Lemma apply_operation_change authf c cur ch :
  known_type (op_type (c_op c)) = true -> (forall i, cur = Some i -> clean i) ->
  apply_operation mapArgs authf c cur = Ok ch -> change_ok c cur ch.
Proof.
  intros Hk Hc. unfold apply_operation, change_ok.
  destruct (op_type (c_op c)) eqn:Ht; try done; [unfold do_register|unfold do_update|unfold do_transfer|unfold do_renew
    |unfold do_release|unfold do_claim]; intros E; destruct cur as [i|]; inv_ok; try done;
    first [rewrite decide_True by done | rewrite decide_False by done];
    cbn [ch_registered ch_dirty ch_erases ch_upserts ch_reindex ch_info].
  - split_and!; try done.
    destruct (HasBondOutpoint i && _) eqn:Hh; [right|by left]. apply andb_true_iff in Hh as [Hh _].
    exists (GetBondOutpoint i). split; [|done]. by apply bond_of_Some.
  - split_and!; [done..|by left|done].
  - split_and!; [done..|by left|]. intros _. unfold update_info. by rewrite !bond_of_alt.
  - split_and!; [done..|by left|done].
  - split_and!; [done..|by left|done].
  - split_and!; [done..|by left|]. intros _. rewrite !bond_of_alt. unfold release_info.
    cbn [bondClaimed bondTxid bondVout negb andb]. specialize (Hc i eq_refl). unfold clean in Hc.
    destruct (bondClaimed i); [|done]. by rewrite Hc.
  - apply negb_false_iff, spends_one_own_ok in E0 as (o & Hs & Ho). pose proof (claims_current_ok c i o Hs) as Hcl.
    destruct (claims_current c i); inv_ok; cbn [ch_registered ch_dirty ch_erases ch_upserts ch_reindex ch_info].
    + split_and!; [done..|by left|done].
    + split_and!; [done..|]. exists (spent_own c). split_and!; [done| |done].
      intros Hb. by apply Hcl in Hb.
Qed.

Variables (db : NicknameStateDB) (past : list CTransaction) (tx : CTransaction).
Hypothesis Hchain : chain_inv db.
Hypothesis Htxs : txs_ok db (past ++ [tx]).

Lemma past_ok : txs_ok db past.
Proof.
  destruct Htxs as [Hnd Hnew]. rewrite fmap_app in *. split.
  - by apply NoDup_app in Hnd as [? _].
  - intros o name Hb Hin. apply (Hnew o name Hb), elem_of_app. by left.
Qed.

Lemma born_mono o name : born past o name -> born (past ++ [tx]) o name.
Proof. intros (t & op & Hin & Hr). exists t, op. split; [|done]. apply elem_of_app. by left. Qed.

Lemma work_inv_mono w : work_inv db past w -> work_inv db (past ++ [tx]) w.
Proof.
  intros [Hs Ho Hw Hu He]. split; [|done|done| |done].
  - intros name st Hl. destruct (Hs _ _ Hl) as [? ? ? ? ? ? Hb]. split; [done..|].
    intros o Hx. destruct (Hb o Hx); [by left|right; by apply born_mono].
  - intros o name Hin. destruct (Hu _ _ Hin) as [[Hx|Hx] Hl]; (split; [|done]); [by left|right; by apply born_mono].
Qed.

Lemma born_here op o : ExtractNicknameOperationFromTx tx = Ok (Some op) -> op_hash o = tx_hash tx ->
  born (past ++ [tx]) o (op_nickname op).
Proof. intros E Ho. exists tx, op. split_and!; [|done..]. apply elem_of_app. right. by apply list_elem_of_singleton. Qed.

(** The working state of the name after a legal change. *)
Lemma write_back_replaces op spent multiplier height undo w st ch :
  let c := mkOpContext tx op spent multiplier height in
  ExtractNicknameOperationFromTx tx = Ok (Some op) ->
  work_inv db past w -> states w !! op_nickname op = Some st ->
  legal mapArgs (authorized tx undo) c (current_record st) (Some (ch_info ch)) ->
  replaces db (past ++ [tx]) w (op_nickname op)
    (mkWorking (loaded st) (existedBefore st) true true (before st) (ch_info ch)).
Proof.
  intros c Hop Hw Hl Hlegal. pose proof (wi_states _ _ _ Hw _ _ Hl) as Hst.
  assert (Hcur : forall i, current_record st = Some i -> nickname i = name_of c /\ clean i).
  { unfold current_record. intros i. destruct (existsNow st) eqn:Ee; [|done]. intros [= <-]. by apply (so_name _ _ _ _ Hst). }
  destruct (legal_record _ _ _ _ _ Hlegal Hcur) as (i & [= <-] & Hname & Hclean).
  assert (Hbond : forall o, bond_of (Some (ch_info ch)) = Some o ->
    bond_of (current_record st) = Some o \/ op_hash o = tx_hash tx).
  { intros o Ho. destruct (legal_bond _ _ c _ _ o ltac:(intros i Hi; by apply Hcur) Hlegal Ho); auto. }
  split; [split; cbn|done|].
  - apply Hst.
  - apply Hst.
  - apply Hst.
  - done.
  - done.
  - done.
  - intros o Ho. destruct (Hbond o Ho) as [Hb|Hh]; [|right; by apply born_here].
    destruct (so_bond _ _ _ _ Hst o Hb); [by left|right; by apply born_mono].
  - intros o Hin Hb Ho. cbn in Ho. destruct (Hbond o Ho) as [Hx|Hh].
    + destruct (wi_erases _ _ _ Hw _ Hin) as (n & st' & Hb' & Hl' & Hne). congruence.
    + apply (txs_new _ _ Htxs _ _ Hb). rewrite Hh. apply list_elem_of_fmap. exists tx. split; [done|].
      apply elem_of_app. right. by apply list_elem_of_singleton.
Qed.

Lemma lists_inv hist w ups ers count :
  work_inv db hist w ->
  (forall o n, (o, n) ∈ ups -> (t_bond db !! o = Some n \/ born hist o n) /\
     exists st, states w !! n = Some st /\ dirty st = true) ->
  (forall o, o ∈ ers -> exists n st,
     t_bond db !! o = Some n /\ states w !! n = Some st /\ bond_of (current_record st) <> Some o) ->
  work_inv db hist (mkWork (states w) (nicknameBondOutpoints w) (bondOutpointOwners w)
    (w_bondIndexUpserts w ++ ups) (w_bondIndexErases w ++ ers) count).
Proof.
  intros [Hs Ho Hw Hu He] Hups Hers. split; [done|done|done|..]; cbn.
  - intros o n [Hin|Hin]%elem_of_app; auto.
  - intros o [Hin|Hin]%elem_of_app; auto.
Qed.

Lemma small_spent (spent : gmap string COutPoint) n o m :
  (1 <? size spent)%nat = false -> spent !! n = Some o -> is_Some (spent !! m) -> spent = {[ n := o ]} /\ n = m.
Proof.
  intros Hs Hn [o' Hm]. apply Nat.ltb_ge in Hs.
  assert (spent = {[ n := o ]}) as ->.
  { rewrite <- (insert_delete_id _ _ _ Hn) in Hs |- *. rewrite map_size_insert_None in Hs by apply lookup_delete_eq.
    assert (size (delete n spent) = 0%nat) as ->%map_size_empty_inv by lia. done. }
  split; [done|]. by apply lookup_singleton_Some in Hm as [? _].
Qed.

(** Writing a legal change back keeps the invariant and is the step of the registry. *)
Lemma write_back_spec op spent multiplier height undo w st ch :
  let c := mkOpContext tx op spent multiplier height in
  ExtractNicknameOperationFromTx tx = Ok (Some op) ->
  work_inv db past w -> states w !! op_nickname op = Some st ->
  legal mapArgs (authorized tx undo) c (current_record st) (outcome (current_record st) ch) ->
  change_ok c (current_record st) ch ->
  (forall o, spent !! op_nickname op = Some o -> t_bond db !! o = Some (op_nickname op) \/ bond_of (current_record st) = Some o) ->
  let w' := write_back (op_nickname op) st ch w in
  work_inv db (past ++ [tx]) w' /\
  view db w' (op_nickname op) = outcome (current_record st) ch /\
  forall n, n <> op_nickname op -> view db w' n = view db w n.
Proof.
  intros c Hop Hw Hl Hlegal [_ Hch] Hspent w'. pose proof (work_inv_mono _ Hw) as Hw2.
  unfold w', write_back, outcome in *. clear w'. destruct (ch_dirty ch) eqn:Hd.
  - destruct Hch as (-> & Hups & Hidx).
    pose proof (write_back_replaces op spent multiplier height undo w st ch Hop Hw Hl Hlegal) as Hr.
    set (st' := mkWorking _ _ _ _ _ _) in *.
    set (w3 := if ch_reindex ch then _ else _).
    assert (Hw3 : work_inv db (past ++ [tx]) w3 /\ states w3 = <[op_nickname op := st']> (states w)).
    { subst w3. destruct (ch_reindex ch).
      - split; [by apply set_index_inv|]. apply (index_rest _ _ (set_state _ _ w)).
      - split; [|done]. eapply set_state_inv; [done|done|exact Hl|]. by apply Hidx. }
    destruct Hw3 as [Hw3 Es]. split_and!.
    + apply lists_inv; [done| |by intros ? []%elem_of_nil]. intros o n Hin.
      destruct Hups as [Hx|(o' & Hb & Hx)]; rewrite Hx in Hin; [by apply elem_of_nil in Hin|].
      apply list_elem_of_singleton in Hin as [= -> ->]. split.
      * by apply (state_origin db (past ++ [tx]) Hchain (op_nickname op) st), Hb; apply (wi_states _ _ _ Hw2).
      * exists st'. by rewrite Es, lookup_insert_eq.
    + unfold view. cbn [states]. by rewrite Es, lookup_insert_eq.
    + intros n Hn. unfold view. cbn [states]. by rewrite Es, lookup_insert_ne.
  - destruct Hch as (-> & -> & o & Hs & Hb & ->).
    assert (Es : states (set_state (op_nickname op) st w) = states w) by by apply insert_id.
    assert (Ew : set_state (op_nickname op) st w = w) by (destruct w; unfold set_state in *; cbn in *; by rewrite Es).
    rewrite Ew. split_and!.
    + apply lists_inv; [done|by intros ?? []%elem_of_nil|]. intros o' ->%list_elem_of_singleton.
      exists (op_nickname op), st. split_and!; [|done..].
      destruct (Hspent o); [|done|done]. unfold spends_bond in Hs. cbn in Hs. by rewrite Hs, lookup_singleton_eq.
    + unfold view. cbn [states]. by rewrite Hl.
    + done.
Qed.

Lemma process_tx_spec multiplier height undo fee w w' :
  work_inv db past w -> process_tx mapArgs db multiplier height tx undo fee w = Ok w' ->
  work_inv db (past ++ [tx]) w' /\ tx_step mapArgs multiplier height tx undo fee (view db w) (view db w') /\
  (in_u32 (w_registeredCount w) -> w_registeredCount w' = u32 (w_registeredCount w + registrations tx)).
Proof.
  intros Hw. unfold process_tx. destruct (ExtractNicknameOperationFromTx tx) as [parsed|] eqn:Hop; [|done].
  cbn [mbind result_bind]. destruct (collect_spent db (vin tx) ∅ w) as [[spent w1]|] eqn:Hcol; [|done].
  cbn [mbind result_bind].
  destruct (collect_spec db past Hchain past_ok _ _ _ _ _ Hw Hcol) as (Hw1 & Hx1 & Hall & _ & Hin).
  destruct parsed as [op|].
  2: { intros E. inv_ok. apply negb_false_iff, bool_decide_eq_true in E0. subst spent.
       split_and!; [by apply work_inv_mono| |].
       - apply tx_plain; [done| |apply (ext_view _ _ _ Hx1)]. intros name o Hb Ho. by specialize (Hall _ _ Hb Ho).
       - intros Hc. unfold registrations. rewrite Hop, (ext_count _ _ _ Hx1), Z.add_0_r. symmetry. by apply u32_id. }
  intros E. apply reject_ok in E as [Hcb E]. apply bind_ok in E as ([] & Hfee & E).
  destruct (loadState db (op_nickname op) w1) as [st w2] eqn:Hload.
  apply bind_ok in E as ([] & Hnames & E). apply bind_ok in E as (ch & Happ & [= <-]).
  destruct (extract_name _ _ Hop) as [Hnorm Hknown].
  destruct (loadState_spec db past Hchain past_ok _ _ _ _ Hw1 Hnorm Hload) as (Hw2 & Hx2 & Hl).
  assert (Hcur : current_record st = view db w (op_nickname op)).
  { rewrite <- (ext_view _ _ _ Hx1), <- (ext_view _ _ _ Hx2). unfold view. by rewrite Hl. }
  assert (Hcl : forall i, current_record st = Some i -> clean i).
  { unfold current_record. intros i. destruct (existsNow st) eqn:Ee; [|done]. intros [= <-].
    by apply (so_name _ _ _ _ (wi_states _ _ _ Hw2 _ _ Hl)). }
  set (c := mkOpContext tx op spent multiplier height) in *.
  pose proof (apply_operation_change _ c _ _ Hknown Hcl Happ) as Hch.
  apply (apply_operation_sound mapArgs _ (fun tx => authorized tx undo)) in Happ;
    [|intros; apply TxHasOwnerAuthorizationInput_ok|by unfold known_operation; cbn; destruct (op_type op)].
  destruct (write_back_spec op spent multiplier height undo w2 st ch Hop Hw2 Hl Happ Hch) as (Hw' & Hv & Hother).
  { intros o Ho. destruct (Hin _ _ Ho) as [Hx|(_ & _ & Hb)]; [done|]. by rewrite Hcur. }
  split_and!; [done| |].
  2: { intros _. unfold registrations. rewrite Hop, <- (ext_count _ _ _ Hx1), <- (ext_count _ _ _ Hx2).
       pose proof (proj1 Hch) as Hreg. cbn [c_op c] in Hreg. cbn match. rewrite <- Hreg.
       unfold write_back. cbn [w_registeredCount]. f_equal. f_equal.
       destruct (ch_reindex ch); [|done]. apply (index_rest _ _ (set_state _ _ w2)). }
  unfold check_spent_names in Hnames. rewrite !reject_ok in Hnames. destruct Hnames as (Hsize & Hown & _).
  apply (tx_operation _ _ _ _ _ _ _ _ op spent); try done.
  - intros required Hreq. unfold check_fee in Hfee. rewrite Hreq in Hfee. destruct (Z.ltb_spec fee required); [done|lia].
  - intros name o Hb Ho. apply (small_spent spent name o); [done|by apply Hall|].
    apply andb_false_iff in Hown as [Hown|Hown]; apply negb_false_iff, bool_decide_eq_true in Hown; [|done].
    specialize (Hall _ _ Hb Ho). by rewrite Hown in Hall.
  - intros name o Ho. by destruct (Hin _ _ Ho) as [Hx|[]].
  - rewrite Hv, <- Hcur. done.
  - intros name Hn. rewrite Hother by done. by rewrite (ext_view _ _ _ Hx2), (ext_view _ _ _ Hx1).
Qed.

End Transaction.

(** ** The whole block *)

Section Block.
Context `{AddressOps} `{CryptoOps}.
Variable mapArgs : gmap string string.
Variable db : NicknameStateDB.
Hypothesis Hchain : chain_inv db.

Lemma process_txs_spec multiplier height txs : forall past undos fees w w',
  txs_ok db (past ++ txs) -> (length txs <= length undos)%nat -> (length txs <= length fees)%nat ->
  work_inv db past w -> process_txs mapArgs db multiplier height txs undos fees w = Ok w' ->
  work_inv db (past ++ txs) w' /\ block_steps mapArgs multiplier height txs undos fees (view db w) (view db w') /\
  (in_u32 (w_registeredCount w) ->
   w_registeredCount w' = u32 (w_registeredCount w + foldr (fun tx n => registrations tx + n) 0 txs)).
Proof.
  induction txs as [|tx txs IH]; intros past undos fees w w' Htxs Hu Hf Hw; cbn [process_txs].
  { intros [= <-]. rewrite app_nil_r. split_and!; [done|by constructor|]. intros Hc. cbn. rewrite Z.add_0_r.
    symmetry. by apply u32_id. }
  cbn [length] in Hu, Hf. destruct undos as [|undo undos], fees as [|fee fees]; cbn [length] in *; [lia..|]. intros (w1 & Hp & E)%bind_ok.
  assert (Htx : txs_ok db (past ++ [tx])).
  { destruct Htxs as [Hnd Hnew]. split.
    - rewrite !fmap_app in *. cbn in Hnd |- *. rewrite (cons_middle (tx_hash tx)), app_assoc in Hnd.
      by apply NoDup_app in Hnd as [? _].
    - intros o n Hb Hin. apply (Hnew o n Hb). rewrite fmap_app, elem_of_app in Hin |- *. set_solver. }
  destruct (process_tx_spec mapArgs db past tx Hchain Htx _ _ _ _ _ _ Hw Hp) as (Hw1 & Hs1 & Hc1).
  destruct (IH (past ++ [tx]) undos fees w1 w') as (Hw' & Hs' & Hc'); [by rewrite <- app_assoc|lia|lia|done|done|].
  rewrite <- app_assoc in Hw'. split_and!; [done|by econstructor|]. intros Hc. specialize (Hc1 Hc). cbn [foldr].
  rewrite Hc' by (rewrite Hc1; apply u32_range). rewrite Hc1. unfold u32, wrap_u. rewrite Zplus_mod_idemp_l. f_equal. lia.
Qed.

Lemma empty_work_inv : work_inv db [] empty_work.
Proof.
  split; cbn.
  - intros name st. by rewrite lookup_empty.
  - intros name. by rewrite !lookup_empty.
  - intros o name. by rewrite !lookup_empty.
  - by intros o name ?%elem_of_nil.
  - by intros o ?%elem_of_nil.
Qed.

Variables (txs : list CTransaction) (w : Work) (height : Z).
Hypothesis Htxs : txs_ok db txs.
Hypothesis Hw : work_inv db txs w.

Notation u := (updates_of w height).
Notation js := (jobs (upserts u) (erases u)).

Lemma elem_of_string_entries {V} (m : gmap string V) k v : (k, v) ∈ string_entries m <-> m !! k = Some v.
Proof. unfold string_entries. rewrite (merge_sort_Permutation _ (map_to_list m)). apply elem_of_map_to_list. Qed.

Lemma elem_of_dirty name st : (name, st) ∈ dirty_states w <-> states w !! name = Some st /\ dirty st = true.
Proof. unfold dirty_states. rewrite list_elem_of_filter, elem_of_string_entries. cbn. naive_solver. Qed.

Lemma dirty_exists e : e ∈ dirty_states w -> existsNow e.2 = true.
Proof.
  destruct e as [name st]. intros [Hl Hd]%elem_of_dirty. by apply (so_dirty _ _ _ _ (wi_states _ _ _ Hw _ _ Hl)).
Qed.

Lemma block_erases : erases u = [].
Proof.
  unfold updates_of. cbn [erases]. rewrite filter_none; [done|]. apply Forall_forall.
  intros e He. by rewrite (dirty_exists e He).
Qed.

Lemma block_upserts : upserts u = current <$> (dirty_states w).*2.
Proof.
  unfold updates_of. cbn [upserts]. f_equal. f_equal. apply filter_all, Forall_forall, dirty_exists.
Qed.

Lemma block_jobs : js = (fun e => (e.1, Some (current e.2))) <$> dirty_states w.
Proof.
  unfold jobs. rewrite block_erases, block_upserts. cbn [fmap list_fmap]. rewrite app_nil_r, <- !list_fmap_compose.
  apply list_fmap_ext. intros k [name st] Hk%list_elem_of_lookup_2. cbn.
  pose proof (dirty_exists _ Hk) as He. apply elem_of_dirty in Hk as [Hl Hd].
  pose proof (wi_states _ _ _ Hw _ _ Hl) as Hst. destruct (so_name _ _ _ _ Hst He) as [Hn _].
  rewrite Hn, (so_normal _ _ _ _ Hst). f_equal. f_equal. destruct (current st). cbn in *. by subst.
Qed.

Lemma elem_of_jobs name new :
  (name, new) ∈ js <-> exists st, states w !! name = Some st /\ dirty st = true /\ new = Some (current st).
Proof.
  rewrite block_jobs, list_elem_of_fmap. split.
  - intros [[n st] [[= -> ->] [Hl Hd]%elem_of_dirty]]. eauto.
  - intros (st & Hl & Hd & ->). exists (name, st). split; [done|]. by apply elem_of_dirty.
Qed.

Lemma job_record name new : (name, new) ∈ js -> new = view db w name.
Proof.
  intros (st & Hl & Hd & ->)%elem_of_jobs. unfold view, current_record. rewrite Hl.
  by rewrite (so_dirty _ _ _ _ (wi_states _ _ _ Hw _ _ Hl) Hd).
Qed.

Lemma not_job name : name ∉ js.*1 -> view db w name = t_nickname db !! name.
Proof.
  intros Hno. unfold view. destruct (states w !! name) as [st|] eqn:Hl; [|done].
  apply (so_same _ _ _ _ (wi_states _ _ _ Hw _ _ Hl)). destruct (dirty st) eqn:Hd; [|done].
  destruct Hno. apply list_elem_of_fmap. exists (name, Some (current st)). split; [done|]. apply elem_of_jobs. eauto.
Qed.

Lemma born_unknown o name : born txs o name -> t_bond db !! o = None.
Proof.
  intros Hb. destruct (t_bond db !! o) as [n|] eqn:E; [|done].
  apply (txs_new _ _ Htxs) in E. by apply born_hash in Hb.
Qed.

Lemma block_jobs_ok : jobs_ok db js.
Proof.
  split.
  - rewrite block_jobs, <- list_fmap_compose. change (NoDup ((dirty_states w).*1)).
    unfold dirty_states, string_entries. apply (NoDup_fmap_fst (filter _ _)).
    + intros n s1 s2 [_ H1]%list_elem_of_filter [_ H2]%list_elem_of_filter.
      apply elem_of_string_entries in H1, H2. congruence.
    + apply NoDup_filter. rewrite merge_sort_Permutation. apply NoDup_map_to_list.
  - intros name new o Hin Ho. apply elem_of_jobs in Hin as (st & Hl & Hd & ->).
    pose proof (wi_states _ _ _ Hw _ _ Hl) as Hst. destruct (so_bond _ _ _ _ Hst o) as [Hb|Hb].
    + unfold current_record. by rewrite (so_dirty _ _ _ _ Hst Hd).
    + by right.
    + left. by eapply born_unknown.
  - intros n1 i1 n2 i2 o H1 H2 Ho1 Ho2. apply job_record in H1 as ->, H2 as ->.
    apply (origin_inj db txs Htxs o); by eapply view_origin.
  - intros name new (st & Hl & _)%elem_of_jobs. apply (so_normal _ _ _ _ (wi_states _ _ _ Hw _ _ Hl)).
Qed.

(** ** The batch of the block *)

Variables blockHash : Z.
Notation db' := (WriteNicknameBatch db (upserts u) (erases u) (bondIndexUpserts u) (bondIndexErases u)
  blockHash (blockHeight u) (registeredCount u) (undoEntries u)).

Lemma block_view name : t_nickname db' !! name = view db w name.
Proof.
  destruct (decide (name ∈ js.*1)) as [[new Hin]%jobs_elem|Hno].
  - rewrite (after_job _ _ _ _ _ _ _ _ _ block_jobs_ok _ new Hin). by apply job_record.
  - rewrite after_other by done. symmetry. by apply not_job.
Qed.

Lemma block_bonds_ok :
  bonds_ok db (upserts u) (erases u) (bondIndexUpserts u) (bondIndexErases u)
    blockHash (blockHeight u) (registeredCount u) (undoEntries u).
Proof.
  split.
  - intros o name Hin. rewrite block_view. intros Hb.
    destruct (wi_erases _ _ _ Hw _ Hin) as (n & st & Hn & Hl & Hne).
    assert (n = name) as -> by (apply (origin_inj db txs Htxs o); [by left|by eapply view_origin]).
    unfold view in Hb. by rewrite Hl in Hb.
  - intros o name Hin. destruct (wi_upserts _ _ _ Hw _ _ Hin) as (_ & st & Hl & Hd).
    pose proof (wi_states _ _ _ Hw _ _ Hl) as Hst.
    rewrite (so_normal _ _ _ _ Hst), block_view. unfold view, current_record.
    rewrite Hl, (so_dirty _ _ _ _ Hst Hd). by eexists.
  - intros o n name Hin Hb. rewrite block_view in Hb. destruct (wi_upserts _ _ _ Hw _ _ Hin) as (Ho & st & Hl & Hd).
    rewrite (so_normal _ _ _ _ (wi_states _ _ _ Hw _ _ Hl)).
    apply (origin_inj db txs Htxs o); [by eapply view_origin|done].
  - intros name o (st & _ & _ & [=])%elem_of_jobs.
Qed.

Lemma block_chain_inv : chain_inv db'.
Proof.
  split; [apply batch_inv; [apply Hchain|apply block_jobs_ok|apply block_bonds_ok]|].
  intros name i. rewrite block_view. unfold view, current_record. destruct (states w !! name) as [st|] eqn:Hl.
  - destruct (existsNow st) eqn:He; [|done]. intros [= <-]. by apply (so_name _ _ _ _ (wi_states _ _ _ Hw _ _ Hl)).
  - apply Hchain.
Qed.

Lemma block_undo_ok : undo_ok db js (undoEntries u).
Proof.
  split.
  - intros e [[name st] [-> [Hl Hd]%elem_of_dirty]]%list_elem_of_fmap.
    pose proof (wi_states _ _ _ Hw _ _ Hl) as Hst. unfold restored, undo_entry. cbn [u_existedBefore u_nickname u_previousInfo fst snd].
    rewrite (so_normal _ _ _ _ Hst). pose proof (so_before _ _ _ _ Hst) as Hb. rewrite Hb.
    destruct (existedBefore st); [|done]. f_equal.
    apply (inv_name _ (proj1 Hchain)) in Hb. destruct (before st). cbn in *. by subst.
  - intros name [new (st & Hl & Hd & ->)%elem_of_jobs]%jobs_elem. exists (undo_entry (name, st)). split.
    + apply list_elem_of_fmap. exists (name, st). split; [done|]. by apply elem_of_dirty.
    + apply (so_normal _ _ _ _ (wi_states _ _ _ Hw _ _ Hl)).
Qed.

(** The bonds on record after the block were there or are outputs of it. *)
Lemma block_bonds_born o name : t_bond db' !! o = Some name -> is_Some (t_bond db !! o) \/ op_hash o ∈ tx_hash <$> txs.
Proof.
  change (t_bond db' !! o) with (rows Bond db' o). rewrite batch_rows_bond.
  destruct (decide (o ∈ (bondIndexUpserts u).*1)) as [Hu|Hu].
  { intros _. destruct (write_bonds_Some _ _ Hu) as (n & Hn & _). apply (wi_upserts _ _ _ Hw) in Hn as [[Hb|Hb] _]; [by left|].
    right. by apply born_hash in Hb. }
  rewrite write_bonds_None, erase_bonds_effect by done.
  destruct (decide (o ∈ bondIndexErases u)) as [|Hbes]; [by destruct (effect Bond o (js ≫= job_ops db))|].
  destruct (jobs_bond_cases db js (proj1 Hchain) block_jobs_ok o) as [(n & new & Hin & Hb & ->)|[_ [(n & new & Hin & Hb & ->)|[_ ->]]]]; cbn; [|done|by left].
  intros _. apply elem_of_jobs in Hin as (st & Hl & Hd & ->). pose proof (wi_states _ _ _ Hw _ _ Hl) as Hst.
  destruct (so_bond _ _ _ _ Hst o) as [Ho|Ho].
  - unfold current_record. by rewrite (so_dirty _ _ _ _ Hst Hd).
  - left. rewrite (bond_of_index db (proj1 Hchain) _ _ Ho). done.
  - right. by apply born_hash in Ho.
Qed.

End Block.

(** ** Connecting a block *)

Lemma empty_chain_inv `{CryptoOps} : chain_inv empty_db.
Proof.
  split; [split|]; cbn; try (intros ??; by rewrite lookup_empty).
  intros h name b. rewrite lookup_empty. split; [done|]. intros (_ & info & Hl & _). by rewrite lookup_empty in Hl.
Qed.

Section Connect.
Context `{AddressOps} `{CryptoOps}.
Variable mapArgs : gmap string string.

Lemma tx_step_proper multiplier height tx undo fee R S R' S' :
  (forall name, R name = S name) -> (forall name, R' name = S' name) ->
  tx_step mapArgs multiplier height tx undo fee R R' -> tx_step mapArgs multiplier height tx undo fee S S'.
Proof.
  intros HR HR' [Hop Hb Hsame|op spent Hop Hcb Hfee Hb Hin Hl Hsame].
  - apply tx_plain; [done|..].
    + intros name o. rewrite <- HR. apply Hb.
    + intros name. by rewrite <- HR, <- HR'.
  - apply (tx_operation _ _ _ _ _ _ _ _ op spent); try done.
    + intros name o. rewrite <- HR. apply Hb.
    + by rewrite <- HR, <- HR'.
    + intros name Hn. rewrite <- HR, <- HR'. by apply Hsame.
Qed.

Lemma block_steps_proper multiplier height txs undos fees R S R' S' :
  (forall name, R name = S name) -> (forall name, R' name = S' name) ->
  block_steps mapArgs multiplier height txs undos fees R R' -> block_steps mapArgs multiplier height txs undos fees S S'.
Proof.
  intros HR HR' Hs. revert S HR. induction Hs as [|tx undo fee txs undos fees R R1 R' Ht Hs IH]; intros S HR.
  - constructor. intros name. rewrite <- HR, <- HR'. done.
  - econstructor; [eapply tx_step_proper; [exact HR|reflexivity|exact Ht]|]. by apply IH.
Qed.

Definition records (db : NicknameStateDB) : registry := fun name => t_nickname db !! name.

(** The working states of the block, and the batch they make. *)
Lemma connect_work db block blockUndo fees height blockHash db' :
  chain_inv db -> txs_ok db (vtx block) ->
  connect_nicknames mapArgs db block blockUndo fees height blockHash = Ok db' ->
  exists w, let u := updates_of w height in
    db' = WriteNicknameBatch db (upserts u) (erases u) (bondIndexUpserts u) (bondIndexErases u) blockHash (blockHeight u) (registeredCount u) (undoEntries u) /\
    work_inv db (vtx block) w /\
    block_steps mapArgs (ReadPricingMultiplierPermille db) height (vtx block) (None :: (Some <$> vtxundo blockUndo)) fees
      (view db empty_work) (view db w) /\
    w_registeredCount w = u32 (foldr (fun tx n => registrations tx + n) 0 (vtx block)).
Proof.
  intros Hchain Htxs. unfold connect_nicknames, BuildNicknameBlockUpdates.
  rewrite bind_ok. intros (u & E & [= <-]). rewrite !reject_ok, bind_ok in E. destruct E as (Hu & Hf & w & Hp & [= <-]).
  destruct (process_txs_spec mapArgs db Hchain (ReadPricingMultiplierPermille db) height (vtx block) []
    (None :: (Some <$> vtxundo blockUndo)) fees empty_work w) as (Hw & Hs & Hcount); [done|..|apply empty_work_inv|done|].
  { cbn [length]. rewrite length_fmap. destruct (vtx block) as [|t ts]; [cbn; lia|]. zbool; cbn [length] in *; lia. }
  { clear Hu. zbool. lia. }
  cbn [app] in Hw. specialize (Hcount ltac:(cbn; unfold in_u32; lia)). cbn [w_registeredCount empty_work] in Hcount.
  rewrite Z.add_0_l in Hcount. exists w. by split_and!.
Qed.

Lemma connect_spec db block blockUndo fees height blockHash db' :
  chain_inv db -> txs_ok db (vtx block) ->
  connect_nicknames mapArgs db block blockUndo fees height blockHash = Ok db' ->
  chain_inv db' /\
  block_steps mapArgs (ReadPricingMultiplierPermille db) height (vtx block) (None :: (Some <$> vtxundo blockUndo)) fees
    (records db) (records db') /\
  (block_fresh db blockHash height -> disconnect_nicknames db' height blockHash = db) /\
  (let count := u32 (foldr (fun tx n => registrations tx + n) 0 (vtx block)) in
   (forall h, t_reg_count db' !! h = if decide (height = h) then Some count else t_reg_count db !! h) /\
   t_pricing db' = Some (next_pricing db height count)).
Proof.
  intros Hchain Htxs Hc. destruct (connect_work _ _ _ _ _ _ _ Hchain Htxs Hc) as (w & -> & Hw & Hs & Hcount). cbv zeta. split_and!.
  - by apply (block_chain_inv db Hchain (vtx block)).
  - assert (Hview : forall name, view db w name = records
      (WriteNicknameBatch db (upserts (updates_of w height)) (erases (updates_of w height))
        (bondIndexUpserts (updates_of w height)) (bondIndexErases (updates_of w height)) blockHash
        (blockHeight (updates_of w height)) (registeredCount (updates_of w height)) (undoEntries (updates_of w height))) name).
    { intros name. symmetry. by apply (block_view db Hchain (vtx block)). }
    eapply block_steps_proper; [|exact Hview|exact Hs]. intros name. unfold view. cbn. by rewrite lookup_empty.
  - intros Hfresh. unfold disconnect_nicknames, ReadNicknameUndo.
    change (t_undo ?d !! blockHash) with (rows Undo d blockHash). rewrite batch_rows_other by solve [apply _ | by intros []].
    cbn [effect tail_ops touch Undo]. rewrite on_key_case, decide_True by done. cbn [union option_union union_with option_union_with default].
    apply undo_batch; [apply Hchain|by apply (block_jobs_ok db Hchain (vtx block))|by apply (block_undo_ok db Hchain (vtx block))|done].
  - intros h. rewrite <- Hcount. cbn [registeredCount blockHeight updates_of].
    match goal with |- t_reg_count ?d !! h = _ => change (t_reg_count d !! h) with (rows RegCount d h) end.
    rewrite batch_rows_other by solve [apply _ | by intros []]. cbn [effect tail_ops touch RegCount].
    rewrite on_key_case. by destruct (decide _).
  - rewrite <- Hcount. cbn [registeredCount blockHeight updates_of].
    match goal with |- t_pricing ?d = _ => change (t_pricing d) with (rows Pricing_ d ()) end.
    by rewrite batch_rows_other by solve [apply _ | by intros []].
Qed.

(** The rows a block adds: bonds of its own outputs, undo records under its own
    hash, a pricing state in range. *)
Lemma connect_rows db block blockUndo fees height blockHash db' :
  chain_inv db -> txs_ok db (vtx block) ->
  connect_nicknames mapArgs db block blockUndo fees height blockHash = Ok db' ->
  (forall o name, t_bond db' !! o = Some name -> is_Some (t_bond db !! o) \/ op_hash o ∈ tx_hash <$> vtx block) /\
  (forall q, q <> blockHash -> t_undo db' !! q = t_undo db !! q /\ t_bond_undo db' !! q = t_bond_undo db !! q /\
    t_pricing_undo db' !! q = t_pricing_undo db !! q) /\
  (forall s, t_pricing db' = Some s -> (ReadNicknamePricingState db').2 = s).
Proof.
  intros Hchain Htxs Hc. destruct (connect_spec _ _ _ _ _ _ _ Hchain Htxs Hc) as (_ & _ & _ & _ & Hp).
  destruct (connect_work _ _ _ _ _ _ _ Hchain Htxs Hc) as (w & Edb & Hw & _ & _). split_and!.
  - rewrite Edb. by apply block_bonds_born.
  - intros q Hq. rewrite Edb. split_and!.
    + match goal with |- t_undo ?d !! _ = _ => change (t_undo d !! q) with (rows Undo d q) end.
      rewrite batch_rows_other by solve [apply _ | by intros []]. cbn [effect tail_ops touch Undo]. by rewrite on_key_case, decide_False.
    + match goal with |- t_bond_undo ?d !! _ = _ => change (t_bond_undo d !! q) with (rows BondUndo d q) end.
      rewrite batch_rows_other by solve [apply _ | by intros []]. cbn [effect tail_ops touch BondUndo]. by rewrite on_key_case, decide_False.
    + match goal with |- t_pricing_undo ?d !! _ = _ => change (t_pricing_undo d !! q) with (rows PricingUndo d q) end.
      rewrite batch_rows_other by solve [apply _ | by intros []]. cbn [effect tail_ops touch PricingUndo]. by rewrite on_key_case, decide_False.
  - intros s Hs. unfold ReadNicknamePricingState. rewrite Hs. rewrite Hp in Hs. injection Hs as <-. cbn [snd].
    unfold next_pricing, ComputeNextPricingState. cbn [lastProcessedHeight rollingRegistrations multiplierPermille].
    f_equal; [lia|]. match goal with |- _ = Nicknames.ClampPricingMultiplierPermille ?x => generalize x end. intros x.
    unfold Nicknames.ClampPricingMultiplierPermille, Nicknames.MIN_PRICING_MULTIPLIER_PERMILLE, Nicknames.MAX_PRICING_MULTIPLIER_PERMILLE.
    repeat case_match; zbool; lia.
Qed.

End Connect.
