(* ===== verification/NicknameChain.v ===== *)
(** * Nicknames along the chain

    The properties of connecting and disconnecting blocks, of the bonds and of
    the mempool, from the lemmas of [NicknameBlock] and [NicknameBatch]. *)

From S2P Require Import Prelude Nicknames Serialize Script Base58 Money NicknameOp Transaction Coins NicknameDB NicknameBatch NicknameState NicknameRules NicknameBlock.
Open Scope Z_scope.
Open Scope kubu_scope.

(** ** Unspent outputs *)

Section Coins.

Definition outputs_of (tx : CTransaction) : gmap COutPoint CTxOut :=
  list_to_map (imap (fun i out => (mkOutPoint (tx_hash tx) (Z.of_nat i), out)) (vout tx)).

(** The unspent outputs after a transaction. *)
Definition spend_tx (utxo : gmap COutPoint CTxOut) (tx : CTransaction) : gmap COutPoint CTxOut :=
  outputs_of tx ∪ foldr (fun txin m => delete (prevout txin) m) utxo (vin tx).

(** Every bond on record is unspent, with the recorded amount, and pays the owner. *)
Definition backed (R : registry) (utxo : gmap COutPoint CTxOut) : Prop :=
  forall name i o, R name = Some i -> bond_of (Some i) = Some o ->
  utxo !! o = Some (mkTxOut (bondAmount i) (GetScriptForRawPubKey (ownerPubKey i))).

Lemma outputs_of_hash tx o out : outputs_of tx !! o = Some out -> op_hash o = tx_hash tx.
Proof.
  intros Ho%elem_of_list_to_map_2. apply elem_of_lookup_imap in Ho as (i & x & [= -> _] & _). done.
Qed.

Lemma outputs_of_lookup tx n out :
  0 <= n -> vout tx !! Z.to_nat n = Some out -> outputs_of tx !! mkOutPoint (tx_hash tx) n = Some out.
Proof.
  intros Hn Hl. apply elem_of_list_to_map_1'.
  - intros out' Ho. apply elem_of_lookup_imap in Ho as (i & x & [= Hi ->] & Hx).
    assert (Z.to_nat n = i) as E by lia. rewrite E in Hl. congruence.
  - apply elem_of_lookup_imap. exists (Z.to_nat n), out. split; [|done]. by rewrite Z2Nat.id.
Qed.

Lemma delete_inputs inputs (utxo : gmap COutPoint CTxOut) o :
  o ∉ prevout <$> inputs -> foldr (fun txin m => delete (prevout txin) m) utxo inputs !! o = utxo !! o.
Proof.
  induction inputs as [|txin inputs IH]; [done|]. rewrite fmap_cons, not_elem_of_cons. intros [Hne Hin].
  cbn [foldr]. rewrite lookup_delete_ne by done. by apply IH.
Qed.

Lemma spend_tx_kept tx utxo o : o ∉ prevout <$> vin tx -> op_hash o <> tx_hash tx -> spend_tx utxo tx !! o = utxo !! o.
Proof.
  intros Hin Hh. unfold spend_tx. rewrite lookup_union_r; [by apply delete_inputs|].
  destruct (outputs_of tx !! o) eqn:E; [|done]. by apply outputs_of_hash in E.
Qed.

Lemma spend_tx_new tx utxo n out :
  0 <= n -> vout tx !! Z.to_nat n = Some out -> spend_tx utxo tx !! mkOutPoint (tx_hash tx) n = Some out.
Proof. intros Hn Hl. unfold spend_tx. apply lookup_union_Some_l. by apply outputs_of_lookup. Qed.

End Coins.

(** ** Steps of a block *)

Section Steps.
Context `{AddressOps} `{CryptoOps}.
Variable mapArgs : gmap string string.
Variables (multiplier height : Z).

Definition records_ok (R : registry) : Prop := forall name i, R name = Some i -> nickname i = name /\ clean i.
Definition bonds_older (R : registry) (txs : list CTransaction) : Prop :=
  forall name o, bond_of (R name) = Some o -> op_hash o ∉ tx_hash <$> txs.

Lemma step_records_ok tx undo fee R R' :
  tx_step mapArgs multiplier height tx undo fee R R' -> records_ok R -> records_ok R'.
Proof.
  intros [Hop Hb Hsame|op spent Hop Hcb Hfee Hb Hin Hl Hsame] HR name i Hi.
  - rewrite Hsame in Hi. by apply HR.
  - destruct (decide (name = op_nickname op)) as [->|Hn]; [|rewrite Hsame in Hi by done; by apply HR].
    destruct (legal_record _ _ _ _ _ Hl) as (i' & Hi' & Hr); [intros j Hj; by apply HR|]. rewrite Hi in Hi'. by simplify_eq.
Qed.

Lemma step_bonds_older tx undo fee R R' txs :
  tx_step mapArgs multiplier height tx undo fee R R' -> records_ok R ->
  NoDup (tx_hash <$> tx :: txs) -> bonds_older R (tx :: txs) -> bonds_older R' txs.
Proof.
  rewrite fmap_cons, NoDup_cons. intros Hstep HR [Hnew _] Ho name o Hb.
  assert (Hold : bond_of (R name) = Some o -> op_hash o ∉ tx_hash <$> txs).
  { intros Hx. specialize (Ho _ _ Hx). rewrite fmap_cons, not_elem_of_cons in Ho. apply Ho. }
  destruct Hstep as [Hop _ Hsame|op spent Hop Hcb Hfee _ Hin Hl Hsame]; [rewrite Hsame in Hb; auto|].
  destruct (decide (name = op_nickname op)) as [->|Hn]; [|rewrite Hsame in Hb by done; auto].
  destruct (legal_bond _ _ _ _ _ o ltac:(intros i Hi; by eapply HR) Hl Hb) as [Hx|Hh]; [auto|].
  cbn in Hh. by rewrite Hh.
Qed.

(** The bonds stay locked: one transaction. *)
Lemma step_backed tx undo fee R R' utxo :
  tx_step mapArgs multiplier height tx undo fee R R' -> records_ok R -> bonds_older R [tx] ->
  backed R utxo -> backed R' (spend_tx utxo tx).
Proof.
  intros Hstep HR Ho Hbk name i o Hi Hb.
  assert (Hkeep : forall j, R name = Some j -> bond_of (Some j) = Some o -> o ∉ prevout <$> vin tx ->
    ownerPubKey i = ownerPubKey j -> bondAmount i = bondAmount j ->
    spend_tx utxo tx !! o = Some (mkTxOut (bondAmount i) (GetScriptForRawPubKey (ownerPubKey i)))).
  { intros j Hj Hbj Hin -> ->. rewrite spend_tx_kept; [by eapply Hbk|done|].
    specialize (Ho name o). rewrite Hj in Ho. specialize (Ho Hbj). set_solver. }
  destruct Hstep as [Hop Hsp Hsame|op spent Hop Hcb Hfee Hsp Hin Hl Hsame].
  { rewrite Hsame in Hi. apply (Hkeep i); try done. apply (Hsp name). by rewrite Hi. }
  destruct (decide (name = op_nickname op)) as [->|Hn].
  2: { rewrite Hsame in Hi by done. apply (Hkeep i); try done. intros Hx. destruct (Hsp name o); [by rewrite Hi|done..]. }
  rewrite Hi in Hl. destruct (legal_bond_record _ _ _ _ _ o ltac:(intros j Hj; by eapply HR) Hl Hb)
    as [(j & Hj & Hbj & Hown & Ham)|[Hh (Hn & Hp & _)]].
  - apply (Hkeep j); try done. intros Hx.
    assert (Hbr : bond_of (R (op_nickname op)) = Some o) by by rewrite Hj.
    destruct (Hsp _ _ Hbr Hx) as [Hs _]. eapply legal_spent; [exact Hl|exact Hbr|done| |exact Hb].
    cbn. specialize (Ho _ _ Hbr). set_solver.
  - cbn in Hh. destruct o as [h n]. cbn in *. subst h. by apply spend_tx_new.
Qed.

Lemma steps_backed txs undos fees R R' utxo :
  block_steps mapArgs multiplier height txs undos fees R R' -> records_ok R ->
  NoDup (tx_hash <$> txs) -> bonds_older R txs -> backed R utxo -> backed R' (foldl spend_tx utxo txs).
Proof.
  intros Hs. revert utxo. induction Hs as [undos fees R R' Hsame|tx undo fee txs undos fees R R1 R' Ht Hs IH];
    intros utxo HR Hnd Ho Hb; cbn [foldl].
  - intros name i o Hi. rewrite Hsame in Hi. by apply (Hb name).
  - apply IH; [by eapply step_records_ok|by rewrite fmap_cons, NoDup_cons in Hnd; apply Hnd|by eapply step_bonds_older|].
    eapply step_backed; [done|done| |done]. intros name o Hx. specialize (Ho _ _ Hx). set_solver.
Qed.

(** A name in use changes only with an authorization of its owner. *)
Lemma steps_authorized txs undos fees R R' name i :
  block_steps mapArgs multiplier height txs undos fees R R' ->
  R name = Some i -> IsMutableNicknameStatus (info_GetStatus i height) = true -> R' name <> Some i ->
  exists k tx undo op, txs !! k = Some tx /\ undos !! k = Some undo /\
    ExtractNicknameOperationFromTx tx = Ok (Some op) /\ op_nickname op = name /\
    authorized tx undo (ownerPubKey i).
Proof.
  induction 1 as [undos fees R R' Hsame|tx undo fee txs undos fees R R1 R' Ht Hs IH]; intros Hi Hm Hne.
  { by rewrite Hsame in Hne. }
  assert (Hnext : R1 name = Some i -> exists k tx0 undo0 op, (tx :: txs) !! k = Some tx0 /\ (undo :: undos) !! k = Some undo0 /\
    ExtractNicknameOperationFromTx tx0 = Ok (Some op) /\ op_nickname op = name /\ authorized tx0 undo0 (ownerPubKey i)).
  { intros H1. destruct (IH H1 Hm Hne) as (k & t & u & op & Hk). by exists (S k), t, u, op. }
  destruct Ht as [_ _ Hsame|op spent Hop _ _ _ _ Hl Hsame]; [apply Hnext; by rewrite Hsame|].
  destruct (decide (op_nickname op = name)) as [<-|Hn]; [|apply Hnext; by rewrite Hsame].
  assert (Hhere : authorized tx undo (ownerPubKey i) -> exists k tx0 undo0 op0, (tx :: txs) !! k = Some tx0 /\
    (undo :: undos) !! k = Some undo0 /\ ExtractNicknameOperationFromTx tx0 = Ok (Some op0) /\
    op_nickname op0 = op_nickname op /\ authorized tx0 undo0 (ownerPubKey i)).
  { intros Ha. by exists 0%nat, tx, undo, op. }
  rewrite Hi in Hl. inversion Hl as [cur n Ht Hs0 Hr|j Ht Hs0 [_ Ha]|j o n Ht [_ Ha]|j o n Ht [_ Ha]|j Ht Hs0 [_ Ha]|j o Ht Hb Hsp Hst Ha
    |j o Ht Hsp Hb]; subst; auto.
  specialize (Hr i eq_refl). cbn in Hr. by destruct (info_GetStatus i height).
Qed.

End Steps.

(** ** The mempool and the block *)

Section Mempool.
Context `{AddressOps} `{CryptoOps}.
Variable mapArgs : gmap string string.
Variable db : NicknameStateDB.
Hypothesis Hchain : chain_inv db.

(** The undo record holds the outputs the view has for the inputs. *)
Definition spends_from (coins : utxos) (tx : CTransaction) (u : CTxUndo) : Prop :=
  Forall2 (fun txin undo => available coins (prevout txin) = Some (txout undo)) (vin tx) (vprevout u).

Lemma FromView_ok coins tx u key :
  spends_from coins tx u ->
  TxHasOwnerAuthorizationInputFromView tx coins key = Ok tt <-> authorized tx (Some u) key.
Proof.
  intros Hc. unfold TxHasOwnerAuthorizationInputFromView, authorized.
  assert (Hx : existsb (fun txin => match available coins (prevout txin) with
      | Some out => is_owner_script key (scriptPubKey out) | None => false end) (vin tx) = true <->
      Exists (fun undo => scriptPubKey (txout undo) ∈ owner_scripts key) (vprevout u)).
  { unfold spends_from in Hc. induction Hc as [|txin out ins outs Ha _ IH]; [by rewrite Exists_nil|].
    cbn [existsb]. rewrite Ha, orb_true_iff, IH, Exists_cons. unfold is_owner_script. by rewrite bool_decide_eq_true. }
  pose proof (Forall2_length _ _ _ Hc) as Hlen.
  destruct (check_owner_key key) as [k|e] eqn:E; cbn [mbind result_bind].
  - apply check_owner_key_ok in E as [-> Hk]. destruct (existsb _ _); naive_solver.
  - split; [done|]. intros [Hk _]. assert (check_owner_key key = Ok key) by by apply check_owner_key_ok. congruence.
Qed.

Lemma FromView_good coins tx key : TxHasOwnerAuthorizationInputFromView tx coins key = Ok tt -> good_key key.
Proof.
  unfold TxHasOwnerAuthorizationInputFromView. intros (k & [-> Hk]%check_owner_key_ok & _)%bind_ok. done.
Qed.

Lemma legal_auth (a b : bytes -> Prop) c cur new :
  (forall key, a key -> b key) -> legal mapArgs a c cur new -> legal mapArgs b c cur new.
Proof.
  intros Hab [cur' n|i Ht Hs []|i o n Ht []|i o n Ht []|i Ht Hs []|i o|i o];
    [eapply legal_register|eapply legal_update|eapply legal_transfer|eapply legal_renew|eapply legal_release
    |eapply legal_claim|eapply legal_claim_retired]; unfold usable; eauto.
Qed.

(** A claim that finds its record is checked as in the block. *)
Lemma check_operation_apply coins c cur :
  known_type (op_type (c_op c)) = true -> (spends_one_own c = true -> is_Some cur) ->
  is_ok (check_operation coins c cur) =
  is_ok (apply_operation mapArgs (fun tx owner => TxHasOwnerAuthorizationInputFromView tx coins owner) c cur).
Proof.
  intros Hk Hcur. unfold check_operation, apply_operation. destruct (op_type (c_op c)); try done;
    unfold check_register, check_update, check_transfer, check_renew, check_release, check_claim,
      do_register, do_update, do_transfer, do_renew, do_release, do_claim, check_own_bond, claims_current, registrable, current_status, whenever; cbv zeta.
  all: destruct cur as [i|]; [rewrite ?(bool_decide_eq_true_2 (is_Some (Some i))) by done; destruct (info_GetStatus i (c_height c))|
    rewrite ?(bool_decide_eq_false_2 (is_Some (@None NicknameInfo))) by (by intros [? ?]); try (destruct (spends_one_own c); [by destruct Hcur|])].
  all: repeat first
    [ done | match goal with |- is_ok (if ?b then _ else _) = is_ok (if ?b then _ else _) => destruct b end
    | match goal with |- context [TxHasOwnerAuthorizationInputFromView ?t ?v ?k] => destruct (TxHasOwnerAuthorizationInputFromView t v k) as [[]|]; cbn [mbind result_bind] end
    | match goal with |- context [FindUniqueBondOutput ?t ?x ?k] => destruct (FindUniqueBondOutput t x k); cbn [mbind result_bind] end
    | match goal with |- context [if ?b then Err _ else _] => destruct b; cbn [mbind result_bind] end ].
Qed.

Lemma check_operation_ok coins u c cur :
  spends_from coins (c_tx c) u -> known_type (op_type (c_op c)) = true ->
  (spends_one_own c = true -> is_Some cur) ->
  is_ok (check_operation coins c cur) = true <->
  exists new, legal mapArgs (authorized (c_tx c) (Some u)) c cur new.
Proof.
  intros Hc Hk Hcur. rewrite check_operation_apply by done.
  pose proof (fun key => FromView_ok coins (c_tx c) u key Hc) as Hauth.
  rewrite (apply_operation_ok mapArgs _ (fun tx key => TxHasOwnerAuthorizationInputFromView tx coins key = Ok tt));
    [|done|intros ??; apply FromView_good|by unfold known_operation; destruct (op_type (c_op c))].
  split; intros [new Hl]; exists new; (eapply legal_auth; [|exact Hl]); intros key; apply Hauth.
Qed.

(** Looking for bonds before any change is a read of the index. *)
Lemma lookup_stored past w o r w' :
  txs_ok db past -> work_inv db past w -> (forall name, view db w name = t_nickname db !! name) ->
  lookupBondNicknameByOutpoint db o w = (r, w') -> r = t_bond db !! o.
Proof.
  intros Hpast Hw Hv E. destruct (lookup_spec db past Hchain Hpast _ _ _ _ Hw E) as (_ & _ & _ & Hr).
  destruct r as [n|].
  - destruct (Hr n eq_refl) as [_ [Hb|Hb]]; [done|]. rewrite Hv in Hb. symmetry. by apply (bond_of_index _ (proj1 Hchain)).
  - unfold lookupBondNicknameByOutpoint, ReadNicknameByBondOutpoint in E.
    destruct (bondOutpointOwners w !! o); [done|]. by destruct (t_bond db !! o).
Qed.

Lemma collect_stored past inputs : forall spent w,
  txs_ok db past -> work_inv db past w -> (forall name, view db w name = t_nickname db !! name) ->
  match collect_spent_db db inputs spent with
  | Ok spent' => exists w', collect_spent db inputs spent w = Ok (spent', w') /\ work_inv db past w' /\ extends db w w'
  | Err e => collect_spent db inputs spent w = Err e
  end.
Proof.
  induction inputs as [|txin inputs IH]; intros spent w Hpast Hw Hv; cbn [collect_spent_db collect_spent].
  { exists w. split_and!; [done|done|apply extends_refl]. }
  destruct (lookupBondNicknameByOutpoint db (prevout txin) w) as [r w1] eqn:El.
  rewrite (lookup_stored _ _ _ _ _ Hpast Hw Hv El) in *.
  destruct (lookup_spec db past Hchain Hpast _ _ _ _ Hw El) as (Hw1 & Hx & _ & _).
  assert (Hgo : forall spent1, match collect_spent_db db inputs spent1 with
    | Ok spent' => exists w', collect_spent db inputs spent1 w1 = Ok (spent', w') /\ work_inv db past w' /\ extends db w w'
    | Err e => collect_spent db inputs spent1 w1 = Err e end).
  { intros spent1. specialize (IH spent1 w1 Hpast Hw1).
    destruct (collect_spent_db db inputs spent1); [|apply IH; intros; by rewrite (ext_view _ _ _ Hx)].
    destruct IH as (w' & E & Hw' & Hx'); [intros; by rewrite (ext_view _ _ _ Hx)|].
    exists w'. split_and!; [done..|by eapply extends_trans]. }
  unfold ReadNicknameByBondOutpoint. destruct (t_bond db !! prevout txin) as [n|]; [|apply Hgo].
  destruct (spent !! n) as [o|]; [|apply Hgo]. destruct (negb _); [done|apply Hgo].
Qed.

Lemma collect_db_in inputs : forall spent spent' name o,
  collect_spent_db db inputs spent = Ok spent' -> spent' !! name = Some o ->
  spent !! name = Some o \/ t_bond db !! o = Some name.
Proof.
  induction inputs as [|txin inputs IH]; intros spent spent' name o; cbn [collect_spent_db]; [intros [= <-]; auto|].
  unfold ReadNicknameByBondOutpoint. destruct (t_bond db !! prevout txin) as [n|] eqn:Eb; [|apply IH].
  destruct (spent !! n) as [o'|]; [destruct (negb _); [done|apply IH]|].
  intros E Ho. destruct (IH _ _ _ _ E Ho) as [Hx|]; [|by right].
  apply lookup_insert_Some in Hx as [[<- <-]|[_ Hx]]; auto.
Qed.

Lemma view_empty name : view db empty_work name = t_nickname db !! name.
Proof. unfold view. cbn. by rewrite lookup_empty. Qed.

(** A transaction that is alone in the mempool is judged as alone in a block. *)
Lemma mempool_process coins tx u height fee :
  txs_ok db [tx] -> spends_from coins tx u ->
  is_ok (CheckNicknameOperationForMempool db [] tx coins height fee) =
  is_ok (process_tx mapArgs db (ReadPricingMultiplierPermille db) height tx (Some u) fee empty_work).
Proof.
  intros Htx Hc. unfold CheckNicknameOperationForMempool, process_tx.
  destruct (ExtractNicknameOperationFromTx tx) as [parsed|] eqn:Hop; [|done]. cbn [mbind result_bind].
  assert (Hpast : txs_ok db []).
  { split; [constructor|]. by intros o name _ ?%elem_of_nil. }
  pose proof (collect_stored [] (vin tx) ∅ empty_work Hpast (empty_work_inv db) view_empty) as Hcol.
  destruct (collect_spent_db db (vin tx) ∅) as [spent|] eqn:Ec; [|by rewrite Hcol].
  destruct Hcol as (w1 & -> & Hw1 & Hx1). cbn [mbind result_bind]. destruct parsed as [op|]; [|by destruct (negb _)].
  unfold whenever. destruct (IsCoinBase tx); [done|]. destruct (check_fee op _ fee) as [[]|]; [|done].
  cbn [mbind result_bind List.find]. destruct (loadState db (op_nickname op) w1) as [st w2] eqn:Hload.
  destruct (extract_name _ _ Hop) as [Hnorm Hknown].
  destruct (loadState_spec db [] Hchain Hpast _ _ _ _ Hw1 Hnorm Hload) as (Hw2 & Hx2 & Hl).
  destruct (check_spent_names op spent) as [[]|]; [|done]. cbn [mbind result_bind].
  assert (Hcur : current_record st = t_nickname db !! op_nickname op).
  { rewrite <- view_empty, <- (ext_view _ _ _ Hx1), <- (ext_view _ _ _ Hx2). unfold view. by rewrite Hl. }
  unfold ReadNickname. rewrite Hnorm, Hcur. set (c := mkOpContext tx op spent _ height).
  assert (Hone : spends_one_own c = true -> is_Some (t_nickname db !! op_nickname op)).
  { intros (o & Hs & _)%spends_one_own_ok. unfold spends_bond, name_of in Hs. cbn in Hs.
    destruct (collect_db_in _ _ _ (op_nickname op) o Ec) as [Hx|Hb]; [by rewrite Hs, lookup_singleton_eq|done|].
    by apply (inv_bond_name _ (proj1 Hchain) o). }
  pose proof (check_operation_ok coins u c _ Hc Hknown Hone) as Hm.
  assert (Hunit : forall r : result Change, is_ok (ch ← r; Ok (write_back (op_nickname op) st ch w2)) = is_ok r) by by intros [].
  rewrite Hunit.
  pose proof (apply_operation_ok mapArgs (fun tx owner => TxHasOwnerAuthorizationInput tx (Some u) owner)
    (fun tx => authorized tx (Some u)) ltac:(intros; apply TxHasOwnerAuthorizationInput_ok) ltac:(by intros ?? []) c
    (t_nickname db !! op_nickname op) ltac:(by unfold known_operation; cbn; destruct (op_type op))) as Hb.
  destruct (is_ok (check_operation _ _ _)), (is_ok (apply_operation _ _ _ _)); try done; naive_solver.
Qed.

(** A pool only adds the refusal of a second pending operation on a name. *)
Definition no_pending (tx : CTransaction) (mempool : list CTransaction) : Prop :=
  forall op p, ExtractNicknameOperationFromTx tx = Ok (Some op) -> p ∈ mempool -> pending_conflict tx op p = false.

Lemma mempool_pool coins tx height fee mempool :
  is_ok (CheckNicknameOperationForMempool db mempool tx coins height fee) = true ->
  no_pending tx mempool /\ is_ok (CheckNicknameOperationForMempool db [] tx coins height fee) = true.
Proof.
  unfold CheckNicknameOperationForMempool, no_pending.
  destruct (ExtractNicknameOperationFromTx tx) as [[op|]|]; cbn [mbind result_bind]; [|by intros|done].
  destruct (collect_spent_db db (vin tx) ∅) as [spent|]; [|done]. cbn [mbind result_bind]. unfold whenever.
  destruct (IsCoinBase tx); [done|]. destruct (check_fee op _ fee) as [[]|]; [|done]. cbn [mbind result_bind].
  destruct (List.find (pending_conflict tx op) mempool) eqn:Ef; [done|]. intros Hok. split; [|done].
  intros op' p [= <-] Hin. apply (List.find_none _ _ Ef). by apply list_elem_of_In.
Qed.

Lemma mempool_no_pending coins tx height fee mempool :
  no_pending tx mempool ->
  CheckNicknameOperationForMempool db mempool tx coins height fee =
  CheckNicknameOperationForMempool db [] tx coins height fee.
Proof.
  unfold CheckNicknameOperationForMempool, no_pending. intros Hno.
  destruct (ExtractNicknameOperationFromTx tx) as [[op|]|]; try done. cbn [mbind result_bind].
  enough (List.find (pending_conflict tx op) mempool = None) as -> by done.
  destruct (List.find (pending_conflict tx op) mempool) as [p|] eqn:Ef; [|done].
  apply List.find_some in Ef as [Hin%list_elem_of_In Hc]. by rewrite (Hno op p) in Hc.
Qed.

(** A coinbase that spends no bond leaves the working state as it is. *)
Lemma coinbase_process coinbase multiplier height undo fee :
  ExtractNicknameOperationFromTx coinbase = Ok None ->
  (forall txin, txin ∈ vin coinbase -> t_bond db !! prevout txin = None) ->
  process_tx mapArgs db multiplier height coinbase undo fee empty_work = Ok empty_work.
Proof.
  intros Hop Hin. unfold process_tx. rewrite Hop. cbn [mbind result_bind].
  enough (collect_spent db (vin coinbase) ∅ empty_work = Ok (∅, empty_work)) as -> by done.
  induction (vin coinbase) as [|txin ins IH]; [done|]. cbn [collect_spent].
  unfold lookupBondNicknameByOutpoint, ReadNicknameByBondOutpoint. cbn [bondOutpointOwners empty_work].
  rewrite lookup_empty, Hin by by left. apply IH. intros t Ht. apply Hin. by right.
Qed.

End Mempool.

(** ** Pricing *)

Section Pricing.

(** Counts are 32-bit, and the rolling count is the sum over the window that
    ends with the last processed block. *)
Definition pricing_ok (db : NicknameStateDB) : Prop :=
  (forall h n, t_reg_count db !! h = Some n -> in_u32 n) /\
  let s := (ReadNicknamePricingState db).2 in
  rollingRegistrations s = RebuildRollingRegistrations db (lastProcessedHeight s).

Lemma counts_nonneg db : (forall h n, t_reg_count db !! h = Some n -> in_u32 n) ->
  forall k, 0 <= ReadRegistrationCountAtHeight db k.
Proof.
  intros Hc k. unfold ReadRegistrationCountAtHeight. destruct (k <? 0); [done|].
  destruct (t_reg_count db !! k) as [n|] eqn:E; [|done]. apply Hc in E. unfold in_u32 in E. cbn. lia.
Qed.

Lemma pricing_step db db' height count :
  pricing_ok db -> 0 <= height -> in_u32 count ->
  (forall h, t_reg_count db' !! h = if decide (height = h) then Some count else t_reg_count db !! h) ->
  t_pricing db' = Some (next_pricing db height count) ->
  pricing_ok db' /\ lastProcessedHeight (ReadNicknamePricingState db').2 = height.
Proof.
  intros [Hcs Hs] Hh Hcount Hrows Hp.
  assert (Hcs' : forall h n, t_reg_count db' !! h = Some n -> in_u32 n).
  { intros h n. rewrite Hrows. destruct (decide _); [by intros [= <-]|apply Hcs]. }
  unfold pricing_ok, ReadNicknamePricingState. rewrite Hp. cbn [snd rollingRegistrations lastProcessedHeight].
  split; [split; [done|]|done]. unfold next_pricing.
  rewrite (ComputeNextPricingState_window db db').
  - rewrite Z.max_r; [done|]. rewrite RebuildRollingRegistrations_window. by apply sum_counts_nonneg, counts_nonneg.
  - by apply counts_nonneg.
  - intros k Hk. unfold ReadRegistrationCountAtHeight. by rewrite Hrows, decide_False.
  - unfold ReadRegistrationCountAtHeight. rewrite Hrows, decide_True by done. destruct (Z.ltb_spec height 0); [lia|done].
  - intros <-. rewrite Hs. f_equal. lia.
Qed.

End Pricing.

(** ** An example chain

    Two blocks: a registration of a name, and its transfer. *)

Section Example.

Definition demo_crypto : CryptoOps := {|
  Hash160 v := le_value (take 20 v); Sha256 v := le_value (take 32 v); secp256k1_ec_pubkey_parse _ := true |}.
#[local] Existing Instance demo_crypto.
Definition demo_address : AddressOps := base58_ops main_prefixes.
#[local] Existing Instance demo_address.

Definition demo_key : bytes := x02 :: replicate 32 x07.
Definition demo_key2 : bytes := x03 :: replicate 32 x09.
Definition demo_price : Nicknames.Pricing := Nicknames.GetPricing 5 1000.

Definition demo_script (op : NicknameOperation) : bytes :=
  match BuildNicknameOpScript op with Ok script => script | Err _ => [] end.
Definition demo_coinbase (hash : Z) : CTransaction := mkTransaction hash 1 [mkTxIn null_outpoint [] 0 []] [] 0.

Definition demo_register : CTransaction :=
  mkTransaction 2 1 [mkTxIn (mkOutPoint 100 0) [] 0 []]
    [mkTxOut 0 (demo_script (mkOperation REGISTER "alice" demo_key (address_print (CKeyID 5)) []));
     mkTxOut (Nicknames.bondAmount demo_price) (GetScriptForRawPubKey demo_key)] 0.
Definition demo_transfer : CTransaction :=
  mkTransaction 4 1 [mkTxIn (mkOutPoint 2 1) [] 0 []]
    [mkTxOut (Nicknames.bondAmount demo_price) (GetScriptForRawPubKey demo_key2);
     mkTxOut 0 (demo_script (mkOperation TRANSFER "alice" [] EmptyString demo_key2))] 0.
Definition demo_block1 : CBlock := mkBlock [demo_coinbase 1; demo_register].
Definition demo_block2 : CBlock := mkBlock [demo_coinbase 3; demo_transfer].
Definition demo_undo1 : CBlockUndo := mkBlockUndo [mkTxUndo [CTxInUndo_of (mkTxOut 7 (GetScriptForRawPubKey demo_key))]].
Definition demo_undo2 : CBlockUndo :=
  mkBlockUndo [mkTxUndo [CTxInUndo_of (mkTxOut (Nicknames.bondAmount demo_price) (GetScriptForRawPubKey demo_key))]].
Definition demo_fees : list Z := [0; Nicknames.registrationFee demo_price].

Definition demo_db1 : NicknameStateDB :=
  match connect_nicknames ∅ empty_db demo_block1 demo_undo1 demo_fees 10 1000 with Ok db => db | Err _ => empty_db end.
Definition demo_db2 : NicknameStateDB :=
  match connect_nicknames ∅ demo_db1 demo_block2 demo_undo2 [0; 0] 11 1001 with Ok db => db | Err _ => demo_db1 end.

Lemma demo_connect1 : connect_nicknames ∅ empty_db demo_block1 demo_undo1 demo_fees 10 1000 = Ok demo_db1.
Proof. by vm_compute. Qed.
Lemma demo_connect2 : connect_nicknames ∅ demo_db1 demo_block2 demo_undo2 [0; 0] 11 1001 = Ok demo_db2.
Proof. by vm_compute. Qed.

Lemma demo_txs1 : txs_ok empty_db (vtx demo_block1).
Proof.
  split; [apply (bool_decide_unpack _); by vm_compute|]. intros o name. cbn. by rewrite lookup_empty.
Qed.
Lemma demo_chain1 : chain_inv demo_db1.
Proof. apply (connect_spec ∅ _ _ _ _ _ _ _ empty_chain_inv demo_txs1 demo_connect1). Qed.

Lemma demo_txs2 : txs_ok demo_db1 (vtx demo_block2).
Proof.
  split; [apply (bool_decide_unpack _); by vm_compute|].
  assert (Hb : map_Forall (fun (o : COutPoint) (_ : string) => op_hash o ∉ [3; 4]) (t_bond demo_db1)).
  { apply (bool_decide_unpack _). by vm_compute. }
  intros o name Hl. exact (Hb o name Hl).
Qed.

(** Paging through a wallet's names by the last name seen loses shorter names:
    the start is compared with the size first, the result is alphabetical. *)
Example paging_skips_names :
  let record := fun n name => mkInfo name demo_key EmptyString 1 100 200 5 7 n 7 false false in
  let db := WriteNickname (WriteNickname empty_db (record 1 "bbb")) (record 2 "aaaa") in
  let owner := Hash160 demo_key in
  nickname <$> (ListNicknamesForOwnerKeyIDs db [owner] EmptyString 1).1 = ["aaaa"] /\
  nickname <$> (ListNicknamesForOwnerKeyIDs db [owner] "aaaa" 10).1 = ["aaaa"] /\
  nickname <$> (ListNicknamesForOwnerKeyIDs db [owner] EmptyString 10).1 = ["aaaa"; "bbb"].
Proof. by vm_compute. Qed.

(** Registered, released and registered again in one block, a name loses its
    first bond from the in-block map: the next transaction spends it without
    any operation, and the index keeps an entry for it. *)
Definition demo_spend_first : CTransaction := mkTransaction 5 1 [mkTxIn (mkOutPoint 2 1) [] 0 []] [mkTxOut 9 []] 0.
Definition demo_release (hash : Z) : CTransaction :=
  mkTransaction hash 1 [mkTxIn (mkOutPoint 103 0) [] 0 []]
    [mkTxOut 0 (demo_script (mkOperation RELEASE "alice" [] EmptyString []))] 0.
Definition demo_register_again : CTransaction := mkTransaction 4 1 [mkTxIn (mkOutPoint 104 0) [] 0 []] (vout demo_register) 0.
Example first_bond_escapes :
  let undo := mkTxUndo [CTxInUndo_of (mkTxOut 7 (GetScriptForRawPubKey demo_key))] in
  let fee := Nicknames.registrationFee demo_price in
  match connect_nicknames ∅ empty_db
    (mkBlock [demo_coinbase 1; demo_register; demo_release 3; demo_register_again; demo_spend_first])
    (mkBlockUndo [undo; undo; undo; undo]) [0; fee; 0; fee; 0] 10 1000 with
  | Ok db => t_bond db !! mkOutPoint 2 1 = Some "alice"
  | Err _ => False
  end.
Proof. by vm_compute. Qed.

End Example.

(** ** Properties *)

(** C3: the nickname part of connecting a block is a run of the rules.  When
    [BuildNicknameBlockUpdates], with its lazily loaded working copies, local
    maps and final batch, accepts a block, then the stored records before and
    after are related by one step per transaction, in block order: a
    transaction without operation changes no record and spends no bond; one
    with an operation is no coinbase, pays the required fee, changes only the
    record of its name, by a legal change that its owner's input authorizes,
    and spends no other name's bond. *)
Theorem connect_refines_rules `{AddressOps} `{CryptoOps} (mapArgs : gmap string string) (db db' : NicknameStateDB)
    (block : CBlock) (blockUndo : CBlockUndo) (fees : list Z) (height blockHash : Z) :
  chain_inv db -> txs_ok db (vtx block) ->
  connect_nicknames mapArgs db block blockUndo fees height blockHash = Ok db' ->
  block_steps mapArgs (ReadPricingMultiplierPermille db) height (vtx block)
    (None :: (Some <$> vtxundo blockUndo)) fees (records db) (records db').
Proof. intros Hchain Htxs Hc. by apply (connect_spec _ _ _ _ _ _ _ _ Hchain Htxs Hc). Qed.

Lemma connect_refines_rules_witness :
  block_steps (H := demo_address) (H0 := demo_crypto) ∅ 1000 11 (vtx demo_block2)
    (None :: (Some <$> vtxundo demo_undo2)) [0; 0] (records demo_db1) (records demo_db2).
Proof.
  apply (connect_refines_rules (H := demo_address) (H0 := demo_crypto) ∅ demo_db1 demo_db2 demo_block2 demo_undo2 [0; 0] 11 1001);
    [apply demo_chain1|apply demo_txs2|apply demo_connect2].
Defined.

(** C11: the owner and bond indexes stay exact.  They agree with the records in
    an empty database, and connecting any accepted block of new transactions
    keeps it so: records are stored under their normalised name, the owner
    index lists exactly the records of each owner, the bond index knows the
    bond of every record and points only to stored records, and a claimed
    record keeps no outpoint. *)
Theorem connect_preserves_indexes `{AddressOps} `{CryptoOps} (mapArgs : gmap string string) :
  chain_inv empty_db /\
  forall db db' block blockUndo fees height blockHash,
    chain_inv db -> txs_ok db (vtx block) ->
    connect_nicknames mapArgs db block blockUndo fees height blockHash = Ok db' -> chain_inv db'.
Proof.
  split.
  - split; [split|]; cbn; try (intros ??; by rewrite lookup_empty).
    intros h name b. rewrite lookup_empty. split; [done|]. intros (_ & info & Hl & _). by rewrite lookup_empty in Hl.
  - intros db db' block blockUndo fees height blockHash Hchain Htxs Hc.
    by apply (connect_spec _ _ _ _ _ _ _ _ Hchain Htxs Hc).
Qed.

Lemma connect_preserves_indexes_witness : chain_inv (H0 := demo_crypto) demo_db2.
Proof.
  apply (proj2 (connect_preserves_indexes (H := demo_address) (H0 := demo_crypto) ∅)
    demo_db1 demo_db2 demo_block2 demo_undo2 [0; 0] 11 1001); [apply demo_chain1|apply demo_txs2|apply demo_connect2].
Defined.

(** C8: disconnecting a block undoes it.  After connecting a block that is new
    to the database, [DisconnectBlock]'s nickname part gives back the database
    as it was, every table included: records, owner and bond indexes, undo
    records, registration counts and the pricing state. *)
Theorem disconnect_undoes_connect `{AddressOps} `{CryptoOps} (mapArgs : gmap string string) (db db' : NicknameStateDB)
    (block : CBlock) (blockUndo : CBlockUndo) (fees : list Z) (height blockHash : Z) :
  chain_inv db -> txs_ok db (vtx block) -> block_fresh db blockHash height ->
  connect_nicknames mapArgs db block blockUndo fees height blockHash = Ok db' ->
  disconnect_nicknames db' height blockHash = db.
Proof. intros Hchain Htxs Hfresh Hc. by apply (connect_spec _ _ _ _ _ _ _ _ Hchain Htxs Hc). Qed.

Lemma disconnect_undoes_connect_witness : disconnect_nicknames (H0 := demo_crypto) demo_db2 11 1001 = demo_db1.
Proof.
  apply (disconnect_undoes_connect (H := demo_address) (H0 := demo_crypto) ∅ demo_db1 demo_db2 demo_block2 demo_undo2 [0; 0]);
    [apply demo_chain1|apply demo_txs2| |apply demo_connect2].
  split; [by vm_compute..|]. intros s Hs. vm_compute in Hs. injection Hs as <-. by vm_compute.
Defined.

(** C6: bonds stay locked.  If every bond on record is an unspent output of
    the recorded amount that pays the recorded owner's key, this still holds
    after an accepted block: whatever the block's transactions spend, no bond
    is spent unless its record moves to a new bond of the right amount or is
    marked as claimed. *)
Theorem bonds_stay_locked `{AddressOps} `{CryptoOps} (mapArgs : gmap string string) (db db' : NicknameStateDB)
    (block : CBlock) (blockUndo : CBlockUndo) (fees : list Z) (height blockHash : Z) (utxo : gmap COutPoint CTxOut) :
  chain_inv db -> txs_ok db (vtx block) ->
  connect_nicknames mapArgs db block blockUndo fees height blockHash = Ok db' ->
  backed (records db) utxo -> backed (records db') (foldl spend_tx utxo (vtx block)).
Proof.
  intros Hchain Htxs Hc Hb. destruct (connect_spec _ _ _ _ _ _ _ _ Hchain Htxs Hc) as (_ & Hs & _).
  eapply steps_backed; [exact Hs| |apply (txs_nodup _ _ Htxs)| |done].
  - intros name i Hi. split; [by apply (inv_name _ (proj1 Hchain))|by apply (proj2 Hchain name)].
  - intros name o Ho. eapply (txs_new _ _ Htxs), (bond_of_index _ (proj1 Hchain)), Ho.
Qed.

Lemma bonds_stay_locked_witness :
  backed (records demo_db1) (foldl spend_tx ∅ (vtx demo_block1)).
Proof.
  apply (bonds_stay_locked (H := demo_address) (H0 := demo_crypto) ∅ empty_db demo_db1 demo_block1 demo_undo1 demo_fees 10 1000 ∅);
    [apply empty_chain_inv|apply demo_txs1|apply demo_connect1|].
  intros name i o Hi. unfold records in Hi. cbn in Hi. by rewrite lookup_empty in Hi.
Defined.

(** only the owner changes a name in use.  If a name is active or in grace
    at the block's height and its record is different after the block, then
    the block has a transaction with an operation on that name which spends an
    output controlled by the key that owned the name before the block. *)
Theorem owner_authorizes_changes `{AddressOps} `{CryptoOps} (mapArgs : gmap string string) (db db' : NicknameStateDB)
    (block : CBlock) (blockUndo : CBlockUndo) (fees : list Z) (height blockHash : Z) (name : string) (i : NicknameInfo) :
  chain_inv db -> txs_ok db (vtx block) ->
  connect_nicknames mapArgs db block blockUndo fees height blockHash = Ok db' ->
  records db name = Some i -> IsMutableNicknameStatus (info_GetStatus i height) = true -> records db' name <> Some i ->
  exists k tx undo op, vtx block !! k = Some tx /\ (None :: (Some <$> vtxundo blockUndo)) !! k = Some undo /\
    ExtractNicknameOperationFromTx tx = Ok (Some op) /\ op_nickname op = name /\ authorized tx undo (ownerPubKey i).
Proof.
  intros Hchain Htxs Hc Hi Hm Hne. destruct (connect_spec _ _ _ _ _ _ _ _ Hchain Htxs Hc) as (_ & Hs & _).
  by eapply steps_authorized.
Qed.

Lemma owner_authorizes_changes_witness :
  exists k tx undo op, vtx demo_block2 !! k = Some tx /\ (None :: (Some <$> vtxundo demo_undo2)) !! k = Some undo /\
    ExtractNicknameOperationFromTx (H := demo_address) tx = Ok (Some op) /\ op_nickname op = "alice" /\
    authorized (H0 := demo_crypto) tx undo demo_key.
Proof.
  assert (Hi : exists i, records demo_db1 "alice" = Some i /\ ownerPubKey i = demo_key /\
    IsMutableNicknameStatus (info_GetStatus i 11) = true /\ records demo_db2 "alice" <> Some i).
  { destruct (records demo_db1 "alice") as [i|] eqn:E; [|by vm_compute in E]. exists i.
    vm_compute in E. injection E as <-. by vm_compute. }
  destruct Hi as (i & Hi & <- & Hm & Hne).
  apply (owner_authorizes_changes (H := demo_address) (H0 := demo_crypto) ∅ demo_db1 demo_db2 demo_block2 demo_undo2 [0; 0] 11 1001
    "alice" i); [apply demo_chain1|apply demo_txs2|apply demo_connect2|done..].
Defined.

(** C12: the mempool accepts what a block accepts.  Over a consistent database
    and a view with the transaction's inputs, the mempool check of a
    transaction succeeds exactly when no pending operation on the same name
    stands in its way and a block with a plain coinbase and this transaction
    is accepted at that height and fee; in particular a claim of a retired
    bond always finds its record. *)
Theorem mempool_agrees_with_block `{AddressOps} `{CryptoOps} (mapArgs : gmap string string) (db : NicknameStateDB)
    (mempool : list CTransaction) (coins : utxos) (coinbase tx : CTransaction) (u : CTxUndo) (height reward fee : Z) :
  chain_inv db -> txs_ok db [tx] -> spends_from coins tx u ->
  ExtractNicknameOperationFromTx coinbase = Ok None ->
  (forall txin, txin ∈ vin coinbase -> t_bond db !! prevout txin = None) ->
  is_ok (CheckNicknameOperationForMempool db mempool tx coins height fee) = true <->
  no_pending tx mempool /\
  is_ok (BuildNicknameBlockUpdates mapArgs db (mkBlock [coinbase; tx]) (mkBlockUndo [u]) [reward; fee] height) = true.
Proof.
  intros Hchain Htx Hc Hop Hin.
  assert (Hblock : is_ok (BuildNicknameBlockUpdates mapArgs db (mkBlock [coinbase; tx]) (mkBlockUndo [u]) [reward; fee] height) =
    is_ok (CheckNicknameOperationForMempool db [] tx coins height fee)).
  { rewrite (mempool_process mapArgs db Hchain coins tx u) by done. unfold BuildNicknameBlockUpdates.
    cbn [vtx vtxundo length Nat.ltb Nat.leb Nat.add Nat.eqb negb andb whenever fmap list_fmap process_txs].
    rewrite coinbase_process by done. cbn [mbind result_bind].
    by destruct (process_tx _ _ _ _ tx _ _ _) as [w|]. }
  rewrite Hblock. split; [apply mempool_pool|]. intros [Hno Hok]. by rewrite mempool_no_pending.
Qed.

Lemma mempool_agrees_with_block_witness :
  is_ok (CheckNicknameOperationForMempool (H := demo_address) (H0 := demo_crypto) demo_db1 [] demo_transfer
    {[ 2 := mkCoins false (vout demo_register) 10 1 ]} 11 0) = true.
Proof.
  apply (mempool_agrees_with_block (H := demo_address) (H0 := demo_crypto) ∅ demo_db1 [] {[ 2 := mkCoins false (vout demo_register) 10 1 ]}
    (demo_coinbase 3) demo_transfer (mkTxUndo [CTxInUndo_of (mkTxOut (Nicknames.bondAmount demo_price) (GetScriptForRawPubKey demo_key))]) 11 0 0).
  - apply demo_chain1.
  - destruct demo_txs2 as [_ Hnew]. split; [apply (bool_decide_unpack _); by vm_compute|].
    intros o name Hl Hin. apply (Hnew o name Hl). by right.
  - constructor; [by vm_compute|constructor].
  - by vm_compute.
  - intros txin ->%list_elem_of_singleton. by vm_compute.
  - split; [|by vm_compute]. by intros op p _ ?%elem_of_nil.
Defined.

(** C27: registrations drive the pricing exactly.  A connected block records
    the number of its registration operations, and the rolling count, updated
    incrementally by the node, is the number of registrations in the window of
    blocks that ends with it; this is kept from block to block, also when the
    chain was not processed in sequence. *)
Theorem registrations_drive_pricing `{AddressOps} `{CryptoOps} (mapArgs : gmap string string) (db db' : NicknameStateDB)
    (block : CBlock) (blockUndo : CBlockUndo) (fees : list Z) (height blockHash : Z) :
  chain_inv db -> txs_ok db (vtx block) -> pricing_ok db -> 0 <= height ->
  connect_nicknames mapArgs db block blockUndo fees height blockHash = Ok db' ->
  t_reg_count db' !! height = Some (u32 (foldr (fun tx n => registrations tx + n) 0 (vtx block))) /\
  pricing_ok db' /\
  rollingRegistrations (ReadNicknamePricingState db').2 = RebuildRollingRegistrations db' height.
Proof.
  intros Hchain Htxs Hp Hh Hc. destruct (connect_spec _ _ _ _ _ _ _ _ Hchain Htxs Hc) as (_ & _ & _ & Hrows & Hnext).
  cbn zeta in *. destruct (pricing_step db db' height _ Hp Hh (u32_range _) Hrows Hnext) as [Hp' Hlast].
  split_and!; [by rewrite Hrows, decide_True|done|]. rewrite <- Hlast. apply Hp'.
Qed.

Lemma registrations_drive_pricing_witness :
  t_reg_count demo_db1 !! 10 = Some 1 /\
  rollingRegistrations (ReadNicknamePricingState demo_db1).2 = RebuildRollingRegistrations demo_db1 10.
Proof.
  destruct (registrations_drive_pricing (H := demo_address) (H0 := demo_crypto) ∅ empty_db demo_db1 demo_block1 demo_undo1 demo_fees 10 1000)
    as (Hc & _ & Hr); [apply empty_chain_inv|apply demo_txs1| |lia|apply demo_connect1|].
  - split; [|by vm_compute]. intros h n. cbn. by rewrite lookup_empty.
  - split; [|exact Hr]. rewrite Hc. by vm_compute.
Defined.

(** C26: the switch over the operation type accepts exactly the legal changes
    and makes them.  For each of the six operations, the early returns of the
    code (bond spends, status, authorization, key validity, amounts, the
    unique bond output) amount to the conditions of the rule, and the record
    it leaves is the rule's. *)
Theorem switch_accepts_legal `{AddressOps} `{CryptoOps} (mapArgs : gmap string string) (c : OpContext) (undo : option CTxUndo)
    (cur new : option NicknameInfo) :
  known_type (op_type (c_op c)) = true ->
  (exists ch, apply_operation mapArgs (fun tx owner => TxHasOwnerAuthorizationInput tx undo owner) c cur = Ok ch /\
     outcome cur ch = new) <-> legal mapArgs (authorized (c_tx c) undo) c cur new.
Proof.
  intros Hk. split.
  - intros (ch & E & <-).
    apply (apply_operation_sound mapArgs _ (fun tx => authorized tx undo)) in E;
      [done|intros; apply TxHasOwnerAuthorizationInput_ok|by unfold known_operation; destruct (op_type (c_op c))].
  - intros Hl. apply (apply_operation_complete mapArgs _ (fun tx => authorized tx undo));
      [intros; apply TxHasOwnerAuthorizationInput_ok|by intros ?? []|done].
Qed.

Lemma switch_accepts_legal_witness :
  let c := mkOpContext demo_register (mkOperation REGISTER "alice" demo_key (address_print (AddressOps := demo_address) (CKeyID 5)) [])
             ∅ 1000 10 in
  legal (H0 := demo_crypto) ∅ (authorized (H0 := demo_crypto) demo_register (vtxundo demo_undo1 !! 0%nat)) c None
    (Some (registered ∅ c 1)).
Proof.
  intros c. apply (switch_accepts_legal (H := demo_address) (H0 := demo_crypto) ∅ c); [by vm_compute|].
  eexists. split; by vm_compute.
Defined.
