(* ===== verification/ConnectBlock.v ===== *)
(** * Connecting and disconnecting the tip
      ([ConnectBlock], [DisconnectBlock], [ConnectTip] and [DisconnectTip] of
      [src/src/validation.cpp])

    The parts together: the checks of a block, the deployments, the coins, the
    nicknames and the undo records, which are kept as the bytes of the file from
    the position in the block's index entry.  The pool, the log and the
    notifications are left out. *)

From S2P Require Import Prelude Nicknames Serialize Script Base58 Money NicknameOp Arith Merkle Header BlockIndex Pow Transaction TxSerialize.
From S2P Require Import AuxPow HeaderChain VersionBits NicknameDB NicknameBatch NicknameState NicknameRules NicknameBlock.
From S2P Require Import DerSignature Interpreter ScriptRules SigHash Compressor Coins CoinsSerialize CoinsCache TxVerify ConnectCoins CoinsRules CoinsSupply CoinsVersions Block.
Open Scope Z_scope.
Open Scope kubu_scope.

(** [KUBU: Disable SegWit] *)
Definition IsWitnessEnabled (pindexPrev : option Z) (params : Params) : bool := false.

(** The rules of scripts in a block. *)
Definition block_script_flags (root : ParamsTree) (nHeight : Z) (csv : ThresholdState) (witness : bool) : Z :=
  let flags := SCRIPT_VERIFY_P2SH in
  let flags := if BIP66Height (GetConsensus root 0) <=? nHeight then Z.lor flags SCRIPT_VERIFY_DERSIG else flags in
  let flags := if BIP65Height (GetConsensus root 0) <=? nHeight then Z.lor flags SCRIPT_VERIFY_CHECKLOCKTIMEVERIFY else flags in
  let flags := if decide (csv = THRESHOLD_ACTIVE) then Z.lor flags SCRIPT_VERIFY_CHECKSEQUENCEVERIFY else flags in
  if witness then Z.lor (Z.lor flags SCRIPT_VERIFY_WITNESS) SCRIPT_VERIFY_NULLDUMMY else flags.

(** [chain.cpp]: how long the work between two blocks takes at the difficulty of [tip]. *)
Definition GetBlockProofEquivalentTime (to from tip : CBlockIndex) (params : Params) : result Z :=
  let '(r, sign) := if 0 <? CompareTo (nChainWork to) (nChainWork from) then (op_sub (nChainWork to) (nChainWork from), 1)
                    else (op_sub (nChainWork from) (nChainWork to), -1) in
  proof ← GetBlockProof (nBits tip);
  r ← op_div (op_mul r (base_uint_of (u64 (nPowTargetSpacing params)))) proof;
  if 63 <? bits r then Ok (sign * (2 ^ 63 - 1)) else Ok (i64 (sign * GetLow64 r)).

(** What comes from the command line: [-assumevalid], whether scripts are
    checked in other threads ([-par]), and the arguments of the nickname rules;
    [nMinimumChainWork] is that of the network. *)
Record NodeOptions := mkOptions { hashAssumeValid : Z; nMinimumChainWork : Z; opt_fThreads : bool; opt_mapArgs : gmap string string }.

(** Scripts are not checked in an ancestor of the block assumed to be valid that
    is an ancestor of the best header [best] too, when that header has the work
    expected of the network and is more than two weeks of work ahead. *)
Definition fScriptChecks (options : NodeOptions) (m : BlockMap) (best : option Z) (pindex : Z) (b : CBlockIndex) (consensus : Params) : result bool :=
  if hashAssumeValid options =? 0 then Ok true
  else
    match m !! hashAssumeValid options with
    | None => Ok true
    | Some _ =>
        a ← GetAncestor m (hashAssumeValid options) (nHeight b);
        if negb (bool_decide (a = Some pindex)) then Ok true
        else
          match best with
          | None => Err "null pointer"
          | Some best =>
              a ← GetAncestor m best (nHeight b);
              if negb (bool_decide (a = Some pindex)) then Ok true
              else
                tip ← deref m best;
                if CompareTo (nChainWork tip) (UintToArith256 (nMinimumChainWork options)) <? 0 then Ok true
                else
                  time ← GetBlockProofEquivalentTime tip b tip consensus;
                  Ok (time <=? 60 * 60 * 24 * 7 * 2)
          end
    end.

(** ** Undo files *)

Section UndoFiles.
Context `{CryptoOps} `{PubKeyOps}.

(** The checksum is over the parent's hash and the record. *)
Definition UndoWriteToDisk (blockundo : CBlockUndo) (hashBlock : Z) : result bytes :=
  data ← Serialize_CBlockUndo blockundo;
  Ok (data ++ le_bytes 32 (Hash (le_bytes 32 hashBlock ++ data))).

Definition UndoReadFromDisk (filein : bytes) (hashBlock : Z) : result CBlockUndo :=
  match (blockundo <-- Unserialize_CBlockUndo ;; hashChecksum <-- read 32 ;; rret (blockundo, hashChecksum)) filein with
  | (Err _, _) => Err "Deserialize or I/O error"
  | (Ok (blockundo, hashChecksum), _) =>
      data ← Serialize_CBlockUndo blockundo;
      reject negb (bool_decide (hashChecksum = le_bytes 32 (Hash (le_bytes 32 hashBlock ++ data)))) with "Checksum mismatch";
      Ok blockundo
  end.

(** The record is written once, when the entry has no position yet. *)
Definition write_undo (files : gmap Z bytes) (pindex hashPrev : Z) (blockundo : CBlockUndo) : result (gmap Z bytes) :=
  match files !! pindex with
  | Some _ => Ok files
  | None => data ← UndoWriteToDisk blockundo hashPrev; Ok (<[pindex := data]> files)
  end.

End UndoFiles.

Section ConnectBlock.
Context `{AddressOps} `{CryptoOps} `{PowOps} `{SignatureOps} `{ScriptHashOps} `{!PubKeyOps}.
Context (chainparams : ChainParams) (BIP34Hash : Z) (options : NodeOptions).

Definition connect_context (m : BlockMap) (best : option Z) (cache : ThresholdConditionCache) (pindex : Z) : result (ConnectContext * ThresholdConditionCache) :=
  b ← deref m pindex;
  match pprev b with
  | None => Err "null pointer"
  | Some q =>
      let root := consensus_root chainparams in
      let consensus := GetConsensus root (nHeight b) in
      fScriptChecks ← fScriptChecks options m best pindex b consensus;
      pindexBIP34height ← GetAncestor m q (BIP34Height (GetConsensus root 0));
      let fEnforceBIP30 := match pindexBIP34height with Some a => negb (a =? BIP34Hash) | None => true end in
      r ← VersionBitsState m (Some q) consensus DEPLOYMENT_CSV cache;
      let '(csv, cache) := r in
      let flags := block_script_flags root (nHeight b) csv (IsWitnessEnabled (Some q) consensus) in
      let nLockTimeFlags := if decide (csv = THRESHOLD_ACTIVE) then LOCKTIME_VERIFY_SEQUENCE else 0 in
      Ok (mkConnectContext root m pindex (nHeight b) fEnforceBIP30 flags nLockTimeFlags fScriptChecks (opt_fThreads options), cache)
  end.

Context {B : Type} `{CCoinsView B}.

(** The view, the undo files and the nickname database after the block; nothing
    is written for the genesis block or a mere check.  A failure discards the
    view and leaves the database, which is written only after all checks; that
    an undo record may have been written by then, the error does not show. *)
Definition ConnectBlock (m : BlockMap) (bestHeader : option Z) (cache : ThresholdConditionCache) (pindex : Z) (h : CBlockHeader) (block : CBlock) (fChecked fJustCheck : bool)
    (fUpdateNicknameIndex : bool) (view : CCoinsViewCache B) (files : gmap Z bytes) (db : NicknameStateDB) :
    result (CCoinsViewCache B * gmap Z bytes * NicknameStateDB) :=
  b ← deref m pindex;
  _ ← CheckBlock chainparams h block fChecked (negb fJustCheck) (negb fJustCheck);
  let hashPrevBlock := default 0 (pprev b) in
  let '(view, best) := cache_GetBestBlock view in
  reject negb (hashPrevBlock =? best) with assertion_failed;
  if header_GetHash (pure h) =? hashGenesisBlock chainparams then Ok (if fJustCheck then view else SetBestBlock view pindex, files, db)
  else
    r ← connect_context m bestHeader cache pindex;
    let '(ctx, _) := r in
    let '(view, r) := run_cache (ConnectCoins ctx block) view in
    coins ← r;
    let '(blockundo, txFees) := coins in
    if fJustCheck then Ok (view, files, db)
    else
      files ← write_undo files pindex hashPrevBlock blockundo;
      db ← (if fUpdateNicknameIndex then connect_nicknames (opt_mapArgs options) db block blockundo txFees (nHeight b) pindex else Ok db);
      Ok (SetBestBlock view pindex, files, db).

(** [undoPos] is what the undo files hold at the position of the entry, if it
    has one.  Without [pfClean], an unclean undo is a failure; it comes after the nickname
    database was restored, which the error does not show. *)
Definition DisconnectBlock (m : BlockMap) (pindex : Z) (block : CBlock) (undoPos : option bytes) (fUpdateNicknameIndex : bool)
    (view : CCoinsViewCache B) (db : NicknameStateDB) : result (CCoinsViewCache B * NicknameStateDB) :=
  b ← deref m pindex;
  let '(view, best) := cache_GetBestBlock view in
  reject negb (pindex =? best) with assertion_failed;
  match undoPos, pprev b with
  | None, _ => Err "DisconnectBlock(): no undo data available"
  | Some _, None => Err "null pointer"
  | Some filein, Some q =>
      match UndoReadFromDisk filein q with
      | Err _ => Err "DisconnectBlock(): failure reading undo data"
      | Ok blockUndo =>
          let '(view, r) := run_cache (DisconnectCoins block blockUndo (nHeight b)) view in
          fClean ← r;
          let db := if fUpdateNicknameIndex then disconnect_nicknames db (nHeight b) pindex else db in
          reject negb fClean with "DisconnectBlock(): not clean";
          Ok (SetBestBlock view q, db)
      end
  end.

(** ** The tip *)

Record Chainstate := mkChainstate {
  pcoinsTip : CCoinsViewCache B;
  nicknameDB : NicknameStateDB;
  undo_files : gmap Z bytes;
  chainActive : CChain
}.

End ConnectBlock.
Arguments Chainstate : clear implicits.

Section Tip.
Context `{AddressOps} `{CryptoOps} `{PowOps} `{SignatureOps} `{ScriptHashOps} `{!PubKeyOps}.
Context (chainparams : ChainParams) (BIP34Hash : Z) (options : NodeOptions).
Context {B : Type} `{CCoinsView B}.

Definition ConnectTip (m : BlockMap) (best : option Z) (cache : ThresholdConditionCache) (pindexNew : Z) (h : CBlockHeader) (block : CBlock) (fChecked : bool)
    (s : Chainstate B) : result (Chainstate B) :=
  b ← deref m pindexNew;
  reject negb (bool_decide (pprev b = Tip (chainActive s))) with assertion_failed;
  r ← ConnectBlock chainparams BIP34Hash options m best cache pindexNew h block fChecked false true (CCoinsViewCache_of (pcoinsTip s)) (undo_files s) (nicknameDB s);
  let '(view, files, db) := r in
  view ← Flush view;
  chain ← SetTip m (chainActive s) (Some pindexNew);
  Ok (mkChainstate (base view) db files chain).

Definition DisconnectTip (m : BlockMap) (block : CBlock) (s : Chainstate B) : result (Chainstate B) :=
  match Tip (chainActive s) with
  | None => Err assertion_failed
  | Some pindexDelete =>
      b ← deref m pindexDelete;
      r ← DisconnectBlock m pindexDelete block (undo_files s !! pindexDelete) true (CCoinsViewCache_of (pcoinsTip s)) (nicknameDB s);
      let '(view, db) := r in
      view ← Flush view;
      chain ← SetTip m (chainActive s) (pprev b);
      Ok (mkChainstate (base view) db (undo_files s) chain)
  end.

End Tip.

(** ** What the checks give *)

Lemma check_outputs_ok outs a : check_outputs outs a = Ok tt -> Forall (fun o => 0 <= nValue o <= MAX_MONEY) outs.
Proof.
  revert a. induction outs as [|o outs IH]; intros a; cbn [check_outputs]; [constructor|].
  intros [H1 H2]%reject_ok. apply reject_ok in H2 as [H2 H3]. apply reject_ok in H3 as [_ H3]. zbool. constructor; [lia|by eapply IH].
Qed.

Lemma serialized_vector {A} `{Serializable A} (l : list A) : (forall a : A, 1 <= len (Serialize a)) -> Z.of_nat (length l) <= len (Serialize_vector l).
Proof.
  intros Ha. unfold Serialize_vector. rewrite len_app. assert (Z.of_nat (length l) <= len (concat (Serialize <$> l))) as Hc; [|unfold len in *; lia].
  induction l as [|a l IH]; [done|]. rewrite fmap_cons. cbn [concat length]. rewrite len_app. specialize (Ha a). lia.
Qed.
Lemma serialized_inputs tx : Z.of_nat (length (vin tx)) + Z.of_nat (length (vout tx)) <= len (SerializeTransaction false (CMutableTransaction_of tx)).
Proof.
  unfold SerializeTransaction. cbn [andb mtx_vin mtx_vout CMutableTransaction_of]. rewrite !len_app.
  assert (Z.of_nat (length (vin tx)) <= len (Serialize_vector (vin tx))).
  { apply serialized_vector. intros i. cbn [Serialize Serializable_CTxIn]. rewrite !len_app. unfold Serialize_uint32 at 1, ser_writedata32. rewrite len_le_bytes.
    unfold len. lia. }
  assert (Z.of_nat (length (vout tx)) <= len (Serialize_vector (vout tx))).
  { apply serialized_vector. intros o. cbn [Serialize Serializable_CTxOut]. rewrite len_app. unfold Serialize_int64, ser_writedata64. rewrite len_le_bytes.
    unfold len. lia. }
  unfold len in *. lia.
Qed.

Lemma CheckTransaction_outputs tx d : CheckTransaction tx d = Ok tt ->
  Forall (fun o => 0 <= nValue o <= MAX_MONEY) (vout tx) /\ Z.of_nat (length (vout tx)) <= MAX_BLOCK_BASE_SIZE /\
  Z.of_nat (length (vin tx)) <= MAX_BLOCK_BASE_SIZE.
Proof.
  unfold CheckTransaction. intros Hc. apply reject_ok in Hc as [_ Hc]. apply reject_ok in Hc as [_ Hc]. apply reject_ok in Hc as [Hs Hc].
  apply bind_ok in Hc as ([] & Ho & _). apply check_outputs_ok in Ho. apply Z.ltb_ge in Hs. pose proof (serialized_inputs tx). split; [done|lia].
Qed.

Lemma CheckTransaction_values tx d : CheckTransaction tx d = Ok tt -> Forall (fun o => 0 <= nValue o) (vout tx).
Proof. intros [Ho _]%CheckTransaction_outputs. eapply Forall_impl; [exact Ho|]. cbn. lia. Qed.

Lemma CheckTransaction_tx_ok tx d : CheckTransaction tx d = Ok tt -> Forall (fun i => 0 <= op_n (prevout i)) (vin tx) -> tx_ok tx.
Proof.
  intros (Ho & Hl & _)%CheckTransaction_outputs Hi. unfold MAX_BLOCK_BASE_SIZE in Hl. split_and!; [done| |lia].
  eapply Forall_impl; [exact Ho|]. cbn. intros o Hv Hn. unfold txout_IsNull in Hn. zbool. lia.
Qed.

Lemma check_transactions_ok txs : check_transactions txs = Ok tt -> Forall (fun tx => CheckTransaction tx true = Ok tt) txs.
Proof. induction txs as [|tx txs IH]; cbn [check_transactions]; [constructor|]. intros ([] & Ht & Hr)%bind_ok. constructor; [done|by apply IH]. Qed.

(** The shape of a block that was checked. *)
Definition block_shape (block : CBlock) : Prop :=
  (exists cb txs, vtx block = cb :: txs /\ IsCoinBase cb = true /\ Forall (fun tx => IsCoinBase tx = false) txs) /\
  Forall (fun tx => CheckTransaction tx true = Ok tt) (vtx block) /\ Z.of_nat (length (vtx block)) <= MAX_BLOCK_BASE_SIZE.

Lemma CheckBlock_shape `{CryptoOps} `{PowOps} cp h block pow root : CheckBlock cp h block false pow root = Ok tt -> block_shape block.
Proof.
  unfold CheckBlock. intros Hc. apply bind_ok in Hc as ([] & _ & Hc). apply bind_ok in Hc as ([] & _ & Hc). apply bind_ok in Hc as (size & _ & Hc).
  apply reject_ok in Hc as [Hsize Hc]. apply reject_ok in Hc as [Hcb Hc]. apply reject_ok in Hc as [Hrest Hc]. apply bind_ok in Hc as ([] & Htx & _).
  split; [|split; [by apply check_transactions_ok|zbool; lia]]. destruct (vtx block) as [|cb txs]; [done|]. exists cb, txs. apply negb_false_iff in Hcb. split_and!; [done|done|].
  cbn [tail] in Hrest. apply Forall_forall. intros tx Hin. rewrite <- not_true_iff_false, existsb_exists in Hrest.
  destruct (IsCoinBase tx) eqn:E; [|done]. destruct Hrest. exists tx. split; [by apply list_elem_of_In|done].
Qed.

(** ** Undo records on file *)

Lemma read_undo_file `{!CryptoOps} `{!PubKeyOps} bs u sum : (forall rest, Unserialize_CBlockUndo (bs ++ rest) = (Ok u, rest)) -> length sum = 32%nat ->
  (blockundo <-- Unserialize_CBlockUndo ;; hashChecksum <-- read 32 ;; rret (blockundo, hashChecksum)) (bs ++ sum) = (Ok (u, sum), []).
Proof. intros Hr Hs. rewrite <- (app_nil_r sum) at 1. erewrite rbind_Ok by apply Hr. by erewrite rbind_Ok by (apply read_app; by rewrite Hs). Qed.

Lemma undo_file_roundtrip `{!CryptoOps} `{!PubKeyOps} `{!PubKeyLaws} u q data : can_store_block_undo u -> UndoWriteToDisk u q = Ok data ->
  UndoReadFromDisk data q = Ok (block_undo_stored u).
Proof.
  intros Hu (bs & Eb & Hd)%bind_ok. assert (data = bs ++ le_bytes 32 (Hash (le_bytes 32 q ++ bs))) as -> by congruence. clear Hd. destruct (block_undo_roundtrip u Hu) as (bs' & Eb' & Hr). rewrite Eb in Eb'. injection Eb' as <-.
  unfold UndoReadFromDisk. rewrite (read_undo_file bs _ _ Hr (length_le_bytes 32 _)). rewrite block_undo_stored_bytes, Eb.
  change (Ok bs ≫= ?f) with (f bs). cbv beta. by rewrite bool_decide_true.
Qed.

Lemma write_undo_inv `{!CryptoOps} `{!PubKeyOps} files p q u files' : write_undo files p q u = Ok files' ->
  (is_Some (files !! p) /\ files' = files) \/ exists data, UndoWriteToDisk u q = Ok data /\ files !! p = None /\ files' = <[p := data]> files.
Proof.
  unfold write_undo. destruct (files !! p) as [d|]; [intros [= <-]; by left|]. intros (data & Hd & [= <-])%bind_ok. right. by exists data.
Qed.

(** The nickname rules look at the outputs of undo records only. *)
Section SameUndo.
Context `{AddressOps} `{CryptoOps}.
Context (mapArgs : gmap string string).
Lemma same_authorization tx u u' key : option_Forall2 same_tx_undo u u' -> TxHasOwnerAuthorizationInput tx u key = TxHasOwnerAuthorizationInput tx u' key.
Proof.
  intros [x x' Hx|]; [|done]. unfold TxHasOwnerAuthorizationInput. rewrite (Forall2_length _ _ _ Hx). destruct (check_owner_key key) as [k|]; [|done].
  cbn [mbind result_bind]. destruct (negb _); [done|]. assert (existsb (fun undo => is_owner_script k (scriptPubKey (txout undo))) (vprevout x) =
    existsb (fun undo => is_owner_script k (scriptPubKey (txout undo))) (vprevout x')) as ->; [|done].
  unfold same_tx_undo in Hx. induction Hx as [|a a' l l' (v & -> & _) _ IH]; [done|]. cbn. by rewrite IH.
Qed.
Lemma apply_operation_same auth auth' c cur : (forall tx key, auth tx key = auth' tx key) -> apply_operation mapArgs auth c cur = apply_operation mapArgs auth' c cur.
Proof.
  intros Ha. unfold apply_operation, do_register, do_update, do_transfer, do_renew, do_release, do_claim. destruct cur; rewrite ?Ha; done.
Qed.
Lemma connect_nicknames_same db block u u' fees h p : same_block_undo u u' -> connect_nicknames mapArgs db block u fees h p = connect_nicknames mapArgs db block u' fees h p.
Proof.
  intros Hu. unfold connect_nicknames, BuildNicknameBlockUpdates. rewrite (Forall2_length _ _ _ Hu).
  assert (Forall2 (option_Forall2 same_tx_undo) (None :: (Some <$> vtxundo u)) (None :: (Some <$> vtxundo u'))) as Ho.
  { constructor; [constructor|]. induction Hu; cbn; by repeat constructor. }
  revert Ho. generalize (None :: (Some <$> vtxundo u)) as l, (None :: (Some <$> vtxundo u')) as l'. intros l l' Ho. generalize (ReadPricingMultiplierPermille db) as mult. intros mult.
  assert (forall w, process_txs mapArgs db mult h (vtx block) l fees w = process_txs mapArgs db mult h (vtx block) l' fees w) as E; [|by rewrite E].
  revert fees. generalize (vtx block) as txs. induction Ho as [|x x' l l' Hx _ IH]; intros [|tx txs] [|fee fees] w; try done.
  cbn [process_txs]. assert (process_tx mapArgs db mult h tx x fee w = process_tx mapArgs db mult h tx x' fee w) as ->.
  { unfold process_tx. destruct (ExtractNicknameOperationFromTx tx) as [[op|]|]; try done. cbn [mbind result_bind].
    destruct (collect_spent _ _ _ _) as [[spent w1]|]; [|done]. cbn [mbind result_bind]. destruct (IsCoinBase tx); [done|].
    destruct (NicknameState.check_fee _ _ _); [|done]. cbn [mbind result_bind]. destruct (loadState _ _ _) as [st w2].
    destruct (check_spent_names _ _); [|done]. cbn [mbind result_bind].
    by rewrite (apply_operation_same _ (fun tx owner => TxHasOwnerAuthorizationInput tx x' owner)) by (intros; by apply same_authorization). }
  destruct (process_tx _ _ _ _ _ x' _ _); [|done]. apply IH.
Qed.
End SameUndo.

Section Parts.
Context `{AddressOps} `{CryptoOps} `{PowOps} `{SignatureOps} `{ScriptHashOps} `{!PubKeyOps}.
Context (chainparams : ChainParams) (BIP34Hash : Z) (options : NodeOptions).
Context {B : Type} `{CCoinsViewLaws B}.

(** The flag that remembers a check was set by one. *)
Definition checked (h : CBlockHeader) (block : CBlock) (fChecked : bool) : Prop :=
  fChecked = true -> CheckBlock chainparams h block false true true = Ok tt.

Lemma checked_shape h block fChecked pow root : checked h block fChecked -> CheckBlock chainparams h block fChecked pow root = Ok tt -> block_shape block.
Proof. intros Hc. destruct fChecked; [intros _; by eapply CheckBlock_shape, Hc|apply CheckBlock_shape]. Qed.

Lemma connect_context_inv m best cache p b ctx cache' : m !! p = Some b -> connect_context chainparams BIP34Hash options m best cache p = Ok (ctx, cache') ->
  c_params ctx = consensus_root chainparams /\ c_nHeight ctx = nHeight b /\ c_index ctx = m /\ c_pindex ctx = p /\ is_Some (pprev b) /\
  fScriptChecks options m best p b (GetConsensus (consensus_root chainparams) (nHeight b)) = Ok (c_fScriptChecks ctx) /\
  exists csv, c_flags ctx = block_script_flags (consensus_root chainparams) (nHeight b) csv false.
Proof.
  intros Hb. unfold connect_context, deref. rewrite Hb. cbn [mbind result_bind]. destruct (pprev b) as [q|] eqn:Eq; [|done].
  intros (fs & Hfs & Hc)%bind_ok. apply bind_ok in Hc as (a & _ & Hc). apply bind_ok in Hc as ([csv c'] & _ & [= <- <-]). cbn. split_and!; try done. by exists csv.
Qed.

(** A block that was connected, part by part. *)
Lemma ConnectBlock_inv m best cache p h block fChecked (view : CCoinsViewCache B) files db view' files' db' :
  ConnectBlock chainparams BIP34Hash options m best cache p h block fChecked false true view files db = Ok (view', files', db') ->
  header_GetHash (pure h) <> hashGenesisBlock chainparams -> view_ok view ->
  exists b ctx cache' view1 view2 u fees, m !! p = Some b /\ CheckBlock chainparams h block fChecked true true = Ok tt /\
    default 0 (pprev b) = best_block view /\ connect_context chainparams BIP34Hash options m best cache p = Ok (ctx, cache') /\
    view_ok view1 /\ contents view1 = contents view /\ run_cache (ConnectCoins ctx block) view1 = (view2, Ok (u, fees)) /\
    connect_nicknames (opt_mapArgs options) db block u fees (nHeight b) p = Ok db' /\ view' = SetBestBlock view2 p /\
    write_undo files p (default 0 (pprev b)) u = Ok files'.
Proof.
  unfold ConnectBlock. intros Hc Hp Hok. apply bind_ok in Hc as (b & Hb & Hc). apply bind_ok in Hc as ([] & Hchk & Hc).
  pose proof (GetBestBlock_law view Hok) as Hg. cbn [GetBestBlock CCoinsViewCache_view] in Hg. destruct (cache_GetBestBlock view) as [view1 bb].
  destruct Hg as (Hok1 & Ec & Eb & ->). apply reject_ok in Hc as [Hbest Hc]. rewrite (proj2 (Z.eqb_neq _ _)) in Hc by done.
  apply bind_ok in Hc as ([ctx cache'] & Hctx & Hc). destruct (run_cache (ConnectCoins ctx block) view1) as [view2 r] eqn:Er.
  apply bind_ok in Hc as ([u fees] & -> & Hc). cbn [negb] in Hc. apply bind_ok in Hc as (files1 & Hfiles & Hc). apply bind_ok in Hc as (db1 & Hdb & [= <- <- <-]). zbool.
  exists b, ctx, cache', view1, view2, u, fees. unfold deref in Hb. destruct (m !! p) as [b'|]; [|done]. injection Hb as ->. by split_and!.
Qed.

(** The genesis block leaves the nickname database alone. *)
Lemma ConnectBlock_genesis m best cache p h block fChecked fJustCheck fUpdate (view : CCoinsViewCache B) files db view' files' db' :
  ConnectBlock chainparams BIP34Hash options m best cache p h block fChecked fJustCheck fUpdate view files db = Ok (view', files', db') ->
  header_GetHash (pure h) = hashGenesisBlock chainparams -> db' = db.
Proof.
  unfold ConnectBlock. intros Hc Hh. apply bind_ok in Hc as (b & _ & Hc). apply bind_ok in Hc as ([] & _ & Hc).
  destruct (cache_GetBestBlock view) as [view1 bb]. apply reject_ok in Hc as [_ Hc]. rewrite Hh, Z.eqb_refl in Hc. by injection Hc.
Qed.

End Parts.
