(* ===== verification/TipRules.v ===== *)
(** * The node's state follows its tip

    The coins, the nickname database and the undo records under any sequence of
    connected and disconnected blocks, flushes and evictions: the state is that
    of the chain to the tip, every block can be disconnected again, and no more
    coins are in circulation than the subsidies of the chain. *)

From S2P Require Import Prelude Nicknames Serialize Script Base58 Money NicknameOp Arith Merkle Header BlockIndex Pow Transaction TxSerialize.
From S2P Require Import AuxPow HeaderChain VersionBits NicknameDB NicknameBatch NicknameState NicknameRules NicknameBlock.
From S2P Require Import DerSignature Interpreter ScriptRules SigHash Compressor Coins CoinsSerialize CoinsCache TxVerify ConnectCoins CoinsRules CoinsSupply CoinsVersions Block ConnectBlock.
Open Scope Z_scope.
Open Scope kubu_scope.

(** The transactions of a block, by their hashes. *)
Definition txids (block : CBlock) : list Z := tx_hash <$> vtx block.

(** The subsidies of the blocks from height 1 to [n]. *)
Fixpoint subsidies (root : ParamsTree) (n : nat) : Z :=
  match n with
  | O => 0
  | S n' => subsidies root n' + GetKubuBlockSubsidy (Z.of_nat n) (GetConsensus root (Z.of_nat n))
  end.

(** Amounts are 64 bits wide: the heights up to which the subsidies, at most 48
    coins each, cannot overflow. *)
Definition height_limit : Z := 900000000.

(** Coins that can be stored, unless they are spent. *)
Definition storable (c : CCoins) : Prop :=
  Forall (fun o => txout_IsNull o = false -> output_ok o) (coins_vout c) /\ Z.of_nat (length (coins_vout c)) < 2 ^ 30 /\
  in_i32 (coins_nVersion c) /\ 0 < coins_nHeight c < 2 ^ 31.

Lemma storable_cleanup c : storable c -> storable (Cleanup c).
Proof.
  intros (Ho & Hl & Hr). unfold storable, Cleanup. cbn [coins_vout with_vout]. split; [by apply cleanup_Forall|]. split; [|exact Hr].
  pose proof (length_cleanup (coins_vout c)). lia.
Qed.
Lemma storable_spend c n : storable c -> storable (Cleanup (Spend c n).2).
Proof.
  intros Hc. apply storable_cleanup. unfold Spend. destruct (IsAvailable c n); [|done]. destruct Hc as (Ho & Hl & Hr). apply storable_cleanup.
  split; cbn [coins_vout with_vout]; [by apply Forall_insert|]. by rewrite length_insert.
Qed.
Lemma storable_new tx h d : CheckTransaction tx d = Ok tt -> in_i32 (tx_nVersion tx) -> 0 < h < 2 ^ 31 -> storable (Cleanup (FromTx tx h)).
Proof.
  intros (Ho & Hl & _)%CheckTransaction_outputs Hv Hh. unfold MAX_BLOCK_BASE_SIZE in Hl. apply storable_cleanup. unfold FromTx, ClearUnspendable. apply storable_cleanup.
  split; cbn [coins_vout with_vout]; [|by split; [rewrite length_fmap; lia|]]. apply Forall_fmap. eapply Forall_impl; [exact Ho|]. cbn. intros o Hm Hn.
  unfold null_unspendable in *. destruct (IsUnspendable (scriptPubKey o)) eqn:E; [done|]. unfold IsUnspendable in E. apply orb_false_iff in E as [_ E].
  apply Z.ltb_ge in E. split; [by apply MoneyRange_iff|done].
Qed.
Lemma storable_same c c' : same_coins c c' -> storable c' -> storable c.
Proof.
  intros (v & -> & Hv) (Ho & Hl & Hi & Hh). unfold storable. cbn. split_and!; try done; try lia.
  destruct Hv as [->| ->]; [done|]. pose proof (stored_version_range _ Hi). unfold in_i32. lia.
Qed.
Lemma storable_record c n u : storable c -> spent_record c n = Some u -> can_store_undo u.
Proof.
  intros (Ho & _ & Hv & Hh) (o & Hat & _ & _ & ->)%spent_record_inv. assert (output_ok o) as Hok.
  { unfold unspent_at in Hat. destruct (coins_vout c !! Z.to_nat n) as [x|] eqn:E; [|done]. cbn in Hat. destruct (txout_IsNull x) eqn:En; [done|].
    injection Hat as ->. rewrite Forall_lookup in Ho. by eapply Ho. }
  destruct (bool_decide _); unfold can_store_undo; cbn; rewrite ?(u32_id (coins_nHeight c)) by (unfold in_u32; lia); split_and!; try done; try lia.
Qed.

Section Node.
Context `{AddressOps} `{CryptoOps} `{PowOps} `{SignatureOps} `{ScriptHashOps} `{!PubKeyOps} `{!PubKeyLaws}.
Context (chainparams : ChainParams) (BIP34Hash : Z) (options : NodeOptions).
(** The block index and the block files. *)
Context (m : BlockMap) (headers : Z -> CBlockHeader) (blocks : Z -> CBlock).

Notation genesis := (hashGenesisBlock chainparams).
Notation root := (consensus_root chainparams).

(** What is assumed of them: an index as [AddToBlockIndex] builds it; the header
    read for an entry hashes to it, as [ReadBlockFromDisk] makes sure; positions
    of outputs are unsigned and versions 32 bits wide; and no two transactions of a chain have the same
    hash, as BIP 34 means to ensure. *)
Record files_ok : Prop := {
  fo_hashes p b : m !! p = Some b -> header_GetHash (pure (headers p)) = p;
  fo_tree : tree_ok m;
  fo_null : m !! 0 = None;
  fo_genesis b : m !! genesis = Some b -> pprev b = None;
  fo_heights p b : m !! p = Some b -> nHeight b <= height_limit;
  fo_positions p : Forall (fun tx => Forall (fun i => 0 <= op_n (prevout i)) (vin tx)) (vtx (blocks p));
  fo_versions p : Forall (fun tx => in_i32 (tx_nVersion tx)) (vtx (blocks p));
  fo_nodup p : NoDup (txids (blocks p));
  fo_new p h q id : ancestor m p h q -> q <> p -> id ∈ txids (blocks q) -> id ∉ txids (blocks p)
}.

(** ** The state of a chain *)

(** A block takes the coins and the database of its parent to its own, and
    leaves an undo record. *)
Definition connects_with (fs : bool) (p : Z) (b : CBlockIndex) (U : utxos) (D : NicknameStateDB) (u : CBlockUndo) (U' : utxos) (D' : NicknameStateDB) : Prop :=
  block_shape (blocks p) /\ exists ctx fees, c_nHeight ctx = nHeight b /\ c_params ctx = root /\
    c_fScriptChecks ctx = fs /\ (exists csv, c_flags ctx = block_script_flags root (nHeight b) csv false) /\
    coins_run (ConnectCoins ctx (blocks p)) U (Some (U', Ok (u, fees))) /\
    connect_nicknames (opt_mapArgs options) D (blocks p) u fees (nHeight b) p = Ok D'.
Definition connects (p : Z) (b : CBlockIndex) (U : utxos) (D : NicknameStateDB) (u : CBlockUndo) (U' : utxos) (D' : NicknameStateDB) : Prop :=
  exists fs, connects_with fs p b U D u U' D'.

Inductive ledger : Z -> utxos -> NicknameStateDB -> Prop :=
| ledger_genesis b : m !! genesis = Some b -> ledger genesis ∅ empty_db
| ledger_block p b q U D u U' D' : m !! p = Some b -> pprev b = Some q -> p <> genesis -> ledger q U D -> connects p b U D u U' D' -> ledger p U' D'.

(** A transaction of the chain to [p]. *)
Definition in_chain (p : Z) (tx : CTransaction) : Prop := exists h q, ancestor m p h q /\ tx ∈ vtx (blocks q).

(** The coins of transaction [id] come from a transaction of the chain. *)
Definition comes_from (p id : Z) (c : CCoins) : Prop := exists tx, in_chain p tx /\ tx_hash tx = id /\ tx_nVersion tx = coins_nVersion c.

(** Everything on record comes from a block of the chain. *)
Record ledger_inv (p : Z) (U : utxos) (D : NicknameStateDB) : Prop := {
  li_coins : map_Forall (comes_from p) U;
  li_bonds o : is_Some (t_bond D !! o) -> exists h q, ancestor m p h q /\ op_hash o ∈ txids (blocks q);
  li_undo q : is_Some (t_undo D !! q) \/ is_Some (t_bond_undo D !! q) \/ is_Some (t_pricing_undo D !! q) -> exists h, ancestor m p h q;
  li_counts b h : m !! p = Some b -> is_Some (t_reg_count D !! h) -> h <= nHeight b;
  li_pricing s : t_pricing D = Some s -> (ReadNicknamePricingState D).2 = s;
  li_names : chain_inv D;
  li_utxos : utxos_ok U;
  li_values : values_ok U;
  li_storable : map_Forall (fun _ => storable) U;
  li_total b : m !! p = Some b -> total_value U <= subsidies root (Z.to_nat (nHeight b))
}.

Hypothesis Hfiles : files_ok.
#[local] Notation Hm := (fo_tree Hfiles).

Lemma subsidies_bound n : subsidies root n <= 48 * COIN * Z.of_nat n.
Proof.
  induction n as [|n IH]; [done|]. cbn [subsidies]. pose proof (subsidy_range (Z.of_nat (S n)) (GetConsensus root (Z.of_nat (S n)))). unfold COIN in *. lia.
Qed.

Lemma parent_height p b q : m !! p = Some b -> pprev b = Some q -> exists bq, m !! q = Some bq /\ nHeight b = nHeight bq + 1 /\ 0 <= nHeight bq /\
  ancestor m p (nHeight bq) q.
Proof.
  intros Hp Hq. destruct (Hm p b Hp) as (Hp0 & _ & Hl).
  destruct (Z.eq_dec (nHeight b) 0) as [E|]; [by rewrite (genesis_of m Hm p b Hp E) in Hq|].
  destruct (prev_ancestor m Hm p (nHeight b) p b) as (r & Er & Ha); [by apply ancestor_refl; try apply Hm|done|lia|].
  rewrite Hq in Er. injection Er as <-. destruct (ancestor_height m Hm _ _ _ Ha) as (bq & Hbq & E). exists bq.
  split_and!; [done|lia|by apply (Hm q)|by rewrite E].
Qed.

(** A block is new to the state of its parent. *)
Lemma ledger_fresh p b q U D : m !! p = Some b -> pprev b = Some q -> ledger_inv q U D ->
  Forall (fun tx => U !! tx_hash tx = None) (vtx (blocks p)) /\ txs_ok D (vtx (blocks p)) /\ block_fresh D p (nHeight b).
Proof.
  intros Hp Hq Hi. destruct (parent_height p b q Hp Hq) as (bq & Hbq & Eh & Hh0 & Ha).
  assert (forall h r id, ancestor m q h r -> id ∈ txids (blocks r) -> id ∉ txids (blocks p)) as Hnew.
  { intros h r id Hr. apply (fo_new Hfiles p h r); [by eapply (ancestor_trans m Hm)|]. intros ->.
    destruct (ancestor_height m Hm _ _ _ Hr) as (b' & Hb' & E). destruct Hr as (bq' & Hq' & Hle & _). simplify_eq. lia. }
  assert (forall h, ~ ancestor m q h p) as Hnot.
  { intros h Hr. destruct (ancestor_height m Hm _ _ _ Hr) as (b' & Hb' & E). destruct Hr as (bq' & Hq' & Hle & _). simplify_eq. lia. }
  split_and!.
  - apply Forall_forall. intros tx Htx. destruct (U !! tx_hash tx) as [c|] eqn:E; [|done].
    destruct (li_coins _ _ _ Hi (tx_hash tx) c E) as (tx' & (h & r & Hr & Hin) & Eid & _). destruct (Hnew h r (tx_hash tx) Hr); [|by apply list_elem_of_fmap_2].
    rewrite <- Eid. by apply list_elem_of_fmap_2.
  - split; [apply (fo_nodup Hfiles)|]. intros o name Ho. destruct (li_bonds _ _ _ Hi o ltac:(by rewrite Ho)) as (h & r & Hr & Hid). by apply (Hnew h r).
  - split.
    + destruct (t_undo D !! p) eqn:E; [|done]. destruct (li_undo _ _ _ Hi p) as [h Hr]; [left; by rewrite E|by destruct (Hnot h)].
    + destruct (t_bond_undo D !! p) eqn:E; [|done]. destruct (li_undo _ _ _ Hi p) as [h Hr]; [right; left; by rewrite E|by destruct (Hnot h)].
    + destruct (t_pricing_undo D !! p) eqn:E; [|done]. destruct (li_undo _ _ _ Hi p) as [h Hr]; [right; right; by rewrite E|by destruct (Hnot h)].
    + destruct (t_reg_count D !! nHeight b) eqn:E; [|done]. pose proof (li_counts _ _ _ Hi bq (nHeight b) Hbq ltac:(by rewrite E)). lia.
    + apply (li_pricing _ _ _ Hi).
Qed.

Lemma shape_facts p : block_shape (blocks p) ->
  Forall tx_ok (vtx (blocks p)) /\ Forall (fun tx => Forall (fun o => 0 <= nValue o) (vout tx)) (vtx (blocks p)) /\
  (forall tx, head (vtx (blocks p)) = Some tx -> IsCoinBase tx = true) /\ Forall (fun tx => IsCoinBase tx = false) (tail (vtx (blocks p))).
Proof.
  intros [(cb & txs & E & Hcb & Hrest) [Hchk _]]. split_and!.
  - pose proof (fo_positions Hfiles p) as Hpos. rewrite Forall_forall in Hchk, Hpos |- *. intros tx Htx. eapply CheckTransaction_tx_ok; [by apply Hchk|by apply Hpos].
  - eapply Forall_impl; [exact Hchk|]. cbn. intros tx. apply CheckTransaction_values.
  - intros tx. rewrite E. by intros [= <-].
  - by rewrite E.
Qed.

Lemma block_storable p h : block_shape (blocks p) -> 0 < h < 2 ^ 31 -> Forall (fun tx => storable (Cleanup (FromTx tx h))) (vtx (blocks p)).
Proof.
  intros [_ [Hchk _]] Hh. pose proof (fo_versions Hfiles p) as Hv. rewrite Forall_forall in Hchk, Hv |- *. intros tx Htx.
  eapply storable_new; [by apply Hchk|by apply Hv|done].
Qed.
Lemma comes_from_spend p id x n : comes_from p id x -> comes_from p id (Cleanup (Spend x n).2).
Proof. unfold Spend. by destruct (IsAvailable x n). Qed.

(** A connected block keeps the invariant, and can be taken back. *)
Lemma connects_coins p b q U D u U' D' : m !! p = Some b -> pprev b = Some q -> ledger_inv q U D -> connects p b U D u U' D' ->
  utxos_ok U' /\ runs_to (DisconnectCoins (blocks p) u (nHeight b)) U' U (Ok true) /\ values_ok U' /\
  total_value U' <= subsidies root (Z.to_nat (nHeight b)) /\ map_Forall (fun _ => storable) U' /\
  map_Forall (comes_from p) U'.
Proof.
  intros Hp Hq Hi (fs & Hshape & ctx & fees & Eh & Er & _ & _ & Hrun & _). destruct (parent_height p b q Hp Hq) as (bq & Hbq & Ehq & Hh0 & Ha).
  destruct (ledger_fresh p b q U D Hp Hq Hi) as (Hfresh & _ & _). destruct (shape_facts p Hshape) as (Htx & _ & Hhead & Htail).
  pose proof (fo_heights Hfiles p b Hp) as Hlim. unfold height_limit in Hlim. pose proof (li_total _ _ _ Hi bq Hbq) as Htot.
  pose proof (subsidies_bound (Z.to_nat (nHeight bq))) as Hb.
  destruct (disconnect_coins_undo ctx (blocks p) U U' u fees Hrun (li_utxos _ _ _ Hi) Htx) as [Hok Hdis]; [rewrite Eh; lia| |done|].
  { intros tx E. split; [by apply Hhead|]. rewrite Forall_forall in Hfresh. apply Hfresh. apply head_Some_elem_of in E. done. }
  destruct (ConnectCoins_value ctx (blocks p) U U' u fees Hrun (li_values _ _ _ Hi) Hhead Htail) as [Hv Hle]; [unfold COIN in Hb; lia|].
  rewrite Eh, Er in *. apply ConnectCoins_inv in Hrun as (cb & txs & r & v & _ & _ & Hrun & _). apply connect_txs_updates in Hrun. split_and!; [done|done|done| | |].
  - replace (Z.to_nat (nHeight b)) with (S (Z.to_nat (nHeight bq))) by lia. cbn [subsidies].
    replace (Z.of_nat (S (Z.to_nat (nHeight bq)))) with (nHeight b) by lia. lia.
  - apply (updates_forall (fun _ => storable) (fun _ => True) (fun _ => storable_spend) (fun _ _ _ _ _ _ => I) _ _ _ _ _ Hrun); [|apply (li_storable _ _ _ Hi)].
    rewrite Eh. apply block_storable; [done|lia].
  - apply (updates_forall (comes_from p) (fun _ => True) (comes_from_spend p) (fun _ _ _ _ _ _ => I) _ _ _ _ _ Hrun).
    + apply Forall_forall. intros tx Hin. exists tx. split; [|done]. exists (nHeight b), p. split; [by apply (ancestor_refl m Hm)|done].
    + intros id c Hc. destruct (li_coins _ _ _ Hi id c Hc) as (tx & (h & z & Hz & Hin) & E). exists tx. split; [|done]. exists h, z. split; [by eapply (ancestor_trans m Hm)|done].
Qed.

Lemma connects_inv p b q U D u U' D' : m !! p = Some b -> pprev b = Some q -> ledger_inv q U D -> connects p b U D u U' D' ->
  ledger_inv p U' D' /\ runs_to (DisconnectCoins (blocks p) u (nHeight b)) U' U (Ok true) /\ disconnect_nicknames D' (nHeight b) p = D.
Proof.
  intros Hp Hq Hi Hc. destruct (connects_coins p b q U D u U' D' Hp Hq Hi Hc) as (Hok & Hdis & Hv & Htot & Hst & Hkeys).
  destruct Hc as (fs & _ & ctx & fees & _ & _ & _ & _ & _ & Hn). destruct (parent_height p b q Hp Hq) as (bq & Hbq & Ehq & Hh0 & Ha).
  destruct (ledger_fresh p b q U D Hp Hq Hi) as (_ & Htxs & Hfresh).
  destruct (connect_spec _ _ _ _ _ _ _ _ (li_names _ _ _ Hi) Htxs Hn) as (Hinv & _ & Hundo & Hcounts & _).
  destruct (connect_rows _ _ _ _ _ _ _ _ (li_names _ _ _ Hi) Htxs Hn) as (Hbonds & Hrows & Hpr).
  assert (forall P : Z -> Prop, (exists h r, ancestor m q h r /\ P r) \/ P p -> exists h r, ancestor m p h r /\ P r) as Hup.
  { intros P [(h & r & Hr & Hx)|Hx]; [exists h, r; split; [by eapply (ancestor_trans m Hm)|done]|].
    exists (nHeight b), p. split; [by apply (ancestor_refl m Hm)|done]. }
  split_and!; [|done|by apply Hundo]. split; [done|..|done|done|done|done|done|].
  - intros o [name Ho]. apply (Hup (fun r => op_hash o ∈ txids (blocks r))). destruct (Hbonds o name Ho) as [Ho'|]; [left; by apply (li_bonds _ _ _ Hi)|by right].
  - intros r Hr. destruct (decide (r = p)) as [->|Hne]; [exists (nHeight b); by apply (ancestor_refl m Hm)|].
    destruct (Hrows r Hne) as (E1 & E2 & E3). rewrite E1, E2, E3 in Hr. destruct (li_undo _ _ _ Hi r Hr) as [h Hh]. exists h. by eapply (ancestor_trans m Hm).
  - intros b' h Hb' Hh. simplify_eq. rewrite Hcounts in Hh. destruct (decide _); [lia|]. pose proof (li_counts _ _ _ Hi bq h Hbq Hh). lia.
  - intros b' Hb'. by simplify_eq.
Qed.

Lemma ledger_is_inv p U D : ledger p U D -> ledger_inv p U D.
Proof.
  induction 1 as [b Hb|p b q U D u U' D' Hp Hq _ _ IH Hc]; [|by destruct (connects_inv p b q U D u U' D')].
  split; cbn.
  - apply map_Forall_empty.
  - intros o [? Hx]. by rewrite lookup_empty in Hx.
  - intros q [[? Hx]|[[? Hx]|[? Hx]]]; by rewrite lookup_empty in Hx.
  - intros b' h _ [? Hx]. by rewrite lookup_empty in Hx.
  - done.
  - apply empty_chain_inv.
  - apply map_Forall_empty.
  - apply map_Forall_empty.
  - apply map_Forall_empty.
  - intros b' Hb'. simplify_eq. assert (nHeight b = 0) as ->; [|done]. destruct (Hm _ _ Hb) as (Hb0 & _).
    destruct (Z.eq_dec (nHeight b) 0) as [|Hne]; [done|]. destruct (prev_of m Hm _ b Hb) as (r & br & Er & _); [lia|].
    by rewrite (fo_genesis Hfiles b Hb) in Er.
Qed.

Lemma connects_det p b q U D u U' D' v V E : ledger_inv q U D -> connects p b U D u U' D' -> connects p b U D v V E -> u = v /\ U' = V /\ D' = E.
Proof.
  intros Hi (fs & Hs & ctx & fees & Eh & _ & _ & _ & Hr & Hn) (fs' & _ & ctx' & fees' & Eh' & _ & _ & _ & Hr' & Hn').
  destruct (shape_facts p Hs) as (_ & Hvals & _ & _).
  destruct (ConnectCoins_det ctx ctx' _ _ _ _ _ _ _ _ Hr Hr') as (-> & -> & ->); [congruence|apply Hi|done|]. rewrite Hn in Hn'. by injection Hn' as ->.
Qed.

Lemma ledger_det p U D V E : ledger p U D -> ledger p V E -> U = V /\ D = E.
Proof.
  intros HL. revert V E. induction HL as [b Hb|p b q U D u U' D' Hp Hq Hne HL IH Hc]; intros V E HV.
  - inversion HV as [|? b' q ? ? ? ? ? Hp Hq Hne]; subst; [done|]. congruence.
  - inversion HV as [|? b' q' U1 D1 u1 ? ? Hp' Hq' _ HL' Hc']; subst; [congruence|]. simplify_eq.
    destruct (IH _ _ HL') as [<- <-]. destruct (connects_det p b q U D u U' D' u1 V E) as (_ & -> & ->); [by apply ledger_is_inv|done|done|done].
Qed.

(** ** Coins that were stored *)

(** The coins of a chain can be stored, also those that were. *)
Lemma ledger_can_store p U D V : ledger_inv p U D -> same_utxos V U -> map_Forall (fun _ => can_store) V.
Proof.
  intros Hi Hs id c Hc. assert (storable c) as (Ho & Hl & Hv & Hh).
  { apply (same_forall (fun _ => storable) V U (fun _ => storable_same) Hs (li_storable _ _ _ Hi) id c Hc). }
  assert (canonical (coins_vout c) /\ IsPruned c = false) as [Hcan Hp].
  { refine (same_forall (fun _ c => canonical (coins_vout c) /\ IsPruned c = false) V U _ Hs _ id c Hc).
    - by intros _ x x' (v & -> & _).
    - intros i x Hx. by destruct (li_utxos _ _ _ Hi i x Hx) as (? & ? & _). }
  split_and!; [done..|lia|lia|done].
Qed.

(** A block connects to stored coins as it does to the coins of the chain. *)
Lemma connects_same fs p b V D v V' D' U : connects_with fs p b V D v V' D' -> same_utxos V U ->
  exists u U', connects_with fs p b U D u U' D' /\ same_utxos V' U' /\ same_block_undo v u.
Proof.
  intros (Hshape & ctx & fees & Eh & Er & Ef & Ec & Hrun & Hn) Hs.
  destruct (follows_ok _ _ _ _ _ _ _ (follows_ConnectCoins ctx (blocks p)) Hs Hrun) as (U' & [u fees'] & Hrun' & Hs' & Hu & E). cbn in Hu, E. subst fees'.
  exists u, U'. split; [|by split]. split; [done|]. exists ctx, fees. split_and!; try done. by rewrite <- (connect_nicknames_same _ _ _ _ _ _ _ _ Hu).
Qed.

(** Its undo record can be written and read. *)
Lemma connects_can_store fs p b q V D v V' D' : connects_with fs p b V D v V' D' -> m !! p = Some b -> pprev b = Some q -> map_Forall (fun _ => storable) V -> can_store_block_undo v.
Proof.
  intros (Hshape & ctx & fees & Eh & _ & _ & _ & Hrun & _) Hp Hq Hst. destruct (parent_height p b q Hp Hq) as (bq & _ & Eb & Hh0 & _).
  pose proof (fo_heights Hfiles p b Hp) as Hlim. unfold height_limit in Hlim. pose proof Hshape as [_ [Hchk Hlen]].
  apply ConnectCoins_inv in Hrun as (cb & txs & r & val & Ev & _ & Hrun & _ & _ & _ & -> & _). apply connect_txs_updates in Hrun.
  destruct (updates_forall (fun _ => storable) can_store_undo (fun _ => storable_spend) (fun _ => storable_record) _ _ _ _ _ Hrun) as [_ Hall]; [|done|].
  { apply block_storable; [done|lia]. }
  assert (Forall can_store_tx_undo ((fun x => x.1.2) <$> r.2)) as Hu.
  { revert Hall Hchk. generalize ((fun x : Z * CTxUndo * list CScriptCheck => x.1.2) <$> r.2) as us. generalize (vtx (blocks p)) as l.
    intros l us Hall. induction Hall as [|tx u l us [Hq' Hl] _ IH]; intros Hchk; [constructor|]. apply Forall_cons in Hchk as [Ht Hchk].
    constructor; [|by apply IH]. apply CheckTransaction_outputs in Ht as (_ & _ & Hin). unfold MAX_BLOCK_BASE_SIZE in Hin. split; [done|]. unfold MAX_SIZE. lia. }
  apply Forall2_length in Hall. split; cbn [vtxundo].
  - destruct ((fun x : Z * CTxUndo * list CScriptCheck => x.1.2) <$> r.2); [constructor|]. by apply Forall_cons in Hu as [_ Hu].
  - unfold MAX_BLOCK_BASE_SIZE in Hlen. unfold MAX_SIZE. destruct ((fun x : Z * CTxUndo * list CScriptCheck => x.1.2) <$> r.2); cbn in Hall |- *; lia.
Qed.

(** ** The node *)

Context {B : Type} `{CCoinsViewLaws B}.

(** The active chain grows and shrinks at its tip; [FlushStateToDisk] flushes
    the cache, and the pool drops clean entries from it. *)
Inductive node_step : Chainstate B -> Chainstate B -> Prop :=
| step_connect best cache p fChecked s s' : checked chainparams (headers p) (blocks p) fChecked ->
    ConnectTip chainparams BIP34Hash options m best cache p (headers p) (blocks p) fChecked s = Ok s' -> node_step s s'
| step_disconnect p s s' : Tip (chainActive s) = Some p -> DisconnectTip m (blocks p) s = Ok s' -> node_step s s'
| step_flush s c : hashBlock (pcoinsTip s) <> 0 -> Flush (pcoinsTip s) = Ok c -> node_step s (mkChainstate c (nicknameDB s) (undo_files s) (chainActive s))
| step_uncache s txid : node_step s (mkChainstate (Uncache (pcoinsTip s) txid) (nicknameDB s) (undo_files s) (chainActive s)).

Inductive reachable : Chainstate B -> Prop :=
| reach_start v : view_ok v -> contents v = ∅ -> best_block v = 0 -> reachable (mkChainstate (CCoinsViewCache_of v) empty_db ∅ [])
| reach_step s s' : reachable s -> node_step s s' -> reachable s'.

(** The state of a node is that of the chain to its tip, and its undo files hold
    the records of the blocks, up to what storing coins and records loses. *)
Record at_tip (s : Chainstate B) (t : Z) : Prop := {
  at_chain : chain_of m (chainActive s) t;
  at_best : cache_best_block (pcoinsTip s) = t;
  at_ledger : exists U, ledger t U (nicknameDB s) /\ same_utxos (cache_contents (pcoinsTip s)) U;
  at_undo h r : ancestor m t h r -> r <> genesis -> is_Some (undo_files s !! r)
}.
Definition at_start (s : Chainstate B) : Prop :=
  chainActive s = [] /\ cache_best_block (pcoinsTip s) = 0 /\ cache_contents (pcoinsTip s) = ∅ /\ nicknameDB s = empty_db.
Record node_inv (s : Chainstate B) : Prop := {
  ni_cache : cache_ok (pcoinsTip s);
  ni_tip : at_start s \/ exists t, at_tip s t;
  ni_undo p data : undo_files s !! p = Some data -> exists b q U D w u U' D', m !! p = Some b /\ pprev b = Some q /\ ledger q U D /\
    connects p b U D u U' D' /\ UndoReadFromDisk data q = Ok w /\ same_block_undo w u
}.

Lemma ni_chain s : node_inv s -> chain_ok m (chainActive s).
Proof. intros [_ [(E & _)|(t & Ht)] _]; [by left|right; exists t; apply Ht]. Qed.

(** A view over the tip's cache, and what its flush leaves there. *)
Lemma view_over (c : CCoinsViewCache B) : cache_ok c ->
  cache_ok (CCoinsViewCache_of c) /\ cache_contents (CCoinsViewCache_of c) = cache_contents c /\ cache_best_block (CCoinsViewCache_of c) = cache_best_block c.
Proof.
  intros Hv. split_and!; [split; [exact Hv|apply map_Forall_empty]| |done]. apply map_eq. intros i. rewrite cache_contents_lookup. cbn. by rewrite lookup_empty.
Qed.

Lemma flush_view (view : CCoinsViewCache (CCoinsViewCache B)) p view' : cache_ok view -> p <> 0 -> Flush (SetBestBlock view p) = Ok view' ->
  cache_ok (base view') /\ cache_contents (base view') = cache_contents view /\ cache_best_block (base view') = p.
Proof.
  intros Hok Hp Hf. destruct (Flush_exact (SetBestBlock view p) view') as (Hok' & _ & Ec & Eb); try done.
  destruct Hok' as [Hb _]. split_and!; [exact Hb|exact Ec|by apply Eb].
Qed.

Lemma ConnectTip_parts best cache p h block fChecked (s s' : Chainstate B) :
  ConnectTip chainparams BIP34Hash options m best cache p h block fChecked s = Ok s' ->
  exists b view files db view' chain, m !! p = Some b /\ pprev b = Tip (chainActive s) /\
    ConnectBlock chainparams BIP34Hash options m best cache p h block fChecked false true (CCoinsViewCache_of (pcoinsTip s)) (undo_files s) (nicknameDB s) = Ok (view, files, db) /\
    Flush view = Ok view' /\ SetTip m (chainActive s) (Some p) = Ok chain /\
    s' = mkChainstate (base view') db files chain.
Proof.
  unfold ConnectTip. intros (b & Hb & Hc)%bind_ok. apply reject_ok in Hc as [Ht Hc]. apply bind_ok in Hc as ([[view files] db] & Hcb & Hc).
  apply bind_ok in Hc as (view' & Hf & Hc). apply bind_ok in Hc as (chain & Hs & [= <-]). apply negb_false_iff, bool_decide_eq_true in Ht.
  unfold deref in Hb. destruct (m !! p) as [b'|]; [|done]. injection Hb as ->. exists b, view, files, db, view', chain. by split_and!.
Qed.

Lemma Tip_cases s : node_inv s -> match Tip (chainActive s) with None => at_start s | Some t => at_tip s t end.
Proof.
  intros [_ [Hs|(t & Ht)] _]; [by rewrite (proj1 Hs)|]. by rewrite (Tip_chain_of m Hm (chainActive s) t (at_chain _ _ Ht)).
Qed.

Lemma connect_genesis best cache fChecked s s' : node_inv s ->
  ConnectTip chainparams BIP34Hash options m best cache genesis (headers genesis) (blocks genesis) fChecked s = Ok s' -> node_inv s'.
Proof.
  intros Hi Hc. pose proof (Tip_cases s Hi) as Htip. apply ConnectTip_parts in Hc as (b & view & files & db & view' & chain & Hb & Hprev & Hcb & Hf & Hset & ->).
  rewrite (fo_genesis Hfiles b Hb) in Hprev. rewrite <- Hprev in Htip. destruct Htip as (Ec & _ & Eu & Ed).
  destruct (view_over (pcoinsTip s) (ni_cache _ Hi)) as (Hok & Econt & _).
  unfold ConnectBlock in Hcb. apply bind_ok in Hcb as (b' & _ & Hcb). apply bind_ok in Hcb as ([] & _ & Hcb).
  pose proof (GetBestBlock_law (CCoinsViewCache_of (pcoinsTip s)) Hok) as Hg. cbn [GetBestBlock CCoinsViewCache_view] in Hg.
  destruct (cache_GetBestBlock _) as [v1 bb]. destruct Hg as (Hok1 & Ec1 & _ & _). apply reject_ok in Hcb as [_ Hcb]. rewrite (fo_hashes Hfiles _ _ Hb), Z.eqb_refl in Hcb.
  injection Hcb as <- <- <-. assert (genesis <> 0) as Hne by (intros E; rewrite E, (fo_null Hfiles) in Hb; done).
  destruct (flush_view v1 genesis view' Hok1 Hne Hf) as (Hok' & Ec' & Eb'). destruct (SetTip_spec m Hm (chainActive s) genesis b (ni_chain s Hi) Hb) as (c' & Hc' & Hof).
  rewrite Hset in Hc'. injection Hc' as <-. split; cbn [pcoinsTip undo_files]; [done| |by apply (ni_undo _ Hi)].
  right. exists genesis. split; cbn [chainActive pcoinsTip nicknameDB undo_files]; [done|done| |].
  - rewrite Ec'. change (cache_contents v1) with (contents v1). rewrite Ec1. cbn [contents CCoinsViewCache_laws]. rewrite Econt, Eu, Ed. exists ∅. split; [by econstructor|reflexivity].
  - intros h r (b0 & Hb0 & Hh & W) Hr. simplify_eq. destruct Hr. destruct (Z.to_nat (nHeight b - h)) as [|n] eqn:En; [by injection W|].
    cbn [walk] in W. rewrite Hb in W. cbn in W. rewrite (fo_genesis Hfiles b Hb) in W. done.
Qed.

(** A block connected on top of [q]. *)
Lemma connect_block best cache p fChecked s s' : node_inv s -> p <> genesis -> checked chainparams (headers p) (blocks p) fChecked ->
  ConnectTip chainparams BIP34Hash options m best cache p (headers p) (blocks p) fChecked s = Ok s' ->
  exists b q u fs, m !! p = Some b /\ fScriptChecks options m best p b (GetConsensus root (nHeight b)) = Ok fs /\ pprev b = Some q /\ at_tip s q /\ cache_ok (pcoinsTip s') /\ cache_best_block (pcoinsTip s') = p /\
    chain_of m (chainActive s') p /\ write_undo (undo_files s) p q u = Ok (undo_files s') /\
    connects_with fs p b (cache_contents (pcoinsTip s)) (nicknameDB s) u (cache_contents (pcoinsTip s')) (nicknameDB s').
Proof.
  intros Hi Hne Hchk Hc. pose proof (Tip_cases s Hi) as Htip. destruct (view_over (pcoinsTip s) (ni_cache _ Hi)) as (Hok & Econt & _).
  apply ConnectTip_parts in Hc as (b & view & files & db & view' & chain & Hb & Hprev & Hcb & Hf & Hset & ->).
  destruct (ConnectBlock_inv chainparams BIP34Hash options (B := CCoinsViewCache B) _ _ _ _ _ _ _ _ _ _ _ _ _ Hcb ltac:(by rewrite (fo_hashes Hfiles _ _ Hb)) Hok)
    as (b' & ctx & cache' & v1 & v2 & u & fees & Hb' & Hcheck & _ & Hctx & Hok1 & Ec1 & Hrun & Hn & -> & Hwrite).
  cbn [contents CCoinsViewCache_laws] in Ec1. rewrite Econt in Ec1. cbn [view_ok CCoinsViewCache_laws] in Hok1.
  simplify_eq. destruct (connect_context_inv _ _ _ _ _ _ _ _ _ _ Hb Hctx) as (Er & Eh & _ & _ & [q Eq] & Es & Ef). rewrite Eq in Hprev. rewrite <- Hprev in Htip.
  destruct (at_ledger _ _ Htip) as (U & HL & Hsame). destruct (ledger_fresh p b q _ _ Hb Eq (ledger_is_inv _ _ _ HL)) as (Hfresh & _ & _).
  assert (safe (ConnectCoins ctx (blocks p)) (cache_contents v1)) as Hsafe.
  { apply ConnectCoins_safe; [apply (fo_nodup Hfiles)|right; rewrite Ec1]. eapply Forall_impl; [exact Hfresh|]. cbn.
    intros tx Hn0. specialize (Hsame (tx_hash tx)). rewrite Hn0 in Hsame. by inversion Hsame. }
  pose proof (run_cache_refines (ConnectCoins ctx (blocks p)) v1 Hok1 Hsafe) as Href. rewrite Hrun in Href. destruct Href as [Hok2 Hr]. rewrite Ec1 in Hr.
  assert (p <> 0) as Hp0 by (intros ->; by rewrite (fo_null Hfiles) in Hb). destruct (flush_view v2 p view' Hok2 Hp0 Hf) as (Hok' & Ec' & Eb').
  destruct (SetTip_spec m Hm (chainActive s) p b (ni_chain s Hi) Hb) as (c' & Hc' & Hof). rewrite Hset in Hc'. injection Hc' as <-.
  assert (connects_with (c_fScriptChecks ctx) p b (cache_contents (pcoinsTip s)) (nicknameDB s) u (cache_contents (base view')) db) as Hcon.
  { rewrite Ec'. split; [by eapply checked_shape|]. exists ctx, fees. by split_and!. }
  rewrite Eq in Hwrite. exists b, q, u, (c_fScriptChecks ctx). cbn [pcoinsTip nicknameDB undo_files chainActive]. by repeat (split; [done|]).
Qed.

(** A block disconnected: its record is read, and the coins it gives back are
    those of the parent, up to what was stored. *)
Lemma DisconnectBlock_ok {V} `{CCoinsViewLaws V} p b q block data w u (view : CCoinsViewCache V) db U' U : m !! p = Some b -> pprev b = Some q ->
  cache_ok view -> cache_best_block view = p -> UndoReadFromDisk data q = Ok w -> same_block_undo w u -> same_utxos (cache_contents view) U' ->
  runs_to (DisconnectCoins block u (nHeight b)) U' U (Ok true) ->
  exists view', DisconnectBlock m p block (Some data) true view db = Ok (SetBestBlock view' q, disconnect_nicknames db (nHeight b) p) /\
    cache_ok view' /\ same_utxos (cache_contents view') U.
Proof.
  intros Hb Hq Hok Hbest Hread Hu Hsame Hdis. unfold DisconnectBlock. rewrite (deref_ok _ _ _ Hb). cbn [mbind result_bind].
  pose proof (GetBestBlock_law view Hok) as Hg. cbn [GetBestBlock CCoinsViewCache_view] in Hg.
  destruct (cache_GetBestBlock view) as [v1 best]. destruct Hg as (Hok1 & Ec1 & _ & ->). cbn [contents best_block view_ok CCoinsViewCache_laws] in *.
  rewrite Hbest, Z.eqb_refl, Hq, Hread. cbn [negb].
  pose proof (run_cache_refines (DisconnectCoins block w (nHeight b)) v1 Hok1 (DisconnectCoins_safe _ _ _ _)) as Href.
  destruct (run_cache _ v1) as [v2 r]. destruct Href as [Hok2 Hr]. rewrite Ec1 in Hr.
  destruct (follows_run _ _ _ _ _ _ (same_DisconnectCoins block w u (nHeight b) Hu) Hsame Hr) as (o & Hr' & Ho). apply Hdis in Hr' as ->.
  destruct Ho as [Hs Hcl]. destruct r as [clean|]; [|done]. cbn in Hcl. rewrite (Hcl eq_refl). by exists v2.
Qed.

Lemma disconnect_block p s : node_inv s -> Tip (chainActive s) = Some p -> p <> genesis ->
  exists s' b q, m !! p = Some b /\ pprev b = Some q /\ DisconnectTip m (blocks p) s = Ok s' /\
    undo_files s' = undo_files s /\ cache_ok (pcoinsTip s') /\ at_tip s' q.
Proof.
  intros Hi Ht Hne. pose proof (Tip_cases s Hi) as Htip. rewrite Ht in Htip. destruct Htip as [Hch Hbest (V & HL & Hsame) Hundo].
  inversion HL as [|? b q U D u0 U' D' Hb Hq _ HLq Hcon Ep]; [congruence|]. clear Ep. subst U' D'.
  destruct (Hundo (nHeight b) p) as [data Hdata]; [by apply (ancestor_refl m Hm)|done|]. pose proof (ledger_is_inv _ _ _ HLq) as Hiq.
  destruct (ni_undo _ Hi p data Hdata) as (b1 & q1 & U1 & D1 & w & u & V1 & E & Hb1 & Hq1 & HL1 & Hcon1 & Hread & Hw).
  rewrite Hb in Hb1. injection Hb1 as <-. rewrite Hq in Hq1. injection Hq1 as <-. destruct (ledger_det _ _ _ _ _ HLq HL1) as [<- <-].
  destruct (connects_det _ _ _ _ _ _ _ _ _ _ _ Hiq Hcon Hcon1) as [-> _].
  destruct (connects_inv p b q U D u _ _ Hb Hq Hiq Hcon) as (_ & Hdis & Hnames).
  destruct (view_over (pcoinsTip s) (ni_cache _ Hi)) as (Hok & Econt & Ebest). destruct (parent_height p b q Hb Hq) as (bq & Hbq & _ & _ & Ha).
  rewrite <- Econt in Hsame. destruct (DisconnectBlock_ok p b q (blocks p) data w u _ (nicknameDB s) V U Hb Hq Hok) as (v2 & Hd & Hok2 & Ec2); [by rewrite Ebest|done..|].
  assert (q <> 0) as Hq0 by (intros ->; by rewrite (fo_null Hfiles) in Hbq). destruct (Flush_spec (SetBestBlock v2 q) Hok2) as (view' & Hf & _); [by intros ? ? _ _ _|].
  destruct (flush_view v2 q view' Hok2 Hq0 Hf) as (Hok' & Ec' & Eb'). destruct (SetTip_spec m Hm (chainActive s) q bq (ni_chain s Hi) Hbq) as (c' & Hset & Hof).
  exists (mkChainstate (base view') D (undo_files s) c'), b, q. split_and!; try done; cbn [pcoinsTip].
  { unfold DisconnectTip. rewrite Ht, (deref_ok _ _ _ Hb). cbn [mbind result_bind]. rewrite Hdata, Hd. cbn [mbind result_bind]. rewrite Hf. cbn [mbind result_bind].
    rewrite Hq, Hset. cbn [mbind result_bind]. by rewrite Hnames. }
  split; cbn [pcoinsTip nicknameDB undo_files chainActive]; [done|done|exists U; by rewrite Ec'|].
  intros h r Hr. apply (Hundo h r). by eapply (ancestor_trans m Hm).
Qed.

Lemma connect_inv best cache p fChecked s s' : node_inv s -> checked chainparams (headers p) (blocks p) fChecked ->
  ConnectTip chainparams BIP34Hash options m best cache p (headers p) (blocks p) fChecked s = Ok s' -> node_inv s'.
Proof.
  intros Hi Hchk Hc. destruct (Z.eq_dec p genesis) as [->|Hne]; [by eapply connect_genesis|].
  destruct (connect_block best cache p fChecked s s' Hi Hne Hchk Hc) as (b & q & v & fs & Hb & _ & Hq & Htip & Hok & Hbest & Hof & Hwrite & Hwith).
  destruct (at_ledger _ _ Htip) as (U & HL & Hsame). destruct (connects_same _ _ _ _ _ _ _ _ U Hwith Hsame) as (u & U' & Hwith' & Hsame' & Hu).
  pose proof (ex_intro _ fs Hwith' : connects p b _ _ u _ _) as Hcon. pose proof (ledger_is_inv _ _ _ HL) as Hiq.
  assert (can_store_block_undo v) as Hst.
  { eapply connects_can_store; [exact Hwith|done|done|]. by apply (same_forall (fun _ => storable) _ U (fun _ => storable_same)), (li_storable _ _ _ Hiq). }
  apply write_undo_inv in Hwrite. split; [done| |].
  - right. exists p. split; [done|done|exists U'; split; [|done]; eapply ledger_block; eauto|]. intros h r Hr Hg.
    assert (is_Some (undo_files s' !! p) /\ forall r, is_Some (undo_files s !! r) -> is_Some (undo_files s' !! r)) as [Hup Hur].
    { destruct Hwrite as [[Hx ->]|(data & _ & _ & ->)]; [done|]. rewrite lookup_insert_eq. split; [done|]. intros r' Hr'.
      destruct (decide (p = r')) as [->|]; [by rewrite lookup_insert_eq|by rewrite lookup_insert_ne]. }
    destruct (decide (r = p)) as [->|Hrp]; [done|]. apply Hur, (at_undo _ _ Htip h); [|done].
    destruct (parent_height p b q Hb Hq) as (bq & Hbq & Eh & _ & Ha). eapply (ancestor_between m Hm); [exact Ha|exact Hr|].
    destruct (ancestor_height m Hm _ _ _ Hr) as (br & Hbr & Er). destruct Hr as (b' & Hb' & Hle & W). rewrite Hb in Hb'. injection Hb' as <-.
    destruct (Z.eq_dec h (nHeight b)) as [->|]; [|lia]. rewrite Z.sub_diag in W. by injection W.
  - intros r data Hr. destruct Hwrite as [[_ E]|(d & Hd & _ & E)]; rewrite E in Hr; [by apply (ni_undo _ Hi)|].
    destruct (decide (p = r)) as [<-|Hrp]; [|rewrite lookup_insert_ne in Hr by done; by apply (ni_undo _ Hi)].
    rewrite lookup_insert_eq in Hr. assert (d = data) as -> by congruence. exists b, q, U, (nicknameDB s), (block_undo_stored v), u, U', (nicknameDB s').
    repeat (split; [done|]). split; [by apply undo_file_roundtrip|by apply same_block_undo_stored].
Qed.

Lemma disconnect_inv p s s' : node_inv s -> Tip (chainActive s) = Some p -> DisconnectTip m (blocks p) s = Ok s' -> node_inv s'.
Proof.
  intros Hi Ht Hd. destruct (Z.eq_dec p genesis) as [->|Hne].
  - exfalso. unfold DisconnectTip in Hd. rewrite Ht in Hd. apply bind_ok in Hd as (b & Hb & Hd). apply bind_ok in Hd as (x & Hd & _).
    unfold DisconnectBlock in Hd. rewrite Hb in Hd. cbn [mbind result_bind] in Hd.
    destruct (cache_GetBestBlock _) as [v1 best]. apply reject_ok in Hd as [_ Hd]. destruct (undo_files s !! genesis); [|done]. unfold deref in Hb. destruct (m !! genesis) as [b'|] eqn:E; [|done].
    injection Hb as ->. by rewrite (fo_genesis Hfiles b E) in Hd.
  - destruct (disconnect_block p s Hi Ht Hne) as (s1 & b & q & _ & _ & Hd' & Eu & Hok & Htip). rewrite Hd in Hd'. injection Hd' as <-.
    split; [done|right; by exists q|]. rewrite Eu. apply (ni_undo _ Hi).
Qed.

Lemma same_coins_inv s c : node_inv s -> cache_ok c -> same_utxos (cache_contents c) (cache_contents (pcoinsTip s)) -> cache_best_block c = cache_best_block (pcoinsTip s) ->
  node_inv (mkChainstate c (nicknameDB s) (undo_files s) (chainActive s)).
Proof.
  intros Hi Hok Hs Eb. split; cbn [pcoinsTip undo_files]; [done| |apply (ni_undo _ Hi)].
  destruct (ni_tip _ Hi) as [(E1 & E2 & E3 & E4)|(t & [Ht1 Ht2 (U & Ht3 & Hsame) Ht4])].
  - left. split_and!; cbn; [done|congruence| |done]. apply map_empty. intros i. specialize (Hs i). rewrite E3, lookup_empty in Hs. by inversion Hs.
  - right. exists t. split; cbn [pcoinsTip undo_files chainActive nicknameDB]; [done|congruence| |done]. exists U. split; [done|by eapply same_utxos_trans].
Qed.

(** Every entry of the cache that is written can be. *)
Lemma node_can_store s : node_inv s -> map_Forall (fun _ => can_store) (cache_contents (pcoinsTip s)).
Proof.
  intros Hi. destruct (ni_tip _ Hi) as [(_ & _ & -> & _)|(t & [_ _ (U & HL & Hsame) _])]; [apply map_Forall_empty|].
  by eapply ledger_can_store, Hsame; apply ledger_is_inv.
Qed.
Lemma node_batch s : node_inv s -> batch_taken (takes B) (cacheCoins (pcoinsTip s)).
Proof.
  intros Hi txid e He _ Hp. apply takes_can_store, (node_can_store s Hi txid). rewrite cache_contents_lookup, He. cbn. by apply unspent_Some.
Qed.

Lemma flush_same c c' : cache_ok c -> batch_taken (takes B) (cacheCoins c) -> hashBlock c <> 0 -> Flush c = Ok c' ->
  cache_ok c' /\ same_utxos (cache_contents c') (cache_contents c) /\ cache_best_block c' = cache_best_block c.
Proof.
  intros Hok Hb Hn Hf. destruct (Flush_spec c Hok Hb) as (c1 & Hf1 & Hok1 & _ & Ec & _). rewrite Hf in Hf1. injection Hf1 as <-. split_and!; [done| |].
  - intros i. destruct (Ec i) as [->| ->]; [reflexivity|]. destruct (cache_contents c !! i); constructor. apply kept_same.
  - unfold Flush in Hf. apply bind_ok in Hf as (b & _ & [= <-]). unfold cache_best_block. cbn [hashBlock]. by rewrite (proj2 (Z.eqb_neq _ _)) by done.
Qed.

Lemma node_step_inv s s' : node_step s s' -> node_inv s -> node_inv s'.
Proof.
  intros [best cache p fChecked s1 s2 Hchk Hc|p s1 s2 Ht Hd|s1 c Hn Hf|s1 txid] Hi; [by eapply connect_inv|by eapply disconnect_inv|apply same_coins_inv..]; try done.
  1-3: by destruct (flush_same _ _ (ni_cache _ Hi) (node_batch _ Hi) Hn Hf) as (? & ? & ?).
  - by apply Uncache_spec, (ni_cache _ Hi).
  - rewrite (proj2 (Uncache_spec _ txid (ni_cache _ Hi))). reflexivity.
  - unfold Uncache. destruct (cacheCoins _ !! txid); [|done]. by destruct (_ && _).
Qed.

Lemma node_reachable_inv s : reachable s -> node_inv s.
Proof.
  induction 1 as [v Hv Ec Eb|s s' _ IH Hs]; [|exact (node_step_inv s s' Hs IH)]. split; cbn [pcoinsTip undo_files].
  - split; [done|apply map_Forall_empty].
  - left. split_and!; [done|done| |done]. apply map_eq. intros i. cbn [pcoinsTip]. rewrite cache_contents_lookup. cbn. by rewrite Ec, !lookup_empty.
  - intros p u. by rewrite lookup_empty.
Qed.

Lemma subsidies_issued p n : (forall h, nSubsidyHalvingInterval (GetConsensus root h) = nSubsidyHalvingInterval p) -> 0 < nSubsidyHalvingInterval p ->
  subsidies root n + GetKubuBlockSubsidy 0 p = issued p (S n).
Proof.
  intros Hi Hp. induction n as [|n IH]; [done|]. cbn [subsidies]. change (issued p (S (S n))) with (issued p (S n) + GetKubuBlockSubsidy (Z.of_nat (S n)) p).
  rewrite <- IH. rewrite (subsidy_steps _ (GetConsensus root _)) by (rewrite ?Hi; lia). rewrite Hi, (subsidy_steps (Z.of_nat (S n)) p) by lia. lia.
Qed.

(** The same coins, but for negative versions: what storing keeps of them is the
    same, and so are the coins of a transaction whose version is not negative. *)
Definition same_holdings (chain : CChain) (m1 m2 : utxos) : Prop :=
  forall txid, coins_stored <$> m1 !! txid = coins_stored <$> m2 !! txid /\
    ((forall q tx, Some q ∈ chain -> tx ∈ vtx (blocks q) -> tx_hash tx = txid -> 0 <= tx_nVersion tx) -> m1 !! txid = m2 !! txid).

Lemma chain_of_ancestor c t h q : chain_of m c t -> ancestor m t h q -> Some q ∈ c.
Proof.
  intros (b & Hb & Hl & Hc) Ha. pose proof Ha as (b' & Hb' & Hh & _). simplify_eq. destruct (Hc (Z.to_nat h)) as (r & Hr & Har); [lia|].
  rewrite Z2Nat.id in Har by lia. rewrite (ancestor_unique m _ _ _ _ Ha Har). by eapply list_elem_of_lookup_2.
Qed.
Lemma ledger_holdings c t U D m1 m2 : chain_of m c t -> ledger_inv t U D -> same_utxos m1 U -> same_utxos m2 U -> same_holdings c m1 m2.
Proof.
  intros Hc Hi H1' H2' txid. specialize (H1' txid). specialize (H2' txid). pose proof (li_coins _ _ _ Hi txid) as Hin.
  destruct H1' as [x1 x Hx1|]; inversion H2' as [x2 ? Hx2 E E'|]; subst; [|done]. split.
  - cbn. by rewrite (same_coins_stored _ _ Hx1), (same_coins_stored _ _ Hx2).
  - intros Hv. destruct (Hin x) as (tx & (h & q & Ha & Htx) & Et & Ev); [done|]. specialize (Hv q tx (chain_of_ancestor _ _ _ _ Hc Ha) Htx Et).
    rewrite Ev in Hv. by rewrite (same_coins_eq _ _ Hx1 Hv), (same_coins_eq _ _ Hx2 Hv).
Qed.

(** Two states at the same tip. *)
Lemma at_tip_same s1 s2 t : at_tip s1 t -> at_tip s2 t ->
  chainActive s1 = chainActive s2 /\ same_holdings (chainActive s1) (cache_contents (pcoinsTip s1)) (cache_contents (pcoinsTip s2)) /\
  cache_best_block (pcoinsTip s1) = cache_best_block (pcoinsTip s2) /\ nicknameDB s1 = nicknameDB s2.
Proof.
  intros [Hc1 Hb1 (U1 & HL1 & Hs1) _] [Hc2 Hb2 (U2 & HL2 & Hs2) _]. destruct (ledger_det _ _ _ _ _ HL1 HL2) as [<- E].
  split; [by eapply (chain_of_unique m)|]. split; [|by split; [congruence|]]. by eapply ledger_holdings; [| |exact Hs1|exact Hs2]; [|by apply ledger_is_inv].
Qed.

(** ** Properties *)

(** C1: the state of the node is a function of its tip.  However two nodes came
    to the same tip, by whatever sequence of connected and disconnected blocks,
    flushes to the database, evicted entries and undo records read back from
    their files, they have the same active chain, the same best block, the same
    nickname database, every table included, and the same unspent coins: equal
    for each transaction whose version is not negative, and with the same
    outputs, height and coinbase flag for the others, whose version the
    database does not keep. *)
Theorem state_follows_tip (s1 s2 : Chainstate B) : reachable s1 -> reachable s2 -> Tip (chainActive s1) = Tip (chainActive s2) ->
  chainActive s1 = chainActive s2 /\ same_holdings (chainActive s1) (cache_contents (pcoinsTip s1)) (cache_contents (pcoinsTip s2)) /\
  cache_best_block (pcoinsTip s1) = cache_best_block (pcoinsTip s2) /\ nicknameDB s1 = nicknameDB s2.
Proof.
  intros I1%node_reachable_inv%Tip_cases I2%node_reachable_inv%Tip_cases E. rewrite E in I1. destruct (Tip (chainActive s2)) as [t|]; [by eapply at_tip_same|].
  destruct I1 as (E1 & E2 & E3 & E4), I2 as (F1 & F2 & F3 & F4). split; [congruence|]. split; [|split; congruence]. rewrite E3, F3. by intros txid.
Qed.

(** C5: a reorganisation never gets stuck.  In every state a node can be in,
    the tip can be disconnected unless it is the genesis block: its undo record
    is on file, its checksum holds and it fits, the coins are clean, and the
    state is that of the parent.  So a block that was connected is undone:
    nicknames, best block and active chain are what they were, and so are the
    coins, except that the version of a transaction with a negative one may
    have been lost in the database or the undo file. *)
Theorem tip_can_be_disconnected (s : Chainstate B) (p : Z) : reachable s -> Tip (chainActive s) = Some p -> p <> genesis ->
  exists s' b, DisconnectTip m (blocks p) s = Ok s' /\ m !! p = Some b /\ Tip (chainActive s') = pprev b /\
    forall best cache fChecked s0, reachable s0 -> checked chainparams (headers p) (blocks p) fChecked ->
      ConnectTip chainparams BIP34Hash options m best cache p (headers p) (blocks p) fChecked s0 = Ok s ->
      chainActive s' = chainActive s0 /\ same_holdings (chainActive s') (cache_contents (pcoinsTip s')) (cache_contents (pcoinsTip s0)) /\
      cache_best_block (pcoinsTip s') = cache_best_block (pcoinsTip s0) /\ nicknameDB s' = nicknameDB s0.
Proof.
  intros Hr Ht Hne. destruct (disconnect_block p s (node_reachable_inv s Hr) Ht Hne) as (s' & b & q & Hb & Hq & Hd & _ & _ & Htip). exists s', b.
  split_and!; [done|done|by rewrite (Tip_chain_of m Hm _ q (at_chain _ _ Htip))|]. intros best cache fChecked s0 Hr0 Hchk Hc.
  destruct (connect_block _ _ _ _ _ _ (node_reachable_inv s0 Hr0) Hne Hchk Hc) as (b' & q' & u & fs & Hb' & _ & Hq' & Htip0 & _). simplify_eq.
  by eapply at_tip_same.
Qed.

(** C4: no coins come from nowhere.  In every state a node can be in, the
    unspent outputs are worth no more than the subsidies of the blocks above
    the genesis block; with a subsidy that is halved every 1,168,000 blocks, as
    on the main network, no more than [MAX_MONEY] for 352 million blocks. *)
Theorem no_inflation (s : Chainstate B) : reachable s ->
  total_value (cache_contents (pcoinsTip s)) <= subsidies root (Z.to_nat (Height (chainActive s))) /\
  ((forall h, nSubsidyHalvingInterval (GetConsensus root h) = 1168000) -> Height (chainActive s) < 352112000 ->
   total_value (cache_contents (pcoinsTip s)) <= MAX_MONEY).
Proof.
  intros Hr%node_reachable_inv%Tip_cases.
  assert (total_value (cache_contents (pcoinsTip s)) <= subsidies root (Z.to_nat (Height (chainActive s)))) as Hle.
  { destruct (Tip (chainActive s)) as [t|].
    - destruct Hr as [(b & Hb & L & _) _ (U & HL & Hs) _]. rewrite (same_values _ _ Hs). pose proof (li_total _ _ _ (ledger_is_inv _ _ _ HL) b Hb) as Ht. destruct (Hm t b Hb) as [Hb0 _].
      unfold Height. rewrite L. by replace (Z.to_nat (Z.of_nat (Z.to_nat (nHeight b + 1)) - 1)) with (Z.to_nat (nHeight b)) by lia.
    - destruct Hr as (-> & _ & -> & _). done. }
  split; [done|]. intros Hi Hh. set (n := Z.to_nat (Height (chainActive s))) in *.
  pose proof (subsidies_issued main_base n Hi ltac:(done)) as E. pose proof (subsidy_range 0 main_base).
  pose proof (proj2 (issued_within main_base (S n) eq_refl) ltac:(lia)). lia.
Qed.

(** C20: the coins of a node can be stored.  In every state a node can be in,
    every record of unspent outputs is written to the database without an
    assertion failing, amounts being money, scripts that are too long not being
    kept, something being unspent and the mask fitting; and it is read back as
    it was, but for a negative version, of which the low seven bits are left. *)
Theorem coins_survive_storage (s : Chainstate B) (txid : Z) (c : CCoins) (rest : bytes) : reachable s ->
  cache_contents (pcoinsTip s) !! txid = Some c ->
  exists bs v, Serialize_CCoins c = Ok bs /\ Unserialize_CCoins (bs ++ rest) = (Ok (with_version c v), rest) /\
    v = if coins_nVersion c <? 0 then Z.land (coins_nVersion c) 127 else coins_nVersion c.
Proof.
  intros Hr%node_reachable_inv Hc. destruct (coins_roundtrip c rest (node_can_store s Hr txid c Hc)) as (bs & Hs & Hu). exists bs, (stored_version (coins_nVersion c)).
  split; [done|]. split; [done|]. unfold stored_version. by rewrite (Z.land_ones _ 7).
Qed.

End Node.

(** ** Examples *)

Module TipExample.
Import BlockIndex.Example AuxPowExample.
#[local] Existing Instance RulesExample.demo_hashes.
#[local] Existing Instance RulesExample.demo_signatures.
#[local] Instance demo_address : AddressOps := base58_ops main_prefixes.
#[local] Instance demo_crypto : CryptoOps := {| Hash160 := Hash160 (CryptoOps := demo_hash); Sha256 := Sha256 (CryptoOps := demo_hash);
  secp256k1_ec_pubkey_parse := CompressorExample.demo_parse |}.
#[local] Instance demo_keys : PubKeyOps := {| secp256k1_uncompressed := secp256k1_uncompressed (PubKeyOps := CompressorExample.demo_keys) |}.
#[local] Instance demo_laws : PubKeyLaws.
Proof. constructor. exact (uncompressed_of_compressed (PubKeyLaws := CompressorExample.demo_laws)). Qed.

(** Blocks 1 (genesis), 2, 3 and a branch 13 from block 2, each with a coinbase
    of 48 coins, that of the branch with a negative version; a header's hash is
    its nonce. *)
Definition demo_block_at (p : Z) : CBlock :=
  mkBlock [mkTransaction (p + 100) (if p =? 13 then -1 else 1) [mkTxIn null_outpoint [x51; x51] 0 []] [mkTxOut (48 * COIN) [x51]] 0].
Definition demo_prev (p : Z) : Z := if p =? 13 then 2 else p - 1.
Definition demo_header_at (p : Z) : CBlockHeader := mkBlockHeader (mkHeader 1 (demo_prev p) (p + 100) (1000 + p) 0x1e0ffff0 p) None.
Definition demo_index : BlockTree := fold_left demo_add ((fun p => pure (demo_header_at p)) <$> [1; 2; 3; 13]) (mkTree ∅ None ∅).
Definition demo_net : ChainParams := mkChainParams main_root 1 [(0, 1)].
Definition demo_options : NodeOptions := mkOptions 0 0 false ∅.

Definition connect (p : Z) (s : Chainstate CCoinsViewDB) : Chainstate CCoinsViewDB :=
  match ConnectTip demo_net 0 demo_options (mapBlockIndex demo_index) None ∅ p (demo_header_at p) (demo_block_at p) false s with Ok s' => s' | Err _ => s end.
Definition disconnect (p : Z) (s : Chainstate CCoinsViewDB) : Chainstate CCoinsViewDB :=
  match DisconnectTip (mapBlockIndex demo_index) (demo_block_at p) s with Ok s' => s' | Err _ => s end.
Definition flush (s : Chainstate CCoinsViewDB) : Chainstate CCoinsViewDB :=
  match Flush (pcoinsTip s) with Ok c => mkChainstate c (nicknameDB s) (undo_files s) (chainActive s) | Err _ => s end.
Definition start : Chainstate CCoinsViewDB := mkChainstate (CCoinsViewCache_of (mkCoinsDB ∅ 0)) empty_db ∅ [].
Definition at3 : Chainstate CCoinsViewDB := connect 3 (connect 2 (connect 1 start)).

Lemma demo_files : files_ok demo_net (mapBlockIndex demo_index) demo_header_at demo_block_at.
Proof.
  split.
  - apply (bool_decide_unpack (map_Forall (fun p (_ : CBlockIndex) => header_GetHash (pure (demo_header_at p)) = p) (mapBlockIndex demo_index))). by vm_compute.
  - apply demo_add_inv. repeat (apply Forall_cons; split; [split; [by vm_compute|unfold in_u32; cbn; lia]|]). constructor.
  - by vm_compute.
  - intros b Hb. vm_compute in Hb. by injection Hb as <-.
  - apply (bool_decide_unpack (map_Forall (fun _ b => nHeight b <= height_limit) (mapBlockIndex demo_index))). by vm_compute.
  - intros p. repeat constructor. cbn. done.
  - intros p. unfold demo_block_at. cbn [vtx]. repeat constructor; cbn; destruct (p =? 13); lia.
  - intros p. apply NoDup_singleton.
  - intros p h q id _ Hne Hq%list_elem_of_singleton Hp%list_elem_of_singleton. cbn in Hp, Hq. lia.
Qed.

Notation demo_reachable := (reachable demo_net 0 demo_options (mapBlockIndex demo_index) demo_header_at demo_block_at).
Lemma start_reachable : demo_reachable start.
Proof. apply (reach_start _ _ _ _ _ _ (mkCoinsDB ∅ 0)); [apply empty_coins_db|apply empty_coins_db|done]. Qed.
Lemma connect_reachable p s : demo_reachable s -> demo_reachable (connect p s).
Proof.
  intros Hs. unfold connect. destruct (ConnectTip _ _ _ _ _ _ _ _ _ _ s) as [s'|] eqn:E; [|done].
  eapply reach_step; [exact Hs|]. eapply step_connect; [|exact E]. intros E0. discriminate E0.
Qed.
Lemma disconnect_reachable p s : Tip (chainActive s) = Some p -> demo_reachable s -> demo_reachable (disconnect p s).
Proof.
  intros Ht Hs. unfold disconnect. destruct (DisconnectTip _ _ s) as [s'|] eqn:E; [|done]. eapply reach_step; [exact Hs|]. by eapply step_disconnect.
Qed.
Lemma flush_reachable s : hashBlock (pcoinsTip s) <> 0 -> demo_reachable s -> demo_reachable (flush s).
Proof.
  intros Hn Hs. unfold flush. destruct (Flush (pcoinsTip s)) as [c|] eqn:E; [|done]. eapply reach_step; [exact Hs|]. by apply step_flush.
Qed.
Lemma at3_reachable : demo_reachable at3.
Proof. do 3 apply connect_reachable. apply start_reachable. Qed.

(** A node that was on the branch and came back, through the database and the
    undo files, agrees with one that was not. *)
Definition detour : Chainstate CCoinsViewDB := connect 3 (flush (disconnect 13 (flush (connect 13 (disconnect 3 (flush at3)))))).
Lemma state_follows_tip_witness :
  Tip (chainActive detour) = Some 3 /\ cache_contents (pcoinsTip detour) !! 103 = cache_contents (pcoinsTip at3) !! 103 /\ nicknameDB detour = nicknameDB at3.
Proof.
  assert (Tip (chainActive detour) = Some 3) as Ht by (vm_compute; reflexivity).
  assert (demo_reachable detour) as Hr.
  { apply connect_reachable, flush_reachable; [vm_compute; discriminate|]. apply disconnect_reachable; [vm_compute; reflexivity|].
    apply flush_reachable; [vm_compute; discriminate|]. apply connect_reachable, disconnect_reachable; [vm_compute; reflexivity|].
    apply flush_reachable; [vm_compute; discriminate|apply at3_reachable]. }
  destruct (state_follows_tip demo_net 0 demo_options (mapBlockIndex demo_index) demo_header_at demo_block_at demo_files detour at3 Hr at3_reachable)
    as (_ & Hc & _ & Ed); [vm_compute; reflexivity|]. split; [exact Ht|]. split; [|exact Ed]. apply (Hc 103).
  intros q tx Hq Htx _. assert (chainActive detour = [Some 1; Some 2; Some 3]) as Ech by (vm_compute; reflexivity). rewrite Ech in Hq.
  apply list_elem_of_singleton in Htx as ->.
  assert (q = 1 \/ q = 2 \/ q = 3) as Hq3 by (clear -Hq; set_solver). destruct Hq3 as [->|[->| ->]]; discriminate.
Defined.

(** On the branch, a flush loses the version of the coinbase and nothing else. *)
Example version_lost_in_flush :
  let s := connect 13 (disconnect 3 at3) in
  coins_nVersion <$> cache_contents (pcoinsTip s) !! 113 = Some (-1) /\ coins_nVersion <$> cache_contents (pcoinsTip (flush s)) !! 113 = Some 127 /\
  coins_vout <$> cache_contents (pcoinsTip s) !! 113 = coins_vout <$> cache_contents (pcoinsTip (flush s)) !! 113.
Proof. vm_compute. done. Qed.

Lemma tip_can_be_disconnected_witness : exists s', DisconnectTip (mapBlockIndex demo_index) (demo_block_at 3) at3 = Ok s' /\ Tip (chainActive s') = Some 2.
Proof.
  destruct (tip_can_be_disconnected demo_net 0 demo_options (mapBlockIndex demo_index) demo_header_at demo_block_at demo_files at3 3 at3_reachable)
    as (s' & b & Hd & Hb & Ht & _); [vm_compute; reflexivity|discriminate|]. exists s'. split; [exact Hd|].
  rewrite Ht. vm_compute in Hb. injection Hb as <-. reflexivity.
Defined.

Lemma coins_survive_storage_witness :
  exists c bs, cache_contents (pcoinsTip at3) !! 103 = Some c /\ Serialize_CCoins c = Ok bs /\ Unserialize_CCoins (bs ++ [xff]) = (Ok c, [xff]).
Proof.
  destruct (cache_contents (pcoinsTip at3) !! 103) as [c|] eqn:E; [|vm_compute in E; discriminate E].
  assert (coins_nVersion <$> cache_contents (pcoinsTip at3) !! 103 = Some 1) as Ev by (vm_compute; reflexivity). rewrite E in Ev. injection Ev as Ev.
  destruct (coins_survive_storage demo_net 0 demo_options (mapBlockIndex demo_index) demo_header_at demo_block_at demo_files at3 103 c [xff] at3_reachable E)
    as (bs & v & Hs & Hu & Hv). exists c, bs. split; [reflexivity|]. split; [exact Hs|]. rewrite Hu, Hv, Ev. destruct c. cbn in Ev |- *. by rewrite Ev.
Defined.

Lemma no_inflation_witness : total_value (cache_contents (pcoinsTip at3)) <= 96 * COIN.
Proof.
  destruct (no_inflation demo_net 0 demo_options (mapBlockIndex demo_index) demo_header_at demo_block_at demo_files at3 at3_reachable) as [Hle _].
  etransitivity; [exact Hle|]. vm_compute. discriminate.
Defined.

End TipExample.
