(* ===== verification/OwnerAuth.v ===== *)
(** * Who signs for a name

    Nickname rules and script rules together: the output that authorizes an
    operation was unspent, and the scripts of its input were checked under the
    rules of blocks.  Whether that takes a signature depends on the script. *)

From S2P Require Import Prelude Nicknames Serialize Script Base58 Money NicknameOp Arith Merkle Header BlockIndex Pow Transaction TxSerialize.
From S2P Require Import AuxPow HeaderChain VersionBits NicknameDB NicknameBatch NicknameState NicknameRules NicknameBlock NicknameChain.
From S2P Require Import DerSignature Interpreter ScriptRules SpendRules SigHash Compressor Coins CoinsSerialize CoinsCache TxVerify ConnectCoins CoinsRules CoinsSupply CoinsVersions Block ConnectBlock TipRules.
Open Scope Z_scope.
Open Scope kubu_scope.

Section Checks.
Context `{CryptoOps} `{SignatureOps} `{ScriptHashOps}.

(** The check of an input against the output it spends. *)
Definition input_check (tx : CTransaction) (nIn : nat) (o : CTxOut) (flags : Z) : CScriptCheck := mkScriptCheck (scriptPubKey o) (nValue o) tx nIn flags.

Lemma accessed_output c (m : utxos) h n o : seen (Some c) = m !! h -> available m (mkOutPoint h n) = Some o ->
  default txout_null (coins_vout c !! Z.to_nat n) = o.
Proof.
  unfold available. cbn [op_hash op_n]. intros <-. unfold seen, unspent. cbn [mbind option_bind]. destruct (IsPruned c); [done|]. cbn [mbind option_bind].
  unfold unspent_at. destruct (coins_vout c !! Z.to_nat n) as [x|]; [|done]. cbn. by destruct (txout_IsNull x); intros [= ->].
Qed.

Lemma script_checks_ok pv flags tx nIn ins m us checks : coins_run (script_checks pv flags tx nIn ins) m (Some (m, Ok checks)) ->
  Forall2 (fun i o => available m (prevout i) = Some o) ins us -> Forall (fun c => run_check c = Success tt) checks ->
  forall j o, us !! j = Some o -> run_check (input_check tx (nIn + j) o flags) = Success tt.
Proof.
  intros Hr Hall. revert nIn checks Hr. induction Hall as [|i o ins us Ho Hall IH]; intros nIn checks Hr Hc j o' Hj; [done|].
  cbn [script_checks] in Hr. apply run_access_inv in Hr as (c & Hseen & _ & Hr). cbn in Hr. destruct c as [c|]; [|by apply run_reject_inv in Hr].
  assert (CScriptCheck_of c tx nIn i flags = input_check tx nIn o flags) as E.
  { unfold CScriptCheck_of, input_check. destruct (prevout i) as [h n]. cbn [op_hash op_n] in *. by rewrite (accessed_output c m h n o). }
  rewrite E in Hr. destruct pv.
  - apply run_read_ok in Hr as (rest & Hrest & Hr); [|auto with coins]. apply run_return_inv in Hr as [= ->].
    apply Forall_cons in Hc as [Hc Hcs]. destruct j as [|j]; [injection Hj as <-; by rewrite Nat.add_0_r|].
    rewrite <- Nat.add_succ_comm. by eapply IH.
  - destruct (run_check (input_check tx nIn o flags)) as [[]|e|] eqn:Erun.
    2: { destruct (_ && _) in Hr; apply run_reject_inv in Hr; discriminate Hr. }
    2: { apply run_reject_inv in Hr. discriminate Hr. }
    destruct j as [|j]; [injection Hj as <-; by rewrite Nat.add_0_r|]. rewrite <- Nat.add_succ_comm. by eapply IH.
Qed.

(** The output an input spends: unspent on the chain, or created earlier in the
    block. *)
Definition spent_output (coins : utxos) (earlier : list CTransaction) (txin : CTxIn) (o : CTxOut) : Prop :=
  available coins (prevout txin) = Some o \/
  exists t, t ∈ earlier /\ tx_hash t = op_hash (prevout txin) /\ vout t !! Z.to_nat (op_n (prevout txin)) = Some o.

Lemma UpdateCoins_available tx h m m1 u p o : coins_run (UpdateCoins tx h) m (Some (m1, Ok u)) -> values_ok m -> available m1 p = Some o ->
  available m p = Some o \/ (tx_hash tx = op_hash p /\ vout tx !! Z.to_nat (op_n p) = Some o).
Proof.
  unfold UpdateCoins. intros (m' & us & Hs & Hr)%run_bind_ok Hm. apply run_new_inv in Hr as [[_ [= -> ->]%run_return_inv]|(_ & _ & ?)]; [|done].
  assert (available m' p = Some o -> available m p = Some o) as Hp.
  { destruct (IsCoinBase tx); [by apply run_return_inv in Hs as [= -> ->]|]. apply spend_inputs_spec in Hs as (_ & _ & _ & Hp); [apply Hp|done]. }
  unfold available at 1. rewrite set_coins_lookup. destruct (decide (op_hash p = tx_hash tx)) as [E|]; [|by left; apply Hp].
  intros Ho. right. split; [done|]. apply bind_Some in Ho as (c & [<- _]%unspent_Some & Ho). revert Ho. unfold Cleanup at 1. cbn [coins_vout with_vout].
  rewrite unspent_at_cleanup, FromTx_unspent_at. intros (o' & Ho & Hu)%bind_Some. unfold unspent_at in Ho.
  destruct (vout tx !! Z.to_nat (op_n p)) as [x|]; [|done]. cbn in Ho. destruct (txout_IsNull x); [done|]. injection Ho as ->. by destruct (IsUnspendable _).
Qed.

Context (ctx : ConnectContext).

(** Every input of a connected block was checked against the output in the
    undo record, which is the one it spends. *)
Lemma connect_txs_checked txs f s m m' r : coins_run (connect_txs ctx txs f s) m (Some (m', Ok r)) -> values_ok m ->
  Forall (fun tx => Forall (fun o => 0 <= nValue o) (vout tx)) txs -> c_fScriptChecks ctx = true ->
  Forall (fun c => run_check c = Success tt) (r.2 ≫= snd) ->
  forall k tx x j u, txs !! k = Some tx -> r.2 !! k = Some x -> IsCoinBase tx = false -> vprevout x.1.2 !! j = Some u ->
  run_check (input_check tx j (txout u) (c_flags ctx)) = Success tt /\ exists txin, vin tx !! j = Some txin /\ spent_output m (take k txs) txin (txout u).
Proof.
  revert f s m r. induction txs as [|tx txs IH]; intros f s m r Hr Hm Hv Hs Hc k t x j u Hk Hx Hcb Hj; [done|].
  apply Forall_cons in Hv as [Ht Hv]. apply connect_txs_inv in Hr as (cost & fee & m1 & un & rest & _ & _ & _ & Hfee & Hu & Hrest & ->).
  cbn [snd] in *. rewrite bind_cons in Hc. apply Forall_app in Hc as [Hc Hcs]. cbn [snd] in Hc.
  pose proof (fun p o => UpdateCoins_available tx (c_nHeight ctx) m m1 un p o Hu Hm) as Hnew.
  apply UpdateCoins_value in Hu as (Hm1 & _ & Hall & _); [|done|done]. destruct k as [|k].
  2:{ destruct (IH _ _ _ _ Hrest Hm1 Hv Hs Hcs k t x j u Hk Hx Hcb Hj) as (Hrun & txin & Hin & Hout). split; [done|]. exists txin. split; [done|]. cbn [take].
    destruct Hout as [[Ho|[Eh Ho]]%Hnew|(t' & Ht' & E & Ho)]; [by left|right; exists tx; set_solver|right; exists t'; set_solver]. }
  injection Hk as ->. injection Hx as <-. specialize (Hall Hcb). unfold check_fee in Hfee. rewrite Hcb in Hfee.
  apply run_read_ok in Hfee as (v & _ & Hfee); [|auto with coins]. destruct (GetValueOut t) as [vo|]; cbn in Hfee; [|by apply run_reject_inv in Hfee].
  apply run_read_ok in Hfee as (checks & Hchk & Hfee); [|auto with coins]. apply run_return_inv in Hfee as [= ->]. unfold CheckInputs in Hchk. rewrite Hcb, Hs in Hchk.
  apply run_read_ok in Hchk as ([] & _ & Hchk); [|auto with coins]. cbn [snd fst] in *.
  split; [|destruct (Forall2_lookup_r _ _ _ _ _ Hall Hj) as (txin & Hin & Ho); exists txin; split; [done|by left]].
  change j with (0 + j)%nat. apply (script_checks_ok _ _ _ _ _ _ (txout <$> vprevout un) _ Hchk); [by apply Forall2_fmap_r|done|]. by rewrite list_lookup_fmap, Hj.
Qed.

Lemma ConnectCoins_checked block m m' undo fees : coins_run (ConnectCoins ctx block) m (Some (m', Ok (undo, fees))) -> values_ok m ->
  Forall (fun tx => Forall (fun o => 0 <= nValue o) (vout tx)) (vtx block) -> c_fScriptChecks ctx = true ->
  forall k tx un j u, tail (vtx block) !! k = Some tx -> vtxundo undo !! k = Some un -> IsCoinBase tx = false -> vprevout un !! j = Some u ->
  run_check (input_check tx j (txout u) (c_flags ctx)) = Success tt /\
  exists txin, vin tx !! j = Some txin /\ spent_output m (take (S k) (vtx block)) txin (txout u).
Proof.
  intros (cb & txs & r & v & Ev & _ & Hc & _ & _ & Hchk & -> & _)%ConnectCoins_inv Hm Hv Hs k tx un j u Hk Hun Hcb Hj. cbn [vtxundo] in Hun.
  rewrite lookup_tail, list_lookup_fmap in Hun. destruct (r.2 !! S k) as [x|] eqn:Ex; [|done]. injection Hun as <-.
  eapply (connect_txs_checked _ _ _ _ _ _ Hc Hm Hv Hs Hchk (S k)); [|exact Ex|done|done]. by rewrite lookup_tail in Hk.
Qed.

End Checks.

(** ** Outputs that take a signature, and outputs that do not *)

Section Scripts.
Context `{CryptoOps} `{SignatureOps} `{ScriptHashOps}.

Lemma owner_script_signed flags checker key script scriptSig w : len key = 33 ->
  script = GetScriptForRawPubKey key \/ script = GetScriptForDestination (CKeyID (GetID key)) ->
  VerifyScript flags checker scriptSig script w = Success tt ->
  exists key' sig, le_bytes 20 (Hash160 key') = le_bytes 20 (Hash160 key) /\ CheckSig checker sig key' (FindAndDelete script (push_data sig)) SIGVERSION_BASE = true.
Proof.
  intros Hl Hs Hv. apply VerifyScript_success in Hv as (copy & st & _ & He & Ht & _). destruct Hs as [->| ->].
  - apply eval_p2pk in He as (sig & rest & _ & (_ & _ & Hsig) & _); [|unfold MAX_SCRIPT_ELEMENT_SIZE; lia|done]. by exists key, sig.
  - apply eval_p2pkh in He as (key' & sig & rest & _ & Hk & (_ & _ & Hsig) & _); [|apply len_le_bytes|done]. by exists key', sig.
Qed.

(** Without the witness rules, a witness program is data: whoever spends it
    need not sign. *)
Lemma eval_program flags checker h st : len h = 20 -> (length st < 900)%nat ->
  EvalScript flags checker SIGVERSION_BASE st (push_opcode OP_0 ++ push_data h) = Success (h :: [] :: st).
Proof.
  intros Hl Hst. rewrite EvalScript_from.
  2:{ rewrite len_app, len_push_data, Hl by lia. vm_compute. discriminate. }
  change (push_opcode OP_0) with (push_data []) at 1.
  rewrite eval_data by done. change (CheckMinimalPush [] (push_code [])) with true. rewrite andb_false_r. cbn [fail_if].
  unfold check_depth. cbn [stack altstack with_stack length]. rewrite (proj2 (Z.ltb_ge _ _)) by lia. cbn [fail_if].
  rewrite <- (app_nil_r (push_data h)). rewrite eval_push by (done || (unfold MAX_SCRIPT_ELEMENT_SIZE; lia) || (cbn; lia)). reflexivity.
Qed.

Lemma keyhash_not_p2sh h : len h = 20 -> IsPayToScriptHash (push_opcode OP_0 ++ push_data h) = false.
Proof. intros Hl. unfold IsPayToScriptHash. rewrite len_app, len_push_data, Hl by lia. reflexivity. Qed.

(** The script that pays to a script, on that script. *)
Lemma eval_p2sh_match flags checker script : EvalScript flags checker SIGVERSION_BASE [script] (GetScriptForDestination (CScriptID_of script)) = Success [vchTrue].
Proof.
  assert (forall m k, (length (stack m) + length (altstack m) <= 1000)%nat -> check_depth m k = k) as Hd.
  { intros m k Hm. unfold check_depth. by rewrite (proj2 (Z.ltb_ge _ _)) by lia. }
  rewrite EvalScript_from.
  2:{ cbn [CScriptID_of GetScriptForDestination]. unfold push_opcode, ToByteVector. rewrite !len_app, len_push_data, len_le_bytes by (rewrite len_le_bytes; lia). vm_compute. discriminate. }
  cbn [CScriptID_of GetScriptForDestination]. rewrite eval_opcode, exec_hash160 by done. cbn [mbind outcome_bind stack bump with_stack]. rewrite Hd by (cbn; lia).
  rewrite eval_push by (done || (unfold ToByteVector; rewrite len_le_bytes; unfold MAX_SCRIPT_ELEMENT_SIZE; lia) || (cbn; lia)).
  rewrite <- (app_nil_r (push_opcode OP_EQUAL)) at 1. rewrite eval_opcode, exec_equal by done. cbn [mbind outcome_bind stack bump with_stack].
  rewrite Hd by (cbn; lia). by rewrite bool_decide_eq_true_2.
Qed.

Lemma keyhash_unsigned flags checker h : len h = 20 -> CastToBool h = true -> flags_wf flags ->
  has flags SCRIPT_VERIFY_WITNESS = false -> VerifyScript flags checker [] (push_opcode OP_0 ++ push_data h) [] = Success tt.
Proof.
  intros Hl Hb [Hc _] Hw. unfold VerifyScript. rewrite andb_false_r. cbn [fail_if].
  change (EvalScript flags checker SIGVERSION_BASE [] []) with (Success (A := list bytes) []). cbn [mbind outcome_bind].
  rewrite eval_program by (done || (cbn; lia)). cbn [mbind outcome_bind top_is_true]. rewrite Hb. cbn [negb fail_if].
  assert (has flags SCRIPT_VERIFY_CLEANSTACK = false) as -> by (destruct (has flags SCRIPT_VERIFY_CLEANSTACK); [by rewrite Hc in Hw|done]).
  unfold run_witness. rewrite Hw. cbn [mbind outcome_bind]. by rewrite keyhash_not_p2sh, andb_false_r.
Qed.

Lemma p2sh_keyhash_unsigned flags checker h : len h = 20 -> CastToBool h = true -> flags_wf flags -> has flags SCRIPT_VERIFY_WITNESS = false ->
  let redeem := push_opcode OP_0 ++ push_data h in
  VerifyScript flags checker (push_data redeem) (GetScriptForDestination (CScriptID_of redeem)) [] = Success tt.
Proof.
  intros Hl Hb [Hc _] Hw redeem. assert (len redeem = 22) as Hr by (unfold redeem; rewrite len_app, len_push_data, Hl by lia; reflexivity).
  assert (EvalScript flags checker SIGVERSION_BASE [] (push_data redeem) = Success [redeem]) as E1.
  { rewrite EvalScript_from by (rewrite len_push_data, Hr by lia; vm_compute; discriminate).
    rewrite <- (app_nil_r (push_data redeem)) at 1. rewrite eval_push by (done || (unfold MAX_SCRIPT_ELEMENT_SIZE; lia) || (cbn; lia)). reflexivity. }
  assert (IsPushOnly (push_data redeem) = true) as Hp by (apply IsPushOnly_push; lia).
  unfold VerifyScript. rewrite Hp, andb_false_r. cbn [fail_if]. rewrite E1. cbn [mbind outcome_bind].
  rewrite eval_p2sh_match. cbn [mbind outcome_bind]. change (negb (top_is_true [vchTrue])) with false. cbn [fail_if].
  assert (has flags SCRIPT_VERIFY_CLEANSTACK = false) as -> by (destruct (has flags SCRIPT_VERIFY_CLEANSTACK); [by rewrite Hc in Hw|done]).
  unfold run_witness. rewrite Hw. cbn [mbind outcome_bind]. unfold CScriptID_of. rewrite IsPayToScriptHash_id, andb_true_r. destruct (has flags SCRIPT_VERIFY_P2SH); [|done].
  cbn [negb fail_if]. unfold redeem. rewrite eval_program by (done || (cbn; lia)). cbn [mbind outcome_bind top_is_true]. by rewrite Hb.
Qed.

End Scripts.

(** The rules of blocks never include the witness rules. *)
Lemma block_flags_no_witness root height csv prev params :
  flags_wf (block_script_flags root height csv (IsWitnessEnabled prev params)) /\
  has (block_script_flags root height csv (IsWitnessEnabled prev params)) SCRIPT_VERIFY_WITNESS = false.
Proof.
  unfold IsWitnessEnabled, block_script_flags, flags_wf. destruct (_ <=? _), (_ <=? _), (decide (csv = THRESHOLD_ACTIVE)); split_and!; vm_compute; done.
Qed.

(** ** Properties *)

Section Properties.
Context `{AddressOps} `{CryptoOps} `{PowOps} `{SignatureOps} `{ScriptHashOps} `{!PubKeyOps} `{!PubKeyLaws}.
Context (chainparams : ChainParams) (BIP34Hash : Z) (options : NodeOptions).
Context (m : BlockMap) (headers : Z -> CBlockHeader) (blocks : Z -> CBlock).
Context {B : Type} `{CCoinsViewLaws B}.

(** The input is accepted under the rules of the block, for the output it spends. *)
Definition input_accepted (flags : Z) (tx : CTransaction) (nIn : nat) (txin : CTxIn) (o : CTxOut) : Prop :=
  vin tx !! nIn = Some txin /\
  VerifyScript flags (TransactionSignatureChecker tx nIn (nValue o) (Some (precompute tx))) (scriptSig txin) (scriptPubKey o) (scriptWitness txin) = Success tt.

(** The input carries a signature by the key, or by one with the same hash, of
    this transaction. *)
Definition input_signed (tx : CTransaction) (nIn : nat) (o : CTxOut) (owner : bytes) : Prop :=
  exists key sig, le_bytes 20 (Hash160 key) = le_bytes 20 (Hash160 owner) /\
    CheckSig (TransactionSignatureChecker tx nIn (nValue o) (Some (precompute tx))) sig key (FindAndDelete (scriptPubKey o) (push_data sig)) SIGVERSION_BASE = true.

Lemma run_check_accepted tx nIn o flags : run_check (input_check tx nIn o flags) = Success tt -> exists txin, input_accepted flags tx nIn txin o.
Proof. unfold run_check. cbn [ptxTo check_nIn input_check]. destruct (vin tx !! nIn) as [i|] eqn:E; [|done]. intros Hv. by exists i. Qed.

Lemma connects_authorized p b q U D u U' D' name i : files_ok chainparams m headers blocks -> m !! p = Some b -> pprev b = Some q ->
  ledger_inv chainparams m blocks q U D -> connects_with chainparams options blocks true p b U D u U' D' ->
  records D name = Some i -> IsMutableNicknameStatus (info_GetStatus i (nHeight b)) = true -> records D' name <> Some i ->
  exists k tx op nIn txin o csv, vtx (blocks p) !! k = Some tx /\ ExtractNicknameOperationFromTx tx = Ok (Some op) /\ op_nickname op = name /\
    good_key (ownerPubKey i) /\ spent_output U (take k (vtx (blocks p))) txin o /\ scriptPubKey o ∈ owner_scripts (ownerPubKey i) /\
    input_accepted (block_script_flags (consensus_root chainparams) (nHeight b) csv false) tx nIn txin o.
Proof.
  intros Hfiles Hb Hq Hi (Hshape & ctx & fees & Eh & _ & Es & [csv Ef] & Hrun & Hn) Hrec Hmut Hne.
  destruct (ledger_fresh _ _ _ _ Hfiles p b q U D Hb Hq Hi) as (_ & Htxs & _).
  destruct (shape_facts _ _ _ _ Hfiles p Hshape) as (_ & Hv & _ & Htail).
  destruct (connect_spec _ _ _ _ _ _ _ _ (li_names _ _ _ _ _ _ Hi) Htxs Hn) as (_ & Hsteps & _).
  destruct (steps_authorized _ _ _ _ _ _ _ _ name i Hsteps Hrec Hmut Hne) as (k & tx & undo & op & Hk & Hu & Hop & Hname & Hgood & un & -> & Hlen & Hex).
  destruct k as [|k]; [done|]. change ((Some <$> vtxundo u) !! k = Some (Some un)) in Hu. rewrite list_lookup_fmap in Hu.
  destruct (vtxundo u !! k) as [un'|] eqn:Eu; [|done]. injection Hu as ->.
  apply Exists_exists in Hex as (x & Hx & Hscript). apply list_elem_of_lookup in Hx as [j Hj].
  assert (tail (vtx (blocks p)) !! k = Some tx) as Hk' by by rewrite lookup_tail.
  assert (IsCoinBase tx = false) as Hcb by (rewrite Forall_forall in Htail; apply Htail; by eapply list_elem_of_lookup_2).
  destruct (ConnectCoins_checked ctx _ _ _ _ _ Hrun (li_values _ _ _ _ _ _ Hi) Hv Es k tx un j x Hk' Eu Hcb Hj) as (Hrc & txin & Hin & Hout).
  rewrite Ef in Hrc. apply run_check_accepted in Hrc as [txin' Hacc]. assert (txin' = txin) as -> by (destruct Hacc; congruence).
  exists (S k), tx, op, j, txin, (txout x), csv. do 6 (split; [done|]). exact Hacc.
Qed.

(** C2: the owner's signature, end to end.  When a node connects a block on
    whatever chain it is and the record of a name in use changes, the block
    has a transaction with an operation on that name one of whose inputs spends
    an output locked by the owner's key, unspent in the node's coins or created
    earlier in the block, and was accepted by the script rules for that output;
    if the output pays to the key or to the key's hash, the input carries a
    signature of this transaction that verifies for a key with the owner's
    hash.  Nobody else moves, points elsewhere or gives up a name this way.
    Assumed is that scripts are checked in the block, which they are not below
    a block given as [-assumevalid] ([fScriptChecks]). *)
Theorem owner_signs (best : option Z) (cache : ThresholdConditionCache) (s s' : Chainstate B) (p : Z) (fChecked : bool) (b : CBlockIndex) (name : string) (i : NicknameInfo) :
  files_ok chainparams m headers blocks -> reachable chainparams BIP34Hash options m headers blocks s -> checked chainparams (headers p) (blocks p) fChecked ->
  ConnectTip chainparams BIP34Hash options m best cache p (headers p) (blocks p) fChecked s = Ok s' -> m !! p = Some b ->
  fScriptChecks options m best p b (GetConsensus (consensus_root chainparams) (nHeight b)) = Ok true ->
  records (nicknameDB s) name = Some i -> IsMutableNicknameStatus (info_GetStatus i (nHeight b)) = true -> records (nicknameDB s') name <> Some i ->
  exists k tx op nIn txin o csv, vtx (blocks p) !! k = Some tx /\ ExtractNicknameOperationFromTx tx = Ok (Some op) /\ op_nickname op = name /\
    spent_output (cache_contents (pcoinsTip s)) (take k (vtx (blocks p))) txin o /\ scriptPubKey o ∈ owner_scripts (ownerPubKey i) /\
    input_accepted (block_script_flags (consensus_root chainparams) (nHeight b) csv false) tx nIn txin o /\
    (scriptPubKey o = GetScriptForRawPubKey (ownerPubKey i) \/ scriptPubKey o = GetScriptForDestination (CKeyID (GetID (ownerPubKey i))) ->
     input_signed tx nIn o (ownerPubKey i)).
Proof.
  intros Hfiles Hr Hchk Hc Hb Hs Hrec Hmut Hne. pose proof (node_reachable_inv _ _ _ _ _ _ Hfiles s Hr) as Hinv.
  destruct (Z.eq_dec p (hashGenesisBlock chainparams)) as [->|Hg].
  { apply ConnectTip_parts in Hc as (? & view & files & db & view' & chain & _ & _ & Hcb & _ & _ & ->). destruct Hne. rewrite <- Hrec. f_equal.
    apply ConnectBlock_genesis in Hcb; [done|]. by apply (fo_hashes _ _ _ _ Hfiles _ b). }
  destruct (connect_block _ _ _ _ _ _ Hfiles best cache p fChecked s s' Hinv Hg Hchk Hc) as (b' & q & v & fs & Hb' & Hfs & Hq & Htip & _ & _ & _ & _ & Hwith).
  rewrite Hb in Hb'. injection Hb' as <-. rewrite Hs in Hfs. injection Hfs as <-. destruct (at_ledger _ _ _ _ _ _ Htip) as (U & HL & Hsame).
  pose proof (ledger_is_inv _ _ _ _ _ Hfiles _ _ _ HL) as Hi. destruct (connects_same _ _ _ _ _ _ _ _ _ _ _ U Hwith Hsame) as (u & U' & Hcon & _).
  destruct (connects_authorized p b q _ _ u _ _ name i Hfiles Hb Hq Hi Hcon Hrec Hmut Hne) as (k & tx & op & nIn & txin & o & csv & Htx & Hop & Hn & Hgood & Hout & Ho & Hacc).
  unfold spent_output in Hout. rewrite <- (same_available _ _ _ Hsame) in Hout.
  exists k, tx, op, nIn, txin, o, csv. do 6 (split; [done|]). intros Hkey. destruct Hacc as [_ Hv]. by eapply owner_script_signed, Hv; [apply Hgood|].
Qed.

(** C19: outputs that need no signature count as the owner's.  Witness programs
    are not enforced in blocks, yet the authorization of an operation accepts
    an output that pays to the witness program of the owner's key, or to its
    script hash.  Under the rules of any block such an output is spent without
    a signature, with any checker, so that whoever finds or makes one can
    update or release the name. *)
Theorem witness_outputs_unsigned (root : ParamsTree) (height : Z) (csv : ThresholdState) (pindexPrev : option Z) (checker : BaseSignatureChecker)
    (owner : bytes) (tx : CTransaction) (txin : CTxIn) (amount : Z) :
  good_key owner -> CastToBool (le_bytes 20 (Hash160 owner)) = true -> vin tx = [txin] ->
  let flags := block_script_flags root height csv (IsWitnessEnabled pindexPrev (GetConsensus root height)) in
  let program := GetScriptForWitness (GetScriptForDestination (CKeyID (GetID owner))) in
  let nested := GetScriptForDestination (CScriptID_of program) in
  VerifyScript flags checker [] program [] = Success tt /\ VerifyScript flags checker (push_data program) nested [] = Success tt /\
  TxHasOwnerAuthorizationInput tx (Some (mkTxUndo [CTxInUndo_of (mkTxOut amount program)])) owner = Ok tt /\
  TxHasOwnerAuthorizationInput tx (Some (mkTxUndo [CTxInUndo_of (mkTxOut amount nested)])) owner = Ok tt.
Proof.
  intros Hgood Hb Hvin flags program nested. assert (program = push_opcode OP_0 ++ push_data (le_bytes 20 (Hash160 owner))) as Ep.
  { unfold program, GetScriptForWitness. rewrite Solver_P2PKH. reflexivity. }
  assert (flags_wf flags /\ has flags SCRIPT_VERIFY_WITNESS = false) as [Hwf Hw] by apply block_flags_no_witness.
  assert (len (le_bytes 20 (Hash160 owner)) = 20) as Hl by apply len_le_bytes.
  split; [rewrite Ep; by apply keyhash_unsigned|]. split; [unfold nested; rewrite Ep; by apply p2sh_keyhash_unsigned|].
  assert (forall script, script ∈ owner_scripts owner ->
    TxHasOwnerAuthorizationInput tx (Some (mkTxUndo [CTxInUndo_of (mkTxOut amount script)])) owner = Ok tt) as Hauth.
  { intros script Hs. apply TxHasOwnerAuthorizationInput_ok. split; [exact Hgood|]. eexists. split; [reflexivity|]. split; [by rewrite Hvin|].
    apply Exists_cons_hd. exact Hs. }
  split; apply Hauth; [do 2 apply list_elem_of_further; apply list_elem_of_here|do 3 apply list_elem_of_further; apply list_elem_of_here].
Qed.

End Properties.

(** ** Examples *)

Module OwnerExample.
Import AuxPowExample.

(** A header's hash is its nonce. *)
#[export] Instance demo_crypto : CryptoOps := {|
  Hash160 := fun v => le_value v mod 2 ^ 160;
  Sha256 := fun v => if (length v =? 80)%nat then le_value (drop 76 v) else le_value v mod 2 ^ 256;
  secp256k1_ec_pubkey_parse := CompressorExample.demo_parse
|}.
#[export] Instance demo_keys : PubKeyOps := {| secp256k1_uncompressed := secp256k1_uncompressed (PubKeyOps := CompressorExample.demo_keys) |}.
#[export] Instance demo_laws : PubKeyLaws.
Proof. constructor. exact (uncompressed_of_compressed (PubKeyLaws := CompressorExample.demo_laws)). Qed.
#[export] Instance demo_address : AddressOps := base58_ops main_prefixes.
#[local] Existing Instance RulesExample.demo_hashes.
(** A library that takes every signature, or none. *)
Definition lenient (ok : bool) : SignatureOps := {|
  secp256k1_ecdsa_signature_parse_compact := fun _ => true;
  secp256k1_ecdsa_signature_normalize := fun v => (false, v);
  secp256k1_ecdsa_verify := fun _ _ _ => ok
|}.

Definition owner_id : Z := GetID demo_key.
Definition owner_program : bytes := GetScriptForWitness (GetScriptForDestination (CKeyID owner_id)).
Definition coinbase_at (p : Z) : CTransaction :=
  mkTransaction (p + 100) 1 [mkTxIn null_outpoint [x51; x51] 0 []]
    [mkTxOut (40 * COIN) [x51]; mkTxOut (4 * COIN) (GetScriptForDestination (CKeyID owner_id)); mkTxOut (2 * COIN) owner_program; mkTxOut (2 * COIN) owner_program] 0.
Definition op_script (op : NicknameOperation) : bytes := match BuildNicknameOpScript op with Ok script => script | Err _ => [] end.
(** The registration of a name by its owner. *)
Definition register_tx : CTransaction :=
  mkTransaction 203 1 [mkTxIn (mkOutPoint 102 0) [] 0 []; mkTxIn (mkOutPoint 102 2) [] 0 []]
    [mkTxOut 0 (op_script (mkOperation REGISTER "alice" demo_key (address_print (CKeyID 5)) []));
     mkTxOut (24 * COIN) (GetScriptForRawPubKey demo_key)] 0.
(** An update that spends output [n] of the coinbase of block 2. *)
Definition update_tx (txid n : Z) (sig : bytes) : CTransaction :=
  mkTransaction txid 1 [mkTxIn (mkOutPoint 102 n) sig 0 []] [mkTxOut 0 (op_script (mkOperation UPDATE "alice" [] (address_print (CKeyID 6)) []))] 0.
Definition update_sig : bytes := push_data SpendExample.demo_sig ++ push_data demo_key.
Definition block_at (p : Z) : CBlock :=
  mkBlock (coinbase_at p :: (if p =? 3 then [register_tx] else if p =? 4 then [update_tx 204 1 update_sig] else if p =? 14 then [update_tx 214 3 []] else [])).
Definition prev_at (p : Z) : Z := if p =? 14 then 3 else p - 1.
Definition header_at (p : Z) : CBlockHeader :=
  mkBlockHeader (mkHeader 1 (prev_at p) (match BlockMerkleRoot (block_at p) with Ok r => r.1 | Err _ => 0 end) (1000 + p) 0x1e0ffff0 p) None.
Definition index : BlockTree := fold_left BlockIndex.Example.demo_add ((fun p => pure (header_at p)) <$> [1; 2; 3; 4; 14]) (mkTree ∅ None ∅).
(** The first rules of the main network, without maturity. *)
Definition early_params : Params :=
  mkParams 1168000 1000 1000 1000 10640 11200 (vDeployments main_base) 0 (2 ^ 236 - 1) false false 54 54 true false 63 true true 0.
Definition net : ChainParams := mkChainParams (PNode early_params None None) 1 [(0, 1)].
Definition opts : NodeOptions := mkOptions 0 0 false ∅.

Notation connect_at ok p s := (ConnectTip (H2 := lenient ok) net 0 opts (mapBlockIndex index) None ∅ p (header_at p) (block_at p) false s).
Definition start_at : Chainstate CCoinsViewDB := mkChainstate (CCoinsViewCache_of (mkCoinsDB ∅ 0)) empty_db ∅ [].
Definition connect_all (ok : bool) (l : list Z) : result (Chainstate CCoinsViewDB) := foldl (fun s p => s ← s; connect_at ok p s) (Ok start_at) l.
Definition state_at (ok : bool) (l : list Z) : Chainstate CCoinsViewDB := match connect_all ok l with Ok s => s | Err _ => start_at end.

Lemma index_ok : tree_ok (mapBlockIndex index).
Proof. apply BlockIndex.Example.demo_add_inv. repeat (apply Forall_cons; split; [split; [by vm_compute|unfold in_u32; cbn; lia]|]). constructor. Qed.
Lemma index_blocks p b : mapBlockIndex index !! p = Some b -> p ∈ [1; 2; 3; 4; 14].
Proof.
  assert (map_Forall (fun p (_ : CBlockIndex) => p ∈ [1; 2; 3; 4; 14]) (mapBlockIndex index)) as H; [|apply H].
  apply (bool_decide_unpack _). vm_compute. exact I.
Qed.
Lemma index_ids p : p ∈ [1; 2; 3; 4; 14] -> forall q, q ∈ [1; 2; 3; 4; 14] ->
  q = p \/ forall id, id ∈ txids (block_at q) -> id ∉ txids (block_at p).
Proof.
  assert (forallb (fun p => forallb (fun q => (q =? p) || forallb (fun id => negb (bool_decide (id ∈ txids (block_at p)))) (txids (block_at q)))
    [1; 2; 3; 4; 14]) [1; 2; 3; 4; 14] = true) as H by (vm_compute; reflexivity).
  rewrite forallb_forall in H. intros Hp q Hq. apply list_elem_of_In in Hp, Hq. specialize (H p Hp). rewrite forallb_forall in H. specialize (H q Hq).
  apply orb_true_iff in H as [H|H]; [left; by apply Z.eqb_eq|right]. rewrite forallb_forall in H. intros id Hid. apply list_elem_of_In in Hid.
  specialize (H id Hid). by apply negb_true_iff, bool_decide_eq_false in H.
Qed.
Lemma files_at : files_ok net (mapBlockIndex index) header_at block_at.
Proof.
  split.
  - apply (bool_decide_unpack (map_Forall (fun p (_ : CBlockIndex) => header_GetHash (pure (header_at p)) = p) (mapBlockIndex index))). by vm_compute.
  - exact index_ok.
  - by vm_compute.
  - intros b Hb. vm_compute in Hb. by injection Hb as <-.
  - apply (bool_decide_unpack (map_Forall (fun _ b => nHeight b <= height_limit) (mapBlockIndex index))). by vm_compute.
  - intros p. unfold block_at. cbn [vtx]. constructor; [repeat constructor; done|]. repeat case_match; repeat constructor; cbn; lia.
  - intros p. unfold block_at. cbn [vtx]. repeat case_match; repeat constructor; cbn; lia.
  - intros p. unfold block_at, txids. cbn [vtx fmap list_fmap tx_hash coinbase_at]. repeat case_match; zbool; subst; by apply (bool_decide_unpack _).
  - intros p h q id Ha Hne Hq. destruct (ancestor_height _ index_ok _ _ _ Ha) as (bq & Hbq & _). destruct Ha as (bp & Hbp & _).
    pose proof (index_ids p (index_blocks p bp Hbp) q (index_blocks q bq Hbq)) as [E|Hids]; [destruct (Hne E)|exact (Hids id Hq)].
Qed.

Notation reachable_at ok := (reachable (H2 := lenient ok) net 0 opts (mapBlockIndex index) header_at block_at).
Lemma state_reachable ok l s : connect_all ok l = Ok s -> reachable_at ok s.
Proof.
  assert (forall r : result (Chainstate CCoinsViewDB), (forall s : Chainstate CCoinsViewDB, r = Ok s -> reachable_at ok s) -> forall s : Chainstate CCoinsViewDB, foldl (fun s p => s ← s; connect_at ok p s) r l = Ok s -> reachable_at ok s) as Hl.
  { induction l as [|p l IH]; intros r Hr s'; [apply Hr|]. apply IH. intros s2 (s1 & E & Hc)%bind_ok. eapply reach_step; [exact (Hr s1 E)|].
    apply (step_connect (H2 := lenient ok) net 0 opts (mapBlockIndex index) header_at block_at None ∅ p false s1 s2); [intros E0; discriminate E0|exact Hc]. }
  unfold connect_all. apply Hl. intros s0 E0. injection E0 as <-.
  apply (reach_start (H2 := lenient ok) net 0 opts (mapBlockIndex index) header_at block_at (mkCoinsDB ∅ 0)); [apply empty_coins_db|apply empty_coins_db|reflexivity].
Qed.

(** The owner updates the name, with a signature. *)
Lemma owner_signs_witness :
  exists k tx op nIn txin o csv, vtx (block_at 4) !! k = Some tx /\ ExtractNicknameOperationFromTx tx = Ok (Some op) /\ op_nickname op = "alice" /\
    spent_output (cache_contents (pcoinsTip (state_at true [1; 2; 3]))) (take k (vtx (block_at 4))) txin o /\ scriptPubKey o ∈ owner_scripts demo_key /\
    input_accepted (H2 := lenient true) (block_script_flags (consensus_root net) 3 csv false) tx nIn txin o.
Proof.
  assert (connect_all true [1; 2; 3] = Ok (state_at true [1; 2; 3])) as E3 by (vm_compute; reflexivity).
  assert (connect_at true 4 (state_at true [1; 2; 3]) = Ok (state_at true [1; 2; 3; 4])) as E4 by (vm_compute; reflexivity).
  destruct (mapBlockIndex index !! 4) as [b|] eqn:Eb; [|vm_compute in Eb; discriminate].
  assert (nHeight <$> mapBlockIndex index !! 4 = Some 3) as Eh by (vm_compute; reflexivity). rewrite Eb in Eh. injection Eh as Eh.
  destruct (records (nicknameDB (state_at true [1; 2; 3])) "alice") as [i|] eqn:Ei; [|vm_compute in Ei; discriminate].
  assert (ownerPubKey <$> records (nicknameDB (state_at true [1; 2; 3])) "alice" = Some demo_key) as Ek by (vm_compute; reflexivity). rewrite Ei in Ek. injection Ek as Ek.
  assert ((fun i => IsMutableNicknameStatus (info_GetStatus i 3)) <$> records (nicknameDB (state_at true [1; 2; 3])) "alice" = Some true) as Em by (vm_compute; reflexivity).
  rewrite Ei in Em. injection Em as Em.
  assert (lastUpdateTxid <$> records (nicknameDB (state_at true [1; 2; 3])) "alice" = Some 203) as Eo by (vm_compute; reflexivity). rewrite Ei in Eo. injection Eo as Eo.
  assert (lastUpdateTxid <$> records (nicknameDB (state_at true [1; 2; 3; 4])) "alice" = Some 204) as En by (vm_compute; reflexivity).
  destruct (owner_signs (H2 := lenient true) net 0 opts (mapBlockIndex index) header_at block_at None ∅ (state_at true [1; 2; 3]) (state_at true [1; 2; 3; 4]) 4 false b "alice" i)
    as (k & tx & op & nIn & txin & o & csv & H1 & H2 & H3 & H4 & H5 & H6 & _).
  - exact files_at.
  - exact (state_reachable true [1; 2; 3] _ E3).
  - intros E. discriminate E.
  - exact E4.
  - exact Eb.
  - reflexivity.
  - exact Ei.
  - rewrite Eh. exact Em.
  - intros E. rewrite E in En. injection En as En. rewrite Eo in En. discriminate En.
  - rewrite Ek in H5. rewrite Eh in H6. exists k, tx, op, nIn, txin, o, csv. split; [exact H1|]. split; [exact H2|]. split; [exact H3|]. split; [exact H4|]. split; [exact H5|exact H6].
Defined.

Lemma witness_outputs_unsigned_witness :
  VerifyScript (H0 := lenient false) (block_script_flags main_root 50000 THRESHOLD_FAILED false) base_checker [] owner_program [] = Success tt /\
  TxHasOwnerAuthorizationInput (update_tx 214 3 []) (Some (mkTxUndo [CTxInUndo_of (mkTxOut 1 owner_program)])) demo_key = Ok tt.
Proof.
  destruct (witness_outputs_unsigned (H2 := lenient false) main_root 50000 THRESHOLD_FAILED None base_checker demo_key (update_tx 214 3 [])
    (mkTxIn (mkOutPoint 102 3) [] 0 []) 1) as (H1 & _ & H3 & _); [split; [|split]; reflexivity|reflexivity|reflexivity|]. split; [exact H1|exact H3].
Defined.

(** With a library that takes no signature at all, the owner's update is
    refused, and another one, which pays the name to somebody else, is part of
    the chain. *)
Example unsigned_update :
  is_ok (connect_all false [1; 2; 3; 4]) = false /\
  (payoutAddress <$> records (nicknameDB (state_at false [1; 2; 3])) "alice") = Some (address_print (CKeyID 5)) /\
  (payoutAddress <$> records (nicknameDB (state_at false [1; 2; 3; 14])) "alice") = Some (address_print (CKeyID 6)).
Proof. split; [|split]; vm_compute; reflexivity. Qed.

End OwnerExample.
